(** * Entity-Component-System: a shallow embedding of the storage engine

    The development follows the C++ sources of the ECS library:
    [PrimitiveTypes.h] (fixed-width integers, FNV-1a [HashString]),
    [ECS/Common.h] (constants and the versioned entity identifier),
    [ECS/Pool.h] (the paged sparse set), [ECS/Entity.h], [ECS/System.h]
    and [ECS/Registry.h], [ECS/Registry.cpp].

    Machine integers are values of [Z] with the wrap-around written out;
    [std::vector] is a [list] indexed through [Z.to_nat]; [std::unordered_map]
    is a [gmap]; [std::set<Entity>] is the list of its elements in the order
    of [Entity::operator<].  A C++ operation that can leave the defined
    behaviour of the language (an index outside a vector, a null page, a
    failed [assert], a [std::out_of_range] thrown by [std::bitset]) returns
    an [outcome]. *)

From Stdlib Require Import ZArith Lia String Ascii.
From stdpp Require Import base numbers option list sorting gmap.

Local Open Scope Z_scope.

(** ** Outcomes of C++ operations *)

Inductive fault : Set :=
  | assertion_failed      (* assert(...) evaluated to false: abort *)
  | undefined_behaviour   (* out-of-range operator[], null page, pop_back on empty *)
  | out_of_range.         (* std::out_of_range thrown by std::bitset *)

Inductive outcome (A : Type) : Type :=
  | Done (a : A)
  | Fault (f : fault).
Arguments Done {A} a.
Arguments Fault {A} f.

#[global] Instance outcome_ret : MRet outcome := @Done.
#[global] Instance outcome_bind : MBind outcome :=
  fun A B k m => match m with Done a => k a | Fault f => Fault f end.

Definition is_Done {A} (m : outcome A) : bool :=
  match m with Done _ => true | Fault _ => false end.

(** ** PrimitiveTypes.h *)

Definition to_u32 (z : Z) : Z := z mod 2 ^ 32.
Definition to_u8 (z : Z) : Z := z mod 2 ^ 8.
(* conversion to [int] (two's complement, 32 bits) *)
Definition to_int (z : Z) : Z := (z + 2 ^ 31) mod 2 ^ 32 - 2 ^ 31.

Definition INT_MAX : Z := 2 ^ 31 - 1.

(* A [const char*]: the characters up to, and without, the first NUL. *)
Fixpoint HashString_loop (str : string) (hash : Z) : Z :=
  match str with
  | EmptyString => hash
  | String c rest =>
      if Z.of_N (N_of_ascii c) =? 0 then hash
      else
        let hash1 := Z.lxor hash (to_u8 (Z.of_N (N_of_ascii c))) in
        let hash2 := to_u32 (hash1 * 16777619) in
        HashString_loop rest hash2
  end.

Definition HashString (str : string) : Z := HashString_loop str 2166136261.

(** ** ECS/Common.h *)

Definition MAX_COMPONENTS : Z := 32.
Definition MAX_ENTITIES : Z := 1000000.
Definition DEFAULT_CAPACITY : Z := 1000.
Definition PAGE_SIZE : Z := 4096.

Abbreviation EntityID := Z (only parsing).

Definition ENTITY_INDEX_MASK : Z := 0xFFFFFFFF.
Definition ENTITY_VERSION_MASK : Z := 0xFFFFFFFF00000000.
Definition ENTITY_VERSION_SHIFT : Z := 32.

(* std::bitset<MAX_COMPONENTS>: the bits of a number below 2^32 *)
Abbreviation Signature := Z (only parsing).

Definition GetEntityIndex (id : EntityID) : Z :=
  to_u32 (Z.land id ENTITY_INDEX_MASK).
Definition GetEntityVersion (id : EntityID) : Z :=
  to_u32 (Z.shiftr (Z.land id ENTITY_VERSION_MASK) ENTITY_VERSION_SHIFT).
Definition CreateEntityId (index version : Z) : EntityID :=
  Z.lor (Z.shiftl version ENTITY_VERSION_SHIFT) index.

(* std::bitset::set(pos, value), test(pos), reset(); set and test throw
   std::out_of_range when pos is not below the width. *)
Definition Signature_set (s : Signature) (pos : Z) (value : bool) : outcome Signature :=
  if decide (0 ≤ pos < MAX_COMPONENTS)
  then Done (if value then Z.setbit s pos else Z.clearbit s pos)
  else Fault out_of_range.
Definition Signature_test (s : Signature) (pos : Z) : outcome bool :=
  if decide (0 ≤ pos < MAX_COMPONENTS) then Done (Z.testbit s pos)
  else Fault out_of_range.
Definition Signature_reset (s : Signature) : Signature := 0.

(** ** std::vector *)

Section Vector.
Context {A : Type}.

(* v[i] *)
Definition vec_at (v : list A) (i : Z) : outcome A :=
  if decide (0 ≤ i < Z.of_nat (length v))
  then match v !! Z.to_nat i with
       | Some x => Done x
       | None => Fault undefined_behaviour
       end
  else Fault undefined_behaviour.

(* v[i] = x *)
Definition vec_store (v : list A) (i : Z) (x : A) : outcome (list A) :=
  if decide (0 ≤ i < Z.of_nat (length v))
  then Done (<[Z.to_nat i := x]> v)
  else Fault undefined_behaviour.

(* v.pop_back() *)
Definition pop_back (v : list A) : outcome (list A) :=
  match v with
  | [] => Fault undefined_behaviour
  | _ => Done (take (pred (length v)) v)
  end.

(* v.resize(n, d) *)
Definition vec_resize (n : nat) (d : A) (v : list A) : list A :=
  take n v ++ replicate (n - length v)%nat d.
End Vector.

(** ** ECS/Pool.h *)

(* m_sparse: one entry per page, a null pointer or an array of PAGE_SIZE ints *)
Abbreviation Sparse := (list (option (list Z))) (only parsing).

(* m_sparse[page][offset] for the page and offset of [index] *)
Definition sparse_load (sp : Sparse) (index : Z) : outcome Z :=
  let page := index / PAGE_SIZE in
  let offset := index mod PAGE_SIZE in
  cells ← vec_at sp page;
  match cells with
  | None => Fault undefined_behaviour
  | Some c => vec_at c offset
  end.

(* m_sparse[page][offset] = v *)
Definition sparse_store (sp : Sparse) (index : Z) (v : Z) : outcome Sparse :=
  let page := index / PAGE_SIZE in
  let offset := index mod PAGE_SIZE in
  cells ← vec_at sp page;
  match cells with
  | None => Fault undefined_behaviour
  | Some c => c' ← vec_store c offset v; vec_store sp page (Some c')
  end.

(* new int[PAGE_SIZE]() followed by std::fill(..., -1) *)
Definition fresh_page : list Z := replicate (Z.to_nat PAGE_SIZE) (-1).

Section Pool.
Context {T : Type}.

Record Pool : Type := mkPool {
  m_data : list T;          (* packed index -> component *)
  m_packed : list EntityID; (* packed index -> entity id *)
  m_sparse : Sparse         (* slot index -> packed index, -1 if absent *)
}.

(* Pool::Pool() *)
Definition Pool_new : Pool :=
  {| m_data := [];
     m_packed := [];
     m_sparse := vec_resize (Z.to_nat (MAX_ENTITIES / PAGE_SIZE + 1)) None [] |}.

Definition IsEmpty (p : Pool) : bool :=
  match m_data p with [] => true | _ => false end.
Definition GetSize (p : Pool) : Z := to_int (Z.of_nat (length (m_data p))).

(* Pool::Clear *)
Definition Clear (p : Pool) : Pool :=
  {| m_data := []; m_packed := []; m_sparse := (fun _ => None) <$> m_sparse p |}.

(* Pool::Has *)
Definition Has (p : Pool) (entityId : EntityID) : bool :=
  let index := GetEntityIndex entityId in
  let page := index / PAGE_SIZE in
  let offset := index mod PAGE_SIZE in
  if decide (Z.of_nat (length (m_sparse p)) ≤ page) then false
  else
    match m_sparse p !! Z.to_nat page with
    | Some (Some c) =>
        match c !! Z.to_nat offset with
        | Some i => negb (i =? -1)
        | None => false
        end
    | _ => false
    end.

(* Pool::Add *)
Definition Add (p : Pool) (entityId : EntityID) (object : T) : outcome Pool :=
  let index := GetEntityIndex entityId in
  let page := index / PAGE_SIZE in
  let offset := index mod PAGE_SIZE in
  sparse1 ←
    (if decide (Z.of_nat (length (m_sparse p)) ≤ page)
     then
       if decide (index < MAX_ENTITIES)
       then Done (vec_resize (Z.to_nat (page + 1)) None (m_sparse p))
       else Fault assertion_failed
     else Done (m_sparse p));
  cells ← vec_at sparse1 page;
  let sparse2 :=
    match cells with
    | Some _ => sparse1
    | None => <[Z.to_nat page := Some fresh_page]> sparse1
    end in
  let data1 := m_data p ++ [object] in
  let packed1 := m_packed p ++ [entityId] in
  sparse3 ← sparse_store sparse2 index (to_int (Z.of_nat (length data1)) - 1);
  Done {| m_data := data1; m_packed := packed1; m_sparse := sparse3 |}.

(* Pool::Remove *)
Definition Remove (p : Pool) (entityId : EntityID) : outcome Pool :=
  if negb (Has p entityId) then Done p
  else
    let index := GetEntityIndex entityId in
    indexToRemove ← sparse_load (m_sparse p) index;
    let indexLast := to_int (Z.of_nat (length (m_data p))) - 1 in
    p1 ←
      (if decide (indexToRemove ≠ indexLast)
       then
         lastEntityId ← vec_at (m_packed p) indexLast;
         let lastEntityIndex := GetEntityIndex lastEntityId in
         moved ← vec_at (m_data p) indexLast;
         data1 ← vec_store (m_data p) indexToRemove moved;
         packed1 ← vec_store (m_packed p) indexToRemove lastEntityId;
         sparse1 ← sparse_store (m_sparse p) lastEntityIndex indexToRemove;
         Done {| m_data := data1; m_packed := packed1; m_sparse := sparse1 |}
       else Done p);
    data2 ← pop_back (m_data p1);
    packed2 ← pop_back (m_packed p1);
    sparse2 ← sparse_store (m_sparse p1) index (-1);
    Done {| m_data := data2; m_packed := packed2; m_sparse := sparse2 |}.

(* Pool::RemoveEntityFromPool *)
Definition RemoveEntityFromPool (p : Pool) (entityId : EntityID) : outcome Pool :=
  Remove p entityId.

(* Pool::Get *)
Definition Get (p : Pool) (entityId : EntityID) : outcome T :=
  let index := GetEntityIndex entityId in
  i ← sparse_load (m_sparse p) index;
  vec_at (m_data p) i.

(* Pool::operator[] *)
Definition Pool_subscript (p : Pool) (index : Z) : outcome T := vec_at (m_data p) index.

(* Pool::Set *)
Definition Set_ (p : Pool) (entityId : EntityID) (object : T) : outcome Pool :=
  let index := GetEntityIndex entityId in
  if Has p entityId
  then
    i ← sparse_load (m_sparse p) index;
    data1 ← vec_store (m_data p) i object;
    Done {| m_data := data1; m_packed := m_packed p; m_sparse := m_sparse p |}
  else Add p entityId object.

Definition GetData (p : Pool) : list T := m_data p.
Definition GetEntities (p : Pool) : list EntityID := m_packed p.
End Pool.
Arguments Pool : clear implicits.
Arguments mkPool {T} _ _ _.


(** ** ECS/Entity.h *)

(* A [Registry*] held by a handle: null, or the registry that issued it. *)
Inductive RegistryPtr : Set := nullptr | this.

Record Entity : Set := mkEntity {
  m_id : EntityID;
  registry : RegistryPtr
}.

Definition GetId (e : Entity) : EntityID := m_id e.

(* Entity::operator==, !=, >, < compare the ids only *)
Definition Entity_eq (a b : Entity) : bool := GetId a =? GetId b.
Definition Entity_gt (a b : Entity) : bool := GetId b <? GetId a.
Definition Entity_lt (a b : Entity) : bool := GetId a <? GetId b.

(* std::set<Entity>::insert: the elements are kept in the order of
   operator<; an element equivalent to one already present is dropped. *)
Fixpoint set_insert (e : Entity) (s : list Entity) : list Entity :=
  match s with
  | [] => [e]
  | x :: rest =>
      if Entity_lt e x then e :: x :: rest
      else if Entity_lt x e then x :: set_insert e rest
      else x :: rest
  end.

(** ** ECS/System.h *)

Record System : Set := mkSystem {
  m_componentSignature : Signature;
  m_entities : list Entity
}.

(** Modelled from the spec: System::AddEntityToSystem is defined in
    System.cpp, which is not among the sources.  The spec has the registry
    add the entity to the cached entity list of a matching system. *)
Definition AddEntityToSystem (sys : System) (entity : Entity) : System :=
  {| m_componentSignature := m_componentSignature sys;
     m_entities := m_entities sys ++ [entity] |}.

(** Modelled from the spec: System::RemoveEntityFromSystem is defined in
    System.cpp, which is not among the sources.  The spec has the entity
    removed from the list of every system on destruction. *)
Definition RemoveEntityFromSystem (sys : System) (entity : Entity) : System :=
  {| m_componentSignature := m_componentSignature sys;
     m_entities :=
       List.filter (fun other => negb (Entity_eq other entity)) (m_entities sys) |}.

(** Modelled from the spec: System::GetSystemEntities (System.cpp, not among
    the sources) returns the list of entities currently in the system. *)
Definition GetSystemEntities (sys : System) : list Entity := m_entities sys.

(** Modelled from the spec: System::GetComponentSignature (System.cpp, not
    among the sources) returns the signature the system requires. *)
Definition GetComponentSignature (sys : System) : Signature := m_componentSignature sys.

(* System::RequireComponent<T>, for the component id of T *)
Definition RequireComponent (sys : System) (componentId : Z) : outcome System :=
  sig ← Signature_set (m_componentSignature sys) componentId true;
  Done {| m_componentSignature := sig; m_entities := m_entities sys |}.

(** ** ECS/Registry.h, ECS/Registry.cpp *)

Record GroupData : Type := mkGroupData {
  entities : list Entity;
  entityToIndex : gmap Z Z
}.

Fixpoint for_each {A S : Type} (body : S → A → outcome S) (s : S) (l : list A) : outcome S :=
  match l with
  | [] => Done s
  | a :: rest => s1 ← body s a; for_each body s1 rest
  end.

Fixpoint collect {A B : Type} (body : A → outcome B) (l : list A) : outcome (list B) :=
  match l with
  | [] => Done []
  | a :: rest => b ← body a; bs ← collect body rest; Done (b :: bs)
  end.

Section Registry.
Context {T : Type}.

(* Component kinds are named by the id Component<T>::GetId() gives them
   (Component.h is not among the sources); the values of all kinds are
   taken from one type T.  System types are named by a number standing
   for their std::type_index. *)
Record Registry : Type := mkRegistry {
  m_numEntities : Z;
  m_entitiesToBeAdded : list Entity;
  m_entitiesToBeKilled : list Entity;
  m_componentPools : list (option (Pool T));
  m_entityComponentSignatures : list Signature;
  m_systems : gmap nat System;
  m_freeIndices : list Z;
  m_entityVersions : list Z;
  m_entityToTag : list Z;
  m_tagToEntity : gmap Z EntityID;
  m_groups : gmap Z GroupData;
  m_entityGroups : list (list Z)
}.

Definition Registry_new : Registry :=
  {| m_numEntities := 0;
     m_entitiesToBeAdded := [];
     m_entitiesToBeKilled := [];
     m_componentPools := [];
     m_entityComponentSignatures := [];
     m_systems := ∅;
     m_freeIndices := [];
     m_entityVersions := [];
     m_entityToTag := [];
     m_tagToEntity := ∅;
     m_groups := ∅;
     m_entityGroups := [] |}.

Definition with_numEntities (r : Registry) (n : Z) : Registry :=
  mkRegistry n (m_entitiesToBeAdded r) (m_entitiesToBeKilled r) (m_componentPools r)
    (m_entityComponentSignatures r) (m_systems r) (m_freeIndices r) (m_entityVersions r)
    (m_entityToTag r) (m_tagToEntity r) (m_groups r) (m_entityGroups r).
Definition with_entitiesToBeAdded (r : Registry) (s : list Entity) : Registry :=
  mkRegistry (m_numEntities r) s (m_entitiesToBeKilled r) (m_componentPools r)
    (m_entityComponentSignatures r) (m_systems r) (m_freeIndices r) (m_entityVersions r)
    (m_entityToTag r) (m_tagToEntity r) (m_groups r) (m_entityGroups r).
Definition with_entitiesToBeKilled (r : Registry) (s : list Entity) : Registry :=
  mkRegistry (m_numEntities r) (m_entitiesToBeAdded r) s (m_componentPools r)
    (m_entityComponentSignatures r) (m_systems r) (m_freeIndices r) (m_entityVersions r)
    (m_entityToTag r) (m_tagToEntity r) (m_groups r) (m_entityGroups r).
Definition with_componentPools (r : Registry) (ps : list (option (Pool T))) : Registry :=
  mkRegistry (m_numEntities r) (m_entitiesToBeAdded r) (m_entitiesToBeKilled r) ps
    (m_entityComponentSignatures r) (m_systems r) (m_freeIndices r) (m_entityVersions r)
    (m_entityToTag r) (m_tagToEntity r) (m_groups r) (m_entityGroups r).
Definition with_entityComponentSignatures (r : Registry) (sigs : list Signature) : Registry :=
  mkRegistry (m_numEntities r) (m_entitiesToBeAdded r) (m_entitiesToBeKilled r)
    (m_componentPools r) sigs (m_systems r) (m_freeIndices r) (m_entityVersions r)
    (m_entityToTag r) (m_tagToEntity r) (m_groups r) (m_entityGroups r).
Definition with_systems (r : Registry) (ss : gmap nat System) : Registry :=
  mkRegistry (m_numEntities r) (m_entitiesToBeAdded r) (m_entitiesToBeKilled r)
    (m_componentPools r) (m_entityComponentSignatures r) ss (m_freeIndices r)
    (m_entityVersions r) (m_entityToTag r) (m_tagToEntity r) (m_groups r) (m_entityGroups r).
Definition with_freeIndices (r : Registry) (q : list Z) : Registry :=
  mkRegistry (m_numEntities r) (m_entitiesToBeAdded r) (m_entitiesToBeKilled r)
    (m_componentPools r) (m_entityComponentSignatures r) (m_systems r) q
    (m_entityVersions r) (m_entityToTag r) (m_tagToEntity r) (m_groups r) (m_entityGroups r).
Definition with_entityVersions (r : Registry) (vs : list Z) : Registry :=
  mkRegistry (m_numEntities r) (m_entitiesToBeAdded r) (m_entitiesToBeKilled r)
    (m_componentPools r) (m_entityComponentSignatures r) (m_systems r) (m_freeIndices r)
    vs (m_entityToTag r) (m_tagToEntity r) (m_groups r) (m_entityGroups r).
Definition with_tags (r : Registry) (e2t : list Z) (t2e : gmap Z EntityID) : Registry :=
  mkRegistry (m_numEntities r) (m_entitiesToBeAdded r) (m_entitiesToBeKilled r)
    (m_componentPools r) (m_entityComponentSignatures r) (m_systems r) (m_freeIndices r)
    (m_entityVersions r) e2t t2e (m_groups r) (m_entityGroups r).
Definition with_groups (r : Registry) (gs : gmap Z GroupData) (egs : list (list Z)) : Registry :=
  mkRegistry (m_numEntities r) (m_entitiesToBeAdded r) (m_entitiesToBeKilled r)
    (m_componentPools r) (m_entityComponentSignatures r) (m_systems r) (m_freeIndices r)
    (m_entityVersions r) (m_entityToTag r) (m_tagToEntity r) gs egs.

(* Registry::IsValid *)
Definition IsValid (r : Registry) (e : Entity) : bool :=
  let index := GetEntityIndex (GetId e) in
  if decide (Z.of_nat (length (m_entityVersions r)) ≤ index) then false
  else
    match m_entityVersions r !! Z.to_nat index with
    | Some version => version =? GetEntityVersion (GetId e)
    | None => false
    end.

(* Registry::CreateEntity *)
Definition CreateEntity (r : Registry) : outcome (Entity * Registry) :=
  '(index, r1) ←
    match m_freeIndices r with
    | [] =>
        (* index = m_numEntities++ : signed overflow at INT_MAX *)
        if decide (m_numEntities r = INT_MAX) then Fault undefined_behaviour
        else
          let index := to_u32 (m_numEntities r) in
          let r0 := with_numEntities r (m_numEntities r + 1) in
          if decide (Z.of_nat (length (m_entityVersions r0)) ≤ index)
          then
            let r01 :=
              with_entityVersions r0
                (vec_resize (Z.to_nat (to_u32 (index + 1))) 0 (m_entityVersions r0)) in
            if decide (Z.of_nat (length (m_entityComponentSignatures r01)) ≤ index)
            then
              Done (index,
                    with_entityComponentSignatures r01
                      (vec_resize (Z.to_nat (to_u32 (index + 1))) 0
                         (m_entityComponentSignatures r01)))
            else Done (index, r01)
          else Done (index, r0)
    | front :: rest => Done (front, with_freeIndices r rest)
    end;
  version ← vec_at (m_entityVersions r1) index;
  let id := CreateEntityId index version in
  let entity := mkEntity id this in
  Done (entity, with_entitiesToBeAdded r1 (set_insert entity (m_entitiesToBeAdded r1))).

(* Registry::KillEntity *)
Definition KillEntity (r : Registry) (e : Entity) : Registry :=
  if negb (IsValid r e) then r
  else with_entitiesToBeKilled r (set_insert e (m_entitiesToBeKilled r)).

(* Registry::AddEntityToSystems *)
Definition AddEntityToSystems (r : Registry) (e : Entity) : outcome Registry :=
  let entityId := GetId e in
  let index := GetEntityIndex entityId in
  entityComponentSignature ← vec_at (m_entityComponentSignatures r) index;
  Done (with_systems r
          ((fun system =>
              let systemComponentSignature := GetComponentSignature system in
              let isInterested :=
                Z.land entityComponentSignature systemComponentSignature
                =? systemComponentSignature in
              if isInterested then AddEntityToSystem system e else system)
           <$> m_systems r)).

(* Registry::RemoveEntityFromSystems *)
Definition RemoveEntityFromSystems (r : Registry) (e : Entity) : Registry :=
  with_systems r ((fun system => RemoveEntityFromSystem system e) <$> m_systems r).

(* Registry::TagEntity *)
Definition TagEntity (r : Registry) (e : Entity) (tag : string) : outcome Registry :=
  let index := GetEntityIndex (GetId e) in
  let hash := HashString tag in
  let entityToTag1 :=
    if decide (Z.of_nat (length (m_entityToTag r)) ≤ index)
    then vec_resize (Z.to_nat (to_u32 (index + 1))) 0 (m_entityToTag r)
    else m_entityToTag r in
  entityToTag2 ← vec_store entityToTag1 index hash;
  Done (with_tags r entityToTag2 (<[hash := GetId e]> (m_tagToEntity r))).

(* Registry::EntityHasTag *)
Definition EntityHasTag (r : Registry) (e : Entity) (tag : string) : bool :=
  let index := GetEntityIndex (GetId e) in
  if decide (Z.of_nat (length (m_entityToTag r)) ≤ index) then false
  else
    match m_entityToTag r !! Z.to_nat index with
    | Some hash => hash =? HashString tag
    | None => false
    end.

(* Registry::GetEntityByTag *)
Definition GetEntityByTag (r : Registry) (tag : string) : Entity :=
  let hash := HashString tag in
  match m_tagToEntity r !! hash with
  | Some id => mkEntity id this
  | None => mkEntity 0 nullptr
  end.

(* Registry::RemoveEntityTag *)
Definition RemoveEntityTag (r : Registry) (e : Entity) : Registry :=
  let index := GetEntityIndex (GetId e) in
  if decide (Z.of_nat (length (m_entityToTag r)) ≤ index) then r
  else
    match m_entityToTag r !! Z.to_nat index with
    | Some hash =>
        if negb (hash =? 0)
        then with_tags r (<[Z.to_nat index := 0]> (m_entityToTag r))
                         (delete hash (m_tagToEntity r))
        else r
    | None => r
    end.

(* Registry::GroupEntity; m_groups[groupHash] creates the group when it is
   missing, also on the early return *)
Definition GroupEntity (r : Registry) (e : Entity) (groupName : string) : outcome Registry :=
  let groupHash := HashString groupName in
  let group := default (mkGroupData [] ∅) (m_groups r !! groupHash) in
  let id := GetId e in
  let index := GetEntityIndex (GetId e) in
  match entityToIndex group !! id with
  | Some _ => Done (with_groups r (<[groupHash := group]> (m_groups r)) (m_entityGroups r))
  | None =>
      let entities1 := entities group ++ [e] in
      let group1 :=
        mkGroupData entities1
          (<[id := to_int (Z.of_nat (length entities1)) - 1]> (entityToIndex group)) in
      let entityGroups1 :=
        if decide (Z.of_nat (length (m_entityGroups r)) ≤ index)
        then vec_resize (Z.to_nat (to_u32 (index + 1))) [] (m_entityGroups r)
        else m_entityGroups r in
      groupsOfEntity ← vec_at entityGroups1 index;
      entityGroups2 ← vec_store entityGroups1 index (groupsOfEntity ++ [groupHash]);
      Done (with_groups r (<[groupHash := group1]> (m_groups r)) entityGroups2)
  end.

(* Registry::EntityBelongsToGroup *)
Definition EntityBelongsToGroup (r : Registry) (e : Entity) (groupName : string) : bool :=
  match m_groups r !! HashString groupName with
  | None => false
  | Some group =>
      match entityToIndex group !! GetId e with
      | Some _ => true
      | None => false
      end
  end.

(* Registry::GetEntitiesByGroup *)
Definition GetEntitiesByGroup (r : Registry) (groupName : string) : list Entity * Registry :=
  let group := default (mkGroupData [] ∅) (m_groups r !! HashString groupName) in
  (entities group,
   with_groups r (<[HashString groupName := group]> (m_groups r)) (m_entityGroups r)).

(* the body of the loop of Registry::RemoveEntityGroup *)
Definition remove_from_group (id : EntityID) (groups : gmap Z GroupData) (groupHash : Z)
    : outcome (gmap Z GroupData) :=
  match groups !! groupHash with
  | None => Done groups
  | Some group =>
      match entityToIndex group !! id with
      | None => Done groups
      | Some indexToRemove =>
          let indexLast := to_int (Z.of_nat (length (entities group))) - 1 in
          group1 ←
            (if decide (indexToRemove ≠ indexLast)
             then
               lastEntity ← vec_at (entities group) indexLast;
               entities1 ← vec_store (entities group) indexToRemove lastEntity;
               Done (mkGroupData entities1
                       (<[GetId lastEntity := indexToRemove]> (entityToIndex group)))
             else Done group);
          entities2 ← pop_back (entities group1);
          Done (<[groupHash := mkGroupData entities2 (delete id (entityToIndex group1))]>
                  groups)
      end
  end.

(* Registry::RemoveEntityGroup *)
Definition RemoveEntityGroup (r : Registry) (e : Entity) : outcome Registry :=
  let id := GetId e in
  let index := GetEntityIndex id in
  if decide (Z.of_nat (length (m_entityGroups r)) ≤ index) then Done r
  else
    groupsOfEntity ← vec_at (m_entityGroups r) index;
    groups1 ← for_each (remove_from_group id) (m_groups r) groupsOfEntity;
    Done (with_groups r groups1 (<[Z.to_nat index := []]> (m_entityGroups r))).

(* for (auto& pool : m_componentPools) if (pool) pool->RemoveEntityFromPool(id) *)
Definition remove_from_pools (pools : list (option (Pool T))) (id : EntityID)
    : outcome (list (option (Pool T))) :=
  collect (fun pool =>
          match pool with
          | Some p => p1 ← RemoveEntityFromPool p id; Done (Some p1)
          | None => Done None
          end) pools.

(* the body of the second loop of Registry::Update *)
Definition kill_entity (r : Registry) (e : Entity) : outcome Registry :=
  if negb (IsValid r e) then Done r
  else
    let index := GetEntityIndex (GetId e) in
    let r1 := RemoveEntityFromSystems r e in
    sig ← vec_at (m_entityComponentSignatures r1) index;
    signatures1 ← vec_store (m_entityComponentSignatures r1) index (Signature_reset sig);
    let r2 := with_entityComponentSignatures r1 signatures1 in
    pools1 ← remove_from_pools (m_componentPools r2) (GetId e);
    let r3 := with_componentPools r2 pools1 in
    let r4 := RemoveEntityTag r3 e in
    r5 ← RemoveEntityGroup r4 e;
    version ← vec_at (m_entityVersions r5) index;
    versions1 ← vec_store (m_entityVersions r5) index (to_u32 (version + 1));
    let r6 := with_entityVersions r5 versions1 in
    Done (with_freeIndices r6 (m_freeIndices r6 ++ [index])).

(* Registry::Update *)
Definition Update (r : Registry) : outcome Registry :=
  r1 ← for_each AddEntityToSystems r (m_entitiesToBeAdded r);
  let r2 := with_entitiesToBeAdded r1 [] in
  r3 ← for_each kill_entity r2 (m_entitiesToBeKilled r2);
  Done (with_entitiesToBeKilled r3 []).

(* Registry::GetPool *)
Definition GetPool (r : Registry) (componentId : Z) : option (Pool T) :=
  if decide (Z.of_nat (length (m_componentPools r)) ≤ componentId) then None
  else mjoin (m_componentPools r !! Z.to_nat componentId).

(* Registry::AddComponent *)
Definition AddComponent (r : Registry) (e : Entity) (componentId : Z) (object : T)
    : outcome Registry :=
  let entityId := GetId e in
  let pools1 :=
    if decide (Z.of_nat (length (m_componentPools r)) ≤ componentId)
    then vec_resize (Z.to_nat (componentId + 1)) None (m_componentPools r)
    else m_componentPools r in
  slot ← vec_at pools1 componentId;
  let pool := default Pool_new slot in
  pool1 ← Add pool entityId object;
  pools2 ← vec_store pools1 componentId (Some pool1);
  sig ← vec_at (m_entityComponentSignatures r) entityId;
  sig1 ← Signature_set sig componentId true;
  signatures1 ← vec_store (m_entityComponentSignatures r) entityId sig1;
  Done (with_entityComponentSignatures (with_componentPools r pools2) signatures1).

(* Registry::RemoveComponent *)
Definition RemoveComponent (r : Registry) (e : Entity) (componentId : Z) : outcome Registry :=
  let entityId := GetId e in
  slot ← vec_at (m_componentPools r) componentId;
  match slot with
  | None => Fault undefined_behaviour
  | Some pool =>
      pool1 ← RemoveEntityFromPool pool entityId;
      pools1 ← vec_store (m_componentPools r) componentId (Some pool1);
      sig ← vec_at (m_entityComponentSignatures r) entityId;
      sig1 ← Signature_set sig componentId false;
      signatures1 ← vec_store (m_entityComponentSignatures r) entityId sig1;
      Done (with_entityComponentSignatures (with_componentPools r pools1) signatures1)
  end.

(* Registry::HasComponent *)
Definition HasComponent (r : Registry) (e : Entity) (componentId : Z) : outcome bool :=
  let entityId := GetId e in
  sig ← vec_at (m_entityComponentSignatures r) entityId;
  Signature_test sig componentId.

(* Registry::GetComponent *)
Definition GetComponent (r : Registry) (e : Entity) (componentId : Z) : outcome T :=
  slot ← vec_at (m_componentPools r) componentId;
  match slot with
  | None => Fault undefined_behaviour
  | Some pool => Get pool (GetId e)
  end.

(* Registry::View<Components...>(func): the calls made to func, in order,
   each with the entity id and the component read from every pool *)
Definition View (r : Registry) (Components : list Z)
    : outcome (list (EntityID * list T)) :=
  match mapM (GetPool r) Components with
  | None => Done []   (* some pool is missing: return *)
  | Some pools =>
      match pools with
      | [] => Done []
      | leaderPool :: _ =>
          for_each (fun calls entityId =>
                   let hasAll := forallb (fun p => Has p entityId) pools in
                   if hasAll
                   then args ← collect (fun p => Get p entityId) pools;
                        Done (calls ++ [(entityId, args)])
                   else Done calls)
                [] (GetEntities leaderPool)
      end
  end.

(* Registry::AddSystem, RemoveSystem, HasSystem, GetSystem for the system
   type numbered [key] *)
Definition AddSystem (r : Registry) (key : nat) (newSystem : System) : Registry :=
  match m_systems r !! key with
  | Some _ => r
  | None => with_systems r (<[key := newSystem]> (m_systems r))
  end.
Definition RemoveSystem (r : Registry) (key : nat) : outcome Registry :=
  match m_systems r !! key with
  | Some _ => Done (with_systems r (delete key (m_systems r)))
  | None => Fault undefined_behaviour
  end.
Definition HasSystem (r : Registry) (key : nat) : bool :=
  match m_systems r !! key with Some _ => true | None => false end.
Definition GetSystem (r : Registry) (key : nat) : outcome System :=
  match m_systems r !! key with
  | Some system => Done system
  | None => Fault undefined_behaviour
  end.
End Registry.
Arguments Registry : clear implicits.
Arguments Registry_new : clear implicits.

(** ** Member functions of Entity (ECS/Entity.inl, ECS/Registry.cpp) *)

Section EntityMembers.
Context {T : Type}.

(* a member function of Entity calls the registry through the pointer the
   handle holds *)
Definition through_registry {A} (e : Entity) (call : outcome A) : outcome A :=
  match registry e with
  | nullptr => Fault undefined_behaviour
  | this => call
  end.

(* Entity::Kill *)
Definition Entity_Kill (r : Registry T) (e : Entity) : outcome (Registry T) :=
  through_registry e (Done (KillEntity r e)).
(* Entity::AddComponent, RemoveComponent, HasComponent, GetComponent *)
Definition Entity_AddComponent (r : Registry T) (e : Entity) (componentId : Z) (object : T)
    : outcome (Registry T) :=
  through_registry e (AddComponent r e componentId object).
Definition Entity_RemoveComponent (r : Registry T) (e : Entity) (componentId : Z)
    : outcome (Registry T) :=
  through_registry e (RemoveComponent r e componentId).
Definition Entity_HasComponent (r : Registry T) (e : Entity) (componentId : Z) : outcome bool :=
  through_registry e (HasComponent r e componentId).
Definition Entity_GetComponent (r : Registry T) (e : Entity) (componentId : Z) : outcome T :=
  through_registry e (GetComponent r e componentId).
(* Entity::Tag, HasTag, Group, BelongsToGroup *)
Definition Entity_Tag (r : Registry T) (e : Entity) (tag : string) : outcome (Registry T) :=
  through_registry e (TagEntity r e tag).
Definition Entity_HasTag (r : Registry T) (e : Entity) (tag : string) : outcome bool :=
  through_registry e (Done (EntityHasTag r e tag)).
Definition Entity_Group (r : Registry T) (e : Entity) (groupName : string)
    : outcome (Registry T) :=
  through_registry e (GroupEntity r e groupName).
Definition Entity_BelongsToGroup (r : Registry T) (e : Entity) (groupName : string)
    : outcome bool :=
  through_registry e (Done (EntityBelongsToGroup r e groupName)).
End EntityMembers.

(** * Specification vocabulary *)

(** ** The sparse index seen as a total map from slots to cells *)

Definition SPARSE_PAGES : Z := MAX_ENTITIES / PAGE_SIZE + 1.

(* the cell of a slot; -1 when the page is missing or null *)
Definition cell_of (sp : Sparse) (index : Z) : Z :=
  match sp !! Z.to_nat (index / PAGE_SIZE) with
  | Some (Some c) => default (-1) (c !! Z.to_nat (index mod PAGE_SIZE))
  | _ => -1
  end.

(* every allocated page is an array of PAGE_SIZE ints *)
Definition pages_sized (sp : Sparse) : Prop :=
  ∀ pg c, sp !! pg = Some (Some c) → Z.of_nat (length c) = PAGE_SIZE.

Definition page_allocated (sp : Sparse) (s : Z) : Prop :=
  ∃ c, sp !! Z.to_nat (s / PAGE_SIZE) = Some (Some c).

(** ** The packing invariant of a pool *)

Section PoolVocabulary.
Context {T : Type}.
Implicit Types p : Pool T.

Record packed_inv p : Prop := {
  inv_lengths : length (m_data p) = length (m_packed p);
  inv_pages : Z.of_nat (length (m_sparse p)) = SPARSE_PAGES;
  inv_sized : pages_sized (m_sparse p);
  (* sparse[slot(dense_entity[i])] = i *)
  inv_dense : ∀ (i : nat) (id : EntityID),
    m_packed p !! i = Some id →
    cell_of (m_sparse p) (GetEntityIndex id) = Z.of_nat i;
  (* a cell other than -1 is the position of an entry of its slot *)
  inv_sparse : ∀ s : Z,
    0 ≤ s → cell_of (m_sparse p) s ≠ -1 →
    0 ≤ cell_of (m_sparse p) s ∧
    ∃ id, m_packed p !! Z.to_nat (cell_of (m_sparse p) s) = Some id ∧
          GetEntityIndex id = s
}.

(* what Add and Remove need of a pool, and keep, also when an id is added
   to a slot the pool already holds: the sparse index points at entries of
   the dense arrays, and every entry lies in an allocated page *)
Record indexed_inv p : Prop := {
  ix_lengths : length (m_data p) = length (m_packed p);
  ix_size : Z.of_nat (length (m_data p)) < 2 ^ 31;
  ix_pages : Z.of_nat (length (m_sparse p)) = SPARSE_PAGES;
  ix_sized : pages_sized (m_sparse p);
  ix_allocated : ∀ id : EntityID,
    id ∈ m_packed p → page_allocated (m_sparse p) (GetEntityIndex id);
  ix_sparse : ∀ s : Z,
    0 ≤ s → cell_of (m_sparse p) s ≠ -1 →
    0 ≤ cell_of (m_sparse p) s ∧
    ∃ id, m_packed p !! Z.to_nat (cell_of (m_sparse p) s) = Some id ∧
          GetEntityIndex id = s
}.

(* the entry stored for a slot: owning entity id and component value *)
Definition entry_of p (s : Z) : option (EntityID * T) :=
  let j := cell_of (m_sparse p) s in
  if decide (j = -1) then None
  else
    id ← m_packed p !! Z.to_nat j;
    v ← m_data p !! Z.to_nat j;
    Some (id, v).

(* dense_entity[sparse[slot(id)]] == id, for every entry of the dense arrays *)
Definition dense_roundtrip p : Prop :=
  ∀ (i : nat) (id : EntityID),
    m_packed p !! i = Some id →
    ∃ j, sparse_load (m_sparse p) (GetEntityIndex id) = Done j ∧
         vec_at (m_packed p) j = Done id.

(* the same round trip, for every id that Has reports *)
Definition present_roundtrip p : Prop :=
  ∀ id : EntityID,
    id ∈ m_packed p → Has p id = true →
    ∃ j, sparse_load (m_sparse p) (GetEntityIndex id) = Done j ∧
         vec_at (m_packed p) j = Done id.

(** Sequences of Pool::Add and Pool::Remove *)
Inductive PoolOp : Type :=
  | OpAdd (id : EntityID) (object : T)
  | OpRemove (id : EntityID).

Definition apply_op p (op : PoolOp) : outcome (Pool T) :=
  match op with
  | OpAdd id object => Add p id object
  | OpRemove id => Remove p id
  end.

Definition run_ops p (ops : list PoolOp) : outcome (Pool T) :=
  for_each apply_op p ops.

(* every Add of the sequence meets a pool that does not hold the slot of
   its id *)
Fixpoint adds_fresh p (ops : list PoolOp) : bool :=
  match ops with
  | [] => true
  | op :: rest =>
      match op with OpAdd id _ => negb (Has p id) | OpRemove _ => true end
      && match apply_op p op with
         | Done p1 => adds_fresh p1 rest
         | Fault _ => true
         end
  end.

(* the slot of some Add of the sequence lies beyond the pages of the
   sparse index *)
Definition add_beyond_pages (ops : list PoolOp) : Prop :=
  ∃ id object, OpAdd id object ∈ ops ∧ SPARSE_PAGES * PAGE_SIZE ≤ GetEntityIndex id.


(** Views over two pools *)

(* two pools hold a slot, if both hold it, under the same entity id *)
Definition pools_agree (pA pB : Pool T) : Prop :=
  ∀ idA idB : EntityID,
    idA ∈ m_packed pA → idB ∈ m_packed pB →
    GetEntityIndex idA = GetEntityIndex idB → idA = idB.

(* the call a view over the pools pA, pB makes for an id: none unless both
   pools hold the slot of the id *)
Definition pair_call (pA pB : Pool T) (id : EntityID) : option (EntityID * list T) :=
  match entry_of pA (GetEntityIndex id), entry_of pB (GetEntityIndex id) with
  | Some (_, a), Some (_, b) => Some (id, [a; b])
  | _, _ => None
  end.

(* a call of View<B, A> read as a call of View<A, B> *)
Definition swap_args (call : EntityID * list T) : EntityID * list T :=
  (call.1, reverse call.2).
End PoolVocabulary.
Arguments PoolOp : clear implicits.

(** ** Registry vocabulary *)

Section RegistryVocabulary.
Context {T : Type}.
Implicit Types r : Registry T.

(* the pool a sequence of operations builds from the empty pool *)
Definition pool_of (ops : list (PoolOp T)) : Pool T :=
  match run_ops Pool_new ops with
  | Done p => p
  | Fault _ => Pool_new
  end.

(* the slot of a handle *)
Definition slot_of (e : Entity) : Z := GetEntityIndex (GetId e).

(* the index map of a group points at entries of its entity list *)
Definition group_inv (g : GroupData) : Prop :=
  Z.of_nat (length (entities g)) < 2 ^ 31 ∧
  ∀ (id i : Z), entityToIndex g !! id = Some i →
    0 ≤ i ∧ ∃ e, entities g !! Z.to_nat i = Some e ∧ GetId e = id.

(* what Update needs of the tables it walks *)
Record tables_wf r : Prop := {
  wf_num : 0 ≤ m_numEntities r ≤ INT_MAX;
  wf_versions : Forall (fun v => 0 ≤ v < 2 ^ 32) (m_entityVersions r);
  wf_versions_length : Z.of_nat (length (m_entityVersions r)) ≤ 2 ^ 32;
  wf_signatures :
    (length (m_entityVersions r) ≤ length (m_entityComponentSignatures r))%nat;
  wf_signatures_length : Z.of_nat (length (m_entityComponentSignatures r)) ≤ 2 ^ 32;
  wf_free :
    Forall (fun i => 0 ≤ i < Z.of_nat (length (m_entityVersions r))) (m_freeIndices r);
  wf_pools : Forall (fun o => ∀ p, o = Some p → packed_inv p) (m_componentPools r);
  wf_groups : ∀ h g, m_groups r !! h = Some g → group_inv g
}.

(* the registry invariant: the tables, and the two pending sets *)
Record registry_wf r : Prop := {
  wf_tables : tables_wf r;
  wf_added :
    Forall (fun e => slot_of e < Z.of_nat (length (m_entityComponentSignatures r)))
           (m_entitiesToBeAdded r);
  wf_killed :
    Forall (fun e => IsValid r e = true ∧ 0 ≤ GetId e < 2 ^ 64) (m_entitiesToBeKilled r);
  wf_killed_sorted :
    StronglySorted (fun a b => GetId a < GetId b) (m_entitiesToBeKilled r)
}.

(* what Update needs of the tables it walks; the pools need not be packed *)
Record tables_sound r : Prop := {
  snd_num : 0 ≤ m_numEntities r ≤ INT_MAX;
  snd_versions : Forall (fun v => 0 ≤ v < 2 ^ 32) (m_entityVersions r);
  snd_versions_length : Z.of_nat (length (m_entityVersions r)) ≤ 2 ^ 32;
  snd_signatures :
    (length (m_entityVersions r) ≤ length (m_entityComponentSignatures r))%nat;
  snd_signatures_length : Z.of_nat (length (m_entityComponentSignatures r)) ≤ 2 ^ 32;
  snd_free :
    Forall (fun i => 0 ≤ i < Z.of_nat (length (m_entityVersions r))) (m_freeIndices r);
  snd_pools : Forall (fun o => ∀ p, o = Some p → indexed_inv p) (m_componentPools r);
  snd_groups : ∀ h g, m_groups r !! h = Some g → group_inv g
}.

(* the invariant of the states a client reaches: the tables, and the two
   pending sets *)
Record registry_sound r : Prop := {
  snd_tables : tables_sound r;
  snd_added :
    Forall (fun e => slot_of e < Z.of_nat (length (m_entityComponentSignatures r)))
           (m_entitiesToBeAdded r);
  snd_killed :
    Forall (fun e => IsValid r e = true ∧ 0 ≤ GetId e < 2 ^ 64) (m_entitiesToBeKilled r);
  snd_killed_sorted :
    StronglySorted (fun a b => GetId a < GetId b) (m_entitiesToBeKilled r)
}.

(* two pool tables that differ in the component values only *)
Definition same_entries (pools pools' : list (option (Pool T))) : Prop :=
  Forall2 (option_Forall2 (fun p p' : Pool T =>
             m_packed p' = m_packed p ∧ m_sparse p' = m_sparse p ∧
             length (m_data p') = length (m_data p))) pools pools'.

(* the states a client reaches from a new registry through the public
   member functions of Registry, whatever their order and arguments.
   Handles are 64-bit ids.  AddComponent and GroupEntity are called on a
   pool or a group of fewer than 2^31 - 1 entries, where (int)size() - 1
   does not overflow.  The client may write a component through the
   reference GetComponent and View return, and a system through the
   reference GetSystem returns. *)
Inductive reachable : Registry T → Prop :=
  | reach_new : reachable (Registry_new T)
  | reach_CreateEntity r e r1 :
      reachable r → CreateEntity r = Done (e, r1) → reachable r1
  | reach_KillEntity r e :
      reachable r → 0 ≤ GetId e < 2 ^ 64 → reachable (KillEntity r e)
  | reach_Update r r1 :
      reachable r → Update r = Done r1 → reachable r1
  | reach_AddComponent r e c v r1 :
      reachable r →
      (∀ p, GetPool r c = Some p → Z.of_nat (length (GetData p)) < 2 ^ 31 - 1) →
      AddComponent r e c v = Done r1 → reachable r1
  | reach_RemoveComponent r e c r1 :
      reachable r → RemoveComponent r e c = Done r1 → reachable r1
  | reach_TagEntity r e tag r1 :
      reachable r → TagEntity r e tag = Done r1 → reachable r1
  | reach_RemoveEntityTag r e :
      reachable r → reachable (RemoveEntityTag r e)
  | reach_GroupEntity r e groupName r1 :
      reachable r →
      (∀ g, m_groups r !! HashString groupName = Some g →
            Z.of_nat (length (entities g)) < 2 ^ 31 - 1) →
      GroupEntity r e groupName = Done r1 → reachable r1
  | reach_RemoveEntityGroup r e r1 :
      reachable r → RemoveEntityGroup r e = Done r1 → reachable r1
  | reach_GetEntitiesByGroup r groupName :
      reachable r → reachable (GetEntitiesByGroup r groupName).2
  | reach_AddSystem r key sys :
      reachable r → reachable (AddSystem r key sys)
  | reach_RemoveSystem r key r1 :
      reachable r → RemoveSystem r key = Done r1 → reachable r1
  | reach_write_system r key sys sys' :
      reachable r → GetSystem r key = Done sys →
      reachable (with_systems r (<[key := sys']> (m_systems r)))
  | reach_write_components r pools' :
      reachable r → same_entries (m_componentPools r) pools' →
      reachable (with_componentPools r pools').

(* n calls of KillEntity on the same handle *)
Fixpoint KillEntity_times (n : nat) r (e : Entity) : Registry T :=
  match n with
  | O => r
  | S n' => KillEntity (KillEntity_times n' r e) e
  end.

(* n calls of CreateEntity; the handles in the order of their creation *)
Fixpoint CreateEntity_times (n : nat) r : outcome (list Entity * Registry T) :=
  match n with
  | O => Done ([], r)
  | S n' =>
      '(e, r1) ← CreateEntity r;
      '(es, r2) ← CreateEntity_times n' r1;
      Done (e :: es, r2)
  end.

(* KillEntity on every handle of a list, in order *)
Definition KillEntity_each r (es : list Entity) : Registry T :=
  foldl KillEntity r es.
End RegistryVocabulary.

(** ** Group vocabulary *)

(* the list of a group and its index map describe one set of members *)
Definition group_exact (g : GroupData) : Prop :=
  group_inv g ∧
  ∀ (i : nat) (e : Entity),
    entities g !! i = Some e → entityToIndex g !! GetId e = Some (Z.of_nat i).

(* the id is a member of the group stored under the hash *)
Definition group_member (groups : gmap Z GroupData) (hash id : Z) : Prop :=
  ∃ g, groups !! hash = Some g ∧ is_Some (entityToIndex g !! id).

(** Sequences of Registry::GroupEntity and Registry::RemoveEntityGroup *)
Inductive GroupOp : Type :=
  | OpGroup (e : Entity) (groupName : string)
  | OpUngroup (e : Entity).

Definition op_handle (op : GroupOp) : Entity :=
  match op with OpGroup e _ => e | OpUngroup e => e end.

(* membership as the calls define it: a member since a GroupEntity(e, name)
   that no RemoveEntityGroup(e) has followed *)
Definition grouped_step (id hash : Z) (member : bool) (op : GroupOp) : bool :=
  match op with
  | OpGroup e groupName =>
      member || (bool_decide (GetId e = id) && bool_decide (HashString groupName = hash))
  | OpUngroup e => member && negb (bool_decide (GetId e = id))
  end.

Definition grouped (ops : list GroupOp) (id hash : Z) : bool :=
  foldl (grouped_step id hash) false ops.

(* at most one handle is used for a slot *)
Definition one_handle_per_slot (ops : list GroupOp) : Prop :=
  ∀ op1 op2, op1 ∈ ops → op2 ∈ ops →
    GetEntityIndex (GetId (op_handle op1)) = GetEntityIndex (GetId (op_handle op2)) →
    GetId (op_handle op1) = GetId (op_handle op2).

Section GroupVocabulary.
Context {T : Type}.

Definition apply_group_op (r : Registry T) (op : GroupOp) : outcome (Registry T) :=
  match op with
  | OpGroup e groupName => GroupEntity r e groupName
  | OpUngroup e => RemoveEntityGroup r e
  end.

Definition run_group_ops (r : Registry T) (ops : list GroupOp) : outcome (Registry T) :=
  for_each apply_group_op r ops.

(* the state of the groups after the calls [done] *)
Record groups_ok (done : list GroupOp) (r : Registry T) : Prop := {
  ok_exact : ∀ h g, m_groups r !! h = Some g →
    group_exact g ∧ (length (entities g) ≤ length done)%nat;
  ok_listed : ∀ h id, group_member (m_groups r) h id →
    ∃ l, m_entityGroups r !! Z.to_nat (GetEntityIndex id) = Some l ∧ h ∈ l;
  ok_member : ∀ h id, group_member (m_groups r) h id ↔ grouped done id h = true
}.
End GroupVocabulary.

(** * Proofs *)

(** ** Reasoning about outcomes and vectors *)

Lemma bind_Done {A B} (m : outcome A) (k : A → outcome B) (b : B) :
  m ≫= k = Done b ↔ ∃ a, m = Done a ∧ k a = Done b.
Proof.
  destruct m as [a|f]; simpl; split.
  - intros H. exists a. auto.
  - intros (a' & Ha & Hk). congruence.
  - discriminate.
  - intros (a' & Ha & _). discriminate.
Qed.

Lemma vec_at_Done {A} (v : list A) (i : Z) (x : A) :
  vec_at v i = Done x ↔ 0 ≤ i ∧ v !! Z.to_nat i = Some x.
Proof.
  unfold vec_at. destruct (decide (0 ≤ i < Z.of_nat (length v))) as [Hi|Hi].
  - destruct (v !! Z.to_nat i) as [y|] eqn:Hy; split.
    + intros [= ->]. split; [lia | done].
    + intros [_ [= ->]]. reflexivity.
    + discriminate.
    + intros [_ ?]. discriminate.
  - split; [discriminate|]. intros [Hi0 Hx]. apply lookup_lt_Some in Hx. lia.
Qed.

Lemma vec_store_Done {A} (v v' : list A) (i : Z) (x : A) :
  vec_store v i x = Done v' ↔
  0 ≤ i < Z.of_nat (length v) ∧ v' = <[Z.to_nat i := x]> v.
Proof.
  unfold vec_store. destruct (decide _) as [Hi|Hi]; split.
  - intros [= <-]. auto.
  - intros [_ ->]. reflexivity.
  - discriminate.
  - intros [? _]. contradiction.
Qed.

Lemma pop_back_Done {A} (v v' : list A) :
  pop_back v = Done v' ↔ v ≠ [] ∧ v' = take (pred (length v)) v.
Proof.
  destruct v as [|a v]; simpl; split.
  - discriminate.
  - intros [? _]. congruence.
  - intros [= <-]. auto.
  - intros [_ ->]. reflexivity.
Qed.

Ltac outcome_inv H :=
  repeat match type of H with
  | _ ≫= _ = Done _ =>
      let a := fresh "a" in
      let Ha := fresh "Ha" in
      apply bind_Done in H; destruct H as (a & Ha & H)
  end.

Lemma vec_at_lookup {A} (v : list A) (i : Z) (x : A) :
  0 ≤ i → v !! Z.to_nat i = Some x → vec_at v i = Done x.
Proof. intros. by apply vec_at_Done. Qed.

Lemma vec_store_lt {A} (v : list A) (i : Z) (x : A) :
  0 ≤ i < Z.of_nat (length v) → vec_store v i x = Done (<[Z.to_nat i := x]> v).
Proof. intros. by apply vec_store_Done. Qed.

(** ** The versioned index (Common.h) *)

Lemma testbit_above (i n k : Z) : 0 ≤ i < 2 ^ n → n ≤ k → Z.testbit i k = false.
Proof.
  intros Hi Hk. destruct (Z.eq_dec i 0) as [->|Hne]; [apply Z.bits_0|].
  apply Z.bits_above_log2; [lia|].
  assert (Z.log2 i < n); [|lia]. apply Z.log2_lt_pow2; lia.
Qed.

Lemma land_shifted_low (v i n : Z) : 0 ≤ n → 0 ≤ i < 2 ^ n → Z.land (v * 2 ^ n) i = 0.
Proof.
  intros Hn Hi. apply Z.bits_inj'. intros k Hk. rewrite Z.land_spec, Z.bits_0.
  destruct (Z.lt_ge_cases k n).
  - rewrite Z.mul_pow2_bits_low by lia. reflexivity.
  - rewrite (testbit_above i n k) by lia. apply andb_false_r.
Qed.

Lemma CreateEntityId_add (index version : Z) :
  0 ≤ index < 2 ^ 32 → CreateEntityId index version = version * 2 ^ 32 + index.
Proof.
  intros Hi. unfold CreateEntityId, ENTITY_VERSION_SHIFT.
  rewrite Z.shiftl_mul_pow2 by lia.
  rewrite <- Z.lxor_lor by (apply land_shifted_low; lia).
  symmetry. apply Z.add_nocarry_lxor. apply land_shifted_low; lia.
Qed.

Lemma GetEntityIndex_mod (id : EntityID) : GetEntityIndex id = id mod 2 ^ 32.
Proof.
  unfold GetEntityIndex, ENTITY_INDEX_MASK, to_u32.
  change 0xFFFFFFFF with (Z.ones 32). rewrite Z.land_ones by lia.
  apply Z.mod_mod. lia.
Qed.

Lemma GetEntityVersion_div (id : EntityID) :
  GetEntityVersion id = (id / 2 ^ 32) mod 2 ^ 32.
Proof.
  unfold GetEntityVersion, ENTITY_VERSION_MASK, ENTITY_VERSION_SHIFT, to_u32.
  change 0xFFFFFFFF00000000 with (Z.shiftl (Z.ones 32) 32).
  rewrite Z.shiftr_land, Z.shiftr_shiftl_l by lia.
  change (32 - 32) with 0. rewrite Z.shiftl_0_r.
  rewrite Z.land_ones by lia. rewrite Z.shiftr_div_pow2 by lia.
  apply Z.mod_mod. lia.
Qed.

Lemma GetEntityVersion_range (id : EntityID) : 0 ≤ GetEntityVersion id < 2 ^ 32.
Proof. rewrite GetEntityVersion_div. apply Z.mod_pos_bound. lia. Qed.

Lemma GetEntityIndex_CreateEntityId (index version : Z) :
  0 ≤ index < 2 ^ 32 → GetEntityIndex (CreateEntityId index version) = index.
Proof.
  intros Hi. rewrite GetEntityIndex_mod, CreateEntityId_add by done.
  rewrite Z.add_comm, Z.mod_add by lia. apply Z.mod_small. lia.
Qed.

Lemma GetEntityVersion_CreateEntityId (index version : Z) :
  0 ≤ index < 2 ^ 32 → 0 ≤ version < 2 ^ 32 →
  GetEntityVersion (CreateEntityId index version) = version.
Proof.
  intros Hi Hv. rewrite GetEntityVersion_div, CreateEntityId_add by done.
  rewrite Z.add_comm, Z.div_add by lia.
  rewrite (Z.div_small index) by lia. simpl. apply Z.mod_small. lia.
Qed.

Lemma CreateEntityId_range (index version : Z) :
  0 ≤ index < 2 ^ 32 → 0 ≤ version < 2 ^ 32 →
  0 ≤ CreateEntityId index version < 2 ^ 64.
Proof. intros Hi Hv. rewrite CreateEntityId_add by done. lia. Qed.

(* an id of 64 bits is given by its index and its version *)
Lemma EntityID_parts (id id' : EntityID) :
  0 ≤ id < 2 ^ 64 → 0 ≤ id' < 2 ^ 64 →
  GetEntityIndex id = GetEntityIndex id' →
  GetEntityVersion id = GetEntityVersion id' → id = id'.
Proof.
  rewrite !GetEntityIndex_mod, !GetEntityVersion_div. intros H H' Hi Hv.
  rewrite (Z.mod_small (id / 2 ^ 32)) in Hv
    by (split; [apply Z.div_pos; lia | apply Z.div_lt_upper_bound; lia]).
  rewrite (Z.mod_small (id' / 2 ^ 32)) in Hv
    by (split; [apply Z.div_pos; lia | apply Z.div_lt_upper_bound; lia]).
  rewrite (Z.div_mod id (2 ^ 32)), (Z.div_mod id' (2 ^ 32)) by lia. congruence.
Qed.

Lemma to_u32_bump_ne (v : Z) : 0 ≤ v < 2 ^ 32 → to_u32 (v + 1) ≠ v.
Proof.
  intros Hv. unfold to_u32. destruct (decide (v + 1 < 2 ^ 32)).
  - rewrite Z.mod_small by lia. lia.
  - assert (v + 1 = 2 ^ 32) as -> by lia. rewrite Z.mod_same by lia. lia.
Qed.

Lemma to_u32_range (z : Z) : 0 ≤ to_u32 z < 2 ^ 32.
Proof. apply Z.mod_pos_bound. lia. Qed.

(** ** The sparse index seen as a total map from slots to cells *)



Lemma slot_split (s s' : Z) :
  0 ≤ s → 0 ≤ s' → s ≠ s' →
  Z.to_nat (s / PAGE_SIZE) ≠ Z.to_nat (s' / PAGE_SIZE) ∨
  Z.to_nat (s mod PAGE_SIZE) ≠ Z.to_nat (s' mod PAGE_SIZE).
Proof.
  unfold PAGE_SIZE. intros Hs Hs' Hne.
  pose proof (Z.div_mod s 4096 ltac:(lia)) as Es.
  pose proof (Z.div_mod s' 4096 ltac:(lia)) as Es'.
  pose proof (Z.mod_pos_bound s 4096 ltac:(lia)).
  pose proof (Z.mod_pos_bound s' 4096 ltac:(lia)).
  pose proof (Z.div_pos s 4096 Hs ltac:(lia)).
  pose proof (Z.div_pos s' 4096 Hs' ltac:(lia)).
  assert (s / 4096 ≠ s' / 4096 ∨ s mod 4096 ≠ s' mod 4096) as [Hd|Hd] by lia.
  - left. intros Heq. apply Hd. apply Z2Nat.inj in Heq; lia.
  - right. intros Heq. apply Hd. apply Z2Nat.inj in Heq; lia.
Qed.

Lemma offset_range (s : Z) : 0 ≤ s mod PAGE_SIZE < PAGE_SIZE.
Proof. apply Z.mod_pos_bound. reflexivity. Qed.

Lemma page_nonneg (s : Z) : 0 ≤ s → 0 ≤ s / PAGE_SIZE.
Proof. intros. apply Z.div_pos; [done | reflexivity]. Qed.

Lemma sparse_load_Done (sp : Sparse) (s j : Z) :
  sparse_load sp s = Done j ↔
  0 ≤ s / PAGE_SIZE ∧
  ∃ c, sp !! Z.to_nat (s / PAGE_SIZE) = Some (Some c) ∧
       c !! Z.to_nat (s mod PAGE_SIZE) = Some j.
Proof.
  unfold sparse_load. rewrite bind_Done. split.
  - intros ([c|] & Hp & Hc); [|discriminate].
    apply vec_at_Done in Hp as [? ?]. apply vec_at_Done in Hc as [? ?]. eauto.
  - intros (Hpg & c & Hp & Hc). exists (Some c). split.
    + apply vec_at_Done. auto.
    + apply vec_at_Done. split; [apply offset_range | done].
Qed.

Lemma sparse_load_cell (sp : Sparse) (s j : Z) :
  sparse_load sp s = Done j → cell_of sp s = j.
Proof.
  intros (_ & c & Hp & Hc)%sparse_load_Done. unfold cell_of. by rewrite Hp, Hc.
Qed.

Lemma cell_sparse_load (sp : Sparse) (s : Z) :
  0 ≤ s → cell_of sp s ≠ -1 → sparse_load sp s = Done (cell_of sp s).
Proof.
  intros Hs Hc. apply sparse_load_Done. split; [by apply page_nonneg|].
  unfold cell_of in *.
  destruct (sp !! Z.to_nat (s / PAGE_SIZE)) as [[c|]|]; try done.
  exists c. split; [done|].
  destruct (c !! Z.to_nat (s mod PAGE_SIZE)); done.
Qed.

Lemma sparse_store_Done (sp sp' : Sparse) (s v : Z) :
  sparse_store sp s v = Done sp' ↔
  0 ≤ s / PAGE_SIZE ∧
  ∃ c, sp !! Z.to_nat (s / PAGE_SIZE) = Some (Some c) ∧
       s mod PAGE_SIZE < Z.of_nat (length c) ∧
       sp' = <[Z.to_nat (s / PAGE_SIZE) := Some (<[Z.to_nat (s mod PAGE_SIZE) := v]> c)]> sp.
Proof.
  unfold sparse_store. rewrite bind_Done. split.
  - intros ([c|] & Hp & Hc); [|discriminate].
    apply vec_at_Done in Hp as [? ?].
    apply bind_Done in Hc as (c' & Hc' & Hs).
    apply vec_store_Done in Hc' as [? ->]. apply vec_store_Done in Hs as [? ->].
    split; [done|]. exists c. split_and!; [done|lia|done].
  - intros (Hpg & c & Hp & Hlen & ->). exists (Some c). split.
    + apply vec_at_Done. auto.
    + apply bind_Done. eexists. split.
      * apply vec_store_Done. split; [|reflexivity]. pose proof (offset_range s). lia.
      * apply vec_store_Done. split; [|reflexivity].
        apply lookup_lt_Some in Hp. lia.
Qed.

Lemma cell_of_store (sp sp' : Sparse) (s s' v : Z) :
  0 ≤ s → 0 ≤ s' →
  sparse_store sp s v = Done sp' →
  cell_of sp' s' = if decide (s = s') then v else cell_of sp s'.
Proof.
  intros Hs Hs' (Hpg & c & Hp & Hlen & ->)%sparse_store_Done.
  pose proof (offset_range s) as Hoff.
  assert (Z.to_nat (s / PAGE_SIZE) < length sp)%nat as Hlt
    by (by eapply lookup_lt_Some).
  unfold cell_of. destruct (decide (s = s')) as [<-|Hne].
  - rewrite list_lookup_insert_eq by done.
    rewrite list_lookup_insert_eq by lia. done.
  - destruct (decide (Z.to_nat (s / PAGE_SIZE) = Z.to_nat (s' / PAGE_SIZE))) as [Heq|Hpne].
    + rewrite <- Heq. rewrite list_lookup_insert_eq by done. rewrite Hp.
      rewrite list_lookup_insert_ne; [done|].
      destruct (slot_split s s') as [?|?]; done.
    + rewrite list_lookup_insert_ne by done. done.
Qed.

Lemma pages_sized_store (sp sp' : Sparse) (s v : Z) :
  pages_sized sp → sparse_store sp s v = Done sp' → pages_sized sp'.
Proof.
  intros Hwf (Hpg & c & Hp & Hlen & ->)%sparse_store_Done pg c' Hc'.
  destruct (decide (pg = Z.to_nat (s / PAGE_SIZE))) as [->|Hne].
  - rewrite list_lookup_insert_eq in Hc' by (by eapply lookup_lt_Some).
    injection Hc' as <-. rewrite length_insert. eauto.
  - rewrite list_lookup_insert_ne in Hc' by done. eauto.
Qed.

Lemma length_sparse_store (sp sp' : Sparse) (s v : Z) :
  sparse_store sp s v = Done sp' → length sp' = length sp.
Proof.
  intros (Hpg & c & Hp & Hlen & ->)%sparse_store_Done. by rewrite length_insert.
Qed.

Lemma sparse_store_total (sp : Sparse) (s v : Z) :
  0 ≤ s → pages_sized sp →
  is_Some (sp !! Z.to_nat (s / PAGE_SIZE) ≫= id) →
  ∃ sp', sparse_store sp s v = Done sp'.
Proof.
  intros Hs Hwf [c Hc]. eexists. apply sparse_store_Done.
  split; [by apply page_nonneg|]. exists c.
  destruct (sp !! Z.to_nat (s / PAGE_SIZE)) as [[c'|]|] eqn:Hp; simplify_eq/=.
  split_and!; [done| |done].
  apply Hwf in Hp. pose proof (offset_range s). lia.
Qed.

Lemma to_int_small (z : Z) : 0 ≤ z < 2 ^ 31 → to_int z = z.
Proof.
  intros Hz. unfold to_int. rewrite Z.mod_small; lia.
Qed.

Lemma GetEntityIndex_range (id : EntityID) : 0 ≤ GetEntityIndex id < 2 ^ 32.
Proof. unfold GetEntityIndex, to_u32. apply Z.mod_pos_bound. reflexivity. Qed.

(* allocating a page filled with -1 where the pointer was null *)
Lemma length_fresh_page : Z.of_nat (length fresh_page) = PAGE_SIZE.
Proof. unfold fresh_page. rewrite length_replicate. by rewrite Z2Nat.id. Qed.

Lemma lookup_fresh_page (i : nat) (x : Z) : fresh_page !! i = Some x → x = -1.
Proof. unfold fresh_page. by intros [-> _]%lookup_replicate. Qed.

#[global] Opaque fresh_page.

Lemma cell_of_new_page (sp : Sparse) (pg : nat) (s : Z) :
  sp !! pg = Some None →
  cell_of (<[pg := Some fresh_page]> sp) s = cell_of sp s.
Proof.
  intros Hnull. unfold cell_of.
  destruct (decide (pg = Z.to_nat (s / PAGE_SIZE))) as [->|Hne].
  - rewrite list_lookup_insert_eq by (by eapply lookup_lt_Some). rewrite Hnull.
    destruct (fresh_page !! _) as [x|] eqn:Hx; [|done].
    by apply lookup_fresh_page in Hx as ->.
  - by rewrite list_lookup_insert_ne.
Qed.

Lemma pages_sized_new_page (sp : Sparse) (pg : nat) :
  pages_sized sp → pages_sized (<[pg := Some fresh_page]> sp).
Proof.
  intros Hwf pg' c Hc.
  destruct (decide (pg = pg')) as [->|Hne].
  - destruct (decide (pg' < length sp)%nat).
    + rewrite list_lookup_insert_eq in Hc by done.
      assert (c = fresh_page) as -> by congruence.
      apply length_fresh_page.
    + rewrite list_insert_ge in Hc by lia. eauto.
  - rewrite list_lookup_insert_ne in Hc by done. eauto.
Qed.

(** ** The packing invariant of a pool *)

Section PoolInvariant.
Context {T : Type}.
Implicit Types p : Pool T.

Lemma Has_cell p id :
  Has p id = negb (cell_of (m_sparse p) (GetEntityIndex id) =? -1).
Proof.
  unfold Has, cell_of. cbv zeta.
  destruct (decide _) as [Hge|Hlt].
  - rewrite lookup_ge_None_2; [done|].
    pose proof (GetEntityIndex_range id).
    pose proof (page_nonneg (GetEntityIndex id) ltac:(lia)). lia.
  - destruct (m_sparse p !! _) as [[c|]|]; [|done..].
    by destruct (c !! _).
Qed.

Lemma Has_true p id : Has p id = true ↔ cell_of (m_sparse p) (GetEntityIndex id) ≠ -1.
Proof.
  rewrite Has_cell.
  by destruct (Z.eqb_spec (cell_of (m_sparse p) (GetEntityIndex id)) (-1)).
Qed.

Lemma Has_false p id : Has p id = false ↔ cell_of (m_sparse p) (GetEntityIndex id) = -1.
Proof.
  rewrite Has_cell.
  by destruct (Z.eqb_spec (cell_of (m_sparse p) (GetEntityIndex id)) (-1)).
Qed.


Lemma cell_in_pages (sp : Sparse) (s : Z) :
  0 ≤ s → cell_of sp s ≠ -1 → s < Z.of_nat (length sp) * PAGE_SIZE.
Proof.
  intros Hs Hc. unfold cell_of in Hc.
  destruct (sp !! Z.to_nat (s / PAGE_SIZE)) as [o|] eqn:Hp; [|done].
  apply lookup_lt_Some in Hp.
  pose proof (page_nonneg s Hs). pose proof (offset_range s).
  pose proof (Z.div_mod s PAGE_SIZE ltac:(done)).
  assert (s / PAGE_SIZE + 1 ≤ Z.of_nat (length sp)) by lia.
  unfold PAGE_SIZE in *. nia.
Qed.

Lemma packed_inv_NoDup p :
  packed_inv p → NoDup (GetEntityIndex <$> m_packed p).
Proof.
  intros Hinv. apply NoDup_alt. intros i j s Hi Hj.
  rewrite list_lookup_fmap in Hi, Hj.
  apply fmap_Some in Hi as (a & Ha & ->). apply fmap_Some in Hj as (b & Hb & Hab).
  apply (inv_dense p Hinv) in Ha, Hb. rewrite Hab in Ha. lia.
Qed.

Lemma packed_inv_bound p :
  packed_inv p → Z.of_nat (length (m_packed p)) ≤ SPARSE_PAGES * PAGE_SIZE.
Proof.
  intros Hinv.
  assert (GetEntityIndex <$> m_packed p ⊆+ seqZ 0 (SPARSE_PAGES * PAGE_SIZE)) as Hsub.
  { apply NoDup_submseteq; [by apply packed_inv_NoDup|].
    intros s (id & -> & Hid)%list_elem_of_fmap.
    apply list_elem_of_lookup in Hid as [i Hi].
    apply elem_of_seqZ. pose proof (GetEntityIndex_range id).
    apply (inv_dense p Hinv) in Hi.
    rewrite <- (inv_pages p Hinv).
    split; [lia|]. apply cell_in_pages; lia. }
  apply submseteq_length in Hsub.
  rewrite length_fmap, length_seqZ in Hsub.
  assert (0 ≤ SPARSE_PAGES * PAGE_SIZE) by done. lia.
Qed.

Lemma Pool_new_sparse :
  m_sparse (@Pool_new T) = replicate (Z.to_nat SPARSE_PAGES) None.
Proof. reflexivity. Qed.

Lemma Pool_new_cell (s : Z) : cell_of (m_sparse (@Pool_new T)) s = -1.
Proof.
  unfold cell_of. rewrite Pool_new_sparse.
  destruct (replicate _ _ !! _) as [o|] eqn:Ho; [|done].
  by apply lookup_replicate in Ho as [-> _].
Qed.

Lemma Pool_new_inv : packed_inv (@Pool_new T).
Proof.
  pose proof Pool_new_cell as Hcell.
  split.
  - done.
  - rewrite Pool_new_sparse, length_replicate. by rewrite Z2Nat.id.
  - intros pg c Hc. rewrite Pool_new_sparse in Hc.
    by apply lookup_replicate in Hc as [? _].
  - intros i id Hi. done.
  - intros s _ Hs. by rewrite Hcell in Hs.
Qed.
End PoolInvariant.

Lemma capacity_value : SPARSE_PAGES * PAGE_SIZE = 1003520.
Proof. reflexivity. Qed.

Lemma bind_Done_l {A B} (a : A) (k : A → outcome B) : Done a ≫= k = k a.
Proof. reflexivity. Qed.

Lemma bind_Fault_l {A B} (f : fault) (k : A → outcome B) : Fault f ≫= k = Fault f.
Proof. reflexivity. Qed.


Lemma cell_page_allocated (sp : Sparse) (s : Z) :
  cell_of sp s ≠ -1 → page_allocated sp s.
Proof.
  unfold cell_of, page_allocated.
  destruct (sp !! Z.to_nat (s / PAGE_SIZE)) as [[c|]|]; [eauto|done..].
Qed.

Lemma page_allocated_store (sp sp' : Sparse) (s s' v : Z) :
  sparse_store sp s v = Done sp' → page_allocated sp s' → page_allocated sp' s'.
Proof.
  intros (Hpg & c & Hp & Hlen & ->)%sparse_store_Done [c' Hc'].
  unfold page_allocated.
  destruct (decide (Z.to_nat (s / PAGE_SIZE) = Z.to_nat (s' / PAGE_SIZE))) as [Heq|Hne].
  - rewrite <- Heq. rewrite list_lookup_insert_eq by (by eapply lookup_lt_Some). eauto.
  - rewrite list_lookup_insert_ne by done. eauto.
Qed.

Lemma sparse_store_allocated (sp : Sparse) (s v : Z) :
  0 ≤ s → pages_sized sp → page_allocated sp s →
  ∃ sp', sparse_store sp s v = Done sp'.
Proof.
  intros Hs Hwf [c Hc]. apply sparse_store_total; [done..|].
  rewrite Hc. by eexists.
Qed.

Section PoolOperations.
Context {T : Type}.
Implicit Types p : Pool T.


Lemma Add_spec p id v :
  packed_inv p →
  GetEntityIndex id < SPARSE_PAGES * PAGE_SIZE →
  ∃ sp',
    Add p id v = Done (mkPool (m_data p ++ [v]) (m_packed p ++ [id]) sp') ∧
    length sp' = length (m_sparse p) ∧
    pages_sized sp' ∧
    ∀ s', 0 ≤ s' →
      cell_of sp' s' =
        if decide (GetEntityIndex id = s') then Z.of_nat (length (m_data p))
        else cell_of (m_sparse p) s'.
Proof.
  intros Hinv Hcap.
  pose proof (GetEntityIndex_range id) as Hs.
  pose proof (packed_inv_bound p Hinv) as Hb.
  pose proof (inv_pages p Hinv) as Hpages.
  pose proof (inv_lengths p Hinv) as Hlen.
  unfold Add. cbv zeta.
  set (s := GetEntityIndex id) in *.
  pose proof (page_nonneg s ltac:(lia)) as Hpg0.
  assert (s / PAGE_SIZE < SPARSE_PAGES) as Hpg
    by (apply Z.div_lt_upper_bound; [done | lia]).
  rewrite decide_False by lia. rewrite bind_Done_l.
  destruct (lookup_lt_is_Some_2 (m_sparse p) (Z.to_nat (s / PAGE_SIZE)) ltac:(lia))
    as [o Ho].
  assert (vec_at (m_sparse p) (s / PAGE_SIZE) = Done o) as ->
    by (by apply vec_at_Done).
  rewrite bind_Done_l.
  set (sp2 := match o with Some _ => m_sparse p | None => _ end).
  assert (length sp2 = length (m_sparse p) ∧ pages_sized sp2 ∧
          page_allocated sp2 s ∧ ∀ s', cell_of sp2 s' = cell_of (m_sparse p) s')
    as (Hl2 & Hsz2 & Hal2 & Hc2).
  { subst sp2. destruct o as [c|].
    - split_and!; [done|by apply (inv_sized p)|by exists c|done].
    - split_and!.
      + by rewrite length_insert.
      + apply pages_sized_new_page, (inv_sized p Hinv).
      + exists fresh_page. apply list_lookup_insert_eq. lia.
      + intros s'. by apply cell_of_new_page. }
  destruct (sparse_store_allocated sp2 s
              (to_int (Z.of_nat (length (m_data p ++ [v]))) - 1)) as [sp3 Hsp3];
    [lia|done..|].
  rewrite Hsp3, bind_Done_l. exists sp3. split_and!.
  - done.
  - apply length_sparse_store in Hsp3. congruence.
  - by eapply pages_sized_store.
  - intros s' Hs'. rewrite (cell_of_store sp2 sp3 s s' _ ltac:(lia) Hs' Hsp3).
    rewrite Hc2. destruct (decide (s = s')); [|done].
    rewrite length_app. simpl length. rewrite to_int_small.
    + lia.
    + rewrite capacity_value in Hb. lia.
Qed.

Lemma Add_abort p id v :
  Z.of_nat (length (m_sparse p)) = SPARSE_PAGES →
  SPARSE_PAGES * PAGE_SIZE ≤ GetEntityIndex id →
  Add p id v = Fault assertion_failed.
Proof.
  intros Hpages Hcap. unfold Add. cbv zeta.
  set (s := GetEntityIndex id) in *.
  assert (SPARSE_PAGES ≤ s / PAGE_SIZE) as Hpg
    by (apply Z.div_le_lower_bound; [done | lia]).
  rewrite decide_True by lia.
  rewrite decide_False; [done|].
  rewrite capacity_value in Hcap. unfold MAX_ENTITIES. lia.
Qed.
End PoolOperations.

Section PoolRemove.
Context {T : Type}.
Implicit Types p : Pool T.

Lemma Remove_absent p id : Has p id = false → Remove p id = Done p.
Proof. intros H. unfold Remove. by rewrite H. Qed.

(* a present slot points at an entry of the dense arrays *)
Lemma present_entry p s :
  packed_inv p → 0 ≤ s → cell_of (m_sparse p) s ≠ -1 →
  ∃ (k : nat) id v,
    cell_of (m_sparse p) s = Z.of_nat k ∧
    m_packed p !! k = Some id ∧ m_data p !! k = Some v ∧
    GetEntityIndex id = s.
Proof.
  intros Hinv Hs Hc.
  destruct (inv_sparse p Hinv s Hs Hc) as (Hk & id & Hid & Hslot).
  exists (Z.to_nat (cell_of (m_sparse p) s)), id.
  destruct (lookup_lt_is_Some_2 (m_data p) (Z.to_nat (cell_of (m_sparse p) s)))
    as [v Hv].
  { rewrite (inv_lengths p Hinv). by eapply lookup_lt_Some. }
  exists v. split_and!; [lia|done..].
Qed.

Lemma Remove_spec p id :
  packed_inv p → Has p id = true →
  ∃ (k : nat) lastId lastV sp',
    cell_of (m_sparse p) (GetEntityIndex id) = Z.of_nat k ∧
    m_packed p !! pred (length (m_packed p)) = Some lastId ∧
    m_data p !! pred (length (m_data p)) = Some lastV ∧
    (k < length (m_packed p))%nat ∧
    Remove p id =
      Done (mkPool (take (pred (length (m_data p))) (<[k := lastV]> (m_data p)))
                   (take (pred (length (m_packed p))) (<[k := lastId]> (m_packed p)))
                   sp') ∧
    length sp' = length (m_sparse p) ∧
    pages_sized sp' ∧
    ∀ s', 0 ≤ s' →
      cell_of sp' s' =
        if decide (GetEntityIndex id = s') then -1
        else if decide (GetEntityIndex lastId = s') then Z.of_nat k
        else cell_of (m_sparse p) s'.
Proof.
  intros Hinv Hhas.
  pose proof (GetEntityIndex_range id) as Hs.
  pose proof (packed_inv_bound p Hinv) as Hb. rewrite capacity_value in Hb.
  pose proof (inv_lengths p Hinv) as Hlen.
  pose proof (inv_sized p Hinv) as Hsz.
  apply Has_true in Hhas.
  destruct (present_entry p (GetEntityIndex id) Hinv ltac:(lia) Hhas) as (k & id0 & v0 & Hk & Hid0 & Hv0 & Hslot0).
  assert (k < length (m_packed p))%nat as Hklt by (by eapply lookup_lt_Some).
  destruct (lookup_lt_is_Some_2 (m_packed p) (pred (length (m_packed p)))
              ltac:(lia)) as [lastId HlastId].
  destruct (lookup_lt_is_Some_2 (m_data p) (pred (length (m_data p)))
              ltac:(lia)) as [lastV HlastV].
  pose proof (inv_dense p Hinv _ _ HlastId) as Hlastcell.
  pose proof (GetEntityIndex_range lastId) as Hsl.
  exists k, lastId, lastV.
  unfold Remove. rewrite (proj2 (Has_true p id) Hhas). cbv zeta. simpl negb. cbv iota.
  set (s := GetEntityIndex id) in *.
  rewrite (cell_sparse_load _ s ltac:(lia) Hhas), bind_Done_l, Hk.
  rewrite to_int_small by lia.
  assert (Z.to_nat (Z.of_nat (length (m_data p)) - 1) = pred (length (m_data p)))
    as Hpred by lia.
  destruct (decide (Z.of_nat k ≠ Z.of_nat (length (m_data p)) - 1)) as [Hne|Heq].
  - assert (GetEntityIndex lastId ≠ s) as Hslne.
    { intros Heq. rewrite Heq in Hlastcell. lia. }
    assert (vec_at (m_packed p) (Z.of_nat (length (m_data p)) - 1) = Done lastId) as ->.
    { apply vec_at_Done. split; [lia|]. rewrite Hpred. by rewrite Hlen. }
    rewrite bind_Done_l.
    assert (vec_at (m_data p) (Z.of_nat (length (m_data p)) - 1) = Done lastV) as ->.
    { apply vec_at_Done. split; [lia|]. by rewrite Hpred. }
    rewrite bind_Done_l.
    assert (vec_store (m_data p) (Z.of_nat k) lastV = Done (<[k := lastV]> (m_data p))) as ->.
    { apply vec_store_Done. split; [lia|]. by rewrite Nat2Z.id. }
    rewrite bind_Done_l.
    assert (vec_store (m_packed p) (Z.of_nat k) lastId = Done (<[k := lastId]> (m_packed p))) as ->.
    { apply vec_store_Done. split; [lia|]. by rewrite Nat2Z.id. }
    rewrite bind_Done_l.
    destruct (sparse_store_allocated (m_sparse p) (GetEntityIndex lastId) (Z.of_nat k))
      as [sp1 Hsp1]; [lia|done| |].
    { apply cell_page_allocated. lia. }
    rewrite Hsp1. rewrite !bind_Done_l. simpl m_data. simpl m_packed. simpl m_sparse.
    destruct (sparse_store_allocated sp1 s (-1)) as [sp2 Hsp2];
      [lia|by eapply pages_sized_store| |].
    { eapply page_allocated_store; [done|]. by apply cell_page_allocated. }
    rewrite Hsp2.
    assert (pop_back (<[k := lastV]> (m_data p)) =
            Done (take (pred (length (m_data p))) (<[k := lastV]> (m_data p)))) as ->.
    { apply pop_back_Done. rewrite length_insert. split; [|done].
      intros Hnil. apply (f_equal length) in Hnil. rewrite length_insert in Hnil.
      simpl in Hnil. lia. }
    assert (pop_back (<[k := lastId]> (m_packed p)) =
            Done (take (pred (length (m_packed p))) (<[k := lastId]> (m_packed p)))) as ->.
    { apply pop_back_Done. rewrite length_insert. split; [|done].
      intros Hnil. apply (f_equal length) in Hnil. rewrite length_insert in Hnil.
      simpl in Hnil. lia. }
    rewrite !bind_Done_l. exists sp2. split_and!; try done.
    + apply length_sparse_store in Hsp1, Hsp2. congruence.
    + eapply pages_sized_store; [|done]. by eapply pages_sized_store.
    + intros s' Hs'.
      rewrite (cell_of_store sp1 sp2 s s' _ ltac:(lia) Hs' Hsp2).
      destruct (decide (s = s')); [done|].
      by rewrite (cell_of_store (m_sparse p) sp1 (GetEntityIndex lastId) s' _
                    ltac:(lia) Hs' Hsp1).
  - assert (k = pred (length (m_packed p))) as Hklast by lia.
    assert (lastId = id0) as -> by congruence.
    assert (lastV = v0) as -> by (rewrite Hlen in HlastV; congruence).
    rewrite !bind_Done_l.
    destruct (sparse_store_allocated (m_sparse p) s (-1)) as [sp2 Hsp2];
      [lia|done|by apply cell_page_allocated|].
    rewrite Hsp2.
    assert (pop_back (m_data p) = Done (take (pred (length (m_data p))) (m_data p))) as ->.
    { apply pop_back_Done. split; [|done]. intros Hnil. by rewrite Hnil in Hv0. }
    assert (pop_back (m_packed p) = Done (take (pred (length (m_packed p))) (m_packed p))) as ->.
    { apply pop_back_Done. split; [|done]. intros Hnil. by rewrite Hnil in Hid0. }
    rewrite !bind_Done_l. exists sp2.
    rewrite !list_insert_id by done.
    split_and!; try done.
    + by apply length_sparse_store in Hsp2.
    + by eapply pages_sized_store.
    + intros s' Hs'.
      rewrite (cell_of_store (m_sparse p) sp2 s s' _ ltac:(lia) Hs' Hsp2).
      destruct (decide (s = s')); [done|].
      rewrite decide_False; [done|]. by rewrite Hslot0.
Qed.
End PoolRemove.

Lemma lookup_take_insert {A} (l : list A) (n k i : nat) (x : A) :
  (i < n)%nat → (k < length l)%nat →
  take n (<[k := x]> l) !! i = if decide (i = k) then Some x else l !! i.
Proof.
  intros Hi Hk. rewrite lookup_take_lt by done.
  destruct (decide (i = k)) as [->|Hne].
  - by apply list_lookup_insert_eq.
  - by apply list_lookup_insert_ne.
Qed.

Section PoolPreservation.
Context {T : Type}.
Implicit Types p : Pool T.

Lemma entry_of_present p s k id v :
  cell_of (m_sparse p) s = Z.of_nat k →
  m_packed p !! k = Some id → m_data p !! k = Some v →
  entry_of p s = Some (id, v).
Proof.
  intros Hc Hid Hv. unfold entry_of. cbv zeta. rewrite Hc.
  rewrite decide_False by lia. rewrite Nat2Z.id, Hid. simpl. by rewrite Hv.
Qed.

Lemma entry_of_absent p s : cell_of (m_sparse p) s = -1 → entry_of p s = None.
Proof. intros Hc. unfold entry_of. cbv zeta. by rewrite Hc. Qed.

Lemma Add_Done_capacity p id v p' :
  packed_inv p → Add p id v = Done p' →
  GetEntityIndex id < SPARSE_PAGES * PAGE_SIZE.
Proof.
  intros Hinv Hadd.
  destruct (decide (GetEntityIndex id < SPARSE_PAGES * PAGE_SIZE)); [done|].
  rewrite (Add_abort p id v) in Hadd; [done|by apply inv_pages|lia].
Qed.

Lemma Add_inv p id v p' :
  packed_inv p → Has p id = false → Add p id v = Done p' →
  packed_inv p' ∧
  m_packed p' = m_packed p ++ [id] ∧
  ∀ s', 0 ≤ s' →
    entry_of p' s' =
      if decide (GetEntityIndex id = s') then Some (id, v) else entry_of p s'.
Proof.
  intros Hinv Habs Hadd.
  pose proof (Add_Done_capacity p id v p' Hinv Hadd) as Hcap.
  destruct (Add_spec p id v Hinv Hcap) as (sp' & Heq & Hlen' & Hsz' & Hcell).
  rewrite Heq in Hadd. injection Hadd as <-.
  apply Has_false in Habs.
  pose proof (inv_lengths p Hinv) as Hlen.
  pose proof (GetEntityIndex_range id) as Hs.
  split_and!; [split; simpl| done |].
  - rewrite !length_app. simpl. lia.
  - rewrite Hlen'. by apply inv_pages.
  - done.
  - intros i id' Hi. pose proof (GetEntityIndex_range id').
    rewrite Hcell by lia.
    apply lookup_app_Some in Hi as [Hi|[Hge Hi]].
    + pose proof (inv_dense p Hinv _ _ Hi) as Hd.
      rewrite decide_False; [done|]. intros Heq'. rewrite Heq' in Habs. lia.
    + apply list_lookup_singleton_Some in Hi as [Hi <-].
      rewrite decide_True by done. lia.
  - intros s' Hs' Hc. rewrite Hcell in Hc |- * by done.
    destruct (decide (GetEntityIndex id = s')) as [<-|Hne].
    + split; [lia|]. exists id. split; [|done].
      rewrite Nat2Z.id, Hlen. by apply list_lookup_middle.
    + destruct (inv_sparse p Hinv s' Hs' Hc) as (Hk & id' & Hid' & Hslot).
      split; [done|]. exists id'. split; [|done]. by apply lookup_app_l_Some.
  - intros s' Hs'.
    destruct (decide (GetEntityIndex id = s')) as [<-|Hne].
    + apply (entry_of_present _ _ (length (m_data p))); simpl.
      * rewrite Hcell by lia. by rewrite decide_True.
      * rewrite Hlen. by apply list_lookup_middle.
      * by apply list_lookup_middle.
    + destruct (decide (cell_of (m_sparse p) s' = -1)) as [Hc|Hc].
      * rewrite (entry_of_absent p) by done. apply entry_of_absent. simpl.
        rewrite Hcell by done. by rewrite decide_False.
      * destruct (present_entry p s' Hinv Hs' Hc) as (k & id' & v' & Hk & Hid' & Hv' & _).
        rewrite (entry_of_present p s' k id' v') by done.
        apply (entry_of_present _ _ k); simpl.
        -- rewrite Hcell by done. by rewrite decide_False.
        -- by apply lookup_app_l_Some.
        -- by apply lookup_app_l_Some.
Qed.

Lemma Remove_inv p id :
  packed_inv p →
  ∃ p', Remove p id = Done p' ∧ packed_inv p' ∧
    ∀ s', 0 ≤ s' →
      entry_of p' s' = if decide (GetEntityIndex id = s') then None else entry_of p s'.
Proof.
  intros Hinv. destruct (Has p id) eqn:Hhas; last first.
  { exists p. split_and!; [by apply Remove_absent|done|].
    intros s' Hs'. destruct (decide _) as [<-|]; [|done].
    apply entry_of_absent. by apply Has_false. }
  destruct (Remove_spec p id Hinv Hhas)
    as (k & lastId & lastV & sp' & Hk & HlastId & HlastV & Hklt & -> & Hlen' & Hsz' & Hcell).
  pose proof (inv_lengths p Hinv) as Hlen.
  pose proof (GetEntityIndex_range id) as Hs.
  pose proof (GetEntityIndex_range lastId) as Hsl.
  pose proof (inv_dense p Hinv _ _ HlastId) as Hlastcell.
  set (n := length (m_packed p)) in *.
  (* entries of the old pool that survive keep their position, except the
     last one, which moves to position k *)
  assert (∀ s' (j : nat) id' v', 0 ≤ s' →
            GetEntityIndex id ≠ s' →
            cell_of (m_sparse p) s' = Z.of_nat j →
            m_packed p !! j = Some id' → m_data p !! j = Some v' →
            ∃ j' : nat, cell_of sp' s' = Z.of_nat j' ∧ (j' < pred n)%nat ∧
              take (pred n) (<[k := lastId]> (m_packed p)) !! j' = Some id' ∧
              take (pred n) (<[k := lastV]> (m_data p)) !! j' = Some v') as Hmove.
  { intros s' j id' v' Hs' Hne Hj Hid' Hv'. rewrite Hcell by done.
    rewrite decide_False by done.
    assert (j < n)%nat by (by eapply lookup_lt_Some).
    assert (GetEntityIndex id' = s') as Hslot'.
    { destruct (inv_sparse p Hinv s' Hs' ltac:(lia)) as (_ & id'' & Hid'' & <-).
      rewrite Hj, Nat2Z.id in Hid''. congruence. }
    assert (j ≠ k) as Hjk.
    { intros ->. apply Hne.
      destruct (inv_sparse p Hinv (GetEntityIndex id) ltac:(lia) ltac:(lia))
        as (_ & id0 & Hid0 & <-).
      rewrite Hk, Nat2Z.id in Hid0. congruence. }
    destruct (decide (GetEntityIndex lastId = s')) as [<-|Hne'].
    - assert (j = pred n) as -> by lia.
      exists k. split; [done|]. split; [lia|].
      rewrite !lookup_take_insert by lia. rewrite !decide_True by done.
      rewrite Hlen in HlastV. split; congruence.
    - exists j. split; [done|].
      assert (j ≠ pred n).
      { intros ->. apply Hne'. rewrite <- Hslot'. congruence. }
      split; [lia|]. rewrite !lookup_take_insert by lia.
      by rewrite !decide_False by done. }
  eexists. split; [done|]. split; [split; simpl|].
  - rewrite !length_take, !length_insert. lia.
  - rewrite Hlen'. by apply inv_pages.
  - done.
  - intros i id' Hi. pose proof (GetEntityIndex_range id').
    assert (i < pred n)%nat as Hi'.
    { apply lookup_lt_Some in Hi. rewrite length_take in Hi. lia. }
    rewrite lookup_take_insert in Hi by lia.
    destruct (decide (i = k)) as [->|Hik].
    + injection Hi as <-. rewrite Hcell by lia.
      rewrite decide_False by (intros Heq; rewrite Heq in Hk; lia).
      by rewrite decide_True.
    + pose proof (inv_dense p Hinv _ _ Hi) as Hd.
      rewrite Hcell by lia.
      rewrite decide_False by (intros Heq; rewrite Heq in Hk; lia).
      rewrite decide_False by (intros Heq; rewrite Heq in Hlastcell; lia).
      done.
  - intros s' Hs' Hc.
    assert (GetEntityIndex id ≠ s') as Hne.
    { intros Heq. rewrite Hcell, decide_True in Hc by done. done. }
    assert (cell_of (m_sparse p) s' ≠ -1) as Hold.
    { rewrite Hcell, decide_False in Hc by done.
      destruct (decide (GetEntityIndex lastId = s')) as [<-|]; [lia|done]. }
    destruct (present_entry p s' Hinv Hs' Hold) as (j & id' & v' & Hj & Hid' & Hv' & Hslot).
    destruct (Hmove s' j id' v' Hs' Hne Hj Hid' Hv') as (j' & Hj' & _ & Hp' & _).
    rewrite Hj'. split; [lia|]. exists id'. by rewrite Nat2Z.id.
  - intros s' Hs'.
    destruct (decide (GetEntityIndex id = s')) as [<-|Hne].
    + apply entry_of_absent. simpl. rewrite Hcell by done. by rewrite decide_True.
    + destruct (decide (cell_of (m_sparse p) s' = -1)) as [Hc|Hc].
      * rewrite (entry_of_absent p) by done. apply entry_of_absent. simpl.
        rewrite Hcell by done. rewrite decide_False by done.
        rewrite decide_False; [done|]. intros Heq. rewrite Heq in Hlastcell. lia.
      * destruct (present_entry p s' Hinv Hs' Hc) as (j & id' & v' & Hj & Hid' & Hv' & _).
        destruct (Hmove s' j id' v' Hs' Hne Hj Hid' Hv') as (j' & Hj' & _ & Hp' & Hd').
        rewrite (entry_of_present p s' j id' v') by done.
        apply (entry_of_present _ _ j'); simpl; [done| |].
        -- done.
        -- by rewrite Hlen.
Qed.
End PoolPreservation.

(** ** The sparse index when a slot is added twice *)

Section PoolIndexed.
Context {T : Type}.
Implicit Types p : Pool T.

Lemma packed_indexed p : packed_inv p → indexed_inv p.
Proof.
  intros Hinv. pose proof (packed_inv_bound p Hinv) as Hb. rewrite capacity_value in Hb.
  split.
  - apply (inv_lengths p Hinv).
  - rewrite (inv_lengths p Hinv). lia.
  - apply (inv_pages p Hinv).
  - apply (inv_sized p Hinv).
  - intros id [i Hi]%list_elem_of_lookup. apply cell_page_allocated.
    rewrite (inv_dense p Hinv _ _ Hi). lia.
  - apply (inv_sparse p Hinv).
Qed.

Lemma Add_indexed p id v p' :
  indexed_inv p → Z.of_nat (length (m_data p)) < 2 ^ 31 - 1 →
  Add p id v = Done p' → indexed_inv p'.
Proof.
  intros Hinv Hsize Hadd.
  pose proof (GetEntityIndex_range id) as Hs.
  pose proof (ix_pages p Hinv) as Hpages.
  pose proof (ix_lengths p Hinv) as Hlen.
  assert (GetEntityIndex id < SPARSE_PAGES * PAGE_SIZE) as Hcap.
  { destruct (decide (GetEntityIndex id < SPARSE_PAGES * PAGE_SIZE)); [done|].
    rewrite (Add_abort p id v) in Hadd; [done|done|lia]. }
  unfold Add in Hadd. cbv zeta in Hadd.
  set (s := GetEntityIndex id) in *.
  pose proof (page_nonneg s ltac:(lia)) as Hpg0.
  assert (s / PAGE_SIZE < SPARSE_PAGES) as Hpg
    by (apply Z.div_lt_upper_bound; [done | lia]).
  rewrite decide_False in Hadd by lia. rewrite bind_Done_l in Hadd.
  destruct (lookup_lt_is_Some_2 (m_sparse p) (Z.to_nat (s / PAGE_SIZE)) ltac:(lia))
    as [o Ho].
  assert (vec_at (m_sparse p) (s / PAGE_SIZE) = Done o) as Hat
    by (by apply vec_at_Done).
  rewrite Hat, bind_Done_l in Hadd.
  set (sp2 := match o with Some _ => m_sparse p | None => _ end) in Hadd.
  assert (length sp2 = length (m_sparse p) ∧ pages_sized sp2 ∧
          page_allocated sp2 s ∧ (∀ s', cell_of sp2 s' = cell_of (m_sparse p) s') ∧
          ∀ s', page_allocated (m_sparse p) s' → page_allocated sp2 s')
    as (Hl2 & Hsz2 & Hal2 & Hc2 & Hpa2).
  { subst sp2. destruct o as [c|].
    - split_and!; [done|by apply (ix_sized p)|by exists c|done|done].
    - split_and!.
      + by rewrite length_insert.
      + apply pages_sized_new_page, (ix_sized p Hinv).
      + exists fresh_page. apply list_lookup_insert_eq. lia.
      + intros s'. by apply cell_of_new_page.
      + intros s' [c Hc]. unfold page_allocated.
        destruct (decide (Z.to_nat (s / PAGE_SIZE) = Z.to_nat (s' / PAGE_SIZE))) as [Heq|Hne].
        * rewrite <- Heq in Hc. congruence.
        * rewrite list_lookup_insert_ne by done. eauto. }
  apply bind_Done in Hadd as (sp3 & Hsp3 & Hadd). injection Hadd as <-.
  rewrite length_app in Hsp3. simpl length in Hsp3.
  rewrite to_int_small in Hsp3 by lia.
  assert (∀ s', 0 ≤ s' →
            cell_of sp3 s' = if decide (s = s') then Z.of_nat (length (m_data p))
                             else cell_of (m_sparse p) s') as Hcell.
  { intros s' Hs'. rewrite (cell_of_store sp2 sp3 s s' _ ltac:(lia) Hs' Hsp3).
    rewrite Hc2. destruct (decide (s = s')); [lia|done]. }
  split; simpl.
  - rewrite !length_app. simpl. lia.
  - rewrite length_app. simpl. lia.
  - apply length_sparse_store in Hsp3. congruence.
  - by eapply pages_sized_store.
  - intros id' [Hid'|Hid']%elem_of_app.
    + eapply page_allocated_store; [done|]. apply Hpa2. by apply (ix_allocated p Hinv).
    + apply list_elem_of_singleton in Hid' as ->.
      eapply page_allocated_store; [done|]. done.
  - intros s' Hs' Hc. rewrite Hcell in Hc |- * by done.
    destruct (decide (s = s')) as [<-|Hne].
    + split; [lia|]. exists id. split; [|done].
      rewrite Nat2Z.id, Hlen. by apply list_lookup_middle.
    + destruct (ix_sparse p Hinv s' Hs' Hc) as (Hk & id' & Hid' & Hslot).
      split; [done|]. exists id'. split; [|done]. by apply lookup_app_l_Some.
Qed.

Lemma Remove_indexed p id :
  indexed_inv p → ∃ p', Remove p id = Done p' ∧ indexed_inv p'.
Proof.
  intros Hinv. destruct (Has p id) eqn:Hhas; last first.
  { exists p. split; [by apply Remove_absent|done]. }
  pose proof (GetEntityIndex_range id) as Hs.
  pose proof (ix_size p Hinv) as Hb.
  pose proof (ix_lengths p Hinv) as Hlen.
  pose proof (ix_sized p Hinv) as Hsz.
  apply Has_true in Hhas.
  destruct (ix_sparse p Hinv _ (proj1 Hs) Hhas) as (Hk0 & id0 & Hid0 & Hslot0).
  set (s := GetEntityIndex id) in *.
  set (k := Z.to_nat (cell_of (m_sparse p) s)) in *.
  assert (cell_of (m_sparse p) s = Z.of_nat k) as Hk by lia.
  assert (k < length (m_packed p))%nat as Hklt by (by eapply lookup_lt_Some).
  set (n := length (m_packed p)) in *.
  destruct (lookup_lt_is_Some_2 (m_packed p) (pred n) ltac:(lia)) as [lastId HlastId].
  destruct (lookup_lt_is_Some_2 (m_data p) (pred n) ltac:(lia)) as [lastV HlastV].
  pose proof (GetEntityIndex_range lastId) as Hsl.
  pose proof (ix_allocated p Hinv lastId ltac:(by eapply list_elem_of_lookup_2)) as Hlastpage.
  unfold Remove. rewrite (proj2 (Has_true p id) Hhas). cbv zeta. simpl negb. cbv iota.
  fold s. rewrite (cell_sparse_load _ s ltac:(lia) Hhas), bind_Done_l, Hk.
  rewrite to_int_small by lia. rewrite Hlen. fold n.
  assert (Z.to_nat (Z.of_nat n - 1) = pred n) as Hpred by lia.
  (* the pool after the last entry has been moved to position k *)
  assert (∃ sp1,
    (if decide (Z.of_nat k ≠ Z.of_nat n - 1)
     then
       lastEntityId ← vec_at (m_packed p) (Z.of_nat n - 1);
       moved ← vec_at (m_data p) (Z.of_nat n - 1);
       data1 ← vec_store (m_data p) (Z.of_nat k) moved;
       packed1 ← vec_store (m_packed p) (Z.of_nat k) lastEntityId;
       sparse1 ← sparse_store (m_sparse p) (GetEntityIndex lastEntityId) (Z.of_nat k);
       Done {| m_data := data1; m_packed := packed1; m_sparse := sparse1 |}
     else Done p)
    = Done (mkPool (<[k := lastV]> (m_data p)) (<[k := lastId]> (m_packed p)) sp1) ∧
    length sp1 = length (m_sparse p) ∧ pages_sized sp1 ∧
    (∀ s', page_allocated (m_sparse p) s' → page_allocated sp1 s') ∧
    ∀ s', 0 ≤ s' →
      cell_of sp1 s' = if decide (GetEntityIndex lastId = s') then Z.of_nat k
                       else cell_of (m_sparse p) s')
    as (sp1 & -> & Hl1 & Hsz1 & Hpa1 & Hc1).
  { destruct (decide (Z.of_nat k ≠ Z.of_nat n - 1)) as [Hne|Heq].
    - rewrite (vec_at_lookup (m_packed p) _ lastId) by (lia || by rewrite Hpred).
      rewrite bind_Done_l.
      rewrite (vec_at_lookup (m_data p) _ lastV) by (lia || by rewrite Hpred).
      rewrite bind_Done_l.
      rewrite (vec_store_lt (m_data p)) by lia. rewrite bind_Done_l.
      rewrite (vec_store_lt (m_packed p)) by lia. rewrite bind_Done_l.
      rewrite Nat2Z.id.
      destruct (sparse_store_allocated (m_sparse p) (GetEntityIndex lastId) (Z.of_nat k))
        as [sp1 Hsp1]; [lia|done|done|].
      rewrite Hsp1, bind_Done_l. exists sp1. split_and!.
      + done.
      + by apply length_sparse_store in Hsp1.
      + by eapply pages_sized_store.
      + intros s'. by eapply page_allocated_store.
      + intros s' Hs'.
        by rewrite (cell_of_store (m_sparse p) sp1 (GetEntityIndex lastId) s' _
                      ltac:(lia) Hs' Hsp1).
    - assert (k = pred n) as Hklast by lia.
      assert (lastId = id0) as -> by (subst k; congruence).
      exists (m_sparse p). rewrite !list_insert_id by (done || congruence).
      split_and!; try done.
      + by destruct p.
      + intros s' Hs'. destruct (decide _) as [<-|]; [|done].
        rewrite Hslot0. done. }
  rewrite bind_Done_l. simpl m_data. simpl m_packed. simpl m_sparse.
  assert (pop_back (<[k := lastV]> (m_data p)) =
          Done (take (pred n) (<[k := lastV]> (m_data p)))) as ->.
  { apply pop_back_Done. rewrite length_insert, Hlen. split; [|done].
    intros Hnil. apply (f_equal length) in Hnil. rewrite length_insert in Hnil.
    simpl in Hnil. lia. }
  assert (pop_back (<[k := lastId]> (m_packed p)) =
          Done (take (pred n) (<[k := lastId]> (m_packed p)))) as ->.
  { apply pop_back_Done. rewrite length_insert. split; [|done].
    intros Hnil. apply (f_equal length) in Hnil. rewrite length_insert in Hnil.
    simpl in Hnil. lia. }
  rewrite !bind_Done_l.
  destruct (sparse_store_allocated sp1 s (-1)) as [sp2 Hsp2]; [lia|done| |].
  { apply Hpa1. by apply cell_page_allocated. }
  rewrite Hsp2, bind_Done_l. eexists. split; [done|].
  assert (∀ s', 0 ≤ s' →
            cell_of sp2 s' = if decide (s = s') then -1
                             else if decide (GetEntityIndex lastId = s') then Z.of_nat k
                             else cell_of (m_sparse p) s') as Hcell.
  { intros s' Hs'. rewrite (cell_of_store sp1 sp2 s s' _ ltac:(lia) Hs' Hsp2).
    destruct (decide (s = s')); [done|]. by apply Hc1. }
  split; simpl.
  - rewrite !length_take, !length_insert. lia.
  - rewrite length_take, length_insert. lia.
  - apply length_sparse_store in Hsp2. rewrite Hsp2, Hl1. apply (ix_pages p Hinv).
  - by eapply pages_sized_store.
  - intros id' Hid'. eapply page_allocated_store; [done|]. apply Hpa1.
    apply (ix_allocated p Hinv).
    apply list_elem_of_lookup in Hid' as [i Hi].
    assert (i < pred n)%nat as Hi'.
    { apply lookup_lt_Some in Hi. rewrite length_take in Hi. lia. }
    rewrite lookup_take_insert in Hi by lia.
    destruct (decide (i = k)) as [->|Hik].
    + injection Hi as <-. by eapply list_elem_of_lookup_2.
    + by eapply list_elem_of_lookup_2.
  - intros s' Hs' Hc. rewrite Hcell in Hc |- * by done.
    destruct (decide (s = s')) as [|Hne]; [done|].
    destruct (decide (GetEntityIndex lastId = s')) as [Hl|Hnl].
    + split; [lia|]. exists lastId. split; [|done]. rewrite Nat2Z.id.
      assert (k ≠ pred n) as Hkn.
      { intros ->. assert (lastId = id0) by congruence. subst lastId. congruence. }
      rewrite lookup_take_insert by lia. by rewrite decide_True.
    + destruct (ix_sparse p Hinv s' Hs' Hc) as (Hj0 & id' & Hid' & Hslot').
      split; [done|]. exists id'. split; [|done].
      assert (Z.to_nat (cell_of (m_sparse p) s') ≠ k) as Hjk.
      { intros Heq. rewrite Heq in Hid'. assert (id' = id0) by congruence. subst id'.
        congruence. }
      assert (Z.to_nat (cell_of (m_sparse p) s') ≠ pred n) as Hjn.
      { intros Heq. rewrite Heq in Hid'. assert (id' = lastId) by congruence. subst id'.
        congruence. }
      pose proof (lookup_lt_Some _ _ _ Hid') as Hjlt. fold n in Hjlt.
      rewrite lookup_take_insert by lia. by rewrite decide_False.
Qed.
End PoolIndexed.

Section PoolLookup.
Context {T : Type}.

Lemma Get_entry (p : Pool T) id id' v :
  packed_inv p →
  entry_of p (GetEntityIndex id) = Some (id', v) → Get p id = Done v.
Proof.
  intros Hinv He. pose proof (GetEntityIndex_range id) as Hs.
  destruct (decide (cell_of (m_sparse p) (GetEntityIndex id) = -1)) as [Hc|Hc].
  { by rewrite entry_of_absent in He. }
  destruct (present_entry p _ Hinv (proj1 Hs) Hc) as (k & id0 & v0 & Hk & Hid0 & Hv0 & _).
  rewrite (entry_of_present p _ k id0 v0) in He by done. injection He as -> ->.
  unfold Get. cbv zeta. rewrite (cell_sparse_load _ _ (proj1 Hs) Hc), bind_Done_l.
  rewrite Hk. apply vec_at_Done. split; [lia|]. by rewrite Nat2Z.id.
Qed.

Lemma Has_is_Some (p : Pool T) id :
  packed_inv p → Has p id = true ↔ is_Some (entry_of p (GetEntityIndex id)).
Proof.
  intros Hinv. rewrite Has_true. pose proof (GetEntityIndex_range id) as Hs. split.
  - intros Hc.
    destruct (present_entry p _ Hinv (proj1 Hs) Hc) as (k & id0 & v0 & Hk & Hid0 & Hv0 & _).
    rewrite (entry_of_present p _ k id0 v0) by done. by eexists.
  - intros [x Hx] Hc. by rewrite entry_of_absent in Hx.
Qed.
End PoolLookup.

(** ** Sequences of pool operations (claims C2 and C5) *)

Section PoolSequences.
Context {T : Type}.
Implicit Types p : Pool T.

Lemma packed_inv_roundtrip p : packed_inv p → dense_roundtrip p.
Proof.
  intros Hinv i id Hi. exists (Z.of_nat i).
  pose proof (inv_dense p Hinv i id Hi) as Hc.
  pose proof (GetEntityIndex_range id).
  split.
  - rewrite <- Hc. apply cell_sparse_load; lia.
  - apply vec_at_Done. split; [lia|]. by rewrite Nat2Z.id.
Qed.

Lemma run_ops_inv (ops : list (PoolOp T)) p :
  packed_inv p → adds_fresh p ops = true →
  match run_ops p ops with
  | Done p' => packed_inv p'
  | Fault f => f = assertion_failed ∧ add_beyond_pages ops
  end.
Proof.
  revert p. induction ops as [|op ops IH]; intros p Hinv Hfresh; [done|].
  simpl in Hfresh. apply andb_true_iff in Hfresh as [Hop Hrest].
  unfold run_ops. simpl for_each. fold (run_ops (T:=T)).
  assert (∀ p1, packed_inv p1 → adds_fresh p1 ops = true →
            match run_ops p1 ops with
            | Done p' => packed_inv p'
            | Fault f => f = assertion_failed ∧ add_beyond_pages (op :: ops)
            end) as IH'.
  { intros p1 H1 H2. specialize (IH p1 H1 H2).
    destruct (run_ops p1 ops); [done|].
    destruct IH as (-> & id & v & Hin & Hcap). split; [done|].
    exists id, v. split; [by apply elem_of_cons; right | done]. }
  destruct op as [id v|id]; simpl apply_op in *.
  - apply negb_true_iff in Hop.
    destruct (decide (GetEntityIndex id < SPARSE_PAGES * PAGE_SIZE)) as [Hcap|Hcap].
    + destruct (Add_spec p id v Hinv Hcap) as (sp' & Heq & _).
      rewrite Heq in Hrest |- *. rewrite bind_Done_l.
      apply IH'; [|done]. by eapply Add_inv.
    + rewrite (Add_abort p id v); [|by apply inv_pages|lia].
      rewrite bind_Fault_l. split; [done|].
      exists id, v. split; [by apply elem_of_cons; left | lia].
  - destruct (Remove_inv p id Hinv) as (p1 & Heq & Hinv1 & _).
    rewrite Heq in Hrest |- *. rewrite bind_Done_l. by apply IH'.
Qed.

(** C2, as amended: starting from an empty pool, a sequence of Add and
    Remove in which every Add meets a pool that does not hold the slot of
    its id either stops at the capacity assertion of Add, or ends in a pool
    in which every entry of the dense arrays satisfies the round trip
    dense_entity[sparse[slot(id)]] == id and sits at the position the sparse
    index gives, the two dense arrays have the same length, and Remove of
    an id that Has does not report returns the pool unchanged. *)
Theorem pool_packing_invariant (ops : list (PoolOp T)) :
  adds_fresh Pool_new ops = true →
  match run_ops Pool_new ops with
  | Done p =>
      dense_roundtrip p ∧
      (∀ (i : nat) id, m_packed p !! i = Some id →
         cell_of (m_sparse p) (GetEntityIndex id) = Z.of_nat i) ∧
      length (m_data p) = length (m_packed p) ∧
      (∀ id, Has p id = false → Remove p id = Done p)
  | Fault f => f = assertion_failed ∧ add_beyond_pages ops
  end.
Proof.
  intros Hfresh.
  pose proof (run_ops_inv ops Pool_new Pool_new_inv Hfresh) as H.
  destruct (run_ops Pool_new ops) as [p|f]; [|done].
  split_and!.
  - by apply packed_inv_roundtrip.
  - by apply inv_dense.
  - by apply inv_lengths.
  - intros id. apply Remove_absent.
Qed.

(* a sequence whose Adds stay below the capacity of the sparse index runs
   to completion *)
Lemma run_ops_total (ops : list (PoolOp T)) :
  adds_fresh Pool_new ops = true →
  (∀ id v, OpAdd id v ∈ ops → GetEntityIndex id < MAX_ENTITIES) →
  ∃ p, run_ops Pool_new ops = Done p ∧ packed_inv p.
Proof.
  intros Hfresh Hbound.
  pose proof (run_ops_inv ops Pool_new Pool_new_inv Hfresh) as H.
  destruct (run_ops Pool_new ops) as [p|f]; [by exists p|].
  destruct H as (_ & id & v & Hin & Hcap).
  specialize (Hbound id v Hin). rewrite capacity_value in Hcap.
  unfold MAX_ENTITIES in Hbound. lia.
Qed.

(* below MAX_ENTITIES the assertion of Add is never reached *)
Lemma Add_below_MAX_ENTITIES p id v :
  packed_inv p → GetEntityIndex id < MAX_ENTITIES → ∃ p', Add p id v = Done p'.
Proof.
  intros Hinv Hlt.
  destruct (Add_spec p id v Hinv) as (sp' & Heq & _); [|by eexists].
  rewrite capacity_value. unfold MAX_ENTITIES in Hlt. lia.
Qed.

(* between MAX_ENTITIES and the end of the last page Add returns normally *)
Lemma Add_in_last_page p id v :
  packed_inv p →
  MAX_ENTITIES ≤ GetEntityIndex id < SPARSE_PAGES * PAGE_SIZE →
  ∃ p', Add p id v = Done p' ∧ m_packed p' = m_packed p ++ [id].
Proof.
  intros Hinv [_ Hlt].
  destruct (Add_spec p id v Hinv Hlt) as (sp' & Heq & _). by eexists.
Qed.
End PoolSequences.

(** C2, as stated, fails: after Add(5, a) and Add(2^32 + 5, b), two ids of
    one slot, the entry of id 5 no longer round-trips. *)
Lemma pool_roundtrip_counterexample :
  ∃ p : Pool Z,
    run_ops Pool_new [OpAdd 5 10; OpAdd (2 ^ 32 + 5) 20] = Done p ∧
    m_packed p !! 0%nat = Some 5 ∧
    Has p 5 = true ∧
    ¬ dense_roundtrip p ∧ ¬ present_roundtrip p.
Proof.
  eexists. split; [vm_compute; reflexivity|].
  split; [reflexivity|]. split; [vm_compute; reflexivity|]. split.
  - intros Hrt. destruct (Hrt 0%nat 5 eq_refl) as (j & Hj & Hat).
    vm_compute in Hj. injection Hj as <-. vm_compute in Hat. discriminate.
  - intros Hrt. destruct (Hrt 5) as (j & Hj & Hat).
    + apply elem_of_cons. by left.
    + vm_compute. reflexivity.
    + vm_compute in Hj. injection Hj as <-. vm_compute in Hat. discriminate.
Qed.

(* adding the same id twice and removing it once leaves an entry in the
   dense arrays that the sparse index does not know *)
Lemma pool_double_add_orphan :
  ∃ p : Pool Z,
    run_ops Pool_new [OpAdd 5 10; OpAdd 5 20; OpRemove 5] = Done p ∧
    m_packed p = [5] ∧ m_data p = [10] ∧ Has p 5 = false ∧ ¬ dense_roundtrip p.
Proof.
  eexists. split; [vm_compute; reflexivity|].
  split; [reflexivity|]. split; [reflexivity|]. split; [vm_compute; reflexivity|].
  intros Hrt. destruct (Hrt 0%nat 5 eq_refl) as (j & Hj & Hat).
  vm_compute in Hj. injection Hj as <-. vm_compute in Hat. discriminate.
Qed.

Lemma pool_packing_invariant_witness :
  adds_fresh (@Pool_new Z) [OpAdd 5 10; OpAdd 7 20; OpRemove 5] = true ∧
  match run_ops (@Pool_new Z) [OpAdd 5 10; OpAdd 7 20; OpRemove 5] with
  | Done p =>
      dense_roundtrip p ∧
      (∀ (i : nat) id, m_packed p !! i = Some id →
         cell_of (m_sparse p) (GetEntityIndex id) = Z.of_nat i) ∧
      length (m_data p) = length (m_packed p) ∧
      (∀ id, Has p id = false → Remove p id = Done p)
  | Fault f => f = assertion_failed ∧ add_beyond_pages [OpAdd 5 10; OpAdd 7 20; OpRemove 5]
  end.
Proof.
  split; [vm_compute; reflexivity|].
  apply (pool_packing_invariant [OpAdd 5 10; OpAdd 7 20; OpRemove 5]).
  vm_compute; reflexivity.
Defined.

(** C5: Add on the id whose slot index is MAX_ENTITIES does not reach the
    assertion; it returns normally and stores the component. *)
Theorem Add_at_MAX_ENTITIES_succeeds :
  GetEntityIndex MAX_ENTITIES = MAX_ENTITIES ∧
  ∃ p : Pool Z,
    Add Pool_new MAX_ENTITIES 7 = Done p ∧
    Has p MAX_ENTITIES = true ∧ Get p MAX_ENTITIES = Done 7 ∧
    m_packed p = [MAX_ENTITIES].
Proof.
  split; [reflexivity|]. eexists.
  split; [vm_compute; reflexivity|].
  split; [vm_compute; reflexivity|].
  split; [vm_compute; reflexivity|reflexivity].
Qed.

(** ** Views (claim C3) *)

Section Views.
Context {T : Type}.
Implicit Types r : Registry T.
Implicit Types p pA pB : Pool T.

Lemma packed_entry p id :
  packed_inv p →
  id ∈ m_packed p ↔ ∃ v, entry_of p (GetEntityIndex id) = Some (id, v).
Proof.
  intros Hinv. pose proof (GetEntityIndex_range id) as Hs. split.
  - intros [i Hi]%list_elem_of_lookup.
    destruct (lookup_lt_is_Some_2 (m_data p) i) as [v Hv].
    { rewrite (inv_lengths p Hinv). by eapply lookup_lt_Some. }
    exists v. apply (entry_of_present p _ i); [by apply inv_dense|done..].
  - intros [v He].
    destruct (decide (cell_of (m_sparse p) (GetEntityIndex id) = -1)) as [Hc|Hc].
    { by rewrite entry_of_absent in He. }
    destruct (present_entry p _ Hinv (proj1 Hs) Hc) as (k & id0 & v0 & Hk & Hid0 & Hv0 & _).
    rewrite (entry_of_present p _ k id0 v0) in He by done. injection He as -> ->.
    apply list_elem_of_lookup. eauto.
Qed.

Lemma entry_slot p (s : Z) id v :
  packed_inv p → 0 ≤ s → entry_of p s = Some (id, v) →
  GetEntityIndex id = s ∧ id ∈ m_packed p.
Proof.
  intros Hinv Hs He.
  destruct (decide (cell_of (m_sparse p) s = -1)) as [Hc|Hc].
  { by rewrite entry_of_absent in He. }
  destruct (present_entry p _ Hinv Hs Hc) as (k & id0 & v0 & Hk & Hid0 & Hv0 & Hslot).
  rewrite (entry_of_present p _ k id0 v0) in He by done. injection He as -> ->.
  split; [done|]. apply list_elem_of_lookup. eauto.
Qed.

Lemma packed_NoDup p : packed_inv p → NoDup (m_packed p).
Proof. intros Hinv. eapply NoDup_fmap_1, packed_inv_NoDup, Hinv. Qed.

Lemma pair_call_fst pA pB id call : pair_call pA pB id = Some call → call.1 = id.
Proof.
  unfold pair_call. destruct (entry_of pA _) as [[? a]|]; [|done].
  destruct (entry_of pB _) as [[? b]|]; [|done]. by intros [= <-].
Qed.

Lemma for_each_append {A X} (body : list X → A → outcome (list X)) (f : A → option X) :
  (∀ calls a, body calls a = Done (calls ++ option_list (f a))) →
  ∀ l calls, for_each body calls l = Done (calls ++ omap f l).
Proof.
  intros Hbody. induction l as [|a l IH]; intros calls.
  - simpl. by rewrite app_nil_r.
  - change (for_each body calls (a :: l))
      with (body calls a ≫= fun s1 => for_each body s1 l).
    rewrite Hbody, bind_Done_l, IH, <- app_assoc. do 2 f_equal.
    change (a :: l) with ([a] ++ l). rewrite omap_app.
    f_equal; try (simpl; by destruct (f a)).
Qed.

(* the loop of View appends, for each id of the leader, the call of
   pair_call *)
Lemma View_loop pA pB (ids : list EntityID) (calls : list (EntityID * list T)) :
  packed_inv pA → packed_inv pB →
  for_each
    (fun calls entityId =>
       let hasAll := forallb (fun p => Has p entityId) [pA; pB] in
       if hasAll
       then args ← collect (fun p => Get p entityId) [pA; pB];
            Done (calls ++ [(entityId, args)])
       else Done calls)
    calls ids
  = Done (calls ++ omap (pair_call pA pB) ids).
Proof.
  intros HA HB. apply for_each_append. clear calls ids. intros calls id.
  cbv zeta. simpl forallb. simpl collect. unfold pair_call.
  destruct (Has pA id) eqn:HhA; simpl.
  - apply (Has_is_Some pA id HA) in HhA as [[ia a] Ha]. rewrite Ha.
    destruct (Has pB id) eqn:HhB; simpl.
    + apply (Has_is_Some pB id HB) in HhB as [[ib b] Hb]. rewrite Hb.
      rewrite (Get_entry pA id ia a HA Ha).
      by rewrite (Get_entry pB id ib b HB Hb).
    + destruct (entry_of pB (GetEntityIndex id)) as [[ib b]|] eqn:Hb.
      { assert (Has pB id = true) by (apply (Has_is_Some pB id HB); by eexists).
        congruence. }
      simpl. by rewrite app_nil_r.
  - destruct (entry_of pA (GetEntityIndex id)) as [[ia a]|] eqn:Ha.
    { assert (Has pA id = true) by (apply (Has_is_Some pA id HA); by eexists).
      congruence. }
    simpl. by rewrite app_nil_r.
Qed.

Lemma View_pair r (A B : Z) pA pB :
  GetPool r A = Some pA → GetPool r B = Some pB →
  packed_inv pA → packed_inv pB →
  View r [A; B] = Done (omap (pair_call pA pB) (m_packed pA)).
Proof.
  intros HgA HgB HA HB. unfold View.
  assert (mapM (GetPool r) [A; B] = Some [pA; pB]) as ->.
  { apply mapM_Some_2. by repeat constructor. }
  cbv iota beta. unfold GetEntities. by rewrite View_loop.
Qed.

Lemma View_missing_pool r (Components : list Z) (c : Z) :
  c ∈ Components → GetPool r c = None → View r Components = Done [].
Proof.
  intros Hin Hnone. unfold View.
  rewrite (mapM_None_2 (GetPool r) Components); [done|].
  apply Exists_exists. eauto.
Qed.

Lemma pair_call_elem pA pB id args :
  packed_inv pA → packed_inv pB → pools_agree pA pB →
  (id, args) ∈ omap (pair_call pA pB) (m_packed pA) ↔
  ∃ a b, args = [a; b] ∧
         entry_of pA (GetEntityIndex id) = Some (id, a) ∧
         entry_of pB (GetEntityIndex id) = Some (id, b).
Proof.
  intros HA HB Hagree. pose proof (GetEntityIndex_range id) as Hs.
  rewrite list_elem_of_omap. split.
  - intros (x & Hx & Hcall). pose proof (pair_call_fst _ _ _ _ Hcall) as Hfst.
    simpl in Hfst. subst x.
    apply (packed_entry pA id HA) in Hx as [a Ha].
    unfold pair_call in Hcall. rewrite Ha in Hcall.
    destruct (entry_of pB (GetEntityIndex id)) as [[ib b]|] eqn:Hb; [|done].
    injection Hcall as <-. exists a, b. split; [done|]. split; [done|].
    destruct (entry_slot pB _ ib b HB (proj1 Hs) Hb) as [Hslot Hin].
    assert (id = ib) as <-; [|done].
    apply Hagree; [|done|done]. apply (packed_entry pA id HA). eauto.
  - intros (a & b & -> & Ha & Hb). exists id. split.
    + apply (packed_entry pA id HA). eauto.
    + unfold pair_call. by rewrite Ha, Hb.
Qed.

Lemma pair_calls_NoDup pA pB (ids : list EntityID) :
  NoDup ids → NoDup (omap (pair_call pA pB) ids).*1.
Proof.
  induction 1 as [|id ids Hnotin Hnd IH]; [constructor|].
  change (id :: ids) with ([id] ++ ids). rewrite omap_app, fmap_app.
  simpl. destruct (pair_call pA pB id) as [call|] eqn:Hcall; simpl; [|done].
  apply NoDup_cons. split; [|done].
  rewrite (pair_call_fst _ _ _ _ Hcall).
  intros (call' & Hfst & Hin)%list_elem_of_fmap.
  apply list_elem_of_omap in Hin as (x & Hx & Hcall').
  apply pair_call_fst in Hcall'. congruence.
Qed.

(** C3, as amended.  A view over a list of kinds one of which has no pool
    makes no call.  When the pools of A and B satisfy the packing invariant
    and hold a common slot under the same entity id, View<A, B> makes
    exactly one call for every entity id that has an entry in both pools
    and none for any other id, each call carries the components the two
    pools hold for the id, and the calls of View<A, B> are those of
    View<B, A> up to their order. *)
Theorem View_pair_correct r (A B : Z) :
  (∀ (Components : list Z) (c : Z),
     c ∈ Components → GetPool r c = None → View r Components = Done []) ∧
  (∀ pA pB,
     GetPool r A = Some pA → GetPool r B = Some pB →
     packed_inv pA → packed_inv pB → pools_agree pA pB →
     ∃ callsAB callsBA,
       View r [A; B] = Done callsAB ∧ View r [B; A] = Done callsBA ∧
       NoDup callsAB.*1 ∧
       (∀ id, id ∈ callsAB.*1 ↔ id ∈ m_packed pA ∧ id ∈ m_packed pB) ∧
       (∀ id args, (id, args) ∈ callsAB →
          ∃ a b, args = [a; b] ∧ Get pA id = Done a ∧ Get pB id = Done b) ∧
       callsAB ≡ₚ swap_args <$> callsBA).
Proof.
  split; [intros cs c; apply View_missing_pool|].
  intros pA pB HgA HgB HA HB Hagree.
  assert (pools_agree pB pA) as Hagree'.
  { intros x y Hx Hy Hxy. symmetry. by apply Hagree. }
  exists (omap (pair_call pA pB) (m_packed pA)), (omap (pair_call pB pA) (m_packed pB)).
  split; [by apply View_pair|]. split; [by apply View_pair|].
  assert (NoDup (omap (pair_call pA pB) (m_packed pA)).*1) as HndAB
    by (by apply pair_calls_NoDup, packed_NoDup).
  assert (NoDup (omap (pair_call pB pA) (m_packed pB)).*1) as HndBA
    by (by apply pair_calls_NoDup, packed_NoDup).
  split; [done|]. split_and!.
  - intros id. rewrite list_elem_of_fmap. split.
    + intros ([id' args] & -> & Hin). simpl.
      apply (pair_call_elem pA pB) in Hin as (a & b & _ & Ha & Hb); [|done..].
      split; [apply (packed_entry pA id' HA)|apply (packed_entry pB id' HB)]; eauto.
    + intros [[a Ha]%(packed_entry pA id HA) [b Hb]%(packed_entry pB id HB)].
      exists (id, [a; b]). split; [done|].
      apply pair_call_elem; [done..|]. eauto.
  - intros id args (a & b & -> & Ha & Hb)%pair_call_elem; [|done..].
    exists a, b. split; [done|].
    split; [by apply (Get_entry pA id id)|by apply (Get_entry pB id id)].
  - apply NoDup_Permutation.
    + by eapply NoDup_fmap_1.
    + apply NoDup_fmap_2_strong; [|by eapply NoDup_fmap_1].
      intros [x xs] [y ys] Hx Hy. unfold swap_args. simpl. intros [= -> Hrev].
      apply (f_equal reverse) in Hrev. rewrite !reverse_involutive in Hrev.
      by subst.
    + intros [id args]. rewrite list_elem_of_fmap. split.
      * intros (a & b & -> & Ha & Hb)%pair_call_elem; [|done..].
        exists (id, [b; a]). split; [done|].
        apply pair_call_elem; [done..|]. eauto.
      * intros ([id' args'] & Heq & Hin). unfold swap_args in Heq. simpl in Heq.
        injection Heq as -> ->.
        apply (pair_call_elem pB pA) in Hin as (b & a & -> & Hb & Ha); [|done..].
        apply pair_call_elem; [done..|]. exists a, b. by split.
Qed.
End Views.

(** Views over pools with a repeated id *)

(** C3, as stated, fails: after AddComponent<A>(e, 1), AddComponent<A>(e, 2)
    and AddComponent<B>(e, 3), View<A, B> calls back twice for the one
    entity and View<B, A> once. *)
Lemma View_repeated_add_counterexample :
  ∃ (e : Entity) (r1 r2 r3 r4 : Registry Z),
    CreateEntity (Registry_new Z) = Done (e, r1) ∧
    AddComponent r1 e 0 1 = Done r2 ∧
    AddComponent r2 e 0 2 = Done r3 ∧
    AddComponent r3 e 1 3 = Done r4 ∧
    View r4 [0; 1] = Done [(GetId e, [2; 3]); (GetId e, [2; 3])] ∧
    View r4 [1; 0] = Done [(GetId e, [3; 2])] ∧
    ¬ (∃ calls, View r4 [0; 1] = Done calls ∧ NoDup calls.*1).
Proof.
  eexists _, _, _, _, _.
  split; [vm_compute; reflexivity|].
  split; [vm_compute; reflexivity|].
  split; [vm_compute; reflexivity|].
  split; [vm_compute; reflexivity|].
  split; [vm_compute; reflexivity|].
  split; [vm_compute; reflexivity|].
  intros (calls & Hcalls & Hnd). vm_compute in Hcalls. injection Hcalls as <-.
  simpl in Hnd. apply NoDup_cons in Hnd as [Hnotin _]. apply Hnotin. by left.
Qed.

Lemma pool_of_inv {T} (ops : list (PoolOp T)) :
  adds_fresh Pool_new ops = true → packed_inv (pool_of ops).
Proof.
  intros Hfresh. unfold pool_of.
  pose proof (run_ops_inv ops Pool_new Pool_new_inv Hfresh) as H.
  destruct (run_ops Pool_new ops); [done|apply Pool_new_inv].
Qed.

Lemma View_pair_correct_witness :
  ∃ r : Registry Z,
    View r [0; 2] = Done [] ∧
    View r [0; 1] = Done [(1, [11; 21])] ∧
    View r [1; 0] = Done [(1, [21; 11])].
Proof.
  set (pA := pool_of [OpAdd 0 10; OpAdd 1 11]).
  set (pB := pool_of [OpAdd 1 21; OpAdd 2 22]).
  set (r := with_componentPools (Registry_new Z) [Some pA; Some pB]).
  exists r.
  destruct (View_pair_correct r 0 1) as [Hmissing Hboth].
  split.
  { apply (Hmissing [0; 2] 2); [|vm_compute; reflexivity].
    apply elem_of_cons. right. apply elem_of_cons. by left. }
  destruct (Hboth pA pB) as (callsAB & callsBA & HAB & HBA & _).
  - vm_compute. reflexivity.
  - vm_compute. reflexivity.
  - apply pool_of_inv. vm_compute. reflexivity.
  - apply pool_of_inv. vm_compute. reflexivity.
  - intros idA idB HA HB Hslot.
    assert (m_packed pA = [0; 1]) as HpA by (vm_compute; reflexivity).
    assert (m_packed pB = [1; 2]) as HpB by (vm_compute; reflexivity).
    rewrite HpA in HA. rewrite HpB in HB. clear - HA HB Hslot.
    repeat (apply elem_of_cons in HA as [->|HA]);
      repeat (apply elem_of_cons in HB as [->|HB]);
      try (by apply elem_of_nil in HA); try (by apply elem_of_nil in HB);
      try reflexivity; vm_compute in Hslot; discriminate.
  - clear - HAB HBA. vm_compute in HAB. vm_compute in HBA. split; [|done]. done.
Defined.

(** ** Entity handles, validity and the pending-destroy set (claims C8 and C10) *)

Section RegistryBasics.
Context {T : Type}.
Implicit Types r : Registry T.

Lemma set_insert_idem (e : Entity) (s : list Entity) :
  set_insert e (set_insert e s) = set_insert e s.
Proof.
  induction s as [|x s IH]; simpl.
  - unfold Entity_lt. by rewrite Z.ltb_irrefl.
  - destruct (Entity_lt e x) eqn:Hex.
    + simpl. unfold Entity_lt. by rewrite Z.ltb_irrefl.
    + destruct (Entity_lt x e) eqn:Hxe; simpl; rewrite Hex, Hxe; [|done].
      by rewrite IH.
Qed.

Lemma set_insert_elem (e : Entity) (s : list Entity) :
  ∃ x, x ∈ set_insert e s ∧ GetId x = GetId e.
Proof.
  induction s as [|x s IH]; simpl.
  - exists e. split; [by apply list_elem_of_singleton|done].
  - destruct (Entity_lt e x) eqn:Hex.
    + exists e. split; [by apply elem_of_cons; left|done].
    + destruct (Entity_lt x e) eqn:Hxe.
      * destruct IH as (y & Hy & Hid). exists y. split; [by apply elem_of_cons; right|done].
      * exists x. split; [by apply elem_of_cons; left|].
        unfold Entity_lt in *. apply Z.ltb_ge in Hex, Hxe. lia.
Qed.

(* the handle is invalid exactly when its slot lies outside the version
   table or the stored generation differs from the one in the id *)
Lemma IsValid_false r e :
  IsValid r e = false ↔
  Z.of_nat (length (m_entityVersions r)) ≤ GetEntityIndex (GetId e) ∨
  m_entityVersions r !! Z.to_nat (GetEntityIndex (GetId e))
    ≠ Some (GetEntityVersion (GetId e)).
Proof.
  unfold IsValid. cbv zeta. destruct (decide _) as [Hge|Hlt].
  - split; [by left|done].
  - destruct (m_entityVersions r !! _) as [v|] eqn:Hv.
    + destruct (Z.eqb_spec v (GetEntityVersion (GetId e))) as [->|Hne]; split.
      * done.
      * intros [?|?]; [lia|done].
      * intros _. right. congruence.
      * done.
    + split; [|done]. intros _. by right.
Qed.

Lemma IsValid_true r e :
  IsValid r e = true ↔
  GetEntityIndex (GetId e) < Z.of_nat (length (m_entityVersions r)) ∧
  m_entityVersions r !! Z.to_nat (GetEntityIndex (GetId e))
    = Some (GetEntityVersion (GetId e)).
Proof.
  unfold IsValid. cbv zeta. destruct (decide _) as [Hge|Hlt].
  - split; [done|]. intros [? _]. lia.
  - destruct (m_entityVersions r !! _) as [v|] eqn:Hv.
    + destruct (Z.eqb_spec v (GetEntityVersion (GetId e))) as [->|Hne]; split.
      * intros _. split; [lia|done].
      * done.
      * done.
      * intros [_ ?]. congruence.
    + split; [done|]. intros [_ ?]. done.
Qed.

(** C8: KillEntity on a handle whose slot index is outside the version
    table, or whose generation differs from the stored one, returns the
    registry unchanged; on a valid handle it inserts the handle into the
    pending-destroy set and changes no other member. *)
Theorem KillEntity_invalid_noop r e :
  (Z.of_nat (length (m_entityVersions r)) ≤ GetEntityIndex (GetId e) ∨
   m_entityVersions r !! Z.to_nat (GetEntityIndex (GetId e))
     ≠ Some (GetEntityVersion (GetId e)) →
   KillEntity r e = r) ∧
  (IsValid r e = true →
   KillEntity r e = with_entitiesToBeKilled r (set_insert e (m_entitiesToBeKilled r)) ∧
   (∃ x, x ∈ m_entitiesToBeKilled (KillEntity r e) ∧ GetId x = GetId e) ∧
   m_numEntities (KillEntity r e) = m_numEntities r ∧
   m_entitiesToBeAdded (KillEntity r e) = m_entitiesToBeAdded r ∧
   m_componentPools (KillEntity r e) = m_componentPools r ∧
   m_entityComponentSignatures (KillEntity r e) = m_entityComponentSignatures r ∧
   m_systems (KillEntity r e) = m_systems r ∧
   m_freeIndices (KillEntity r e) = m_freeIndices r ∧
   m_entityVersions (KillEntity r e) = m_entityVersions r ∧
   m_entityToTag (KillEntity r e) = m_entityToTag r ∧
   m_tagToEntity (KillEntity r e) = m_tagToEntity r ∧
   m_groups (KillEntity r e) = m_groups r ∧
   m_entityGroups (KillEntity r e) = m_entityGroups r).
Proof.
  split.
  - intros Hinv. apply IsValid_false in Hinv. unfold KillEntity. by rewrite Hinv.
  - intros Hval. unfold KillEntity. rewrite Hval. simpl.
    split_and!; try done. apply set_insert_elem.
Qed.

Lemma KillEntity_idem r e : KillEntity (KillEntity r e) e = KillEntity r e.
Proof.
  unfold KillEntity. destruct (IsValid r e) eqn:Hval; simpl.
  - assert (IsValid (with_entitiesToBeKilled r (set_insert e (m_entitiesToBeKilled r))) e
            = true) as -> by done.
    simpl. unfold with_entitiesToBeKilled. simpl. by rewrite set_insert_idem.
  - by rewrite Hval.
Qed.

End RegistryBasics.

Lemma KillEntity_invalid_noop_witness :
  ∃ r : Registry Z,
    KillEntity r (mkEntity (2 ^ 32) this) = r ∧
    KillEntity r (mkEntity 5 this) = r ∧
    m_entitiesToBeKilled (KillEntity r (mkEntity 0 this)) = [mkEntity 0 this].
Proof.
  exists (with_entityVersions (Registry_new Z) [0]).
  pose proof (KillEntity_invalid_noop (with_entityVersions (Registry_new Z) [0])) as H.
  split_and!.
  - apply (H (mkEntity (2 ^ 32) this)). right. vm_compute. congruence.
  - apply (H (mkEntity 5 this)). left. vm_compute. congruence.
  - destruct (H (mkEntity 0 this)) as [_ Hv]. destruct Hv as [-> _]; reflexivity.
Defined.



(** ** Tags (claim C7) *)

Section Tags.
Context {T : Type}.
Implicit Types r : Registry T.

Lemma to_u32_succ (index : Z) :
  0 ≤ index < 2 ^ 32 - 1 → to_u32 (index + 1) = index + 1.
Proof. intros H. unfold to_u32. apply Z.mod_small. lia. Qed.

Lemma length_vec_resize {A} (n : nat) (d : A) (v : list A) :
  length (vec_resize n d v) = n.
Proof. unfold vec_resize. rewrite length_app, length_take, length_replicate. lia. Qed.

Lemma lookup_vec_resize {A} (n i : nat) (d x : A) (v : list A) :
  v !! i = Some x → (length v ≤ n)%nat → vec_resize n d v !! i = Some x.
Proof.
  intros Hx Hle. unfold vec_resize. rewrite take_ge by done. by apply lookup_app_l_Some.
Qed.

Lemma TagEntity_Done r e (tag : string) :
  GetEntityIndex (GetId e) < 2 ^ 32 - 1 →
  ∃ tags,
    TagEntity r e tag =
      Done (with_tags r tags (<[HashString tag := GetId e]> (m_tagToEntity r))) ∧
    tags !! Z.to_nat (GetEntityIndex (GetId e)) = Some (HashString tag) ∧
    GetEntityIndex (GetId e) < Z.of_nat (length tags).
Proof.
  intros Hidx. unfold TagEntity. cbv zeta.
  pose proof (GetEntityIndex_range (GetId e)) as Hr.
  set (index := GetEntityIndex (GetId e)) in *.
  set (tags1 := if decide _ then _ else _).
  assert (index < Z.of_nat (length tags1)) as Hlen.
  { subst tags1. destruct (decide _) as [Hge|Hlt]; [|lia].
    rewrite length_vec_resize, to_u32_succ by lia. lia. }
  rewrite (proj2 (vec_store_Done tags1 _ index (HashString tag))
             (conj (conj (proj1 Hr) Hlen) eq_refl)).
  rewrite bind_Done_l. eexists. split; [done|].
  split; [|by rewrite length_insert].
  apply list_lookup_insert_eq. lia.
Qed.

Lemma EntityHasTag_lookup r e (tag : string) (hash : Z) :
  m_entityToTag r !! Z.to_nat (GetEntityIndex (GetId e)) = Some hash →
  EntityHasTag r e tag = (hash =? HashString tag).
Proof.
  intros Hl. unfold EntityHasTag. cbv zeta. rewrite Hl.
  apply lookup_lt_Some in Hl. pose proof (GetEntityIndex_range (GetId e)).
  by rewrite decide_False by lia.
Qed.

(* for an entity whose slot index is below 2^32 - 1 and tags a and b with
   different hashes, TagEntity(e, a) followed by TagEntity(e, b) both
   return, and afterwards EntityHasTag(e, b) is true and EntityHasTag(e, a)
   is false *)
Lemma retag_overwrites_entity_tag r e (a b : string) :
  GetEntityIndex (GetId e) < 2 ^ 32 - 1 →
  HashString a ≠ HashString b →
  ∃ r1 r2,
    TagEntity r e a = Done r1 ∧ TagEntity r1 e b = Done r2 ∧
    EntityHasTag r2 e b = true ∧ EntityHasTag r2 e a = false.
Proof.
  intros Hidx Hab.
  destruct (TagEntity_Done r e a Hidx) as (tags1 & H1 & _ & _).
  eexists. rewrite H1.
  destruct (TagEntity_Done (with_tags r tags1 (<[HashString a:=GetId e]> (m_tagToEntity r)))
              e b Hidx) as (tags2 & H2 & Hl2 & _).
  eexists. rewrite H2. split_and!; [done..| |].
  - rewrite (EntityHasTag_lookup _ e b (HashString b)) by done. apply Z.eqb_refl.
  - rewrite (EntityHasTag_lookup _ e a (HashString b)) by done.
    apply Z.eqb_neq. congruence.
Qed.

(* the entry of the first tag stays in the tag map: the lookup of the old
   tag still resolves to the entity *)
Lemma retag_keeps_old_lookup r e (a b : string) r1 r2 :
  TagEntity r e a = Done r1 → TagEntity r1 e b = Done r2 →
  GetEntityByTag r2 a = mkEntity (GetId e) this.
Proof.
  unfold TagEntity. cbv zeta. intros H1 H2.
  outcome_inv H1. outcome_inv H2. injection H1 as <-. injection H2 as <-.
  unfold GetEntityByTag. cbv zeta. simpl m_tagToEntity.
  destruct (decide (HashString b = HashString a)) as [->|Hne].
  - by rewrite lookup_insert_eq.
  - rewrite lookup_insert_ne by done. by rewrite lookup_insert_eq.
Qed.

(* RemoveEntityTag erases the entry of the current tag on both sides *)
Lemma RemoveEntityTag_erases r e (hash : Z) :
  m_entityToTag r !! Z.to_nat (GetEntityIndex (GetId e)) = Some hash → hash ≠ 0 →
  m_tagToEntity (RemoveEntityTag r e) !! hash = None ∧
  m_entityToTag (RemoveEntityTag r e) !! Z.to_nat (GetEntityIndex (GetId e)) = Some 0.
Proof.
  intros Hl Hne. unfold RemoveEntityTag. cbv zeta. rewrite Hl.
  pose proof (lookup_lt_Some _ _ _ Hl). pose proof (GetEntityIndex_range (GetId e)).
  rewrite decide_False by lia.
  rewrite (proj2 (Z.eqb_neq hash 0) Hne). simpl. split.
  - apply lookup_delete_eq.
  - by apply list_lookup_insert_eq.
Qed.
End Tags.

Lemma retag_overwrites_entity_tag_example :
  ∃ r1 r2 : Registry Z,
    TagEntity (Registry_new Z) (mkEntity 0 this) "player" = Done r1 ∧
    TagEntity r1 (mkEntity 0 this) "enemy" = Done r2 ∧
    EntityHasTag r2 (mkEntity 0 this) "enemy" = true ∧
    EntityHasTag r2 (mkEntity 0 this) "player" = false.
Proof.
  apply (retag_overwrites_entity_tag (Registry_new Z) (mkEntity 0 this) "player" "enemy").
  - vm_compute. reflexivity.
  - vm_compute. congruence.
Qed.

(** C7: tag a new entity "player" and then "enemy".  EntityHasTag reports
    the second tag and no longer the first, but the entry of "player" is
    still in the tag map: GetEntityByTag("player") returns the handle of
    the entity. *)
Theorem retag_leaves_old_tag_lookup :
  ∃ (e : Entity) (r0 r1 r2 : Registry Z),
    CreateEntity (Registry_new Z) = Done (e, r0) ∧
    HashString "player" ≠ HashString "enemy" ∧
    TagEntity r0 e "player" = Done r1 ∧
    TagEntity r1 e "enemy" = Done r2 ∧
    EntityHasTag r2 e "enemy" = true ∧
    EntityHasTag r2 e "player" = false ∧
    GetEntityByTag r2 "player" = e ∧
    Entity_eq (GetEntityByTag r2 "player") e = true.
Proof.
  eexists _, _, _, _. split; [vm_compute; reflexivity|].
  split; [vm_compute; congruence|].
  split; [vm_compute; reflexivity|].
  split; [vm_compute; reflexivity|].
  split; [vm_compute; reflexivity|].
  split; [vm_compute; reflexivity|].
  split; vm_compute; reflexivity.
Qed.

(* tags are compared by their 32-bit hash: two names with one hash are one
   tag for the registry *)
Lemma tags_with_one_hash :
  "costarring"%string ≠ "liquid"%string ∧ HashString "costarring" = HashString "liquid".
Proof. split; [discriminate | vm_compute; reflexivity]. Qed.

(** ** Components of an entity (claims C6 and C1) *)

Section Components.
Context {T : Type}.
Implicit Types r : Registry T.





(** AddComponent and RemoveComponent touch the pools and the signature
    table only. *)
Lemma AddComponent_frame r e c v r' :
  AddComponent r e c v = Done r' →
  m_systems r' = m_systems r ∧
  m_entitiesToBeAdded r' = m_entitiesToBeAdded r ∧
  m_entitiesToBeKilled r' = m_entitiesToBeKilled r ∧
  m_entityVersions r' = m_entityVersions r ∧
  m_freeIndices r' = m_freeIndices r ∧
  m_numEntities r' = m_numEntities r.
Proof.
  unfold AddComponent. cbv zeta. intros H. outcome_inv H. by injection H as <-.
Qed.

Lemma RemoveComponent_frame r e c r' :
  RemoveComponent r e c = Done r' →
  m_systems r' = m_systems r ∧
  m_entitiesToBeAdded r' = m_entitiesToBeAdded r ∧
  m_entitiesToBeKilled r' = m_entitiesToBeKilled r ∧
  m_entityVersions r' = m_entityVersions r ∧
  m_freeIndices r' = m_freeIndices r ∧
  m_numEntities r' = m_numEntities r.
Proof.
  unfold RemoveComponent. cbv zeta. intros H. outcome_inv H.
  destruct a as [pool|]; [|done]. outcome_inv H. by injection H as <-.
Qed.

Lemma Update_nothing_pending r :
  m_entitiesToBeAdded r = [] → m_entitiesToBeKilled r = [] → Update r = Done r.
Proof.
  intros Ha Hk. unfold Update. rewrite Ha. simpl. rewrite Hk. simpl.
  destruct r; simpl in *. by subst.
Qed.

(** C6: AddComponent and RemoveComponent leave the map of systems, and so
    the cached entity list of every system, unchanged, and they leave the
    two pending sets unchanged; an Update that finds nothing pending
    returns the registry as it is, so membership is not recomputed for an
    entity that is already visible. *)
Theorem component_changes_keep_system_lists r e (c : Z) (v : T) :
  (∀ r', AddComponent r e c v = Done r' →
     m_systems r' = m_systems r ∧
     (∀ key, GetSystemEntities <$> m_systems r' !! key
             = GetSystemEntities <$> m_systems r !! key) ∧
     m_entitiesToBeAdded r' = m_entitiesToBeAdded r ∧
     m_entitiesToBeKilled r' = m_entitiesToBeKilled r ∧
     (m_entitiesToBeAdded r = [] → m_entitiesToBeKilled r = [] →
      Update r' = Done r')) ∧
  (∀ r', RemoveComponent r e c = Done r' →
     m_systems r' = m_systems r ∧
     (∀ key, GetSystemEntities <$> m_systems r' !! key
             = GetSystemEntities <$> m_systems r !! key) ∧
     m_entitiesToBeAdded r' = m_entitiesToBeAdded r ∧
     m_entitiesToBeKilled r' = m_entitiesToBeKilled r ∧
     (m_entitiesToBeAdded r = [] → m_entitiesToBeKilled r = [] →
      Update r' = Done r')).
Proof.
  split; intros r' H.
  - apply AddComponent_frame in H as (Hs & Ha & Hk & _).
    split_and!; [done|by rewrite Hs|done|done|].
    intros Ha0 Hk0. apply Update_nothing_pending; congruence.
  - apply RemoveComponent_frame in H as (Hs & Ha & Hk & _).
    split_and!; [done|by rewrite Hs|done|done|].
    intros Ha0 Hk0. apply Update_nothing_pending; congruence.
Qed.
End Components.

Lemma component_changes_keep_system_lists_witness :
  ∃ (r r' : Registry Z),
    m_systems r = {[ 0%nat := mkSystem 1 [mkEntity 0 this] ]} ∧
    AddComponent r (mkEntity 0 this) 1 42 = Done r' ∧
    m_systems r' = m_systems r ∧ Update r' = Done r'.
Proof.
  set (r := mkRegistry (T:=Z) 1 [] [] [] [1] {[ 0%nat := mkSystem 1 [mkEntity 0 this] ]}
              [] [0] [] ∅ ∅ []).
  assert (∃ r', AddComponent r (mkEntity 0 this) 1 42 = Done r') as [r' Hr'].
  { eexists. vm_compute. reflexivity. }
  exists r, r'. split; [reflexivity|]. split; [done|].
  destruct (component_changes_keep_system_lists r (mkEntity 0 this) 1 42) as [Hadd _].
  destruct (Hadd r' Hr') as (Hs & _ & _ & _ & Hu).
  split; [done|]. by apply Hu.
Defined.

Section ComponentRoundTrip.
Context {T : Type}.
Implicit Types r : Registry T.

(* the pool of a kind after AddComponent has sized the vector of pools *)
Lemma pool_slot_after_resize (pools : list (option (Pool T))) (c : Z) :
  0 ≤ c →
  let pools1 :=
    if decide (Z.of_nat (length pools) ≤ c)
    then vec_resize (Z.to_nat (c + 1)) None pools else pools in
  c < Z.of_nat (length pools1) ∧
  pools1 !! Z.to_nat c = Some (mjoin (pools !! Z.to_nat c)).
Proof.
  intros Hc. cbv zeta. destruct (decide _) as [Hge|Hlt].
  - rewrite length_vec_resize. split; [lia|].
    unfold vec_resize. rewrite take_ge by lia.
    rewrite lookup_app_r by lia. rewrite (lookup_ge_None_2 pools) by lia.
    simpl. apply lookup_replicate. split; [done|]. lia.
  - split; [lia|].
    destruct (lookup_lt_is_Some_2 pools (Z.to_nat c) ltac:(lia)) as [o Ho].
    rewrite Ho. by destruct o.
Qed.

Lemma GetEntityIndex_small (id : EntityID) : 0 ≤ id < 2 ^ 32 → GetEntityIndex id = id.
Proof.
  intros Hid. unfold GetEntityIndex, ENTITY_INDEX_MASK, to_u32.
  change 0xFFFFFFFF with (Z.ones 32). rewrite Z.land_ones by lia.
  rewrite Z.mod_mod by lia. apply Z.mod_small. lia.
Qed.

(** For a handle of generation zero (its id is its slot index) within the
    signature table and the pool capacity, and a component id below
    MAX_COMPONENTS: AddComponent returns, HasComponent is then true and
    GetComponent gives the value added; after RemoveComponent, HasComponent
    is false. *)
Lemma AddComponent_HasComponent_GetComponent r e (c : Z) (v : T) :
  0 ≤ c < MAX_COMPONENTS →
  0 ≤ GetId e < Z.of_nat (length (m_entityComponentSignatures r)) →
  GetId e < SPARSE_PAGES * PAGE_SIZE →
  (∀ p, m_componentPools r !! Z.to_nat c = Some (Some p) →
        packed_inv p ∧ Has p (GetId e) = false) →
  ∃ r1 r2,
    AddComponent r e c v = Done r1 ∧
    HasComponent r1 e c = Done true ∧
    GetComponent r1 e c = Done v ∧
    RemoveComponent r1 e c = Done r2 ∧
    HasComponent r2 e c = Done false.
Proof.
  intros Hc Hid Hcap Hpools.
  assert (GetEntityIndex (GetId e) = GetId e) as Hslot.
  { apply GetEntityIndex_small. rewrite capacity_value in Hcap. lia. }
  destruct (pool_slot_after_resize (m_componentPools r) c (proj1 Hc)) as [Hlen1 Hslot1].
  unfold AddComponent. cbv zeta.
  set (pools1 := if decide _ then _ else _) in *.
  rewrite (vec_at_lookup pools1 c _ (proj1 Hc) Hslot1), bind_Done_l.
  set (pool := default Pool_new (mjoin (m_componentPools r !! Z.to_nat c))).
  assert (packed_inv pool ∧ Has pool (GetId e) = false) as [Hinv Habs].
  { subst pool. destruct (m_componentPools r !! Z.to_nat c) as [[p|]|] eqn:Hp; simpl.
    - by apply Hpools.
    - split; [apply Pool_new_inv|]. apply Has_false, Pool_new_cell.
    - split; [apply Pool_new_inv|]. apply Has_false, Pool_new_cell. }
  destruct (Add_spec pool (GetId e) v Hinv ltac:(by rewrite Hslot))
    as (sp' & Hadd & _).
  destruct (Add_inv pool (GetId e) v _ Hinv Habs Hadd) as (Hinv1 & _ & Hentry1).
  rewrite Hadd, bind_Done_l.
  set (pool1 := mkPool _ _ sp') in *.
  rewrite (vec_store_lt pools1 c (Some pool1)) by lia. rewrite bind_Done_l.
  destruct (lookup_lt_is_Some_2 (m_entityComponentSignatures r) (Z.to_nat (GetId e))
              ltac:(lia)) as [sig Hsig].
  rewrite (vec_at_lookup _ _ _ (proj1 Hid) Hsig), bind_Done_l.
  unfold Signature_set at 1. rewrite decide_True by done. rewrite bind_Done_l.
  rewrite vec_store_lt by done. rewrite bind_Done_l.
  destruct (Remove_inv pool1 (GetId e) Hinv1) as (pool2 & Hrem & _).
  eexists _, _. split; [reflexivity|].
  (* HasComponent and GetComponent after the addition *)
  assert (∀ (sigs : list Z) x, length sigs = length (m_entityComponentSignatures r) →
            vec_at (<[Z.to_nat (GetId e) := x]> sigs) (GetId e) = Done x) as Hsigs.
  { intros sigs x Hl. apply vec_at_lookup; [lia|]. apply list_lookup_insert_eq. lia. }
  assert (∀ (ps : list (option (Pool T))) x, length ps = length pools1 →
            vec_at (<[Z.to_nat c := x]> ps) c = Done x) as Hps.
  { intros ps x Hl. apply vec_at_lookup; [lia|]. apply list_lookup_insert_eq. lia. }
  split.
  { unfold HasComponent. cbv zeta. simpl m_entityComponentSignatures.
    rewrite Hsigs by done. rewrite bind_Done_l.
    unfold Signature_test. rewrite decide_True by done.
    by rewrite Z.setbit_eq by lia. }
  split.
  { unfold GetComponent. simpl m_componentPools.
    rewrite Hps by done. rewrite bind_Done_l.
    apply (Get_entry pool1 (GetId e) (GetId e)); [done|].
    rewrite Hentry1 by lia. by rewrite decide_True. }
  unfold RemoveComponent. cbv zeta. simpl m_componentPools.
  simpl m_entityComponentSignatures.
  rewrite Hps by done. rewrite bind_Done_l.
  unfold RemoveEntityFromPool. rewrite Hrem, bind_Done_l.
  rewrite vec_store_lt by (rewrite length_insert; lia). rewrite bind_Done_l.
  rewrite Hsigs by done. rewrite bind_Done_l.
  unfold Signature_set at 1. rewrite decide_True by done. rewrite bind_Done_l.
  rewrite vec_store_lt by (rewrite length_insert; lia). rewrite bind_Done_l.
  split; [reflexivity|].
  unfold HasComponent. cbv zeta. simpl m_entityComponentSignatures.
  rewrite Hsigs by (by rewrite length_insert). rewrite bind_Done_l.
  unfold Signature_test. rewrite decide_True by done.
  by rewrite Z.clearbit_eq by lia.
Qed.

(** A handle whose id is not below the length of the signature table makes
    AddComponent, HasComponent and RemoveComponent leave the vector; a
    handle of generation one or more has an id of at least 2^32. *)
Lemma HasComponent_outside_table r e (c : Z) :
  Z.of_nat (length (m_entityComponentSignatures r)) ≤ GetId e →
  HasComponent r e c = Fault undefined_behaviour.
Proof.
  intros Hge. unfold HasComponent, vec_at. cbv zeta.
  by rewrite decide_False by lia.
Qed.

Lemma AddComponent_outside_table r e (c : Z) (v : T) :
  Z.of_nat (length (m_entityComponentSignatures r)) ≤ GetId e →
  is_Done (AddComponent r e c v) = false.
Proof.
  intros Hge. unfold AddComponent. cbv zeta.
  destruct (vec_at _ c) as [slot|]; [|done]. rewrite bind_Done_l.
  destruct (Add _ _ _) as [pool1|]; [|done]. rewrite bind_Done_l.
  destruct (vec_store _ c _) as [pools2|]; [|done]. rewrite bind_Done_l.
  unfold vec_at at 1. by rewrite decide_False by lia.
Qed.
End ComponentRoundTrip.

(** C1: create an entity, kill it, synchronize and create again.  The new
    handle is valid, reuses slot 0 and has generation 1, so its id is 2^32;
    AddComponent and HasComponent index the signature table, which has one
    element, with that id. *)
Theorem AddComponent_recycled_handle_out_of_bounds :
  ∃ (e0 e1 : Entity) (r1 r3 r4 : Registry Z),
    CreateEntity (Registry_new Z) = Done (e0, r1) ∧
    Update (KillEntity r1 e0) = Done r3 ∧
    CreateEntity r3 = Done (e1, r4) ∧
    IsValid r4 e1 = true ∧
    GetEntityIndex (GetId e1) = 0 ∧ GetEntityVersion (GetId e1) = 1 ∧
    length (m_entityComponentSignatures r4) = 1%nat ∧
    AddComponent r4 e1 0 42 = Fault undefined_behaviour ∧
    HasComponent r4 e1 0 = Fault undefined_behaviour.
Proof.
  eexists _, _, _, _, _.
  split; [vm_compute; reflexivity|].
  split; [vm_compute; reflexivity|].
  split; [vm_compute; reflexivity|].
  split; [vm_compute; reflexivity|].
  split; [vm_compute; reflexivity|].
  split; [vm_compute; reflexivity|].
  split; [vm_compute; reflexivity|].
  split; vm_compute; reflexivity.
Qed.

(* the same calls on the first handle, of generation zero *)
Lemma AddComponent_fresh_handle :
  ∃ (e0 : Entity) (r1 r2 r3 : Registry Z),
    CreateEntity (Registry_new Z) = Done (e0, r1) ∧
    AddComponent r1 e0 0 42 = Done r2 ∧
    HasComponent r2 e0 0 = Done true ∧ GetComponent r2 e0 0 = Done 42 ∧
    RemoveComponent r2 e0 0 = Done r3 ∧ HasComponent r3 e0 0 = Done false.
Proof.
  eexists _, _, _, _.
  split; [vm_compute; reflexivity|].
  split; [vm_compute; reflexivity|].
  split; [vm_compute; reflexivity|].
  split; [vm_compute; reflexivity|].
  split; vm_compute; reflexivity.
Qed.

(** Recycled handles and the signature table *)

Section RecycledHandles.
Context {T : Type}.
Implicit Types r : Registry T.

Lemma RemoveComponent_outside_table r e (c : Z) :
  Z.of_nat (length (m_entityComponentSignatures r)) ≤ GetId e →
  is_Done (RemoveComponent r e c) = false.
Proof.
  intros Hge. unfold RemoveComponent. cbv zeta.
  destruct (vec_at _ c) as [[pool|]|]; [|done..]. rewrite bind_Done_l.
  destruct (RemoveEntityFromPool _ _) as [pool1|]; [|done]. rewrite bind_Done_l.
  destruct (vec_store _ c _) as [pools1|]; [|done]. rewrite bind_Done_l.
  unfold vec_at at 1. by rewrite decide_False by lia.
Qed.

(* in a well-formed registry no handle of generation one or more passes
   the component functions: its id is at least 2^32, the table is shorter *)
Lemma recycled_handle_outside_table r e (c : Z) (v : T) :
  registry_wf r → 0 ≤ GetId e → 1 ≤ GetEntityVersion (GetId e) →
  HasComponent r e c = Fault undefined_behaviour ∧
  is_Done (AddComponent r e c v) = false ∧
  is_Done (RemoveComponent r e c) = false.
Proof.
  intros Hwf Hid Hgen.
  pose proof (wf_signatures_length r (wf_tables r Hwf)) as Hlen.
  assert (2 ^ 32 ≤ GetId e) as Hbig.
  { rewrite GetEntityVersion_div in Hgen.
    destruct (decide (GetId e < 2 ^ 32)) as [Hsmall|]; [|lia].
    rewrite Z.div_small in Hgen by lia. rewrite Z.mod_0_l in Hgen by lia. lia. }
  split_and!.
  - apply HasComponent_outside_table. lia.
  - apply AddComponent_outside_table. lia.
  - apply RemoveComponent_outside_table. lia.
Qed.
End RecycledHandles.

(** ** Destruction of an entity at Update *)

Section Destruction.
Context {T : Type}.
Implicit Types r : Registry T.

Lemma remove_from_pools_total (pools : list (option (Pool T))) (id : EntityID) :
  Forall (fun o => ∀ p, o = Some p → packed_inv p) pools →
  ∃ pools',
    remove_from_pools pools id = Done pools' ∧
    Forall (fun o => ∀ p, o = Some p → packed_inv p) pools'.
Proof.
  unfold remove_from_pools.
  induction 1 as [|o pools Ho Hpools IH]; simpl collect.
  - by exists [].
  - destruct IH as (pools' & -> & Hpools').
    destruct o as [p|].
    + destruct (Remove_inv p id (Ho p eq_refl)) as (p1 & Hrem & Hinv1 & _).
      unfold RemoveEntityFromPool. rewrite Hrem. rewrite !bind_Done_l.
      eexists. split; [done|]. constructor; [|done]. by intros ? [= <-].
    + rewrite !bind_Done_l. eexists. split; [done|]. by constructor.
Qed.

Lemma remove_from_group_total (id : EntityID) (groups : gmap Z GroupData) (groupHash : Z) :
  (∀ h g, groups !! h = Some g → group_inv g) →
  ∃ groups',
    remove_from_group id groups groupHash = Done groups' ∧
    (∀ h g, groups' !! h = Some g → group_inv g).
Proof.
  intros Hinv. unfold remove_from_group.
  destruct (groups !! groupHash) as [group|] eqn:Hgroup; [|by exists groups].
  destruct (entityToIndex group !! id) as [indexToRemove|] eqn:Hidx; [|by exists groups].
  cbv zeta.
  destruct (Hinv _ _ Hgroup) as [Hlen Hmap].
  destruct (Hmap _ _ Hidx) as (Hk0 & e0 & He0 & Hid0).
  pose proof (lookup_lt_Some _ _ _ He0) as Hklt.
  set (n := length (entities group)) in *.
  rewrite to_int_small by lia.
  (* the group after the swap, and its list after pop_back *)
  assert (∀ (ents : list Entity) (map : gmap Z Z),
            length ents = n →
            (∀ id' i, map !! id' = Some i → id' ≠ id →
               0 ≤ i ∧ Z.to_nat i ≠ pred n ∧
               ∃ e, ents !! Z.to_nat i = Some e ∧ GetId e = id') →
            ∃ groups',
              (entities2 ← pop_back ents;
               Done (<[groupHash := mkGroupData entities2 (delete id map)]> groups))
              = Done groups' ∧
              (∀ h g, groups' !! h = Some g → group_inv g)) as Hfinish.
  { intros ents map Hn Hents.
    assert (pop_back ents = Done (take (pred (length ents)) ents)) as ->.
    { apply pop_back_Done. split; [|done]. intros ->. simpl in Hn. lia. }
    rewrite bind_Done_l. eexists. split; [done|].
    intros h g Hg. destruct (decide (h = groupHash)) as [->|Hne].
    - rewrite lookup_insert_eq in Hg. injection Hg as <-. split; simpl.
      + rewrite length_take. lia.
      + intros id' i Hi. destruct (decide (id' = id)) as [->|Hne].
        { by rewrite lookup_delete_eq in Hi. }
        rewrite lookup_delete_ne in Hi by done.
        destruct (Hents id' i Hi Hne) as (Hi0 & Hnl & e & He & Hid).
        split; [done|]. exists e. split; [|done].
        rewrite lookup_take_lt; [done|].
        apply lookup_lt_Some in He. lia.
    - rewrite lookup_insert_ne in Hg by done. eauto. }
  destruct (decide (indexToRemove ≠ Z.of_nat n - 1)) as [Hne|Heq].
  - destruct (lookup_lt_is_Some_2 (entities group) (pred n) ltac:(lia))
      as [lastEntity Hlast].
    rewrite (vec_at_lookup (entities group) (Z.of_nat n - 1) lastEntity)
      by (try lia; by replace (Z.to_nat (Z.of_nat n - 1)) with (pred n) by lia).
    rewrite bind_Done_l.
    rewrite vec_store_lt by lia. rewrite !bind_Done_l.
    simpl entities. simpl entityToIndex.
    apply Hfinish; [by rewrite length_insert|].
    intros id' i Hi Hne'.
    destruct (decide (id' = GetId lastEntity)) as [->|Hnl].
    + rewrite lookup_insert_eq in Hi. injection Hi as <-.
      split; [done|]. split; [lia|]. exists lastEntity. split; [|done].
      by apply list_lookup_insert_eq.
    + rewrite lookup_insert_ne in Hi by done.
      destruct (Hmap _ _ Hi) as (Hi0 & e & He & Hid).
      assert (Z.to_nat i ≠ Z.to_nat indexToRemove) by (intros Heq; congruence).
      assert (Z.to_nat i ≠ pred n) by (intros Heq; congruence).
      split; [done|]. split; [done|]. exists e. split; [|done].
      by rewrite list_lookup_insert_ne.
  - rewrite bind_Done_l. apply Hfinish; [done|].
    intros id' i Hi Hne'.
    destruct (Hmap _ _ Hi) as (Hi0 & e & He & Hid).
    split; [done|]. split; [|by exists e].
    intros Heq'. apply Hne'.
    assert (Z.to_nat i = Z.to_nat indexToRemove) as Hii by lia. congruence.
Qed.

Lemma remove_from_groups_total (id : EntityID) (hashes : list Z) (groups : gmap Z GroupData) :
  (∀ h g, groups !! h = Some g → group_inv g) →
  ∃ groups',
    for_each (remove_from_group id) groups hashes = Done groups' ∧
    (∀ h g, groups' !! h = Some g → group_inv g).
Proof.
  revert groups. induction hashes as [|h hashes IH]; intros groups Hinv.
  - by exists groups.
  - destruct (remove_from_group_total id groups h Hinv) as (groups1 & Heq & Hinv1).
    simpl. rewrite Heq, bind_Done_l. by apply IH.
Qed.

Lemma RemoveEntityGroup_total r e :
  (∀ h g, m_groups r !! h = Some g → group_inv g) →
  ∃ gs egs,
    RemoveEntityGroup r e = Done (with_groups r gs egs) ∧
    (∀ h g, gs !! h = Some g → group_inv g).
Proof.
  intros Hinv. unfold RemoveEntityGroup. cbv zeta.
  pose proof (GetEntityIndex_range (GetId e)) as Hr.
  destruct (decide _) as [Hge|Hlt].
  - exists (m_groups r), (m_entityGroups r). split; [|done]. by destruct r.
  - destruct (lookup_lt_is_Some_2 (m_entityGroups r) (Z.to_nat (GetEntityIndex (GetId e)))
                ltac:(lia)) as [hashes Hh].
    rewrite (vec_at_lookup _ _ hashes) by (done || lia). rewrite bind_Done_l.
    destruct (remove_from_groups_total (GetId e) hashes (m_groups r) Hinv)
      as (gs & -> & Hgs).
    rewrite bind_Done_l. by eexists _, _.
Qed.
End Destruction.

Section Lifecycle.
Context {T : Type}.
Implicit Types r : Registry T.

Lemma IsValid_versions r r' e :
  m_entityVersions r = m_entityVersions r' → IsValid r e = IsValid r' e.
Proof. intros H. unfold IsValid. by rewrite H. Qed.

Lemma RemoveEntityTag_frame r e :
  ∃ entityToTag tagToEntity, RemoveEntityTag r e = with_tags r entityToTag tagToEntity.
Proof.
  unfold RemoveEntityTag. cbv zeta.
  assert (r = with_tags r (m_entityToTag r) (m_tagToEntity r)) as Hr by (by destruct r).
  destruct (decide _); [by eexists _, _|].
  destruct (m_entityToTag r !! _) as [hash|]; [|by eexists _, _].
  destruct (negb _); by eexists _, _.
Qed.

Lemma kill_entity_invalid r e : IsValid r e = false → kill_entity r e = Done r.
Proof. intros H. unfold kill_entity. by rewrite H. Qed.

(* a valid entity is destroyed: its generation is bumped once and its slot
   is pushed on the free-list once *)
Lemma kill_entity_valid r e :
  tables_wf r → IsValid r e = true →
  ∃ r',
    kill_entity r e = Done r' ∧ tables_wf r' ∧
    m_entityVersions r' =
      <[Z.to_nat (slot_of e) := to_u32 (GetEntityVersion (GetId e) + 1)]>
        (m_entityVersions r) ∧
    m_freeIndices r' = m_freeIndices r ++ [slot_of e] ∧
    m_entitiesToBeAdded r' = m_entitiesToBeAdded r ∧
    m_entitiesToBeKilled r' = m_entitiesToBeKilled r ∧
    m_numEntities r' = m_numEntities r ∧
    length (m_entityComponentSignatures r') = length (m_entityComponentSignatures r).
Proof.
  intros Hwf Hval. pose proof Hval as [Hlt Hv]%IsValid_true.
  pose proof (GetEntityIndex_range (GetId e)) as Hr.
  pose proof (wf_signatures r Hwf) as Hsl.
  unfold kill_entity. rewrite Hval. simpl negb. cbv iota zeta.
  fold (slot_of e) in *.
  simpl (m_entityComponentSignatures (RemoveEntityFromSystems r e)).
  destruct (lookup_lt_is_Some_2 (m_entityComponentSignatures r) (Z.to_nat (slot_of e))
              ltac:(lia)) as [sig Hsig].
  rewrite (vec_at_lookup _ _ sig) by (done || lia). rewrite bind_Done_l.
  rewrite vec_store_lt by lia. rewrite bind_Done_l.
  simpl m_componentPools.
  destruct (remove_from_pools_total (m_componentPools r) (GetId e) (wf_pools r Hwf))
    as (pools1 & -> & Hpools1).
  rewrite bind_Done_l.
  match goal with |- context [RemoveEntityTag ?r3 e] =>
    destruct (RemoveEntityTag_frame r3 e) as (e2t & t2e & ->) end.
  match goal with |- context [RemoveEntityGroup ?r4 e] =>
    destruct (RemoveEntityGroup_total r4 e) as (gs & egs & -> & Hgs) end.
  { apply (wf_groups r Hwf). }
  rewrite bind_Done_l. simpl m_entityVersions.
  rewrite (vec_at_lookup _ _ (GetEntityVersion (GetId e))) by (done || lia).
  rewrite bind_Done_l. rewrite vec_store_lt by lia. rewrite bind_Done_l.
  eexists. split; [done|]. simpl.
  split_and!; try done; [|by rewrite length_insert].
  split; simpl.
  - apply (wf_num r Hwf).
  - apply Forall_insert; [apply (wf_versions r Hwf)|apply to_u32_range].
  - rewrite length_insert. apply (wf_versions_length r Hwf).
  - by rewrite !length_insert.
  - rewrite length_insert. apply (wf_signatures_length r Hwf).
  - rewrite length_insert. apply Forall_app. split; [apply (wf_free r Hwf)|].
    apply Forall_singleton. lia.
  - done.
  - done.
Qed.

(* the first loop of Update changes the systems only *)
Lemma AddEntityToSystems_Done r e :
  slot_of e < Z.of_nat (length (m_entityComponentSignatures r)) →
  ∃ systems, AddEntityToSystems r e = Done (with_systems r systems).
Proof.
  intros He. pose proof (GetEntityIndex_range (GetId e)) as Hr. unfold slot_of in He.
  destruct (lookup_lt_is_Some_2 (m_entityComponentSignatures r)
              (Z.to_nat (GetEntityIndex (GetId e))) ltac:(lia)) as [sig Hsig].
  unfold AddEntityToSystems. cbv zeta.
  rewrite (vec_at_lookup _ _ sig) by (done || lia). rewrite !bind_Done_l.
  by eexists.
Qed.

Lemma add_loop r (added : list Entity) :
  Forall (fun e => slot_of e < Z.of_nat (length (m_entityComponentSignatures r))) added →
  ∃ systems, for_each AddEntityToSystems r added = Done (with_systems r systems).
Proof.
  revert r. induction added as [|e added IH]; intros r Hadded.
  - exists (m_systems r). by destruct r.
  - apply Forall_cons in Hadded as [He Hadded].
    destruct (AddEntityToSystems_Done r e He) as (systems1 & Hstep).
    change (for_each AddEntityToSystems r (e :: added))
      with (AddEntityToSystems r e ≫= fun s1 => for_each AddEntityToSystems s1 added).
    rewrite Hstep, bind_Done_l.
    destruct (IH (with_systems r systems1)) as (systems & ->); [done|].
    by exists systems.
Qed.

(* the second loop of Update, over handles that are valid and lie in
   different slots *)
Lemma kill_loop (killed : list Entity) r :
  tables_wf r →
  Forall (fun e => IsValid r e = true) killed →
  NoDup (slot_of <$> killed) →
  ∃ r',
    for_each kill_entity r killed = Done r' ∧ tables_wf r' ∧
    m_freeIndices r' = m_freeIndices r ++ (slot_of <$> killed) ∧
    length (m_entityVersions r') = length (m_entityVersions r) ∧
    (∀ e, e ∈ killed →
       m_entityVersions r' !! Z.to_nat (slot_of e)
         = Some (to_u32 (GetEntityVersion (GetId e) + 1))) ∧
    (∀ i : nat, Z.of_nat i ∉ slot_of <$> killed →
       m_entityVersions r' !! i = m_entityVersions r !! i) ∧
    m_entitiesToBeAdded r' = m_entitiesToBeAdded r ∧
    m_entitiesToBeKilled r' = m_entitiesToBeKilled r ∧
    m_numEntities r' = m_numEntities r ∧
    length (m_entityComponentSignatures r') = length (m_entityComponentSignatures r).
Proof.
  revert r. induction killed as [|e killed IH]; intros r Hwf Hvalid Hnd.
  - exists r. simpl. rewrite app_nil_r. split_and!; try done.
    intros e He. by apply elem_of_nil in He.
  - apply Forall_cons in Hvalid as [He Hvalid].
    rewrite fmap_cons in Hnd. apply NoDup_cons in Hnd as [Hnotin Hnd].
    destruct (kill_entity_valid r e Hwf He)
      as (r1 & Hkill & Hwf1 & Hv1 & Hf1 & Ha1 & Hk1 & Hn1 & Hs1).
    pose proof (GetEntityIndex_range (GetId e)) as Hr. fold (slot_of e) in Hr.
    pose proof He as [Hlt _]%IsValid_true. fold (slot_of e) in Hlt.
    (* the other handles stay valid: their slots differ from the slot of e *)
    assert (Forall (fun k => IsValid r1 k = true) killed) as Hvalid1.
    { apply Forall_forall. intros k Hk.
      pose proof (proj1 (Forall_forall _ _) Hvalid k Hk) as [Hklt Hkv]%IsValid_true.
      apply IsValid_true. rewrite Hv1, length_insert. split; [done|].
      rewrite list_lookup_insert_ne; [done|].
      intros Heq. apply Hnotin. apply list_elem_of_fmap. exists k. split; [|done].
      pose proof (GetEntityIndex_range (GetId k)). unfold slot_of in *. lia. }
    destruct (IH r1 Hwf1 Hvalid1 Hnd)
      as (r' & Hloop & Hwf' & Hf' & Hl' & Hbump & Hkeep & Ha' & Hk' & Hn' & Hs').
    exists r'. simpl for_each. rewrite Hkill, bind_Done_l.
    split; [done|]. split; [done|]. split_and!.
    + rewrite Hf', Hf1, fmap_cons, <- app_assoc. done.
    + by rewrite Hl', Hv1, length_insert.
    + intros k [->|Hk]%elem_of_cons; [|by apply Hbump].
      rewrite Hkeep.
      * rewrite Hv1. apply list_lookup_insert_eq. lia.
      * by rewrite Z2Nat.id by lia.
    + intros i Hi. rewrite fmap_cons in Hi. apply not_elem_of_cons in Hi as [Hne Hi].
      rewrite Hkeep by done. rewrite Hv1. apply list_lookup_insert_ne. lia.
    + congruence.
    + congruence.
    + congruence.
    + congruence.
Qed.

Lemma sorted_ids_NoDup (s : list Entity) :
  StronglySorted (fun a b => GetId a < GetId b) s → NoDup (GetId <$> s).
Proof.
  induction 1 as [|x s Hs IH Hx]; [constructor|].
  rewrite fmap_cons. apply NoDup_cons. split; [|done].
  intros (y & Hid & Hy)%list_elem_of_fmap.
  pose proof (proj1 (Forall_forall _ _) Hx y Hy) as Hlt. simpl in Hlt. lia.
Qed.

(* valid handles with different ids lie in different slots *)
Lemma valid_slots_NoDup r (killed : list Entity) :
  Forall (fun e => IsValid r e = true ∧ 0 ≤ GetId e < 2 ^ 64) killed →
  NoDup (GetId <$> killed) → NoDup (slot_of <$> killed).
Proof.
  induction killed as [|e killed IH]; intros Hvalid Hnd; [constructor|].
  apply Forall_cons in Hvalid as [[He Hid] Hvalid].
  rewrite fmap_cons in Hnd |- *. apply NoDup_cons in Hnd as [Hnotin Hnd].
  apply NoDup_cons. split; [|by apply IH].
  intros (k & Hslot & Hk)%list_elem_of_fmap. apply Hnotin.
  apply list_elem_of_fmap. exists k. split; [|done].
  pose proof (proj1 (Forall_forall _ _) Hvalid k Hk) as [Hkv Hkid].
  apply IsValid_true in He as [_ He]. apply IsValid_true in Hkv as [_ Hkv].
  unfold slot_of in Hslot. apply EntityID_parts; [done..|].
  rewrite Hslot in He. congruence.
Qed.

(** Update on a well-formed registry returns; both pending sets are empty
    afterwards, the slot of every entity that was pending destruction has
    its generation bumped once and is appended once to the free-list, in
    the order of the set, and no other generation changes. *)
Lemma Update_spec r :
  registry_wf r →
  ∃ r',
    Update r = Done r' ∧ registry_wf r' ∧
    m_entitiesToBeAdded r' = [] ∧ m_entitiesToBeKilled r' = [] ∧
    m_freeIndices r' = m_freeIndices r ++ (slot_of <$> m_entitiesToBeKilled r) ∧
    length (m_entityVersions r') = length (m_entityVersions r) ∧
    (∀ e, e ∈ m_entitiesToBeKilled r →
       m_entityVersions r' !! Z.to_nat (slot_of e)
         = Some (to_u32 (GetEntityVersion (GetId e) + 1))) ∧
    (∀ i : nat, Z.of_nat i ∉ slot_of <$> m_entitiesToBeKilled r →
       m_entityVersions r' !! i = m_entityVersions r !! i) ∧
    m_numEntities r' = m_numEntities r.
Proof.
  intros Hwf. unfold Update.
  destruct (add_loop r (m_entitiesToBeAdded r) (wf_added r Hwf)) as (systems & ->).
  rewrite bind_Done_l. cbv zeta. simpl m_entitiesToBeKilled.
  set (r2 := with_entitiesToBeAdded (with_systems r systems) []).
  assert (tables_wf r2) as Hwf2.
  { destruct (wf_tables r Hwf). by split. }
  destruct (kill_loop (m_entitiesToBeKilled r) r2 Hwf2)
    as (r3 & -> & Hwf3 & Hf3 & Hl3 & Hbump & Hkeep & Ha3 & Hk3 & Hn3 & Hs3).
  { eapply Forall_impl; [apply (wf_killed r Hwf)|]. by intros e [He _]. }
  { eapply valid_slots_NoDup; [apply (wf_killed r Hwf)|].
    apply sorted_ids_NoDup, (wf_killed_sorted r Hwf). }
  rewrite bind_Done_l. eexists. split; [done|]. simpl.
  split_and!; try done.
  split; simpl; [|by rewrite Ha3|constructor|constructor].
  by destruct Hwf3.
Qed.
End Lifecycle.

(** ** Creation, destruction and recycling of a slot (claim C4) *)

Section Recycling.
Context {T : Type}.
Implicit Types r : Registry T.

Lemma IsValid_id r (a b : Entity) : GetId a = GetId b → IsValid r a = IsValid r b.
Proof. intros H. unfold IsValid. by rewrite H. Qed.

Lemma set_insert_elem_of (e x : Entity) (s : list Entity) :
  x ∈ set_insert e s → x = e ∨ x ∈ s.
Proof.
  induction s as [|y s IH]; simpl.
  - intros ->%list_elem_of_singleton. by left.
  - destruct (Entity_lt e y).
    + intros [->|H]%elem_of_cons; [by left|by right].
    + destruct (Entity_lt y e).
      * intros [->|H]%elem_of_cons; [right; by left|].
        destruct (IH H) as [->|?]; [by left|right; by right].
      * by right.
Qed.

Lemma set_insert_Forall (P : Entity → Prop) (e : Entity) (s : list Entity) :
  P e → Forall P s → Forall P (set_insert e s).
Proof.
  intros He Hs. apply Forall_forall. intros x [->|Hx]%set_insert_elem_of; [done|].
  by apply (proj1 (Forall_forall _ _) Hs).
Qed.

Lemma set_insert_sorted (e : Entity) (s : list Entity) :
  StronglySorted (fun a b => GetId a < GetId b) s →
  StronglySorted (fun a b => GetId a < GetId b) (set_insert e s).
Proof.
  induction 1 as [|y s Hs IH Hy]; simpl.
  - repeat constructor.
  - unfold Entity_lt. destruct (Z.ltb_spec (GetId e) (GetId y)) as [Hlt|Hge].
    + constructor; [by constructor|]. constructor; [done|].
      eapply Forall_impl; [exact Hy|]. simpl. intros. lia.
    + destruct (Z.ltb_spec (GetId y) (GetId e)) as [Hlt|Hge'].
      * constructor; [done|]. by apply set_insert_Forall.
      * by constructor.
Qed.

Lemma KillEntity_wf r e :
  registry_wf r → 0 ≤ GetId e < 2 ^ 64 → registry_wf (KillEntity r e).
Proof.
  intros Hwf Hid. unfold KillEntity. destruct (IsValid r e) eqn:Hval; [|done].
  simpl. split; simpl.
  - by destruct (wf_tables r Hwf).
  - apply (wf_added r Hwf).
  - apply set_insert_Forall; [done|]. apply (wf_killed r Hwf).
  - apply set_insert_sorted, (wf_killed_sorted r Hwf).
Qed.

Lemma CreateEntity_spec r e r1 :
  registry_wf r → CreateEntity r = Done (e, r1) →
  registry_wf r1 ∧ IsValid r1 e = true ∧ 0 ≤ GetId e < 2 ^ 64 ∧ registry e = this ∧
  m_entitiesToBeKilled r1 = m_entitiesToBeKilled r ∧
  (m_freeIndices r = slot_of e :: m_freeIndices r1 ∨
   m_freeIndices r = [] ∧ m_freeIndices r1 = []).
Proof.
  intros Hwf Hcreate. destruct (wf_tables r Hwf) as [Hnum Hvers Hvlen Hsigs Hslen Hfree Hpools Hgroups].
  unfold CreateEntity in Hcreate. apply bind_Done in Hcreate as ([index r0] & Halloc & Hrest).
  apply bind_Done in Hrest as (version & Hversion & Hrest). injection Hrest as <- <-.
  apply vec_at_Done in Hversion as [Hindex0 Hversion].
  (* the state after the slot has been allocated *)
  assert (0 ≤ index < 2 ^ 32 ∧
          tables_wf r0 ∧
          m_entitiesToBeAdded r0 = m_entitiesToBeAdded r ∧
          m_entitiesToBeKilled r0 = m_entitiesToBeKilled r ∧
          (length (m_entityComponentSignatures r) ≤ length (m_entityComponentSignatures r0))%nat ∧
          (∀ i v, m_entityVersions r !! i = Some v → m_entityVersions r0 !! i = Some v) ∧
          (length (m_entityVersions r) ≤ length (m_entityVersions r0))%nat ∧
          (m_freeIndices r = index :: m_freeIndices r0 ∨
           m_freeIndices r = [] ∧ m_freeIndices r0 = []))
    as (Hindex & Hwf0 & Hadded0 & Hkilled0 & Hsigs0 & Hvers0 & Hlen0 & Hfree0).
  { destruct (m_freeIndices r) as [|front rest] eqn:Hfr.
    - destruct (decide (m_numEntities r = INT_MAX)) as [|Hmax]; [done|].
      cbv zeta in Halloc. simpl m_entityVersions in Halloc.
      assert (to_u32 (m_numEntities r) = m_numEntities r) as Hu.
      { unfold to_u32. apply Z.mod_small. unfold INT_MAX in *. lia. }
      rewrite Hu in Halloc.
      assert (to_u32 (m_numEntities r + 1) = m_numEntities r + 1) as Hu1.
      { unfold to_u32. apply Z.mod_small. unfold INT_MAX in *. lia. }
      rewrite Hu1 in Halloc.
      assert (0 ≤ m_numEntities r + 1 ≤ INT_MAX) as Hnum1 by lia.
      unfold INT_MAX in Hnum.
      destruct (decide (Z.of_nat (length (m_entityVersions r)) ≤ m_numEntities r))
        as [Hgrow|Hkeep].
      + simpl m_entityComponentSignatures in Halloc.
        assert (Forall (fun v => 0 ≤ v < 2 ^ 32)
                  (vec_resize (Z.to_nat (m_numEntities r + 1)) 0 (m_entityVersions r))) as Hv'.
        { unfold vec_resize. apply Forall_app. split.
          - by apply Forall_take.
          - apply Forall_replicate. lia. }
        destruct (decide (Z.of_nat (length (m_entityComponentSignatures r)) ≤ m_numEntities r)).
        * injection Halloc as <- <-. split; [lia|]. split_and!; simpl; try done.
          -- split; simpl; rewrite ?length_vec_resize, ?Hfr; try done; lia.
          -- rewrite length_vec_resize. lia.
          -- intros i v Hv. apply lookup_vec_resize; [done|lia].
          -- rewrite length_vec_resize. lia.
          -- by right.
        * injection Halloc as <- <-. split; [lia|]. split_and!; simpl; try done.
          -- split; simpl; rewrite ?length_vec_resize, ?Hfr; try done; lia.
          -- intros i v Hv. apply lookup_vec_resize; [done|lia].
          -- rewrite length_vec_resize. lia.
          -- by right.
      + injection Halloc as <- <-. split; [lia|]. split_and!; simpl; try done.
        * split; simpl; rewrite ?Hfr; try done; lia.
        * by right.
    - injection Halloc as <- <-.
      apply Forall_cons in Hfree as [Hfront Hrest].
      split; [lia|]. split_and!; simpl; try done;
        first [by left | split; simpl; done]. }
  pose proof (proj1 (Forall_forall _ _) (wf_versions r0 Hwf0) version
                ltac:(by eapply list_elem_of_lookup_2)) as Hvr.
  pose proof (lookup_lt_Some _ _ _ Hversion) as Hilt.
  assert (IsValid (with_entitiesToBeAdded r0
                     (set_insert (mkEntity (CreateEntityId index version) this)
                        (m_entitiesToBeAdded r0)))
                  (mkEntity (CreateEntityId index version) this) = true) as Hvalid.
  { apply IsValid_true. simpl.
    rewrite GetEntityIndex_CreateEntityId, GetEntityVersion_CreateEntityId by done.
    split; [lia|done]. }
  pose proof (CreateEntityId_range index version Hindex Hvr) as Hrange.
  split_and!; try done; try (simpl; lia).
  - split; simpl.
    + by destruct Hwf0.
    + apply set_insert_Forall.
      * unfold slot_of. simpl. rewrite GetEntityIndex_CreateEntityId by done.
        pose proof (wf_signatures r0 Hwf0). lia.
      * rewrite Hadded0. eapply Forall_impl; [apply (wf_added r Hwf)|].
        simpl. intros. lia.
    + rewrite Hkilled0. eapply Forall_impl; [apply (wf_killed r Hwf)|].
      simpl. intros k [[Hk1 Hk2]%IsValid_true Hk3]. split; [|done].
      apply IsValid_true. simpl. split; [lia|]. by apply Hvers0.
    + rewrite Hkilled0. apply (wf_killed_sorted r Hwf).
  - simpl. unfold slot_of. simpl. by rewrite GetEntityIndex_CreateEntityId.
Qed.

(* with a slot on the free-list, CreateEntity returns the front slot under
   its current generation *)
Lemma CreateEntity_recycles r (front : Z) (rest : list Z) :
  registry_wf r → m_freeIndices r = front :: rest →
  ∃ e r1 version,
    CreateEntity r = Done (e, r1) ∧
    m_entityVersions r !! Z.to_nat front = Some version ∧
    GetId e = CreateEntityId front version ∧
    slot_of e = front ∧ GetEntityVersion (GetId e) = version ∧
    m_entityVersions r1 = m_entityVersions r.
Proof.
  intros Hwf Hfr. destruct (wf_tables r Hwf) as [Hnum Hvers Hvlen Hsigs Hslen Hfree Hpools Hgroups].
  rewrite Hfr in Hfree. apply Forall_cons in Hfree as [Hfront _].
  destruct (lookup_lt_is_Some_2 (m_entityVersions r) (Z.to_nat front) ltac:(lia))
    as [version Hversion].
  pose proof (proj1 (Forall_forall _ _) Hvers version
                ltac:(by eapply list_elem_of_lookup_2)) as Hvr.
  pose proof (lookup_lt_Some _ _ _ Hversion) as Hilt. simpl in Hvr.
  unfold CreateEntity. rewrite Hfr. rewrite bind_Done_l. simpl m_entityVersions.
  rewrite (vec_at_lookup _ _ version) by (done || lia). rewrite bind_Done_l.
  eexists _, _, version. split; [done|]. simpl. unfold slot_of. simpl.
  rewrite GetEntityIndex_CreateEntityId, GetEntityVersion_CreateEntityId by lia.
  by split_and!.
Qed.
End Recycling.

Section RecyclingTheorem.
Context {T : Type}.
Implicit Types r : Registry T.

Lemma Registry_new_wf : registry_wf (Registry_new T).
Proof.
  split; [split|..]; simpl; try done; try constructor.
Qed.

End RecyclingTheorem.

(** C4, as stated, fails: with two slots on the free-list, the entity e
    takes slot 0 and leaves slot 1 on the list; after e is killed and Update
    is called, CreateEntity hands out slot 1, not the slot of e. *)
Lemma slot_recycling_counterexample :
  ∃ (a b e e' : Entity) (r1 r2 r3 r4 r5 r6 : Registry Z),
    CreateEntity (Registry_new Z) = Done (a, r1) ∧
    CreateEntity r1 = Done (b, r2) ∧
    Update (KillEntity (KillEntity r2 a) b) = Done r3 ∧
    CreateEntity r3 = Done (e, r4) ∧
    Update (KillEntity r4 e) = Done r5 ∧
    CreateEntity r5 = Done (e', r6) ∧
    IsValid r4 e = true ∧
    slot_of e = 0 ∧ slot_of e' = 1 ∧ slot_of e' ≠ slot_of e.
Proof.
  eexists _, _, _, _, _, _, _, _, _, _.
  split; [vm_compute; reflexivity|].
  split; [vm_compute; reflexivity|].
  split; [vm_compute; reflexivity|].
  split; [vm_compute; reflexivity|].
  split; [vm_compute; reflexivity|].
  split; [vm_compute; reflexivity|].
  split; [vm_compute; reflexivity|].
  split; [vm_compute; reflexivity|].
  split; [vm_compute; reflexivity|].
  vm_compute. discriminate.
Qed.

(** ** Repeated KillEntity (claim C9) *)

Section RepeatedKill.
Context {T : Type}.
Implicit Types r : Registry T.

Lemma KillEntity_times_once r e (n : nat) :
  KillEntity_times (S n) r e = KillEntity r e.
Proof.
  induction n as [|n IH]; [done|].
  change (KillEntity (KillEntity_times (S n) r e) e = KillEntity r e).
  rewrite IH. apply KillEntity_idem.
Qed.

(** C9: calling KillEntity on the same handle two or more times before the
    next Update leaves the registry that one call leaves, so Update has the
    same outcome.  For a valid handle in a well-formed registry that Update
    returns: the generation of the slot is the one of the handle plus one
    modulo 2^32, and the slots appended to the free-list are pairwise
    different and contain the slot of the handle. *)
Theorem KillEntity_repeated_same_Update r e (n : nat) :
  KillEntity_times (S (S n)) r e = KillEntity r e ∧
  Update (KillEntity_times (S (S n)) r e) = Update (KillEntity r e) ∧
  (registry_wf r → IsValid r e = true → 0 ≤ GetId e < 2 ^ 64 →
   ∃ r' pushed,
     Update (KillEntity_times (S (S n)) r e) = Done r' ∧
     m_entityVersions r' !! Z.to_nat (slot_of e)
       = Some (to_u32 (GetEntityVersion (GetId e) + 1)) ∧
     m_freeIndices r' = m_freeIndices r ++ pushed ∧
     NoDup pushed ∧ slot_of e ∈ pushed ∧
     m_entitiesToBeKilled r' = []).
Proof.
  pose proof (KillEntity_times_once r e (S n)) as Heq.
  split; [done|]. split; [by rewrite Heq|].
  intros Hwf Hvalid Hid. rewrite Heq.
  pose proof (KillEntity_wf r e Hwf Hid) as Hwf2.
  assert (m_entitiesToBeKilled (KillEntity r e) = set_insert e (m_entitiesToBeKilled r) ∧
          m_freeIndices (KillEntity r e) = m_freeIndices r) as [Hk2 Hf2].
  { unfold KillEntity. by rewrite Hvalid. }
  destruct (set_insert_elem e (m_entitiesToBeKilled r)) as (x & Hx & Hxid).
  rewrite <- Hk2 in Hx.
  destruct (Update_spec _ Hwf2) as (r' & Hupdate & _ & _ & Hk' & Hf' & _ & Hbump & _).
  exists r', (slot_of <$> m_entitiesToBeKilled (KillEntity r e)).
  split_and!; try done.
  - pose proof (Hbump x Hx) as Hb. unfold slot_of in *. by rewrite Hxid in Hb.
  - by rewrite Hf', Hf2.
  - eapply valid_slots_NoDup; [apply (wf_killed _ Hwf2)|].
    apply sorted_ids_NoDup, (wf_killed_sorted _ Hwf2).
  - apply list_elem_of_fmap. exists x. split; [|done]. unfold slot_of. by rewrite Hxid.
Qed.
End RepeatedKill.

Lemma KillEntity_repeated_same_Update_witness :
  ∃ (e : Entity) (r1 r' : Registry Z),
    CreateEntity (Registry_new Z) = Done (e, r1) ∧
    Update (KillEntity (KillEntity (KillEntity r1 e) e) e) = Done r' ∧
    m_entityVersions r' = [1] ∧ m_freeIndices r' = [0].
Proof.
  assert (∃ e r1, CreateEntity (Registry_new Z) = Done (e, r1) ∧ IsValid r1 e = true ∧
                  0 ≤ GetId e < 2 ^ 64 ∧ slot_of e = 0 ∧ GetEntityVersion (GetId e) = 0 ∧
                  m_freeIndices r1 = [] ∧ length (m_entityVersions r1) = 1%nat)
    as (e & r1 & Hcreate & Hvalid & Hid & Hslot & Hver & Hfree & Hlen).
  { eexists _, _. split; [vm_compute; reflexivity|].
    split; [vm_compute; reflexivity|]. split; [vm_compute; split; congruence|].
    split; [vm_compute; reflexivity|]. split; [vm_compute; reflexivity|].
    split; reflexivity. }
  destruct (CreateEntity_spec _ e r1 Registry_new_wf Hcreate) as (Hwf1 & _).
  destruct (KillEntity_repeated_same_Update r1 e 1) as (_ & _ & Hupdate).
  destruct (Hupdate Hwf1 Hvalid Hid)
    as (r' & pushed & Heq & Hv' & Hf' & Hnd & Hin & Hk').
  exists e, r1, r'. split; [done|]. split; [done|].
  rewrite Hslot, Hver in Hv'. rewrite Hfree in Hf'. simpl in Hf'.
  destruct (KillEntity_repeated_same_Update r1 e 1) as (Hsame & _ & _).
  assert (Update (KillEntity r1 e) = Done r') as Hu by (by rewrite <- Hsame).
  clear - Hcreate Hu. vm_compute in Hcreate. injection Hcreate as <- <-.
  vm_compute in Hu. by injection Hu as <-.
Defined.

(** ** Operations that keep the registry invariant *)

Section Reachable.
Context {T : Type}.
Implicit Types r : Registry T.

(* the invariant looks at neither the systems nor the tags *)
Lemma registry_wf_frame r r' :
  registry_wf r →
  m_numEntities r' = m_numEntities r →
  m_entitiesToBeAdded r' = m_entitiesToBeAdded r →
  m_entitiesToBeKilled r' = m_entitiesToBeKilled r →
  length (m_entityComponentSignatures r') = length (m_entityComponentSignatures r) →
  m_freeIndices r' = m_freeIndices r →
  m_entityVersions r' = m_entityVersions r →
  Forall (fun o => ∀ p, o = Some p → packed_inv p) (m_componentPools r') →
  (∀ h g, m_groups r' !! h = Some g → group_inv g) →
  registry_wf r'.
Proof.
  intros Hwf Hn Ha Hk Hs Hf Hv Hp Hg.
  destruct Hwf as [[Hnum Hvers Hvlen Hsigs Hslen Hfree Hpools Hgroups] Hadded Hkilled Hsorted].
  split; [split|..].
  - by rewrite Hn.
  - by rewrite Hv.
  - by rewrite Hv.
  - by rewrite Hv, Hs.
  - by rewrite Hs.
  - by rewrite Hf, Hv.
  - done.
  - done.
  - by rewrite Ha, Hs.
  - rewrite Hk. eapply Forall_impl; [exact Hkilled|]. simpl. intros e [He Hid].
    split; [|done]. by rewrite (IsValid_versions r' r).
  - by rewrite Hk.
Qed.

Lemma length_vec_store {A} (v v' : list A) (i : Z) (x : A) :
  vec_store v i x = Done v' → length v' = length v.
Proof. intros [_ ->]%vec_store_Done. apply length_insert. Qed.

Lemma AddComponent_wf r e (c : Z) (v : T) r1 :
  registry_wf r →
  (∀ p, GetPool r c = Some p → Has p (GetId e) = false) →
  AddComponent r e c v = Done r1 → registry_wf r1.
Proof.
  intros Hwf Hfresh Hadd.
  pose proof (wf_pools r (wf_tables r Hwf)) as Hpools.
  unfold AddComponent in Hadd. cbv zeta in Hadd.
  set (pools1 := if decide _ then _ else _) in Hadd.
  apply bind_Done in Hadd as (slot & Hslot & Hadd).
  apply bind_Done in Hadd as (pool1 & Hpool1 & Hadd).
  apply bind_Done in Hadd as (pools2 & Hpools2 & Hadd).
  apply bind_Done in Hadd as (sig & Hsig & Hadd).
  apply bind_Done in Hadd as (sig1 & Hsig1 & Hadd).
  apply bind_Done in Hadd as (sigs1 & Hsigs1 & Hadd).
  injection Hadd as <-.
  apply vec_at_Done in Hslot as [Hc Hslot].
  apply vec_store_Done in Hpools2 as [_ ->].
  apply length_vec_store in Hsigs1.
  assert (Forall (fun o => ∀ p, o = Some p → packed_inv p) pools1) as Hpools1.
  { subst pools1. destruct (decide _); [|done].
    unfold vec_resize. apply Forall_app. split; [by apply Forall_take|].
    by apply Forall_replicate. }
  assert (packed_inv (default Pool_new slot) ∧ Has (default Pool_new slot) (GetId e) = false)
    as [Hinv Habs].
  { destruct slot as [p|]; simpl.
    - split.
      + by apply (proj1 (Forall_forall _ _) Hpools1 (Some p)
                    ltac:(by eapply list_elem_of_lookup_2)).
      + apply Hfresh. unfold GetPool. subst pools1.
        destruct (decide _) as [Hge|Hlt].
        * unfold vec_resize in Hslot. rewrite take_ge in Hslot by lia.
          rewrite lookup_app_r in Hslot by lia.
          by apply lookup_replicate in Hslot as [? _].
        * by rewrite Hslot.
    - split; [apply Pool_new_inv|apply Has_false, Pool_new_cell]. }
  destruct (Add_inv _ _ _ _ Hinv Habs Hpool1) as (Hinv1 & _).
  apply (registry_wf_frame r); simpl; try done.
  - apply Forall_insert; [done|]. by intros ? [= <-].
  - apply (wf_groups r (wf_tables r Hwf)).
Qed.

Lemma RemoveComponent_wf r e (c : Z) r1 :
  registry_wf r → RemoveComponent r e c = Done r1 → registry_wf r1.
Proof.
  intros Hwf Hrem.
  pose proof (wf_pools r (wf_tables r Hwf)) as Hpools.
  unfold RemoveComponent in Hrem. cbv zeta in Hrem.
  apply bind_Done in Hrem as ([pool|] & Hslot & Hrem); [|done].
  apply bind_Done in Hrem as (pool1 & Hpool1 & Hrem).
  apply bind_Done in Hrem as (pools1 & Hpools1 & Hrem).
  apply bind_Done in Hrem as (sig & Hsig & Hrem).
  apply bind_Done in Hrem as (sig1 & Hsig1 & Hrem).
  apply bind_Done in Hrem as (sigs1 & Hsigs1 & Hrem).
  injection Hrem as <-.
  apply vec_at_Done in Hslot as [Hc Hslot].
  apply vec_store_Done in Hpools1 as [_ ->].
  apply length_vec_store in Hsigs1.
  assert (packed_inv pool) as Hinv.
  { by apply (proj1 (Forall_forall _ _) Hpools (Some pool)
                ltac:(by eapply list_elem_of_lookup_2)). }
  destruct (Remove_inv pool (GetId e) Hinv) as (pool1' & Heq & Hinv1 & _).
  unfold RemoveEntityFromPool in Hpool1. rewrite Heq in Hpool1. injection Hpool1 as ->.
  apply (registry_wf_frame r); simpl; try done.
  - apply Forall_insert; [done|]. by intros ? [= <-].
  - apply (wf_groups r (wf_tables r Hwf)).
Qed.

Lemma TagEntity_wf r e (tag : string) r1 :
  registry_wf r → TagEntity r e tag = Done r1 → registry_wf r1.
Proof.
  intros Hwf Htag. unfold TagEntity in Htag. cbv zeta in Htag.
  apply bind_Done in Htag as (tags & _ & Htag). injection Htag as <-.
  destruct (wf_tables r Hwf).
  by apply (registry_wf_frame r).
Qed.

Lemma GroupEntity_wf r e (groupName : string) r1 :
  registry_wf r →
  (∀ g, m_groups r !! HashString groupName = Some g →
        Z.of_nat (length (entities g)) < 2 ^ 31 - 1) →
  GroupEntity r e groupName = Done r1 → registry_wf r1.
Proof.
  intros Hwf Hsize Hgroup.
  destruct (wf_tables r Hwf) as [Hnum Hvers Hvlen Hsigs Hslen Hfree Hpools Hgroups].
  unfold GroupEntity in Hgroup. cbv zeta in Hgroup.
  set (group := default (mkGroupData [] ∅) (m_groups r !! HashString groupName)) in *.
  assert (group_inv group ∧ Z.of_nat (length (entities group)) < 2 ^ 31 - 1)
    as [[Hlen Hmap] Hsmall].
  { subst group. destruct (m_groups r !! HashString groupName) as [g|] eqn:Hg; simpl.
    - split; [by eapply Hgroups|by apply Hsize].
    - split; [|done]. split; [done|]. intros id i Hi. simpl in Hi.
      by rewrite lookup_empty in Hi. }
  destruct (entityToIndex group !! GetId e) as [i|] eqn:Hi.
  - injection Hgroup as <-. apply (registry_wf_frame r); simpl; try done.
    intros h g Hg. destruct (decide (h = HashString groupName)) as [->|Hne].
    + rewrite lookup_insert_eq in Hg. by injection Hg as <-.
    + rewrite lookup_insert_ne in Hg by done. eauto.
  - apply bind_Done in Hgroup as (hashes & _ & Hgroup).
    apply bind_Done in Hgroup as (egs & _ & Hgroup). injection Hgroup as <-.
    apply (registry_wf_frame r); simpl; try done.
    intros h g Hg. destruct (decide (h = HashString groupName)) as [->|Hne].
    + rewrite lookup_insert_eq in Hg. injection Hg as <-. split; simpl.
      * rewrite length_app. simpl. lia.
      * intros id j Hj. rewrite length_app in Hj. simpl in Hj.
        rewrite to_int_small in Hj by lia.
        destruct (decide (id = GetId e)) as [->|Hid].
        -- rewrite lookup_insert_eq in Hj. injection Hj as <-. split; [lia|].
           exists e. split; [|done].
           replace (Z.to_nat (Z.of_nat (length (entities group) + 1) - 1))
             with (length (entities group)) by lia.
           by apply list_lookup_middle.
        -- rewrite lookup_insert_ne in Hj by done.
           destruct (Hmap id j Hj) as (Hj0 & x & Hx & Hxid).
           split; [done|]. exists x. split; [|done]. by apply lookup_app_l_Some.
    + rewrite lookup_insert_ne in Hg by done. eauto.
Qed.

End Reachable.

(** ** The invariant of every reachable state *)

Section Sound.
Context {T : Type}.
Implicit Types r : Registry T.

Lemma remove_from_pools_sound (pools : list (option (Pool T))) (id : EntityID) :
  Forall (fun o => ∀ p, o = Some p → indexed_inv p) pools →
  ∃ pools',
    remove_from_pools pools id = Done pools' ∧
    Forall (fun o => ∀ p, o = Some p → indexed_inv p) pools'.
Proof.
  unfold remove_from_pools.
  induction 1 as [|o pools Ho Hpools IH]; simpl collect.
  - by exists [].
  - destruct IH as (pools' & -> & Hpools').
    destruct o as [p|].
    + destruct (Remove_indexed p id (Ho p eq_refl)) as (p1 & Hrem & Hinv1).
      unfold RemoveEntityFromPool. rewrite Hrem. rewrite !bind_Done_l.
      eexists. split; [done|]. constructor; [|done]. by intros ? [= <-].
    + rewrite !bind_Done_l. eexists. split; [done|]. by constructor.
Qed.


Lemma kill_entity_sound r e :
  tables_sound r → IsValid r e = true →
  ∃ r',
    kill_entity r e = Done r' ∧ tables_sound r' ∧
    m_entityVersions r' =
      <[Z.to_nat (slot_of e) := to_u32 (GetEntityVersion (GetId e) + 1)]>
        (m_entityVersions r) ∧
    m_freeIndices r' = m_freeIndices r ++ [slot_of e] ∧
    m_entitiesToBeAdded r' = m_entitiesToBeAdded r ∧
    m_entitiesToBeKilled r' = m_entitiesToBeKilled r ∧
    m_numEntities r' = m_numEntities r ∧
    length (m_entityComponentSignatures r') = length (m_entityComponentSignatures r).
Proof.
  intros Hwf Hval. pose proof Hval as [Hlt Hv]%IsValid_true.
  pose proof (GetEntityIndex_range (GetId e)) as Hr.
  pose proof (snd_signatures r Hwf) as Hsl.
  unfold kill_entity. rewrite Hval. simpl negb. cbv iota zeta.
  fold (slot_of e) in *.
  simpl (m_entityComponentSignatures (RemoveEntityFromSystems r e)).
  destruct (lookup_lt_is_Some_2 (m_entityComponentSignatures r) (Z.to_nat (slot_of e))
              ltac:(lia)) as [sig Hsig].
  rewrite (vec_at_lookup _ _ sig) by (done || lia). rewrite bind_Done_l.
  rewrite vec_store_lt by lia. rewrite bind_Done_l.
  simpl m_componentPools.
  destruct (remove_from_pools_sound (m_componentPools r) (GetId e) (snd_pools r Hwf))
    as (pools1 & -> & Hpools1).
  rewrite bind_Done_l.
  match goal with |- context [RemoveEntityTag ?r3 e] =>
    destruct (RemoveEntityTag_frame r3 e) as (e2t & t2e & ->) end.
  match goal with |- context [RemoveEntityGroup ?r4 e] =>
    destruct (RemoveEntityGroup_total r4 e) as (gs & egs & -> & Hgs) end.
  { apply (snd_groups r Hwf). }
  rewrite bind_Done_l. simpl m_entityVersions.
  rewrite (vec_at_lookup _ _ (GetEntityVersion (GetId e))) by (done || lia).
  rewrite bind_Done_l. rewrite vec_store_lt by lia. rewrite bind_Done_l.
  eexists. split; [done|]. simpl.
  split_and!; try done; [|by rewrite length_insert].
  split; simpl.
  - apply (snd_num r Hwf).
  - apply Forall_insert; [apply (snd_versions r Hwf)|apply to_u32_range].
  - rewrite length_insert. apply (snd_versions_length r Hwf).
  - by rewrite !length_insert.
  - rewrite length_insert. apply (snd_signatures_length r Hwf).
  - rewrite length_insert. apply Forall_app. split; [apply (snd_free r Hwf)|].
    apply Forall_singleton. lia.
  - done.
  - done.
Qed.


Lemma kill_loop_sound (killed : list Entity) r :
  tables_sound r →
  Forall (fun e => IsValid r e = true) killed →
  NoDup (slot_of <$> killed) →
  ∃ r',
    for_each kill_entity r killed = Done r' ∧ tables_sound r' ∧
    m_freeIndices r' = m_freeIndices r ++ (slot_of <$> killed) ∧
    length (m_entityVersions r') = length (m_entityVersions r) ∧
    (∀ e, e ∈ killed →
       m_entityVersions r' !! Z.to_nat (slot_of e)
         = Some (to_u32 (GetEntityVersion (GetId e) + 1))) ∧
    (∀ i : nat, Z.of_nat i ∉ slot_of <$> killed →
       m_entityVersions r' !! i = m_entityVersions r !! i) ∧
    m_entitiesToBeAdded r' = m_entitiesToBeAdded r ∧
    m_entitiesToBeKilled r' = m_entitiesToBeKilled r ∧
    m_numEntities r' = m_numEntities r ∧
    length (m_entityComponentSignatures r') = length (m_entityComponentSignatures r).
Proof.
  revert r. induction killed as [|e killed IH]; intros r Hwf Hvalid Hnd.
  - exists r. simpl. rewrite app_nil_r. split_and!; try done.
    intros e He. by apply elem_of_nil in He.
  - apply Forall_cons in Hvalid as [He Hvalid].
    rewrite fmap_cons in Hnd. apply NoDup_cons in Hnd as [Hnotin Hnd].
    destruct (kill_entity_sound r e Hwf He)
      as (r1 & Hkill & Hwf1 & Hv1 & Hf1 & Ha1 & Hk1 & Hn1 & Hs1).
    pose proof (GetEntityIndex_range (GetId e)) as Hr. fold (slot_of e) in Hr.
    pose proof He as [Hlt _]%IsValid_true. fold (slot_of e) in Hlt.
    (* the other handles stay valid: their slots differ from the slot of e *)
    assert (Forall (fun k => IsValid r1 k = true) killed) as Hvalid1.
    { apply Forall_forall. intros k Hk.
      pose proof (proj1 (Forall_forall _ _) Hvalid k Hk) as [Hklt Hkv]%IsValid_true.
      apply IsValid_true. rewrite Hv1, length_insert. split; [done|].
      rewrite list_lookup_insert_ne; [done|].
      intros Heq. apply Hnotin. apply list_elem_of_fmap. exists k. split; [|done].
      pose proof (GetEntityIndex_range (GetId k)). unfold slot_of in *. lia. }
    destruct (IH r1 Hwf1 Hvalid1 Hnd)
      as (r' & Hloop & Hwf' & Hf' & Hl' & Hbump & Hkeep & Ha' & Hk' & Hn' & Hs').
    exists r'. simpl for_each. rewrite Hkill, bind_Done_l.
    split; [done|]. split; [done|]. split_and!.
    + rewrite Hf', Hf1, fmap_cons, <- app_assoc. done.
    + by rewrite Hl', Hv1, length_insert.
    + intros k [->|Hk]%elem_of_cons; [|by apply Hbump].
      rewrite Hkeep.
      * rewrite Hv1. apply list_lookup_insert_eq. lia.
      * by rewrite Z2Nat.id by lia.
    + intros i Hi. rewrite fmap_cons in Hi. apply not_elem_of_cons in Hi as [Hne Hi].
      rewrite Hkeep by done. rewrite Hv1. apply list_lookup_insert_ne. lia.
    + congruence.
    + congruence.
    + congruence.
    + congruence.
Qed.


Lemma Update_sound r :
  registry_sound r →
  ∃ r',
    Update r = Done r' ∧ registry_sound r' ∧
    m_entitiesToBeAdded r' = [] ∧ m_entitiesToBeKilled r' = [] ∧
    m_freeIndices r' = m_freeIndices r ++ (slot_of <$> m_entitiesToBeKilled r) ∧
    length (m_entityVersions r') = length (m_entityVersions r) ∧
    (∀ e, e ∈ m_entitiesToBeKilled r →
       m_entityVersions r' !! Z.to_nat (slot_of e)
         = Some (to_u32 (GetEntityVersion (GetId e) + 1))) ∧
    (∀ i : nat, Z.of_nat i ∉ slot_of <$> m_entitiesToBeKilled r →
       m_entityVersions r' !! i = m_entityVersions r !! i) ∧
    m_numEntities r' = m_numEntities r.
Proof.
  intros Hwf. unfold Update.
  destruct (add_loop r (m_entitiesToBeAdded r) (snd_added r Hwf)) as (systems & ->).
  rewrite bind_Done_l. cbv zeta. simpl m_entitiesToBeKilled.
  set (r2 := with_entitiesToBeAdded (with_systems r systems) []).
  assert (tables_sound r2) as Hwf2.
  { destruct (snd_tables r Hwf). by split. }
  destruct (kill_loop_sound (m_entitiesToBeKilled r) r2 Hwf2)
    as (r3 & -> & Hwf3 & Hf3 & Hl3 & Hbump & Hkeep & Ha3 & Hk3 & Hn3 & Hs3).
  { eapply Forall_impl; [apply (snd_killed r Hwf)|]. by intros e [He _]. }
  { eapply valid_slots_NoDup; [apply (snd_killed r Hwf)|].
    apply sorted_ids_NoDup, (snd_killed_sorted r Hwf). }
  rewrite bind_Done_l. eexists. split; [done|]. simpl.
  split_and!; try done.
  split; simpl; [|by rewrite Ha3|constructor|constructor].
  by destruct Hwf3.
Qed.


Lemma KillEntity_sound r e :
  registry_sound r → 0 ≤ GetId e < 2 ^ 64 → registry_sound (KillEntity r e).
Proof.
  intros Hwf Hid. unfold KillEntity. destruct (IsValid r e) eqn:Hval; [|done].
  simpl. split; simpl.
  - by destruct (snd_tables r Hwf).
  - apply (snd_added r Hwf).
  - apply set_insert_Forall; [done|]. apply (snd_killed r Hwf).
  - apply set_insert_sorted, (snd_killed_sorted r Hwf).
Qed.


Lemma CreateEntity_sound r e r1 :
  registry_sound r → CreateEntity r = Done (e, r1) →
  registry_sound r1 ∧ IsValid r1 e = true ∧ 0 ≤ GetId e < 2 ^ 64 ∧ registry e = this ∧
  m_entitiesToBeKilled r1 = m_entitiesToBeKilled r ∧
  (m_freeIndices r = slot_of e :: m_freeIndices r1 ∨
   m_freeIndices r = [] ∧ m_freeIndices r1 = []).
Proof.
  intros Hwf Hcreate. destruct (snd_tables r Hwf) as [Hnum Hvers Hvlen Hsigs Hslen Hfree Hpools Hgroups].
  unfold CreateEntity in Hcreate. apply bind_Done in Hcreate as ([index r0] & Halloc & Hrest).
  apply bind_Done in Hrest as (version & Hversion & Hrest). injection Hrest as <- <-.
  apply vec_at_Done in Hversion as [Hindex0 Hversion].
  (* the state after the slot has been allocated *)
  assert (0 ≤ index < 2 ^ 32 ∧
          tables_sound r0 ∧
          m_entitiesToBeAdded r0 = m_entitiesToBeAdded r ∧
          m_entitiesToBeKilled r0 = m_entitiesToBeKilled r ∧
          (length (m_entityComponentSignatures r) ≤ length (m_entityComponentSignatures r0))%nat ∧
          (∀ i v, m_entityVersions r !! i = Some v → m_entityVersions r0 !! i = Some v) ∧
          (length (m_entityVersions r) ≤ length (m_entityVersions r0))%nat ∧
          (m_freeIndices r = index :: m_freeIndices r0 ∨
           m_freeIndices r = [] ∧ m_freeIndices r0 = []))
    as (Hindex & Hwf0 & Hadded0 & Hkilled0 & Hsigs0 & Hvers0 & Hlen0 & Hfree0).
  { destruct (m_freeIndices r) as [|front rest] eqn:Hfr.
    - destruct (decide (m_numEntities r = INT_MAX)) as [|Hmax]; [done|].
      cbv zeta in Halloc. simpl m_entityVersions in Halloc.
      assert (to_u32 (m_numEntities r) = m_numEntities r) as Hu.
      { unfold to_u32. apply Z.mod_small. unfold INT_MAX in *. lia. }
      rewrite Hu in Halloc.
      assert (to_u32 (m_numEntities r + 1) = m_numEntities r + 1) as Hu1.
      { unfold to_u32. apply Z.mod_small. unfold INT_MAX in *. lia. }
      rewrite Hu1 in Halloc.
      assert (0 ≤ m_numEntities r + 1 ≤ INT_MAX) as Hnum1 by lia.
      unfold INT_MAX in Hnum.
      destruct (decide (Z.of_nat (length (m_entityVersions r)) ≤ m_numEntities r))
        as [Hgrow|Hkeep].
      + simpl m_entityComponentSignatures in Halloc.
        assert (Forall (fun v => 0 ≤ v < 2 ^ 32)
                  (vec_resize (Z.to_nat (m_numEntities r + 1)) 0 (m_entityVersions r))) as Hv'.
        { unfold vec_resize. apply Forall_app. split.
          - by apply Forall_take.
          - apply Forall_replicate. lia. }
        destruct (decide (Z.of_nat (length (m_entityComponentSignatures r)) ≤ m_numEntities r)).
        * injection Halloc as <- <-. split; [lia|]. split_and!; simpl; try done.
          -- split; simpl; rewrite ?length_vec_resize, ?Hfr; try done; lia.
          -- rewrite length_vec_resize. lia.
          -- intros i v Hv. apply lookup_vec_resize; [done|lia].
          -- rewrite length_vec_resize. lia.
          -- by right.
        * injection Halloc as <- <-. split; [lia|]. split_and!; simpl; try done.
          -- split; simpl; rewrite ?length_vec_resize, ?Hfr; try done; lia.
          -- intros i v Hv. apply lookup_vec_resize; [done|lia].
          -- rewrite length_vec_resize. lia.
          -- by right.
      + injection Halloc as <- <-. split; [lia|]. split_and!; simpl; try done.
        * split; simpl; rewrite ?Hfr; try done; lia.
        * by right.
    - injection Halloc as <- <-.
      apply Forall_cons in Hfree as [Hfront Hrest].
      split; [lia|]. split_and!; simpl; try done;
        first [by left | split; simpl; done]. }
  pose proof (proj1 (Forall_forall _ _) (snd_versions r0 Hwf0) version
                ltac:(by eapply list_elem_of_lookup_2)) as Hvr.
  pose proof (lookup_lt_Some _ _ _ Hversion) as Hilt.
  assert (IsValid (with_entitiesToBeAdded r0
                     (set_insert (mkEntity (CreateEntityId index version) this)
                        (m_entitiesToBeAdded r0)))
                  (mkEntity (CreateEntityId index version) this) = true) as Hvalid.
  { apply IsValid_true. simpl.
    rewrite GetEntityIndex_CreateEntityId, GetEntityVersion_CreateEntityId by done.
    split; [lia|done]. }
  pose proof (CreateEntityId_range index version Hindex Hvr) as Hrange.
  split_and!; try done; try (simpl; lia).
  - split; simpl.
    + by destruct Hwf0.
    + apply set_insert_Forall.
      * unfold slot_of. simpl. rewrite GetEntityIndex_CreateEntityId by done.
        pose proof (snd_signatures r0 Hwf0). lia.
      * rewrite Hadded0. eapply Forall_impl; [apply (snd_added r Hwf)|].
        simpl. intros. lia.
    + rewrite Hkilled0. eapply Forall_impl; [apply (snd_killed r Hwf)|].
      simpl. intros k [[Hk1 Hk2]%IsValid_true Hk3]. split; [|done].
      apply IsValid_true. simpl. split; [lia|]. by apply Hvers0.
    + rewrite Hkilled0. apply (snd_killed_sorted r Hwf).
  - simpl. unfold slot_of. simpl. by rewrite GetEntityIndex_CreateEntityId.
Qed.


Lemma CreateEntity_recycles_sound r (front : Z) (rest : list Z) :
  registry_sound r → m_freeIndices r = front :: rest →
  ∃ e r1 version,
    CreateEntity r = Done (e, r1) ∧
    m_entityVersions r !! Z.to_nat front = Some version ∧
    GetId e = CreateEntityId front version ∧
    slot_of e = front ∧ GetEntityVersion (GetId e) = version ∧
    m_entityVersions r1 = m_entityVersions r.
Proof.
  intros Hwf Hfr. destruct (snd_tables r Hwf) as [Hnum Hvers Hvlen Hsigs Hslen Hfree Hpools Hgroups].
  rewrite Hfr in Hfree. apply Forall_cons in Hfree as [Hfront _].
  destruct (lookup_lt_is_Some_2 (m_entityVersions r) (Z.to_nat front) ltac:(lia))
    as [version Hversion].
  pose proof (proj1 (Forall_forall _ _) Hvers version
                ltac:(by eapply list_elem_of_lookup_2)) as Hvr.
  pose proof (lookup_lt_Some _ _ _ Hversion) as Hilt. simpl in Hvr.
  unfold CreateEntity. rewrite Hfr. rewrite bind_Done_l. simpl m_entityVersions.
  rewrite (vec_at_lookup _ _ version) by (done || lia). rewrite bind_Done_l.
  eexists _, _, version. split; [done|]. simpl. unfold slot_of. simpl.
  rewrite GetEntityIndex_CreateEntityId, GetEntityVersion_CreateEntityId by lia.
  by split_and!.
Qed.


Lemma Registry_new_sound : registry_sound (Registry_new T).
Proof.
  split; [split|..]; simpl; try done; try constructor.
Qed.


Lemma registry_sound_frame r r' :
  registry_sound r →
  m_numEntities r' = m_numEntities r →
  m_entitiesToBeAdded r' = m_entitiesToBeAdded r →
  m_entitiesToBeKilled r' = m_entitiesToBeKilled r →
  length (m_entityComponentSignatures r') = length (m_entityComponentSignatures r) →
  m_freeIndices r' = m_freeIndices r →
  m_entityVersions r' = m_entityVersions r →
  Forall (fun o => ∀ p, o = Some p → indexed_inv p) (m_componentPools r') →
  (∀ h g, m_groups r' !! h = Some g → group_inv g) →
  registry_sound r'.
Proof.
  intros Hwf Hn Ha Hk Hs Hf Hv Hp Hg.
  destruct Hwf as [[Hnum Hvers Hvlen Hsigs Hslen Hfree Hpools Hgroups] Hadded Hkilled Hsorted].
  split; [split|..].
  - by rewrite Hn.
  - by rewrite Hv.
  - by rewrite Hv.
  - by rewrite Hv, Hs.
  - by rewrite Hs.
  - by rewrite Hf, Hv.
  - done.
  - done.
  - by rewrite Ha, Hs.
  - rewrite Hk. eapply Forall_impl; [exact Hkilled|]. simpl. intros e [He Hid].
    split; [|done]. by rewrite (IsValid_versions r' r).
  - by rewrite Hk.
Qed.


Lemma AddComponent_sound r e (c : Z) (v : T) r1 :
  registry_sound r →
  (∀ p, GetPool r c = Some p → Z.of_nat (length (GetData p)) < 2 ^ 31 - 1) →
  AddComponent r e c v = Done r1 → registry_sound r1.
Proof.
  intros Hwf Hsmall Hadd.
  pose proof (snd_pools r (snd_tables r Hwf)) as Hpools.
  unfold AddComponent in Hadd. cbv zeta in Hadd.
  set (pools1 := if decide _ then _ else _) in Hadd.
  apply bind_Done in Hadd as (slot & Hslot & Hadd).
  apply bind_Done in Hadd as (pool1 & Hpool1 & Hadd).
  apply bind_Done in Hadd as (pools2 & Hpools2 & Hadd).
  apply bind_Done in Hadd as (sig & Hsig & Hadd).
  apply bind_Done in Hadd as (sig1 & Hsig1 & Hadd).
  apply bind_Done in Hadd as (sigs1 & Hsigs1 & Hadd).
  injection Hadd as <-.
  apply vec_at_Done in Hslot as [Hc Hslot].
  apply vec_store_Done in Hpools2 as [_ ->].
  apply length_vec_store in Hsigs1.
  assert (Forall (fun o => ∀ p, o = Some p → indexed_inv p) pools1) as Hpools1.
  { subst pools1. destruct (decide _); [|done].
    unfold vec_resize. apply Forall_app. split; [by apply Forall_take|].
    by apply Forall_replicate. }
  assert (indexed_inv (default Pool_new slot) ∧
          Z.of_nat (length (m_data (default Pool_new slot))) < 2 ^ 31 - 1)
    as [Hinv Hsize].
  { destruct slot as [p|]; simpl.
    - split.
      + by apply (proj1 (Forall_forall _ _) Hpools1 (Some p)
                    ltac:(by eapply list_elem_of_lookup_2)).
      + apply (Hsmall p). unfold GetPool. subst pools1.
        destruct (decide _) as [Hge|Hlt].
        * unfold vec_resize in Hslot. rewrite take_ge in Hslot by lia.
          rewrite lookup_app_r in Hslot by lia.
          by apply lookup_replicate in Hslot as [? _].
        * by rewrite Hslot.
    - split; [apply packed_indexed, Pool_new_inv|done]. }
  pose proof (Add_indexed _ _ _ _ Hinv Hsize Hpool1) as Hinv1.
  apply (registry_sound_frame r); simpl; try done.
  - apply Forall_insert; [done|]. by intros ? [= <-].
  - apply (snd_groups r (snd_tables r Hwf)).
Qed.

Lemma RemoveComponent_sound r e (c : Z) r1 :
  registry_sound r → RemoveComponent r e c = Done r1 → registry_sound r1.
Proof.
  intros Hwf Hrem.
  pose proof (snd_pools r (snd_tables r Hwf)) as Hpools.
  unfold RemoveComponent in Hrem. cbv zeta in Hrem.
  apply bind_Done in Hrem as ([pool|] & Hslot & Hrem); [|done].
  apply bind_Done in Hrem as (pool1 & Hpool1 & Hrem).
  apply bind_Done in Hrem as (pools1 & Hpools1 & Hrem).
  apply bind_Done in Hrem as (sig & Hsig & Hrem).
  apply bind_Done in Hrem as (sig1 & Hsig1 & Hrem).
  apply bind_Done in Hrem as (sigs1 & Hsigs1 & Hrem).
  injection Hrem as <-.
  apply vec_at_Done in Hslot as [Hc Hslot].
  apply vec_store_Done in Hpools1 as [_ ->].
  apply length_vec_store in Hsigs1.
  assert (indexed_inv pool) as Hinv.
  { by apply (proj1 (Forall_forall _ _) Hpools (Some pool)
                ltac:(by eapply list_elem_of_lookup_2)). }
  destruct (Remove_indexed pool (GetId e) Hinv) as (pool1' & Heq & Hinv1).
  unfold RemoveEntityFromPool in Hpool1. rewrite Heq in Hpool1. injection Hpool1 as ->.
  apply (registry_sound_frame r); simpl; try done.
  - apply Forall_insert; [done|]. by intros ? [= <-].
  - apply (snd_groups r (snd_tables r Hwf)).
Qed.


Lemma TagEntity_sound r e (tag : string) r1 :
  registry_sound r → TagEntity r e tag = Done r1 → registry_sound r1.
Proof.
  intros Hwf Htag. unfold TagEntity in Htag. cbv zeta in Htag.
  apply bind_Done in Htag as (tags & _ & Htag). injection Htag as <-.
  destruct (snd_tables r Hwf).
  by apply (registry_sound_frame r).
Qed.


Lemma GroupEntity_sound r e (groupName : string) r1 :
  registry_sound r →
  (∀ g, m_groups r !! HashString groupName = Some g →
        Z.of_nat (length (entities g)) < 2 ^ 31 - 1) →
  GroupEntity r e groupName = Done r1 → registry_sound r1.
Proof.
  intros Hwf Hsize Hgroup.
  destruct (snd_tables r Hwf) as [Hnum Hvers Hvlen Hsigs Hslen Hfree Hpools Hgroups].
  unfold GroupEntity in Hgroup. cbv zeta in Hgroup.
  set (group := default (mkGroupData [] ∅) (m_groups r !! HashString groupName)) in *.
  assert (group_inv group ∧ Z.of_nat (length (entities group)) < 2 ^ 31 - 1)
    as [[Hlen Hmap] Hsmall].
  { subst group. destruct (m_groups r !! HashString groupName) as [g|] eqn:Hg; simpl.
    - split; [by eapply Hgroups|by apply Hsize].
    - split; [|done]. split; [done|]. intros id i Hi. simpl in Hi.
      by rewrite lookup_empty in Hi. }
  destruct (entityToIndex group !! GetId e) as [i|] eqn:Hi.
  - injection Hgroup as <-. apply (registry_sound_frame r); simpl; try done.
    intros h g Hg. destruct (decide (h = HashString groupName)) as [->|Hne].
    + rewrite lookup_insert_eq in Hg. by injection Hg as <-.
    + rewrite lookup_insert_ne in Hg by done. eauto.
  - apply bind_Done in Hgroup as (hashes & _ & Hgroup).
    apply bind_Done in Hgroup as (egs & _ & Hgroup). injection Hgroup as <-.
    apply (registry_sound_frame r); simpl; try done.
    intros h g Hg. destruct (decide (h = HashString groupName)) as [->|Hne].
    + rewrite lookup_insert_eq in Hg. injection Hg as <-. split; simpl.
      * rewrite length_app. simpl. lia.
      * intros id j Hj. rewrite length_app in Hj. simpl in Hj.
        rewrite to_int_small in Hj by lia.
        destruct (decide (id = GetId e)) as [->|Hid].
        -- rewrite lookup_insert_eq in Hj. injection Hj as <-. split; [lia|].
           exists e. split; [|done].
           replace (Z.to_nat (Z.of_nat (length (entities group) + 1) - 1))
             with (length (entities group)) by lia.
           by apply list_lookup_middle.
        -- rewrite lookup_insert_ne in Hj by done.
           destruct (Hmap id j Hj) as (Hj0 & x & Hx & Hxid).
           split; [done|]. exists x. split; [|done]. by apply lookup_app_l_Some.
    + rewrite lookup_insert_ne in Hg by done. eauto.
Qed.

Lemma registry_wf_sound r : registry_wf r → registry_sound r.
Proof.
  intros [[Hnum Hvers Hvlen Hsigs Hslen Hfree Hpools Hgroups] Hadded Hkilled Hsorted].
  split; [split|..]; try done.
  eapply Forall_impl; [exact Hpools|]. intros o Ho p Hp. by apply packed_indexed, Ho.
Qed.

Lemma RemoveEntityTag_sound r e : registry_sound r → registry_sound (RemoveEntityTag r e).
Proof.
  intros Hwf. destruct (RemoveEntityTag_frame r e) as (e2t & t2e & ->).
  destruct (snd_tables r Hwf). by apply (registry_sound_frame r).
Qed.

Lemma RemoveEntityGroup_sound r e r1 :
  registry_sound r → RemoveEntityGroup r e = Done r1 → registry_sound r1.
Proof.
  intros Hwf Hrem.
  destruct (RemoveEntityGroup_total r e (snd_groups r (snd_tables r Hwf)))
    as (gs & egs & Heq & Hgs).
  rewrite Heq in Hrem. injection Hrem as <-.
  destruct (snd_tables r Hwf). by apply (registry_sound_frame r).
Qed.

Lemma GetEntitiesByGroup_sound r (groupName : string) :
  registry_sound r → registry_sound (GetEntitiesByGroup r groupName).2.
Proof.
  intros Hwf. unfold GetEntitiesByGroup. cbv zeta. simpl.
  destruct (snd_tables r Hwf) as [Hnum Hvers Hvlen Hsigs Hslen Hfree Hpools Hgroups].
  apply (registry_sound_frame r); simpl; try done.
  intros h g Hg. destruct (decide (h = HashString groupName)) as [->|Hne].
  - rewrite lookup_insert_eq in Hg. injection Hg as <-.
    destruct (m_groups r !! HashString groupName) as [g|] eqn:Hgr; simpl; [by eauto|].
    split; [done|]. intros id i Hi. simpl in Hi. by rewrite lookup_empty in Hi.
  - rewrite lookup_insert_ne in Hg by done. eauto.
Qed.

Lemma with_systems_sound r (systems : gmap nat System) :
  registry_sound r → registry_sound (with_systems r systems).
Proof. intros Hwf. destruct (snd_tables r Hwf). by apply (registry_sound_frame r). Qed.

Lemma same_entries_indexed (pools pools' : list (option (Pool T))) :
  same_entries pools pools' →
  Forall (fun o => ∀ p, o = Some p → indexed_inv p) pools →
  Forall (fun o => ∀ p, o = Some p → indexed_inv p) pools'.
Proof.
  induction 1 as [|o o' pools pools' Ho _ IH]; intros Hall; [constructor|].
  apply Forall_cons in Hall as [Hp Hall]. constructor; [|by apply IH].
  intros q Hq. destruct Ho as [p p0 (Hpk & Hsp & Hlen)|]; [|done].
  injection Hq as <-. destruct (Hp p eq_refl) as [H1 H2 H3 H4 H5 H6].
  split; by rewrite ?Hpk, ?Hsp, ?Hlen.
Qed.

(** Every state a client reaches satisfies the invariant. *)
Lemma reachable_sound r : reachable r → registry_sound r.
Proof.
  induction 1 as [|r e r1 _ IH Hc|r e _ IH Hid|r r1 _ IH Hu|r e c v r1 _ IH Hf Ha
                  |r e c r1 _ IH Hr|r e tag r1 _ IH Ht|r e _ IH
                  |r e g r1 _ IH Hs Hg|r e r1 _ IH Hg|r g _ IH
                  |r key sys _ IH|r key r1 _ IH Hr|r key sys sys' _ IH _
                  |r pools' _ IH Hsame].
  - apply Registry_new_sound.
  - by destruct (CreateEntity_sound r e r1 IH Hc) as [? _].
  - by apply KillEntity_sound.
  - destruct (Update_sound r IH) as (r' & Heq & Hwf' & _). congruence.
  - by eapply AddComponent_sound.
  - by eapply RemoveComponent_sound.
  - by eapply TagEntity_sound.
  - by apply RemoveEntityTag_sound.
  - by eapply GroupEntity_sound.
  - by eapply RemoveEntityGroup_sound.
  - by apply GetEntitiesByGroup_sound.
  - unfold AddSystem. destruct (m_systems r !! key); [done|]. by apply with_systems_sound.
  - unfold RemoveSystem in Hr. destruct (m_systems r !! key); [|done].
    injection Hr as <-. by apply with_systems_sound.
  - by apply with_systems_sound.
  - destruct (snd_tables r IH) as [Hnum Hvers Hvlen Hsigs Hslen Hfree Hpools Hgroups].
    apply (registry_sound_frame r); simpl; try done.
    by eapply same_entries_indexed.
Qed.
End Sound.

(** ** Recycling of a slot in a reachable state (claim C4) *)

Section ReachableRecycling.
Context {T : Type}.
Implicit Types r : Registry T.

(** C4, as amended.  Let e be a valid handle in a state reached from a new
    registry, then killed, then Update called.  Update returns, and the next
    CreateEntity returns a handle e' such that IsValid(e) is false
    afterwards and the id of e' differs from that of e; if e' has the slot
    of e, its generation is that of e plus one modulo 2^32.  When the
    free-list is empty and no other entity is pending destruction at the
    time e is killed, e' has the slot of e. *)
Theorem slot_recycled_under_next_generation r e :
  reachable r → IsValid r e = true → 0 ≤ GetId e < 2 ^ 64 →
  ∃ r3 e' r4,
    Update (KillEntity r e) = Done r3 ∧ CreateEntity r3 = Done (e', r4) ∧
    IsValid r4 e = false ∧ IsValid r4 e' = true ∧
    GetId e' ≠ GetId e ∧
    (slot_of e' = slot_of e →
     GetEntityVersion (GetId e') = to_u32 (GetEntityVersion (GetId e) + 1)) ∧
    (m_freeIndices r = [] → m_entitiesToBeKilled r = [] →
     slot_of e' = slot_of e).
Proof.
  intros Hreach Hvalid1 Hid. pose proof (reachable_sound r Hreach) as Hwf1.
  pose proof (KillEntity_sound r e Hwf1 Hid) as Hwf2.
  set (r2 := KillEntity r e) in *.
  assert (m_entitiesToBeKilled r2 = set_insert e (m_entitiesToBeKilled r) ∧
          m_freeIndices r2 = m_freeIndices r ∧
          m_entityVersions r2 = m_entityVersions r) as (Hk2 & Hf2 & Hv2).
  { subst r2. unfold KillEntity. by rewrite Hvalid1. }
  destruct (set_insert_elem e (m_entitiesToBeKilled r)) as (x & Hx & Hxid).
  rewrite <- Hk2 in Hx.
  destruct (Update_sound r2 Hwf2)
    as (r3 & Hupdate & Hwf3 & _ & _ & Hf3 & Hl3 & Hbump & _ & _).
  (* the slot of e carries the next generation after Update *)
  pose proof (Hbump x Hx) as Hbumped. unfold slot_of in Hbumped.
  rewrite Hxid in Hbumped. fold (slot_of e) in Hbumped.
  (* the free-list is not empty: it ends with the slots just freed *)
  destruct (m_freeIndices r3) as [|front rest] eqn:Hfr3.
  { exfalso. symmetry in Hf3. apply app_eq_nil in Hf3 as [_ Hnil].
    apply fmap_nil_inv in Hnil. rewrite Hnil in Hx. by apply elem_of_nil in Hx. }
  destruct (CreateEntity_recycles_sound r3 front rest Hwf3 Hfr3)
    as (e' & r4 & version & Hcreate' & Hversion & Hid' & Hslot' & Hver' & Hv4).
  destruct (CreateEntity_sound r3 e' r4 Hwf3 Hcreate') as (_ & Hvalid' & _).
  assert (IsValid r4 e = false) as Hinvalid.
  { apply IsValid_false. right. rewrite Hv4. fold (slot_of e). rewrite Hbumped.
    intros [= Heq]. by apply (to_u32_bump_ne _ (GetEntityVersion_range (GetId e))). }
  exists r3, e', r4. split_and!; try done.
  - intros Heq. rewrite (IsValid_id r4 e' e Heq) in Hvalid'. congruence.
  - intros Hslot. rewrite Hver'. rewrite <- Hslot, Hslot' in Hbumped. congruence.
  - intros Hfree1 Hkilled0. rewrite Hslot'.
    rewrite Hf2, Hfree1, Hk2, Hkilled0 in Hf3. simpl in Hf3. congruence.
Qed.

End ReachableRecycling.

Lemma slot_recycled_under_next_generation_witness :
  ∃ (e e' : Entity) (r1 r2 r3 r4 r5 r6 : Registry Z),
    CreateEntity (Registry_new Z) = Done (e, r1) ∧
    AddComponent r1 e 0 7 = Done r2 ∧ AddComponent r2 e 0 8 = Done r3 ∧
    Update r3 = Done r4 ∧
    Update (KillEntity r4 e) = Done r5 ∧ CreateEntity r5 = Done (e', r6) ∧
    IsValid r6 e = false ∧ GetId e' ≠ GetId e ∧ slot_of e' = slot_of e.
Proof.
  assert (∃ e (r1 r2 r3 r4 : Registry Z),
            CreateEntity (Registry_new Z) = Done (e, r1) ∧
            AddComponent r1 e 0 7 = Done r2 ∧ AddComponent r2 e 0 8 = Done r3 ∧
            Update r3 = Done r4 ∧
            GetPool r1 0 = None ∧
            (∃ p, GetPool r2 0 = Some p ∧ length (GetData p) = 1%nat) ∧
            IsValid r4 e = true ∧ 0 ≤ GetId e < 2 ^ 64 ∧
            m_freeIndices r4 = [] ∧ m_entitiesToBeKilled r4 = [])
    as (e & r1 & r2 & r3 & r4 & H1 & H2 & H3 & H4 & Hp1 & (p2 & Hp2 & Hl2) & Hv & Hid & Hf & Hk).
  { eexists _, _, _, _, _. split; [vm_compute; reflexivity|].
    split; [vm_compute; reflexivity|]. split; [vm_compute; reflexivity|].
    split; [vm_compute; reflexivity|]. split; [vm_compute; reflexivity|].
    split; [eexists; split; vm_compute; reflexivity|].
    split; [vm_compute; reflexivity|]. split; [vm_compute; split; congruence|].
    split; vm_compute; reflexivity. }
  assert (reachable r4) as Hreach.
  { eapply reach_Update; [|exact H4].
    eapply reach_AddComponent; [| |exact H3].
    - eapply reach_AddComponent; [| |exact H2].
      + eapply reach_CreateEntity; [apply reach_new|exact H1].
      + intros p Hp. congruence.
    - intros p Hp. rewrite Hp2 in Hp. injection Hp as <-. rewrite Hl2. done. }
  destruct (slot_recycled_under_next_generation r4 e Hreach Hv Hid)
    as (r5 & e' & r6 & Hupdate & Hcreate' & Hinvalid & _ & Hne & _ & Hslot).
  exists e, e', r1, r2, r3, r4, r5, r6. split_and!; try done. by apply Hslot.
Defined.


(** * Further properties of the code *)

(** ** The versioned identifier *)

(** ** The versioned identifier *)

(** X1 (Common.h: CreateEntityId, GetEntityIndex, GetEntityVersion): a slot
    index and a generation below 2^32 packed by CreateEntityId are read back
    unchanged by GetEntityIndex and GetEntityVersion, and the id is below
    2^64; and every 64-bit id is rebuilt by CreateEntityId from its two
    parts. *)
Theorem EntityId_round_trips :
  (∀ index version : Z,
     0 ≤ index < 2 ^ 32 → 0 ≤ version < 2 ^ 32 →
     GetEntityIndex (CreateEntityId index version) = index ∧
     GetEntityVersion (CreateEntityId index version) = version ∧
     0 ≤ CreateEntityId index version < 2 ^ 64) ∧
  (∀ id : Z,
     0 ≤ id < 2 ^ 64 →
     CreateEntityId (GetEntityIndex id) (GetEntityVersion id) = id).
Proof.
  split.
  - intros index version Hi Hv. split; [|split].
    + by apply GetEntityIndex_CreateEntityId.
    + by apply GetEntityVersion_CreateEntityId.
    + by apply CreateEntityId_range.
  - intros id Hid.
    pose proof (GetEntityIndex_range id) as Hi.
    pose proof (GetEntityVersion_range id) as Hv.
    apply EntityID_parts; [by apply CreateEntityId_range|done|..].
    + by apply GetEntityIndex_CreateEntityId.
    + by apply GetEntityVersion_CreateEntityId.
Qed.

(** ** Pools *)

Lemma vec_at_not_Done {A} (v : list A) (i : Z) :
  (0 ≤ i → v !! Z.to_nat i = None) → vec_at v i = Fault undefined_behaviour.
Proof.
  unfold vec_at. destruct (decide _) as [[H0 H1]|]; [|done].
  intros H. by rewrite H.
Qed.

Section PoolExtras.
Context {T : Type}.
Implicit Types p : Pool T.

Lemma Get_absent p id : Has p id = false → Get p id = Fault undefined_behaviour.
Proof.
  pose proof (GetEntityIndex_range id) as Hs.
  pose proof (page_nonneg (GetEntityIndex id) ltac:(lia)) as Hpg.
  pose proof (offset_range (GetEntityIndex id)) as Ho.
  unfold Has, Get, sparse_load. cbv zeta.
  destruct (decide (Z.of_nat (length (m_sparse p)) ≤ _)) as [Hge|Hlt].
  { intros _. rewrite vec_at_not_Done; [done|].
    intros _. apply lookup_ge_None_2. lia. }
  destruct (m_sparse p !! _) as [[c|]|] eqn:Hp.
  - rewrite (vec_at_lookup _ _ _ Hpg Hp), bind_Done_l.
    destruct (c !! _) as [i|] eqn:Hc.
    + intros Hi%negb_false_iff%Z.eqb_eq. subst i.
      rewrite (vec_at_lookup _ _ _ (proj1 Ho) Hc), bind_Done_l.
      apply vec_at_not_Done. lia.
    + intros _. by rewrite vec_at_not_Done.
  - intros _. by rewrite (vec_at_lookup _ _ _ Hpg Hp).
  - intros _. by rewrite vec_at_not_Done.
Qed.

Lemma Has_entry_None p id :
  packed_inv p → Has p id = false ↔ entry_of p (GetEntityIndex id) = None.
Proof.
  intros Hinv. pose proof (Has_is_Some p id Hinv) as H.
  destruct (Has p id); destruct (entry_of p _) eqn:He; split; try done.
  - intros _. destruct (proj1 H eq_refl) as [? ?]. done.
  - intros _. destruct H as [_ H]. by specialize (H (mk_is_Some _ _ eq_refl)).
Qed.

(* the lookups of an id depend on the entry of its slot only *)
Lemma lookup_by_entry p p' id :
  packed_inv p → packed_inv p' →
  entry_of p' (GetEntityIndex id) = entry_of p (GetEntityIndex id) →
  Has p' id = Has p id ∧ Get p' id = Get p id.
Proof.
  intros Hinv Hinv' He.
  destruct (entry_of p (GetEntityIndex id)) as [[x v]|] eqn:Hp.
  - assert (Has p id = true) as -> by (apply Has_is_Some; [done|by rewrite Hp]).
    assert (Has p' id = true) as -> by (apply Has_is_Some; [done|by rewrite He]).
    by rewrite (Get_entry p id x v), (Get_entry p' id x v).
  - assert (Has p id = false) as Hf by (by apply Has_entry_None).
    assert (Has p' id = false) as Hf' by (by apply Has_entry_None).
    by rewrite Hf, Hf', !Get_absent.
Qed.

Lemma GetSize_length p :
  packed_inv p →
  GetSize p = Z.of_nat (length (m_packed p)) ∧
  0 ≤ GetSize p ≤ SPARSE_PAGES * PAGE_SIZE.
Proof.
  intros Hinv. pose proof (packed_inv_bound p Hinv) as Hb.
  unfold GetSize. rewrite (inv_lengths p Hinv).
  rewrite capacity_value in *. rewrite to_int_small by lia. lia.
Qed.

Lemma Add_fresh p id v :
  packed_inv p → Has p id = false → GetEntityIndex id < SPARSE_PAGES * PAGE_SIZE →
  ∃ p',
    Add p id v = Done p' ∧ packed_inv p' ∧
    Has p' id = true ∧ Get p' id = Done v ∧
    GetSize p' = GetSize p + 1 ∧
    GetEntities p' = GetEntities p ++ [id] ∧
    ∀ id', GetEntityIndex id' ≠ GetEntityIndex id →
      Has p' id' = Has p id' ∧ Get p' id' = Get p id'.
Proof.
  intros Hinv Habs Hcap.
  destruct (Add_spec p id v Hinv Hcap) as (sp' & Heq & _).
  destruct (Add_inv p id v _ Hinv Habs Heq) as (Hinv' & Hpacked & Hentry).
  pose proof (GetEntityIndex_range id) as Hs.
  eexists. split; [exact Heq|]. split; [done|].
  assert (entry_of (mkPool (m_data p ++ [v]) (m_packed p ++ [id]) sp') (GetEntityIndex id)
          = Some (id, v)) as He.
  { rewrite Hentry by lia. by rewrite decide_True. }
  split_and!.
  - apply Has_is_Some; [done|]. by rewrite He.
  - by apply (Get_entry _ id id v).
  - destruct (GetSize_length _ Hinv') as [-> _].
    destruct (GetSize_length _ Hinv) as [-> _].
    simpl. rewrite length_app. simpl. lia.
  - done.
  - intros id' Hne. apply lookup_by_entry; [done..|].
    pose proof (GetEntityIndex_range id').
    rewrite Hentry by lia. by rewrite decide_False.
Qed.

Lemma Remove_present p id :
  packed_inv p → Has p id = true →
  ∃ p',
    Remove p id = Done p' ∧ packed_inv p' ∧
    Has p' id = false ∧
    GetSize p' = GetSize p - 1 ∧
    (∀ x, x ∈ GetEntities p' ↔ x ∈ GetEntities p ∧ GetEntityIndex x ≠ GetEntityIndex id) ∧
    ∀ id', GetEntityIndex id' ≠ GetEntityIndex id →
      Has p' id' = Has p id' ∧ Get p' id' = Get p id'.
Proof.
  intros Hinv Hhas.
  destruct (Remove_inv p id Hinv) as (p' & Heq & Hinv' & Hentry).
  destruct (Remove_spec p id Hinv Hhas)
    as (k & lastId & lastV & sp' & _ & _ & HlastV & Hk & Heq' & _).
  pose proof (GetEntityIndex_range id) as Hs.
  exists p'. split; [done|]. split; [done|]. split_and!.
  - apply Has_entry_None; [done|]. rewrite Hentry by lia. by rewrite decide_True.
  - destruct (GetSize_length _ Hinv') as [-> _].
    destruct (GetSize_length _ Hinv) as [-> _].
    rewrite Heq in Heq'. injection Heq' as ->. simpl.
    rewrite length_take, length_insert. lia.
  - intros x. pose proof (GetEntityIndex_range x) as Hx. unfold GetEntities.
    rewrite (packed_entry p' x Hinv'), (packed_entry p x Hinv). split.
    + intros [v Hv]. rewrite Hentry in Hv by lia.
      destruct (decide _) as [|Hne]; [done|]. split; [by exists v|]. congruence.
    + intros [[v Hv] Hne]. exists v. rewrite Hentry by lia.
      rewrite decide_False by congruence. done.
  - intros id' Hne. apply lookup_by_entry; [done..|].
    pose proof (GetEntityIndex_range id').
    rewrite Hentry by lia. by rewrite decide_False.
Qed.

Lemma Set_present p id v :
  packed_inv p → Has p id = true →
  ∃ (k : nat) (id0 : Z),
    cell_of (m_sparse p) (GetEntityIndex id) = Z.of_nat k ∧
    m_packed p !! k = Some id0 ∧
    Set_ p id v = Done (mkPool (<[k := v]> (m_data p)) (m_packed p) (m_sparse p)) ∧
    packed_inv (mkPool (<[k := v]> (m_data p)) (m_packed p) (m_sparse p)) ∧
    ∀ s', 0 ≤ s' →
      entry_of (mkPool (<[k := v]> (m_data p)) (m_packed p) (m_sparse p)) s' =
        if decide (GetEntityIndex id = s') then Some (id0, v) else entry_of p s'.
Proof.
  intros Hinv Hhas. pose proof (GetEntityIndex_range id) as Hs.
  pose proof Hhas as Hc. apply Has_true in Hc.
  destruct (present_entry p _ Hinv (proj1 Hs) Hc) as (k & id0 & v0 & Hk & Hid0 & Hv0 & Hslot).
  exists k, id0. split; [done|]. split; [done|]. split_and!.
  - unfold Set_. cbv zeta. rewrite Hhas.
    rewrite (cell_sparse_load _ _ (proj1 Hs) Hc), bind_Done_l, Hk.
    rewrite vec_store_lt; [by rewrite Nat2Z.id|].
    apply lookup_lt_Some in Hv0. lia.
  - destruct Hinv as [H1 H2 H3 H4 H5]. split; simpl; try done.
    by rewrite length_insert.
  - intros s' Hs'. destruct (decide (GetEntityIndex id = s')) as [<-|Hne].
    + apply (entry_of_present _ _ k); simpl; [done..|].
      apply list_lookup_insert_eq. by eapply lookup_lt_Some.
    + destruct (decide (cell_of (m_sparse p) s' = -1)) as [Hc'|Hc'].
      { by rewrite !entry_of_absent. }
      destruct (present_entry p s' Hinv Hs' Hc') as (k' & id' & v' & Hk' & Hid' & Hv' & Hslot').
      rewrite (entry_of_present p s' k' id' v') by done.
      apply (entry_of_present _ _ k'); simpl; [done..|].
      rewrite list_lookup_insert_ne; [done|]. intros ->. congruence.
Qed.
End PoolExtras.

(** X2 (Pool::Add): in a pool that satisfies the packing invariant, Add on
    an id whose slot is not held and lies below MAX_ENTITIES returns;
    afterwards the pool holds the id, Get gives the value added, the size
    has grown by one, the id is the last of the entity list, the invariant
    still holds, and Has and Get of every id of another slot are as
    before. *)
Theorem Pool_Add_stores {T} (p : Pool T) (id : Z) (v : T) :
  packed_inv p → Has p id = false → GetEntityIndex id < MAX_ENTITIES →
  ∃ p',
    Add p id v = Done p' ∧ packed_inv p' ∧
    Has p' id = true ∧ Get p' id = Done v ∧
    GetSize p' = GetSize p + 1 ∧
    GetEntities p' = GetEntities p ++ [id] ∧
    ∀ id', GetEntityIndex id' ≠ GetEntityIndex id →
      Has p' id' = Has p id' ∧ Get p' id' = Get p id'.
Proof.
  intros Hinv Habs Hcap. apply Add_fresh; [done..|].
  rewrite capacity_value. unfold MAX_ENTITIES in Hcap. lia.
Qed.

Lemma Pool_Add_stores_witness :
  ∃ p' : Pool Z,
    Add (pool_of [OpAdd 0 10]) 1 11 = Done p' ∧
    Has p' 1 = true ∧ Get p' 1 = Done 11 ∧ Get p' 0 = Done 10 ∧
    GetEntities p' = [0; 1].
Proof.
  destruct (Pool_Add_stores (pool_of [OpAdd 0 10]) 1 11)
    as (p' & Heq & _ & Hhas & Hget & _ & Hents & Hframe).
  - apply pool_of_inv. vm_compute. reflexivity.
  - vm_compute. reflexivity.
  - vm_compute. reflexivity.
  - exists p'. split; [exact Heq|]. split; [exact Hhas|]. split; [exact Hget|].
    split; [|exact Hents].
    destruct (Hframe 0) as [_ ->]; [vm_compute; discriminate|].
    vm_compute. reflexivity.
Defined.

(** X3 (Pool::Remove): in a pool that satisfies the packing invariant,
    Remove on an id that Has reports returns; afterwards Has is false for
    the id, the size is one less, the entity list holds the ids it held
    except those of the removed slot, the invariant still holds, and Has
    and Get of every id of another slot are as before, also for the entry
    that was moved into the gap. *)
Theorem Pool_Remove_swaps_out {T} (p : Pool T) (id : Z) :
  packed_inv p → Has p id = true →
  ∃ p',
    Remove p id = Done p' ∧ packed_inv p' ∧
    Has p' id = false ∧
    GetSize p' = GetSize p - 1 ∧
    (∀ x, x ∈ GetEntities p' ↔ x ∈ GetEntities p ∧ GetEntityIndex x ≠ GetEntityIndex id) ∧
    ∀ id', GetEntityIndex id' ≠ GetEntityIndex id →
      Has p' id' = Has p id' ∧ Get p' id' = Get p id'.
Proof. apply Remove_present. Qed.

Lemma Pool_Remove_swaps_out_witness :
  ∃ p' : Pool Z,
    Remove (pool_of [OpAdd 0 10; OpAdd 1 11; OpAdd 2 12]) 0 = Done p' ∧
    Has p' 0 = false ∧ GetSize p' = 2 ∧
    Get p' 1 = Done 11 ∧ Get p' 2 = Done 12.
Proof.
  destruct (Pool_Remove_swaps_out (pool_of [OpAdd 0 10; OpAdd 1 11; OpAdd 2 12]) 0)
    as (p' & Heq & _ & Hhas & Hsize & _ & Hframe).
  - apply pool_of_inv. vm_compute. reflexivity.
  - vm_compute. reflexivity.
  - exists p'. split; [exact Heq|]. split; [exact Hhas|]. split; [exact Hsize|].
    destruct (Hframe 1) as [_ ->]; [vm_compute; discriminate|].
    destruct (Hframe 2) as [_ ->]; [vm_compute; discriminate|].
    split; vm_compute; reflexivity.
Defined.

(** X4 (Pool::Set): in a pool that satisfies the packing invariant, Set on
    an id whose slot lies below MAX_ENTITIES returns; afterwards Get gives
    the value set; the size is unchanged when the slot was held and one
    more when it was not; the entity list is unchanged when the slot was
    held; Has and Get of every id of another slot are as before. *)
Theorem Pool_Set_replaces_or_adds {T} (p : Pool T) (id : Z) (v : T) :
  packed_inv p → GetEntityIndex id < MAX_ENTITIES →
  ∃ p',
    Set_ p id v = Done p' ∧ packed_inv p' ∧
    Has p' id = true ∧ Get p' id = Done v ∧
    GetSize p' = (if Has p id then GetSize p else GetSize p + 1) ∧
    (Has p id = true → GetEntities p' = GetEntities p) ∧
    ∀ id', GetEntityIndex id' ≠ GetEntityIndex id →
      Has p' id' = Has p id' ∧ Get p' id' = Get p id'.
Proof.
  intros Hinv Hcap. pose proof (GetEntityIndex_range id) as Hs.
  destruct (Has p id) eqn:Hhas.
  - destruct (Set_present p id v Hinv Hhas) as (k & id0 & Hk & Hid0 & Heq & Hinv' & Hentry).
    eexists. split; [exact Heq|]. split; [done|].
    assert (entry_of (mkPool (<[k := v]> (m_data p)) (m_packed p) (m_sparse p))
              (GetEntityIndex id) = Some (id0, v)) as He.
    { rewrite Hentry by lia. by rewrite decide_True. }
    split_and!.
    + apply Has_is_Some; [done|]. by rewrite He.
    + by apply (Get_entry _ id id0 v).
    + unfold GetSize. simpl. by rewrite length_insert.
    + done.
    + intros id' Hne. apply lookup_by_entry; [done..|].
      pose proof (GetEntityIndex_range id').
      rewrite Hentry by lia. by rewrite decide_False.
  - destruct (Add_fresh p id v Hinv Hhas)
      as (p' & Heq & Hinv' & Hhas' & Hget & Hsize & _ & Hframe).
    { rewrite capacity_value. unfold MAX_ENTITIES in Hcap. lia. }
    exists p'. unfold Set_. cbv zeta. rewrite Hhas. by split_and!.
Qed.

Lemma Pool_Set_replaces_or_adds_witness :
  ∃ p' : Pool Z,
    Set_ (pool_of [OpAdd 0 10; OpAdd 1 11]) 0 99 = Done p' ∧
    Get p' 0 = Done 99 ∧ GetSize p' = 2 ∧ Get p' 1 = Done 11.
Proof.
  destruct (Pool_Set_replaces_or_adds (pool_of [OpAdd 0 10; OpAdd 1 11]) 0 99)
    as (p' & Heq & _ & _ & Hget & Hsize & _ & Hframe).
  - apply pool_of_inv. vm_compute. reflexivity.
  - vm_compute. reflexivity.
  - exists p'. split; [exact Heq|]. split; [exact Hget|].
    split; [rewrite Hsize; vm_compute; reflexivity|].
    destruct (Hframe 1) as [_ ->]; [vm_compute; discriminate|].
    vm_compute. reflexivity.
Defined.

(** X5 (Pool::Get): for an id that Has does not report, Get leaves the
    defined behaviour, whatever the state of the pool: it reads through a
    page that is missing or null, or reads m_data at index -1. *)
Theorem Pool_Get_absent_undefined {T} (p : Pool T) (id : Z) :
  Has p id = false → Get p id = Fault undefined_behaviour.
Proof. apply Get_absent. Qed.

Lemma Pool_Get_absent_undefined_witness :
  Get (pool_of [OpAdd 0 10; OpRemove 0]) 0 = Fault undefined_behaviour.
Proof.
  apply (Pool_Get_absent_undefined (pool_of [OpAdd 0 10; OpRemove 0]) 0).
  vm_compute. reflexivity.
Defined.

(** X6 (Pool::Clear): a pool whose page table has the length the
    constructor gave it is, after Clear, equal to a newly constructed pool:
    empty, of size 0, holding no id.  This holds also for a pool whose
    dense arrays and sparse index no longer agree. *)
Theorem Pool_Clear_resets {T} (p : Pool T) :
  Z.of_nat (length (m_sparse p)) = SPARSE_PAGES →
  Clear p = Pool_new ∧
  IsEmpty (Clear p) = true ∧ GetSize (Clear p) = 0 ∧
  ∀ id, Has (Clear p) id = false.
Proof.
  intros Hlen.
  assert (Clear p = Pool_new) as ->.
  { transitivity (mkPool (T:=T) [] [] (m_sparse (@Pool_new T))); [|reflexivity].
    unfold Clear. f_equal. rewrite Pool_new_sparse.
    replace (Z.to_nat SPARSE_PAGES) with (length (m_sparse p)) by lia.
    generalize (m_sparse p). intros l. induction l as [|x l IH]; [done|].
    rewrite fmap_cons. cbn [length replicate]. by f_equal. }
  split; [done|]. split; [done|]. split; [done|].
  intros id. apply Has_false, Pool_new_cell.
Qed.

Lemma Pool_Clear_resets_witness :
  Clear (pool_of [OpAdd 5 10; OpAdd 5 20]) = @Pool_new Z ∧
  IsEmpty (Clear (pool_of [OpAdd 5 10; OpAdd 5 20])) = true ∧
  GetSize (Clear (pool_of [OpAdd 5 10; OpAdd 5 20])) = 0 ∧
  ∀ id, Has (Clear (pool_of [OpAdd 5 10; OpAdd 5 20])) id = false.
Proof.
  apply (Pool_Clear_resets (pool_of [OpAdd 5 10; OpAdd 5 20])).
  vm_compute. reflexivity.
Defined.

(** X7 (Pool::GetEntities, GetData, operator[], Get): under the packing
    invariant the i-th id of GetEntities owns the i-th value of GetData:
    operator[](i) and Get of that id both return it, and Has reports the
    id. *)
Theorem Pool_dense_arrays_parallel {T} (p : Pool T) (i : nat) (id : Z) :
  packed_inv p → GetEntities p !! i = Some id →
  ∃ v, GetData p !! i = Some v ∧
       Pool_subscript p (Z.of_nat i) = Done v ∧
       Get p id = Done v ∧ Has p id = true.
Proof.
  intros Hinv Hi. unfold GetEntities in Hi. unfold GetData, Pool_subscript.
  destruct (lookup_lt_is_Some_2 (m_data p) i) as [v Hv].
  { rewrite (inv_lengths p Hinv). by eapply lookup_lt_Some. }
  pose proof (inv_dense p Hinv i id Hi) as Hc.
  pose proof (entry_of_present p _ i id v Hc Hi Hv) as He.
  exists v. split; [done|]. split_and!.
  - apply vec_at_lookup; [lia|]. by rewrite Nat2Z.id.
  - by apply (Get_entry p id id v).
  - apply Has_is_Some; [done|]. by rewrite He.
Qed.

Lemma Pool_dense_arrays_parallel_witness :
  ∃ v : Z,
    GetData (pool_of [OpAdd 3 10; OpAdd 1 11; OpRemove 3]) !! 0%nat = Some v ∧
    Pool_subscript (pool_of [OpAdd 3 10; OpAdd 1 11; OpRemove 3]) 0 = Done v ∧
    Get (pool_of [OpAdd 3 10; OpAdd 1 11; OpRemove 3]) 1 = Done v ∧
    Has (pool_of [OpAdd 3 10; OpAdd 1 11; OpRemove 3]) 1 = true.
Proof.
  apply (Pool_dense_arrays_parallel (pool_of [OpAdd 3 10; OpAdd 1 11; OpRemove 3]) 0 1).
  - apply pool_of_inv. vm_compute. reflexivity.
  - vm_compute. reflexivity.
Defined.

(** X8 (Pool::GetSize, IsEmpty): under the packing invariant GetSize is the
    length of both dense arrays and lies between 0 and 1003520, the number
    of slots of the page table, so the conversion to int does not wrap; and
    IsEmpty is true exactly when GetSize is 0. *)
Theorem Pool_GetSize_bounded {T} (p : Pool T) :
  packed_inv p →
  GetSize p = Z.of_nat (length (GetEntities p)) ∧
  GetSize p = Z.of_nat (length (GetData p)) ∧
  0 ≤ GetSize p ≤ 1003520 ∧
  (IsEmpty p = true ↔ GetSize p = 0).
Proof.
  intros Hinv. destruct (GetSize_length p Hinv) as [Hsize Hb].
  rewrite capacity_value in Hb. unfold GetEntities, GetData.
  split; [done|]. split; [by rewrite (inv_lengths p Hinv)|]. split; [done|].
  rewrite Hsize, <- (inv_lengths p Hinv). unfold IsEmpty.
  destruct (m_data p); simpl; split; try done; lia.
Qed.

Lemma Pool_GetSize_bounded_witness :
  GetSize (pool_of [OpAdd 3 10; OpAdd 1 11]) =
    Z.of_nat (length (GetEntities (pool_of [OpAdd 3 10; OpAdd 1 11]))) ∧
  GetSize (pool_of [OpAdd 3 10; OpAdd 1 11]) =
    Z.of_nat (length (GetData (pool_of [OpAdd 3 10; OpAdd 1 11]))) ∧
  0 ≤ GetSize (pool_of [OpAdd 3 10; OpAdd 1 11]) ≤ 1003520 ∧
  (IsEmpty (pool_of [OpAdd 3 10; OpAdd 1 11]) = true ↔
   GetSize (pool_of [OpAdd 3 10; OpAdd 1 11]) = 0).
Proof.
  apply (Pool_GetSize_bounded (pool_of [OpAdd 3 10; OpAdd 1 11])).
  apply pool_of_inv. vm_compute. reflexivity.
Defined.

(** X9 (Pool::Has, Get, Remove): a pool finds an entry by the slot index
    alone.  For an id held by a pool that satisfies the packing invariant
    and any id' of the same slot (another generation), Has reports id', Get
    of id' returns the component of id, and Remove of id' removes the entry
    of id. *)
Theorem Pool_Remove_ignores_generation {T} (p : Pool T) (id id' : Z) :
  packed_inv p → id ∈ GetEntities p →
  GetEntityIndex id' = GetEntityIndex id →
  Has p id' = true ∧ Get p id' = Get p id ∧
  ∃ p', Remove p id' = Done p' ∧ Has p' id = false ∧ id ∉ GetEntities p'.
Proof.
  intros Hinv Hin Hslot. unfold GetEntities in Hin.
  apply (packed_entry p id Hinv) in Hin as [v Hv].
  assert (Has p id' = true) as Hhas.
  { apply Has_is_Some; [done|]. by rewrite Hslot, Hv. }
  split; [done|]. split.
  { rewrite (Get_entry p id id v Hinv Hv). apply (Get_entry p id' id v Hinv).
    by rewrite Hslot. }
  destruct (Remove_present p id' Hinv Hhas) as (p' & Heq & Hinv' & Hhas' & _ & Hmem & _).
  exists p'. split; [done|]. split.
  - apply Has_entry_None; [done|]. rewrite <- Hslot. by apply Has_entry_None.
  - intros [_ Hne]%Hmem. congruence.
Qed.

Lemma Pool_Remove_ignores_generation_witness :
  Has (pool_of [OpAdd 5 10]) (2 ^ 32 + 5) = true ∧
  Get (pool_of [OpAdd 5 10]) (2 ^ 32 + 5) = Get (pool_of [OpAdd 5 10]) 5 ∧
  ∃ p' : Pool Z,
    Remove (pool_of [OpAdd 5 10]) (2 ^ 32 + 5) = Done p' ∧
    Has p' 5 = false ∧ 5 ∉ GetEntities p'.
Proof.
  apply (Pool_Remove_ignores_generation (pool_of [OpAdd 5 10]) 5 (2 ^ 32 + 5)).
  - apply pool_of_inv. vm_compute. reflexivity.
  - vm_compute. apply elem_of_cons. by left.
  - vm_compute. reflexivity.
Defined.

(** ** Handles, systems, tags and groups *)

Section Handles.
Context {T : Type}.
Implicit Types r : Registry T.

Lemma CreateEntity_registry r e r1 : CreateEntity r = Done (e, r1) → registry e = this.
Proof.
  unfold CreateEntity. intros H.
  apply bind_Done in H as ([index r0] & _ & H). simpl in H.
  apply bind_Done in H as (version & _ & H). by injection H as <- _.
Qed.
End Handles.

(** X10 (Entity::Kill, AddComponent, RemoveComponent, HasComponent,
    GetComponent, Tag, HasTag, Group, BelongsToGroup): the member functions
    call through the registry pointer of the handle.  On the handle that
    GetEntityByTag returns for a tag without entry (a null pointer) every
    one of them leaves the defined behaviour; on a handle returned by
    CreateEntity each is the registry function of the same name. *)
Theorem Entity_members_need_registry {T} (r r' : Registry T) (tag : string) :
  (m_tagToEntity r !! HashString tag = None →
   let e := GetEntityByTag r tag in
   Entity_Kill r' e = Fault undefined_behaviour ∧
   (∀ c v, Entity_AddComponent r' e c v = Fault undefined_behaviour) ∧
   (∀ c, Entity_RemoveComponent r' e c = Fault undefined_behaviour) ∧
   (∀ c, Entity_HasComponent r' e c = Fault undefined_behaviour) ∧
   (∀ c, Entity_GetComponent r' e c = Fault undefined_behaviour) ∧
   (∀ t, Entity_Tag r' e t = Fault undefined_behaviour) ∧
   (∀ t, Entity_HasTag r' e t = Fault undefined_behaviour) ∧
   (∀ g, Entity_Group r' e g = Fault undefined_behaviour) ∧
   (∀ g, Entity_BelongsToGroup r' e g = Fault undefined_behaviour)) ∧
  (∀ e r1, CreateEntity r = Done (e, r1) →
   Entity_Kill r' e = Done (KillEntity r' e) ∧
   (∀ c v, Entity_AddComponent r' e c v = AddComponent r' e c v) ∧
   (∀ c, Entity_RemoveComponent r' e c = RemoveComponent r' e c) ∧
   (∀ c, Entity_HasComponent r' e c = HasComponent r' e c) ∧
   (∀ c, Entity_GetComponent r' e c = GetComponent r' e c) ∧
   (∀ t, Entity_Tag r' e t = TagEntity r' e t) ∧
   (∀ t, Entity_HasTag r' e t = Done (EntityHasTag r' e t)) ∧
   (∀ g, Entity_Group r' e g = GroupEntity r' e g) ∧
   (∀ g, Entity_BelongsToGroup r' e g = Done (EntityBelongsToGroup r' e g))).
Proof.
  split.
  - intros Hnone. unfold GetEntityByTag. cbv zeta. rewrite Hnone. by split_and!.
  - intros e r1 Hc. apply CreateEntity_registry in Hc.
    unfold Entity_Kill, Entity_AddComponent, Entity_RemoveComponent, Entity_HasComponent,
      Entity_GetComponent, Entity_Tag, Entity_HasTag, Entity_Group, Entity_BelongsToGroup,
      through_registry.
    rewrite Hc. by split_and!.
Qed.

(** X11 (Registry::AddSystem, HasSystem, GetSystem): after AddSystem the
    system type is present; std::unordered_map::insert does not overwrite,
    so GetSystem returns the instance stored first and a second AddSystem
    of the type changes nothing; other system types are unaffected. *)
Theorem AddSystem_keeps_first {T} (r : Registry T) (key : nat) (s1 s2 : System) :
  HasSystem (AddSystem r key s1) key = true ∧
  GetSystem (AddSystem r key s1) key = Done (default s1 (m_systems r !! key)) ∧
  AddSystem (AddSystem r key s1) key s2 = AddSystem r key s1 ∧
  ∀ key', key' ≠ key →
    HasSystem (AddSystem r key s1) key' = HasSystem r key' ∧
    GetSystem (AddSystem r key s1) key' = GetSystem r key'.
Proof.
  unfold AddSystem, HasSystem, GetSystem.
  destruct (m_systems r !! key) as [s0|] eqn:Hk; simpl.
  - rewrite !Hk. by split_and!.
  - rewrite !lookup_insert_eq. split_and!; [done..|].
    intros key' Hne. by rewrite !lookup_insert_ne.
Qed.

(** X12 (Registry::RemoveSystem, GetSystem): for a system type that is not
    present RemoveSystem erases the end iterator and GetSystem dereferences
    it: both leave the defined behaviour.  For a type that is present
    RemoveSystem returns, the type is absent afterwards, a following
    AddSystem stores its instance, and other types are unaffected. *)
Theorem RemoveSystem_present_or_undefined {T} (r : Registry T) (key : nat) :
  (HasSystem r key = false →
   RemoveSystem r key = Fault undefined_behaviour ∧
   GetSystem r key = Fault undefined_behaviour) ∧
  (HasSystem r key = true →
   ∃ r1, RemoveSystem r key = Done r1 ∧
     HasSystem r1 key = false ∧
     (∀ s, GetSystem (AddSystem r1 key s) key = Done s) ∧
     ∀ key', key' ≠ key →
       HasSystem r1 key' = HasSystem r key' ∧ GetSystem r1 key' = GetSystem r key').
Proof.
  unfold RemoveSystem, HasSystem, GetSystem, AddSystem.
  destruct (m_systems r !! key) as [s0|] eqn:Hk; (split; [done|]); [|done].
  intros _. eexists. split; [done|]. simpl.
  rewrite !lookup_delete_eq. split; [done|]. split.
  - intros s. simpl. by rewrite lookup_insert_eq.
  - intros key' Hne. by rewrite !lookup_delete_ne.
Qed.

Lemma Signature_set_Done (s : Z) (pos : Z) (value : bool) :
  0 ≤ pos < MAX_COMPONENTS →
  Signature_set s pos value = Done (if value then Z.setbit s pos else Z.clearbit s pos).
Proof. intros H. unfold Signature_set. by rewrite decide_True. Qed.

Lemma Signature_test_Done (s : Z) (pos : Z) :
  0 ≤ pos < MAX_COMPONENTS → Signature_test s pos = Done (Z.testbit s pos).
Proof. intros H. unfold Signature_test. by rewrite decide_True. Qed.

Lemma Signature_out_of_range (s : Z) (pos : Z) (value : bool) :
  MAX_COMPONENTS ≤ pos →
  Signature_set s pos value = Fault out_of_range ∧
  Signature_test s pos = Fault out_of_range.
Proof.
  intros H. unfold Signature_set, Signature_test. by rewrite !decide_False by lia.
Qed.

(** X13 (System::RequireComponent): for a component id below MAX_COMPONENTS
    RequireComponent sets that bit of the signature and no other, leaves
    the entity list alone and is idempotent; for an id of MAX_COMPONENTS or
    more std::bitset::set throws std::out_of_range. *)
Theorem RequireComponent_sets_one_bit (sys : System) (c : Z) :
  (0 ≤ c < MAX_COMPONENTS →
   ∃ sys1, RequireComponent sys c = Done sys1 ∧
     m_entities sys1 = m_entities sys ∧
     Signature_test (m_componentSignature sys1) c = Done true ∧
     (∀ c', 0 ≤ c' < MAX_COMPONENTS → c' ≠ c →
        Signature_test (m_componentSignature sys1) c'
        = Signature_test (m_componentSignature sys) c') ∧
     RequireComponent sys1 c = Done sys1) ∧
  (MAX_COMPONENTS ≤ c → RequireComponent sys c = Fault out_of_range).
Proof.
  split.
  - intros Hc. unfold RequireComponent. rewrite Signature_set_Done by done.
    rewrite bind_Done_l. eexists. split; [done|]. simpl.
    split; [done|]. split_and!.
    + rewrite Signature_test_Done by done. f_equal. apply Z.setbit_eq. lia.
    + intros c' Hc' Hne. rewrite !Signature_test_Done by done. f_equal.
      apply Z.setbit_neq; lia.
    + rewrite Signature_set_Done by done. rewrite bind_Done_l. do 2 f_equal.
      apply Z.bits_inj'. intros n Hn.
      destruct (decide (n = c)) as [->|Hne].
      * rewrite !Z.setbit_eq by lia. done.
      * rewrite (Z.setbit_neq _ c n) by lia. done.
  - intros Hc. unfold RequireComponent.
    by rewrite (proj1 (Signature_out_of_range _ c true Hc)).
Qed.

Section TagsMore.
Context {T : Type}.
Implicit Types r : Registry T.

Lemma TagEntity_spec r e (tag : string) :
  GetEntityIndex (GetId e) < 2 ^ 32 - 1 →
  TagEntity r e tag =
    Done (with_tags r
            (<[Z.to_nat (GetEntityIndex (GetId e)) := HashString tag]>
               (if decide (Z.of_nat (length (m_entityToTag r)) ≤ GetEntityIndex (GetId e))
                then vec_resize (Z.to_nat (GetEntityIndex (GetId e) + 1)) 0 (m_entityToTag r)
                else m_entityToTag r))
            (<[HashString tag := GetId e]> (m_tagToEntity r))).
Proof.
  intros Hidx. unfold TagEntity. cbv zeta.
  pose proof (GetEntityIndex_range (GetId e)) as Hr.
  set (index := GetEntityIndex (GetId e)) in *.
  rewrite to_u32_succ by lia.
  rewrite vec_store_lt; [done|].
  destruct (decide _) as [Hge|Hlt]; [|lia].
  rewrite length_vec_resize. lia.
Qed.

Lemma TagEntity_inv r e (tag : string) r1 :
  TagEntity r e tag = Done r1 →
  GetEntityIndex (GetId e) < Z.of_nat (length (m_entityToTag r1)) ∧
  m_entityToTag r1 !! Z.to_nat (GetEntityIndex (GetId e)) = Some (HashString tag) ∧
  m_tagToEntity r1 = <[HashString tag := GetId e]> (m_tagToEntity r) ∧
  (∀ i x, i ≠ Z.to_nat (GetEntityIndex (GetId e)) →
     m_entityToTag r !! i = Some x → m_entityToTag r1 !! i = Some x).
Proof.
  unfold TagEntity. cbv zeta. intros H.
  apply bind_Done in H as (tags2 & Hst & H). injection H as <-. simpl.
  apply vec_store_Done in Hst as [Hlt ->].
  rewrite length_insert. split; [lia|]. split; [|split; [done|]].
  - apply list_lookup_insert_eq. lia.
  - intros i x Hne Hx. rewrite list_lookup_insert_ne by done.
    destruct (decide _) as [Hge|]; [|done].
    apply lookup_vec_resize; [done|].
    rewrite length_vec_resize in Hlt. lia.
Qed.

Lemma EntityHasTag_outside r e (tag : string) :
  m_entityToTag r !! Z.to_nat (GetEntityIndex (GetId e)) = None →
  EntityHasTag r e tag = false.
Proof.
  intros Hl. unfold EntityHasTag. cbv zeta. rewrite Hl. by destruct (decide _).
Qed.

Lemma GetEntityByTag_lookup r (tag : string) :
  GetEntityByTag r tag =
    match m_tagToEntity r !! HashString tag with
    | Some id => mkEntity id this
    | None => mkEntity 0 nullptr
    end.
Proof. reflexivity. Qed.
End TagsMore.

(** X14 (Registry::TagEntity, EntityHasTag, GetEntityByTag): for a handle
    whose slot index is below 2^32 - 1 TagEntity returns; afterwards
    EntityHasTag is true for the tag, GetEntityByTag returns a handle of
    the registry that compares equal to the entity, the lookup of every tag
    of another hash is as before, and EntityHasTag of the entities of the
    other slots of the table is as before. *)
Theorem TagEntity_then_lookup {T} (r : Registry T) (e : Entity) (tag : string) :
  GetEntityIndex (GetId e) < 2 ^ 32 - 1 →
  ∃ r1,
    TagEntity r e tag = Done r1 ∧
    EntityHasTag r1 e tag = true ∧
    GetEntityByTag r1 tag = mkEntity (GetId e) this ∧
    Entity_eq (GetEntityByTag r1 tag) e = true ∧
    (∀ tag', HashString tag' ≠ HashString tag →
       GetEntityByTag r1 tag' = GetEntityByTag r tag') ∧
    (∀ e' tag',
       GetEntityIndex (GetId e') ≠ GetEntityIndex (GetId e) →
       GetEntityIndex (GetId e') < Z.of_nat (length (m_entityToTag r)) →
       EntityHasTag r1 e' tag' = EntityHasTag r e' tag').
Proof.
  intros Hidx. eexists. split; [by apply TagEntity_spec|].
  destruct (TagEntity_inv r e tag _ (TagEntity_spec r e tag Hidx))
    as (Hlen & Hl & Hmap & Hframe).
  set (r1 := with_tags _ _ _) in *.
  assert (GetEntityByTag r1 tag = mkEntity (GetId e) this) as Hby.
  { rewrite GetEntityByTag_lookup, Hmap. by rewrite lookup_insert_eq. }
  split_and!.
  - rewrite (EntityHasTag_lookup r1 e tag _ Hl). apply Z.eqb_refl.
  - done.
  - rewrite Hby. unfold Entity_eq. simpl. apply Z.eqb_refl.
  - intros tag' Hne. rewrite !GetEntityByTag_lookup, Hmap.
    by rewrite lookup_insert_ne.
  - intros e' tag' Hne Hlt.
    pose proof (GetEntityIndex_range (GetId e')) as Hr'.
    pose proof (GetEntityIndex_range (GetId e)) as Hr.
    destruct (lookup_lt_is_Some_2 (m_entityToTag r) (Z.to_nat (GetEntityIndex (GetId e'))))
      as [x Hx]; [lia|].
    rewrite (EntityHasTag_lookup r e' tag' x Hx).
    apply (EntityHasTag_lookup r1 e' tag' x). apply Hframe; [lia|done].
Qed.

Lemma TagEntity_then_lookup_witness :
  ∃ r1 : Registry Z,
    TagEntity (Registry_new Z) (mkEntity 3 this) "player" = Done r1 ∧
    EntityHasTag r1 (mkEntity 3 this) "player" = true ∧
    GetEntityByTag r1 "player" = mkEntity 3 this.
Proof.
  destruct (TagEntity_then_lookup (Registry_new Z) (mkEntity 3 this) "player")
    as (r1 & H1 & H2 & H3 & _).
  - vm_compute. reflexivity.
  - exists r1. split; [exact H1|]. split; [exact H2|exact H3].
Defined.

(** X15 (Registry::TagEntity, GroupEntity): for a handle whose slot index
    is 0xFFFFFFFF, index + 1 wraps to 0 in u32: the reverse table, of at most
    2^32 - 1 entries, is resized to length 0 and then indexed at 0xFFFFFFFF.  TagEntity, and
    GroupEntity for an entity that is not yet a member of the group, leave
    the defined behaviour. *)
Theorem last_slot_overflows_reverse_tables {T} (r : Registry T) (e : Entity)
    (name : string) :
  GetEntityIndex (GetId e) = 2 ^ 32 - 1 →
  (Z.of_nat (length (m_entityToTag r)) ≤ 2 ^ 32 - 1 →
   TagEntity r e name = Fault undefined_behaviour) ∧
  (Z.of_nat (length (m_entityGroups r)) ≤ 2 ^ 32 - 1 →
   EntityBelongsToGroup r e name = false →
   GroupEntity r e name = Fault undefined_behaviour).
Proof.
  intros Hidx. split.
  - intros Hlen. unfold TagEntity. cbv zeta. rewrite Hidx.
    rewrite decide_True by done.
    change (to_u32 (2 ^ 32 - 1 + 1)) with 0. unfold vec_store.
    by rewrite decide_False by (rewrite length_vec_resize; lia).
  - intros Hlen Hmem. unfold GroupEntity. cbv zeta. rewrite Hidx.
    unfold EntityBelongsToGroup in Hmem.
    destruct (m_groups r !! HashString name) as [g|] eqn:Hg; simpl.
    + destruct (entityToIndex g !! GetId e); [done|].
      rewrite decide_True by done.
      change (to_u32 (2 ^ 32 - 1 + 1)) with 0.
      by rewrite vec_at_not_Done.
    + rewrite lookup_empty. rewrite decide_True by done.
      change (to_u32 (2 ^ 32 - 1 + 1)) with 0.
      by rewrite vec_at_not_Done.
Qed.

Lemma last_slot_overflows_reverse_tables_witness :
  TagEntity (Registry_new Z) (mkEntity (2 ^ 32 - 1) this) "player"
    = Fault undefined_behaviour ∧
  GroupEntity (Registry_new Z) (mkEntity (2 ^ 32 - 1) this) "enemies"
    = Fault undefined_behaviour.
Proof.
  destruct (last_slot_overflows_reverse_tables (Registry_new Z)
              (mkEntity (2 ^ 32 - 1) this) "player") as [Htag _];
    [vm_compute; reflexivity|].
  destruct (last_slot_overflows_reverse_tables (Registry_new Z)
              (mkEntity (2 ^ 32 - 1) this) "enemies") as [_ Hgroup];
    [vm_compute; reflexivity|].
  split.
  - apply Htag. vm_compute. discriminate.
  - apply Hgroup; [vm_compute; discriminate | vm_compute; reflexivity].
Defined.

Section TagRemoval.
Context {T : Type}.
Implicit Types r : Registry T.

Lemma RemoveEntityTag_spec r e (hash : Z) :
  m_entityToTag r !! Z.to_nat (GetEntityIndex (GetId e)) = Some hash →
  RemoveEntityTag r e =
    if decide (hash = 0) then r
    else with_tags r (<[Z.to_nat (GetEntityIndex (GetId e)) := 0]> (m_entityToTag r))
                     (delete hash (m_tagToEntity r)).
Proof.
  intros Hl. unfold RemoveEntityTag. cbv zeta. rewrite Hl.
  pose proof (lookup_lt_Some _ _ _ Hl). pose proof (GetEntityIndex_range (GetId e)).
  rewrite decide_False by lia.
  destruct (decide (hash = 0)) as [->|Hne]; [done|].
  by rewrite (proj2 (Z.eqb_neq hash 0) Hne).
Qed.
End TagRemoval.

(** X16 (Registry::TagEntity, RemoveEntityTag): after TagEntity with a tag
    whose hash is not 0, RemoveEntityTag erases both directions:
    EntityHasTag is false, GetEntityByTag returns the handle with id 0 and
    a null registry, and a second RemoveEntityTag changes nothing. *)
Theorem TagEntity_RemoveEntityTag {T} (r : Registry T) (e : Entity) (tag : string) r1 :
  HashString tag ≠ 0 →
  TagEntity r e tag = Done r1 →
  EntityHasTag (RemoveEntityTag r1 e) e tag = false ∧
  GetEntityByTag (RemoveEntityTag r1 e) tag = mkEntity 0 nullptr ∧
  RemoveEntityTag (RemoveEntityTag r1 e) e = RemoveEntityTag r1 e.
Proof.
  intros Hne Htag.
  destruct (TagEntity_inv r e tag r1 Htag) as (Hlen & Hl & Hmap & _).
  pose proof (GetEntityIndex_range (GetId e)) as Hr.
  rewrite (RemoveEntityTag_spec r1 e _ Hl). rewrite decide_False by done.
  set (r2 := with_tags _ _ _).
  assert (m_entityToTag r2 !! Z.to_nat (GetEntityIndex (GetId e)) = Some 0) as Hl2.
  { subst r2. simpl. apply list_lookup_insert_eq. lia. }
  split_and!.
  - rewrite (EntityHasTag_lookup r2 e tag 0 Hl2). apply Z.eqb_neq. congruence.
  - rewrite GetEntityByTag_lookup. subst r2. simpl. by rewrite lookup_delete_eq.
  - rewrite (RemoveEntityTag_spec r2 e 0 Hl2). by rewrite decide_True.
Qed.

Lemma TagEntity_RemoveEntityTag_witness :
  ∃ r1 : Registry Z,
    TagEntity (Registry_new Z) (mkEntity 3 this) "player" = Done r1 ∧
    EntityHasTag (RemoveEntityTag r1 (mkEntity 3 this)) (mkEntity 3 this) "player" = false ∧
    GetEntityByTag (RemoveEntityTag r1 (mkEntity 3 this)) "player" = mkEntity 0 nullptr.
Proof.
  assert (∃ r1, TagEntity (Registry_new Z) (mkEntity 3 this) "player" = Done r1)
    as [r1 H1] by (eexists; vm_compute; reflexivity).
  exists r1. split; [exact H1|].
  destruct (TagEntity_RemoveEntityTag (Registry_new Z) (mkEntity 3 this) "player" r1)
    as (Ha & Hb & _); [vm_compute; discriminate | exact H1 |].
  split; [exact Ha|exact Hb].
Defined.

(** X17 (Registry::TagEntity, RemoveEntityTag): TagEntity does not take a
    tag from the entity that holds it.  After tagging e1 and then e2, of
    another slot, with one tag, EntityHasTag is true for both and
    GetEntityByTag returns e2; for a tag whose hash is not 0,
    RemoveEntityTag of e1 then erases the entry
    of the tag, so GetEntityByTag finds no entity although EntityHasTag is
    still true for e2. *)
Theorem tag_not_taken_from_previous_holder {T} (r : Registry T) (e1 e2 : Entity)
    (tag : string) r1 r2 :
  GetEntityIndex (GetId e1) ≠ GetEntityIndex (GetId e2) →
  TagEntity r e1 tag = Done r1 → TagEntity r1 e2 tag = Done r2 →
  EntityHasTag r2 e1 tag = true ∧ EntityHasTag r2 e2 tag = true ∧
  GetEntityByTag r2 tag = mkEntity (GetId e2) this ∧
  (HashString tag ≠ 0 →
   GetEntityByTag (RemoveEntityTag r2 e1) tag = mkEntity 0 nullptr ∧
   EntityHasTag (RemoveEntityTag r2 e1) e2 tag = true).
Proof.
  intros Hslot H1 H2.
  destruct (TagEntity_inv r e1 tag r1 H1) as (Hlen1 & Hl1 & Hmap1 & _).
  destruct (TagEntity_inv r1 e2 tag r2 H2) as (Hlen2 & Hl2 & Hmap2 & Hframe2).
  pose proof (GetEntityIndex_range (GetId e1)) as Hr1.
  pose proof (GetEntityIndex_range (GetId e2)) as Hr2.
  assert (m_entityToTag r2 !! Z.to_nat (GetEntityIndex (GetId e1)) = Some (HashString tag))
    as Hl1'.
  { apply Hframe2; [lia|done]. }
  split_and!.
  - rewrite (EntityHasTag_lookup r2 e1 tag _ Hl1'). apply Z.eqb_refl.
  - rewrite (EntityHasTag_lookup r2 e2 tag _ Hl2). apply Z.eqb_refl.
  - rewrite GetEntityByTag_lookup, Hmap2. by rewrite lookup_insert_eq.
  - intros Hne. rewrite (RemoveEntityTag_spec r2 e1 _ Hl1'). rewrite decide_False by done.
    split.
    + rewrite GetEntityByTag_lookup. simpl. by rewrite lookup_delete_eq.
    + rewrite (EntityHasTag_lookup _ e2 tag (HashString tag)); [apply Z.eqb_refl|].
      simpl. rewrite list_lookup_insert_ne by lia. done.
Qed.

Lemma tag_not_taken_from_previous_holder_witness :
  ∃ r1 r2 : Registry Z,
    TagEntity (Registry_new Z) (mkEntity 0 this) "player" = Done r1 ∧
    TagEntity r1 (mkEntity 1 this) "player" = Done r2 ∧
    EntityHasTag r2 (mkEntity 0 this) "player" = true ∧
    EntityHasTag r2 (mkEntity 1 this) "player" = true ∧
    GetEntityByTag r2 "player" = mkEntity 1 this.
Proof.
  assert (∃ r1, TagEntity (Registry_new Z) (mkEntity 0 this) "player" = Done r1)
    as [r1 H1] by (eexists; vm_compute; reflexivity).
  assert (∃ r2, TagEntity r1 (mkEntity 1 this) "player" = Done r2) as [r2 H2].
  { vm_compute in H1. injection H1 as <-. eexists. vm_compute. reflexivity. }
  exists r1, r2. split; [exact H1|]. split; [exact H2|].
  destruct (tag_not_taken_from_previous_holder (Registry_new Z) (mkEntity 0 this)
              (mkEntity 1 this) "player" r1 r2) as (Ha & Hb & Hc & _);
    [vm_compute; discriminate | exact H1 | exact H2 |].
  split; [exact Ha|]. split; [exact Hb|exact Hc].
Defined.

(** X18 (Registry::RemoveEntityTag, EntityHasTag; HashString): the reverse
    table stores 0 for an entity without tag.  A tag whose FNV-1a hash is 0
    is therefore not removed by RemoveEntityTag (the registry is unchanged
    and GetEntityByTag still returns the entity), and EntityHasTag reports
    it for every entity whose entry in the table is 0. *)
Theorem zero_hash_tag_is_not_removed {T} (r : Registry T) (e : Entity) (tag : string) r1 :
  HashString tag = 0 →
  TagEntity r e tag = Done r1 →
  RemoveEntityTag r1 e = r1 ∧
  EntityHasTag (RemoveEntityTag r1 e) e tag = true ∧
  GetEntityByTag (RemoveEntityTag r1 e) tag = mkEntity (GetId e) this ∧
  ∀ e', m_entityToTag r1 !! Z.to_nat (GetEntityIndex (GetId e')) = Some 0 →
        EntityHasTag r1 e' tag = true.
Proof.
  intros Hzero Htag.
  destruct (TagEntity_inv r e tag r1 Htag) as (Hlen & Hl & Hmap & _).
  rewrite (RemoveEntityTag_spec r1 e _ Hl). rewrite decide_True by done.
  split; [done|]. split_and!.
  - rewrite (EntityHasTag_lookup r1 e tag _ Hl). apply Z.eqb_refl.
  - rewrite GetEntityByTag_lookup, Hmap. by rewrite lookup_insert_eq.
  - intros e' Hl'. rewrite (EntityHasTag_lookup r1 e' tag _ Hl'). by rewrite Hzero.
Qed.

Lemma zero_hash_tag_is_not_removed_witness :
  ∃ (tag : string) (r1 : Registry Z),
    HashString tag = 0 ∧
    TagEntity (Registry_new Z) (mkEntity 1 this) tag = Done r1 ∧
    RemoveEntityTag r1 (mkEntity 1 this) = r1 ∧
    GetEntityByTag (RemoveEntityTag r1 (mkEntity 1 this)) tag = mkEntity 1 this ∧
    EntityHasTag r1 (mkEntity 0 this) tag = true.
Proof.
  set (tag := String (ascii_of_nat 204)
                (String (ascii_of_nat 36)
                   (String (ascii_of_nat 49) (String (ascii_of_nat 196) EmptyString)))).
  assert (HashString tag = 0) as Hzero by (vm_compute; reflexivity).
  assert (∃ r1, TagEntity (Registry_new Z) (mkEntity 1 this) tag = Done r1)
    as [r1 H1] by (eexists; vm_compute; reflexivity).
  exists tag, r1. split; [exact Hzero|]. split; [exact H1|].
  destruct (zero_hash_tag_is_not_removed (Registry_new Z) (mkEntity 1 this) tag r1 Hzero H1)
    as (Ha & _ & Hc & Hd).
  split; [exact Ha|]. split; [exact Hc|].
  apply Hd. vm_compute in H1. injection H1 as <-. vm_compute. reflexivity.
Defined.

Section GroupsMore.
Context {T : Type}.
Implicit Types r : Registry T.

Lemma with_groups_id r : with_groups r (m_groups r) (m_entityGroups r) = r.
Proof. by destruct r. Qed.

Lemma GroupEntity_member r e (groupName : string) :
  EntityBelongsToGroup r e groupName = true → GroupEntity r e groupName = Done r.
Proof.
  unfold EntityBelongsToGroup, GroupEntity. cbv zeta.
  destruct (m_groups r !! HashString groupName) as [g|] eqn:Hg; [|done]. simpl.
  destruct (entityToIndex g !! GetId e); [|done]. intros _.
  rewrite insert_id by done. by rewrite with_groups_id.
Qed.

Lemma GroupEntity_new_member_listed r e (groupName : string) :
  EntityBelongsToGroup r e groupName = false →
  GetEntityIndex (GetId e) < 2 ^ 32 - 1 →
  let group := default (mkGroupData [] ∅) (m_groups r !! HashString groupName) in
  ∃ egs,
    GroupEntity r e groupName =
      Done (with_groups r
              (<[HashString groupName :=
                   mkGroupData (entities group ++ [e])
                     (<[GetId e := to_int (Z.of_nat (length (entities group ++ [e]))) - 1]>
                        (entityToIndex group))]> (m_groups r))
              egs) ∧
    (∃ l, egs !! Z.to_nat (GetEntityIndex (GetId e)) = Some (l ++ [HashString groupName]) ∧
          ∀ l0, m_entityGroups r !! Z.to_nat (GetEntityIndex (GetId e)) = Some l0 → l = l0) ∧
    (∀ i l', i ≠ Z.to_nat (GetEntityIndex (GetId e)) →
       m_entityGroups r !! i = Some l' → egs !! i = Some l').
Proof.
  intros Hmem Hidx. cbv zeta. unfold EntityBelongsToGroup in Hmem.
  unfold GroupEntity. cbv zeta.
  pose proof (GetEntityIndex_range (GetId e)) as Hr.
  set (index := GetEntityIndex (GetId e)) in *.
  set (group := default _ _).
  assert (entityToIndex group !! GetId e = None) as ->.
  { subst group. destruct (m_groups r !! HashString groupName) as [g|]; simpl.
    - by destruct (entityToIndex g !! GetId e).
    - apply lookup_empty. }
  set (egs1 := if decide _ then _ else _).
  assert (index < Z.of_nat (length egs1) ∧
          ∀ i l', m_entityGroups r !! i = Some l' → egs1 !! i = Some l') as [Hlen Hkeep].
  { subst egs1. destruct (decide _) as [Hge|Hlt]; [|split; [lia|done]].
    rewrite length_vec_resize, to_u32_succ by lia. split; [lia|].
    intros i l' Hl'. apply lookup_vec_resize; [done|lia]. }
  destruct (lookup_lt_is_Some_2 egs1 (Z.to_nat index)) as [l Hl]; [lia|].
  rewrite (vec_at_lookup _ _ _ (proj1 Hr) Hl), bind_Done_l.
  rewrite vec_store_lt by lia. rewrite bind_Done_l.
  eexists. split; [done|]. split.
  - exists l. split; [apply list_lookup_insert_eq; lia|].
    intros l0 Hl0. apply Hkeep in Hl0. congruence.
  - intros i l' Hne Hl'. rewrite list_lookup_insert_ne by done. by apply Hkeep.
Qed.

End GroupsMore.



(** ** Components and views *)

Section ComponentsMore.
Context {T : Type}.
Implicit Types r : Registry T.
Implicit Types p : Pool T.

Lemma GetPool_lookup r (c : Z) :
  0 ≤ c → GetPool r c = mjoin (m_componentPools r !! Z.to_nat c).
Proof.
  intros Hc. unfold GetPool. destruct (decide _) as [Hge|]; [|done].
  by rewrite lookup_ge_None_2 by lia.
Qed.

(* the pool AddComponent adds to: the pool of the kind, or a new one *)
Lemma AddComponent_pool r e (c : Z) (v : T) :
  0 ≤ c →
  let pools1 :=
    if decide (Z.of_nat (length (m_componentPools r)) ≤ c)
    then vec_resize (Z.to_nat (c + 1)) None (m_componentPools r)
    else m_componentPools r in
  AddComponent r e c v =
    pool1 ← Add (default Pool_new (GetPool r c)) (GetId e) v;
    sig ← vec_at (m_entityComponentSignatures r) (GetId e);
    sig1 ← Signature_set sig c true;
    signatures1 ← vec_store (m_entityComponentSignatures r) (GetId e) sig1;
    Done (with_entityComponentSignatures
            (with_componentPools r (<[Z.to_nat c := Some pool1]> pools1)) signatures1).
Proof.
  intros Hc. cbv zeta. unfold AddComponent. cbv zeta.
  destruct (pool_slot_after_resize (m_componentPools r) c Hc) as [Hlen1 Hslot1].
  set (pools1 := if decide _ then _ else _) in *.
  rewrite (vec_at_lookup pools1 c _ Hc Hslot1), bind_Done_l.
  rewrite <- (GetPool_lookup r c Hc).
  destruct (Add _ _ _) as [pool1|f]; [|done]. rewrite !bind_Done_l.
  by rewrite (vec_store_lt pools1 c (Some pool1)) by lia.
Qed.

Lemma GetPool_inv r (c : Z) p : tables_wf r → GetPool r c = Some p → packed_inv p.
Proof.
  intros Hwf Hp. unfold GetPool in Hp. destruct (decide _); [done|].
  destruct (m_componentPools r !! Z.to_nat c) as [o|] eqn:Ho; [|done].
  simpl in Hp. subst o.
  pose proof (wf_pools r Hwf) as Hall. rewrite Forall_lookup in Hall.
  by apply (Hall _ _ Ho).
Qed.

Lemma default_pool_inv r (c : Z) :
  tables_wf r → packed_inv (default Pool_new (GetPool r c)).
Proof.
  intros Hwf. destruct (GetPool r c) as [p|] eqn:Hp; simpl.
  - by eapply GetPool_inv.
  - apply Pool_new_inv.
Qed.

Lemma GetComponent_pool r e (c : Z) :
  0 ≤ c →
  GetComponent r e c =
    match GetPool r c with
    | Some p => Get p (GetId e)
    | None => Fault undefined_behaviour
    end.
Proof.
  intros Hc. rewrite (GetPool_lookup r c Hc). unfold GetComponent.
  destruct (m_componentPools r !! Z.to_nat c) as [o|] eqn:Ho.
  - rewrite (vec_at_lookup _ _ _ Hc Ho), bind_Done_l. by destruct o.
  - by rewrite vec_at_not_Done.
Qed.

Lemma RemoveComponent_no_pool r e (c : Z) :
  0 ≤ c → GetPool r c = None → RemoveComponent r e c = Fault undefined_behaviour.
Proof.
  intros Hc. rewrite (GetPool_lookup r c Hc). unfold RemoveComponent. cbv zeta.
  destruct (m_componentPools r !! Z.to_nat c) as [o|] eqn:Ho.
  - rewrite (vec_at_lookup _ _ _ Hc Ho), bind_Done_l. by destruct o.
  - intros _. by rewrite (vec_at_not_Done (m_componentPools r) c).
Qed.
(* Pool::Add stores the component also when the slot is held already *)
Lemma Add_then_Get p id v :
  packed_inv p → GetEntityIndex id < SPARSE_PAGES * PAGE_SIZE →
  ∃ p', Add p id v = Done p' ∧ Has p' id = true ∧ Get p' id = Done v.
Proof.
  intros Hinv Hcap. pose proof (GetEntityIndex_range id) as Hs.
  destruct (Add_spec p id v Hinv Hcap) as (sp' & Heq & _ & _ & Hcell).
  eexists. split; [exact Heq|].
  pose proof (Hcell _ (proj1 Hs)) as Hc. rewrite decide_True in Hc by done.
  split.
  - apply Has_true. simpl. lia.
  - unfold Get. cbv zeta. simpl m_sparse. simpl m_data.
    rewrite (cell_sparse_load sp' _ (proj1 Hs)) by lia. rewrite bind_Done_l, Hc.
    apply vec_at_Done. split; [lia|]. rewrite Nat2Z.id. by apply list_lookup_middle.
Qed.

(* a fault of Pool::Add is the fault of AddComponent *)
Lemma AddComponent_Add_fault r e (c : Z) (v : T) (f : fault) :
  0 ≤ c →
  Add (default Pool_new (GetPool r c)) (GetId e) v = Fault f →
  AddComponent r e c v = Fault f.
Proof. intros Hc Hf. rewrite (AddComponent_pool r e c v Hc). by rewrite Hf. Qed.
End ComponentsMore.

(** X20 (Registry::RemoveComponent, GetComponent, View): for a component
    kind that has no pool yet, RemoveComponent and GetComponent go through
    a missing or null pool and leave the defined behaviour, while View over
    the kind returns without a call. *)
Theorem component_access_without_pool_undefined {T} (r : Registry T) (e : Entity) (c : Z) :
  0 ≤ c → GetPool r c = None →
  RemoveComponent r e c = Fault undefined_behaviour ∧
  GetComponent r e c = Fault undefined_behaviour ∧
  View r [c] = Done [].
Proof.
  intros Hc Hnone. split; [by apply RemoveComponent_no_pool|]. split.
  - by rewrite GetComponent_pool, Hnone.
  - unfold View. simpl. by rewrite Hnone.
Qed.

Lemma component_access_without_pool_undefined_witness :
  ∃ (e : Entity) (r1 : Registry Z),
    CreateEntity (Registry_new Z) = Done (e, r1) ∧
    RemoveComponent r1 e 0 = Fault undefined_behaviour ∧
    GetComponent r1 e 0 = Fault undefined_behaviour ∧
    View r1 [0] = Done [].
Proof.
  assert (∃ e r1, CreateEntity (Registry_new Z) = Done (e, r1)) as (e & r1 & H1)
    by (eexists _, _; vm_compute; reflexivity).
  exists e, r1. split; [exact H1|].
  apply (component_access_without_pool_undefined r1 e 0); [lia|].
  vm_compute in H1. injection H1 as <- <-. vm_compute. reflexivity.
Defined.

(** X21 (Registry::AddComponent, HasComponent): for a component id of
    MAX_COMPONENTS (32) or more and a handle whose 64-bit id lies inside
    the signature table and below MAX_ENTITIES (a handle of generation 0),
    in a registry whose pools are packed, AddComponent first calls
    Pool::Add, which returns with the component stored in the pool of the
    kind, and then std::bitset::set throws std::out_of_range.  Pool::Add
    comes first for this kind in every registry: when it faults,
    AddComponent faults the same way.  HasComponent throws from
    std::bitset::test. *)
Theorem AddComponent_beyond_MAX_COMPONENTS {T} (r : Registry T) (e : Entity) (c : Z) (v : T) :
  tables_wf r →
  0 ≤ GetId e < Z.of_nat (length (m_entityComponentSignatures r)) →
  GetId e < MAX_ENTITIES →
  MAX_COMPONENTS ≤ c →
  (∃ pool1 sig,
     Add (default Pool_new (GetPool r c)) (GetId e) v = Done pool1 ∧
     Has pool1 (GetId e) = true ∧ Get pool1 (GetId e) = Done v ∧
     vec_at (m_entityComponentSignatures r) (GetId e) = Done sig ∧
     Signature_set sig c true = Fault out_of_range) ∧
  (∀ (r' : Registry T) e' v' f,
     Add (default Pool_new (GetPool r' c)) (GetId e') v' = Fault f →
     AddComponent r' e' c v' = Fault f) ∧
  AddComponent r e c v = Fault out_of_range ∧
  HasComponent r e c = Fault out_of_range.
Proof.
  intros Hwf Hid Hcap Hc.
  assert (0 ≤ c) as Hc0 by (unfold MAX_COMPONENTS in Hc; lia).
  assert (GetEntityIndex (GetId e) = GetId e) as Hslot.
  { apply GetEntityIndex_small. unfold MAX_ENTITIES in Hcap. lia. }
  destruct (lookup_lt_is_Some_2 (m_entityComponentSignatures r) (Z.to_nat (GetId e))
              ltac:(lia)) as [sig Hsig].
  destruct (Add_then_Get (default Pool_new (GetPool r c)) (GetId e) v)
    as (pool1 & Hadd & Hhas & Hget).
  { by apply default_pool_inv. }
  { rewrite Hslot, capacity_value. unfold MAX_ENTITIES in Hcap. lia. }
  split_and!.
  - exists pool1, sig. split_and!; try done.
    + apply vec_at_lookup; [lia|done].
    + apply (Signature_out_of_range sig c true Hc).
  - intros r' e' v' f. by apply AddComponent_Add_fault.
  - rewrite (AddComponent_pool r e c v Hc0), Hadd, bind_Done_l.
    rewrite (vec_at_lookup _ _ _ (proj1 Hid) Hsig), bind_Done_l.
    by rewrite (proj1 (Signature_out_of_range sig c true Hc)).
  - unfold HasComponent. cbv zeta.
    rewrite (vec_at_lookup _ _ _ (proj1 Hid) Hsig), bind_Done_l.
    apply (Signature_out_of_range sig c true Hc).
Qed.

(** X22 (Registry::AddComponent, Pool::Add): for a handle whose slot lies
    beyond the page table of a pool (slot index 1003520 or more),
    AddComponent stops at the capacity assertion of Pool::Add, for every
    kind and in every registry whose pools satisfy the packing
    invariant. *)
Theorem AddComponent_beyond_capacity_aborts {T} (r : Registry T) (e : Entity) (c : Z) (v : T) :
  tables_wf r → 0 ≤ c →
  SPARSE_PAGES * PAGE_SIZE ≤ GetEntityIndex (GetId e) →
  AddComponent r e c v = Fault assertion_failed.
Proof.
  intros Hwf Hc Hcap. rewrite (AddComponent_pool r e c v Hc).
  rewrite Add_abort; [done| |done].
  apply inv_pages. by apply default_pool_inv.
Qed.

Lemma AddComponent_beyond_MAX_COMPONENTS_witness :
  ∃ (e : Entity) (r1 : Registry Z) (pool1 : Pool Z),
    CreateEntity (Registry_new Z) = Done (e, r1) ∧
    Add (default Pool_new (GetPool r1 32)) (GetId e) 7 = Done pool1 ∧
    Get pool1 (GetId e) = Done 7 ∧
    AddComponent r1 e 32 7 = Fault out_of_range ∧
    HasComponent r1 e 32 = Fault out_of_range ∧
    AddComponent r1 (mkEntity 1003520 this) 32 7 = Fault assertion_failed.
Proof.
  assert (∃ e r1, CreateEntity (Registry_new Z) = Done (e, r1)) as (e & r1 & H1)
    by (eexists _, _; vm_compute; reflexivity).
  destruct (CreateEntity_spec _ _ _ Registry_new_wf H1) as (Hwf & _).
  destruct (AddComponent_beyond_MAX_COMPONENTS r1 e 32 7)
    as ((pool1 & sig & Hadd & _ & Hget & _) & Horder & Hthrow & Hhas).
  - by apply wf_tables.
  - vm_compute in H1. injection H1 as <- <-. vm_compute. split; [discriminate|reflexivity].
  - vm_compute in H1. injection H1 as <- <-. vm_compute. reflexivity.
  - vm_compute. discriminate.
  - exists e, r1, pool1. split; [exact H1|]. split; [exact Hadd|]. split; [exact Hget|].
    split; [exact Hthrow|]. split; [exact Hhas|].
    apply Horder. vm_compute in H1. injection H1 as <- <-. vm_compute. reflexivity.
Defined.

Lemma AddComponent_beyond_capacity_aborts_witness :
  AddComponent (Registry_new Z) (mkEntity 1003520 this) 0 7 = Fault assertion_failed.
Proof.
  apply (AddComponent_beyond_capacity_aborts (Registry_new Z) (mkEntity 1003520 this) 0 7).
  - apply wf_tables, Registry_new_wf.
  - lia.
  - vm_compute. discriminate.
Defined.

Section ComponentFrame.
Context {T : Type}.
Implicit Types r : Registry T.
Implicit Types p : Pool T.

Lemma AddComponent_Done_inv r e (c : Z) (v : T) r1 :
  AddComponent r e c v = Done r1 →
  0 ≤ c ∧ 0 ≤ GetId e < Z.of_nat (length (m_entityComponentSignatures r)) ∧
  ∃ pool1 sig,
    Add (default Pool_new (GetPool r c)) (GetId e) v = Done pool1 ∧
    m_entityComponentSignatures r !! Z.to_nat (GetId e) = Some sig ∧
    0 ≤ c < MAX_COMPONENTS ∧
    m_componentPools r1 =
      <[Z.to_nat c := Some pool1]>
        (if decide (Z.of_nat (length (m_componentPools r)) ≤ c)
         then vec_resize (Z.to_nat (c + 1)) None (m_componentPools r)
         else m_componentPools r) ∧
    m_entityComponentSignatures r1 =
      <[Z.to_nat (GetId e) := Z.setbit sig c]> (m_entityComponentSignatures r).
Proof.
  intros H.
  assert (0 ≤ c) as Hc.
  { unfold AddComponent in H. cbv zeta in H.
    apply bind_Done in H as (slot & Hslot & _). by apply vec_at_Done in Hslot as [? _]. }
  rewrite (AddComponent_pool r e c v Hc) in H.
  apply bind_Done in H as (pool1 & Hadd & H).
  apply bind_Done in H as (sig & Hsig & H).
  apply bind_Done in H as (sig1 & Hset & H).
  apply bind_Done in H as (sigs1 & Hst & H). injection H as <-.
  apply vec_at_Done in Hsig as [Hid0 Hsig].
  apply vec_store_Done in Hst as [Hid ->].
  unfold Signature_set in Hset. destruct (decide (0 ≤ c < MAX_COMPONENTS)); [|done].
  injection Hset as <-.
  split; [done|]. split; [done|]. by exists pool1, sig.
Qed.

Lemma GetPool_after_AddComponent r e (c : Z) (v : T) r1 (c' : Z) :
  AddComponent r e c v = Done r1 → 0 ≤ c' → c' ≠ c →
  GetPool r1 c' = GetPool r c'.
Proof.
  intros H Hc' Hne.
  destruct (AddComponent_Done_inv r e c v r1 H)
    as (Hc & _ & pool1 & sig & _ & _ & _ & Hpools & _).
  rewrite !GetPool_lookup by done. rewrite Hpools.
  rewrite list_lookup_insert_ne by lia.
  destruct (decide _) as [Hge|]; [|done].
  unfold vec_resize. rewrite take_ge by lia.
  destruct (m_componentPools r !! Z.to_nat c') as [o|] eqn:Ho.
  - by rewrite (lookup_app_l_Some _ _ _ _ Ho).
  - apply lookup_ge_None in Ho. rewrite lookup_app_r by done.
    destruct (replicate _ _ !! _) as [o|] eqn:Hr; [|done].
    by apply lookup_replicate in Hr as [-> _].
Qed.

Lemma GetPool_AddComponent_same r e (c : Z) (v : T) r1 :
  AddComponent r e c v = Done r1 →
  ∃ pool1, Add (default Pool_new (GetPool r c)) (GetId e) v = Done pool1 ∧
           GetPool r1 c = Some pool1.
Proof.
  intros H.
  destruct (AddComponent_Done_inv r e c v r1 H)
    as (Hc & _ & pool1 & sig & Hadd & _ & _ & Hpools & _).
  exists pool1. split; [done|].
  rewrite GetPool_lookup by done. rewrite Hpools.
  rewrite list_lookup_insert_eq; [done|].
  destruct (pool_slot_after_resize (m_componentPools r) c Hc) as [Hlen _]. lia.
Qed.

Lemma HasComponent_after_AddComponent r e (c : Z) (v : T) r1 e' (c' : Z) :
  AddComponent r e c v = Done r1 →
  c' ≠ c ∨ GetId e' ≠ GetId e →
  HasComponent r1 e' c' = HasComponent r e' c'.
Proof.
  intros H Hne.
  destruct (AddComponent_Done_inv r e c v r1 H)
    as (Hc & Hid & pool1 & sig & _ & Hsig & Hcr & _ & Hsigs).
  unfold HasComponent. cbv zeta. rewrite Hsigs.
  destruct (decide (GetId e' = GetId e)) as [Heq|Hid'].
  - rewrite Heq. destruct Hne as [Hne|]; [|done].
    rewrite (vec_at_lookup _ _ _ (proj1 Hid) Hsig), bind_Done_l.
    rewrite (vec_at_lookup _ (GetId e) (Z.setbit sig c)); [|lia|].
    + rewrite bind_Done_l. unfold Signature_test.
      destruct (decide _); [|done]. f_equal. apply Z.setbit_neq; lia.
    + apply list_lookup_insert_eq. lia.
  - destruct (decide (0 ≤ GetId e')) as [H0|H0].
    + unfold vec_at. rewrite length_insert.
      rewrite list_lookup_insert_ne by lia. done.
    + rewrite !vec_at_not_Done by lia. done.
Qed.
End ComponentFrame.

(** X23 (Registry::AddComponent): in a registry whose pools are packed, an
    AddComponent that returns, of a kind the entity does not hold, leaves every other component alone: HasComponent and
    GetComponent give the same result as before for every other kind, and
    for the same kind on every entity of another slot. *)
Theorem AddComponent_leaves_other_components {T} (r : Registry T) (e : Entity) (c : Z)
    (v : T) r1 :
  tables_wf r →
  (∀ p, GetPool r c = Some p → Has p (GetId e) = false) →
  AddComponent r e c v = Done r1 →
  ∀ e' c', 0 ≤ c' →
    c' ≠ c ∨ GetEntityIndex (GetId e') ≠ GetEntityIndex (GetId e) →
    HasComponent r1 e' c' = HasComponent r e' c' ∧
    GetComponent r1 e' c' = GetComponent r e' c'.
Proof.
  intros Hwf Hfresh H e' c' Hc' Hne. split.
  - apply (HasComponent_after_AddComponent r e c v r1 e' c' H).
    destruct Hne as [?|Hne]; [by left|]. right. congruence.
  - rewrite !GetComponent_pool by done.
    destruct (decide (c' = c)) as [->|Hcc].
    + destruct Hne as [?|Hne]; [done|].
      destruct (GetPool_AddComponent_same r e c v r1 H) as (pool1 & Hadd & ->).
      pose proof (default_pool_inv r c Hwf) as Hinv.
      assert (Has (default Pool_new (GetPool r c)) (GetId e) = false) as Habs.
      { destruct (GetPool r c) as [p|] eqn:Hp; simpl; [by apply Hfresh|].
        apply Has_false, Pool_new_cell. }
      destruct (Add_inv _ _ _ _ Hinv Habs Hadd) as (Hinv1 & _ & Hentry).
      assert (Has pool1 (GetId e') = Has (default Pool_new (GetPool r c)) (GetId e') ∧
              Get pool1 (GetId e') = Get (default Pool_new (GetPool r c)) (GetId e'))
        as [Hhas Hget].
      { apply lookup_by_entry; [done..|].
        pose proof (GetEntityIndex_range (GetId e')).
        rewrite Hentry by lia. rewrite decide_False by congruence. done. }
      rewrite Hget. destruct (GetPool r c) as [p|]; simpl; [done|].
      apply Get_absent, Has_false, Pool_new_cell.
    + by rewrite (GetPool_after_AddComponent r e c v r1 c' H).
Qed.

Lemma AddComponent_leaves_other_components_witness :
  ∃ (r r1 : Registry Z),
    AddComponent r (mkEntity 0 this) 1 42 = Done r1 ∧
    HasComponent r1 (mkEntity 1 this) 1 = HasComponent r (mkEntity 1 this) 1 ∧
    GetComponent r1 (mkEntity 1 this) 1 = GetComponent r (mkEntity 1 this) 1 ∧
    HasComponent r1 (mkEntity 0 this) 0 = HasComponent r (mkEntity 0 this) 0.
Proof.
  set (r := mkRegistry (T:=Z) 2 [] [] [] [0; 0] ∅ [] [0; 0] [] ∅ ∅ []).
  assert (∃ r1, AddComponent r (mkEntity 0 this) 1 42 = Done r1) as [r1 H1]
    by (eexists; vm_compute; reflexivity).
  exists r, r1. split; [exact H1|].
  assert (tables_wf r) as Hwf.
  { split; simpl; first [done | lia | by repeat constructor]. }
  pose proof (AddComponent_leaves_other_components r (mkEntity 0 this) 1 42 r1 Hwf) as Hthm.
  destruct (Hthm ltac:(intros p Hp; vm_compute in Hp; discriminate) H1
              (mkEntity 1 this) 1 ltac:(lia)) as [Ha Hb].
  { right. vm_compute. discriminate. }
  destruct (Hthm ltac:(intros p Hp; vm_compute in Hp; discriminate) H1
              (mkEntity 0 this) 0 ltac:(lia)) as [Hc _].
  { left. lia. }
  split; [exact Ha|]. split; [exact Hb|exact Hc].
Defined.

Section SingleView.
Context {T : Type}.
Implicit Types r : Registry T.
Implicit Types p : Pool T.

Lemma omap_lookup_total {A B} (f : A → option B) (l : list A) :
  (∀ x, x ∈ l → is_Some (f x)) → ∀ i, omap f l !! i = l !! i ≫= f.
Proof.
  induction l as [|a l IH]; intros Hall i; [done|].
  destruct (Hall a) as [b Hb]; [by left|].
  change (a :: l) with ([a] ++ l) at 1. rewrite omap_app. simpl. rewrite Hb. simpl.
  destruct i as [|i]; simpl; [done|].
  apply IH. intros x Hx. apply Hall. by right.
Qed.

Lemma View_single_loop p (ids : list Z) (calls : list (Z * list T)) :
  packed_inv p →
  for_each
    (fun calls entityId =>
       let hasAll := forallb (fun p => Has p entityId) [p] in
       if hasAll
       then args ← collect (fun p => Get p entityId) [p];
            Done (calls ++ [(entityId, args)])
       else Done calls)
    calls ids
  = Done (calls ++ omap (fun id => (fun x => (id, [x.2])) <$> entry_of p (GetEntityIndex id))
                     ids).
Proof.
  intros Hinv. apply for_each_append. clear calls ids. intros calls id.
  cbv zeta. simpl forallb. simpl collect.
  destruct (Has p id) eqn:Hhas; simpl.
  - apply (Has_is_Some p id Hinv) in Hhas as [[i a] Ha]. rewrite Ha.
    by rewrite (Get_entry p id i a Hinv Ha).
  - apply (Has_entry_None p id Hinv) in Hhas. rewrite Hhas. simpl.
    by rewrite app_nil_r.
Qed.
End SingleView.

(** X24 (Registry::View over one kind): View<A> calls back once per entry
    of the pool of A, when that pool is packed, in the order of the dense arrays: the i-th call
    carries the i-th id of GetEntities and the i-th value of GetData. *)
Theorem View_single_in_dense_order {T} (r : Registry T) (c : Z) (p : Pool T) :
  GetPool r c = Some p → packed_inv p →
  ∃ calls,
    View r [c] = Done calls ∧
    calls.*1 = GetEntities p ∧
    ∀ (i : nat) id, GetEntities p !! i = Some id →
      ∃ v, GetData p !! i = Some v ∧ calls !! i = Some (id, [v]).
Proof.
  intros Hp Hinv. unfold GetEntities, GetData.
  set (f := fun id : Z => (fun x : Z * T => (id, [x.2])) <$> entry_of p (GetEntityIndex id)).
  assert (∀ (i : nat) id, m_packed p !! i = Some id →
            ∃ v, m_data p !! i = Some v ∧ f id = Some (id, [v])) as Hf.
  { intros i id Hi.
    destruct (lookup_lt_is_Some_2 (m_data p) i) as [v Hv].
    { rewrite (inv_lengths p Hinv). by eapply lookup_lt_Some. }
    exists v. split; [done|]. unfold f.
    by rewrite (entry_of_present p _ i id v (inv_dense p Hinv i id Hi) Hi Hv). }
  assert (∀ i, omap f (m_packed p) !! i = m_packed p !! i ≫= f) as Hlook.
  { apply omap_lookup_total. intros id [i Hi]%list_elem_of_lookup.
    destruct (Hf i id Hi) as (v & _ & ->). by eexists. }
  exists (omap f (m_packed p)). split_and!.
  - unfold View. simpl mapM. rewrite Hp. simpl.
    unfold GetEntities. by rewrite (View_single_loop p _ [] Hinv).
  - apply list_eq. intros i. rewrite list_lookup_fmap, Hlook.
    destruct (m_packed p !! i) as [id|] eqn:Hi; [|done]. simpl.
    destruct (Hf i id Hi) as (v & _ & ->). done.
  - intros i id Hi. destruct (Hf i id Hi) as (v & Hv & Hfid).
    exists v. split; [done|]. rewrite Hlook, Hi. done.
Qed.

Lemma View_single_in_dense_order_witness :
  ∃ calls : list (Z * list Z),
    View (with_componentPools (Registry_new Z)
            [Some (pool_of [OpAdd 3 10; OpAdd 1 11; OpAdd 2 12; OpRemove 3])]) [0]
      = Done calls ∧
    calls.*1 = [2; 1] ∧ calls !! 0%nat = Some (2, [12]).
Proof.
  set (p := pool_of [OpAdd 3 10; OpAdd 1 11; OpAdd 2 12; OpRemove 3]).
  destruct (View_single_in_dense_order
              (with_componentPools (Registry_new Z) [Some p]) 0 p)
    as (calls & Hv & Hids & Hcalls).
  - vm_compute. reflexivity.
  - apply pool_of_inv. vm_compute. reflexivity.
  - exists calls. split; [exact Hv|]. split; [rewrite Hids; vm_compute; reflexivity|].
    destruct (Hcalls 0%nat 2) as (v & Hd & ->); [vm_compute; reflexivity|].
    vm_compute in Hd. by injection Hd as <-.
Defined.

(** ** Creation and recycling *)

Section FreshSlots.
Context {T : Type}.
Implicit Types r : Registry T.

Lemma set_insert_last (e : Entity) (s : list Entity) :
  Forall (fun x => GetId x < GetId e) s → set_insert e s = s ++ [e].
Proof.
  induction 1 as [|x s Hx Hs IH]; [done|]. simpl. unfold Entity_lt.
  destruct (Z.ltb_spec (GetId e) (GetId x)); [lia|].
  destruct (Z.ltb_spec (GetId x) (GetId e)); [|lia]. by rewrite IH.
Qed.

Lemma CreateEntityId_generation_zero (index : Z) :
  0 ≤ index < 2 ^ 32 → CreateEntityId index 0 = index.
Proof. intros H. rewrite CreateEntityId_add by done. lia. Qed.

Lemma vec_resize_grow_one {A} (d : A) (v : list A) :
  vec_resize (S (length v)) d v = v ++ [d].
Proof.
  unfold vec_resize. rewrite take_ge by lia.
  by replace (S (length v) - length v)%nat with 1%nat by lia.
Qed.

Lemma CreateEntity_fresh r :
  registry_wf r → m_freeIndices r = [] → m_numEntities r < INT_MAX →
  Z.of_nat (length (m_entityVersions r)) = m_numEntities r →
  ∃ r1,
    CreateEntity r = Done (mkEntity (m_numEntities r) this, r1) ∧
    registry_wf r1 ∧ m_freeIndices r1 = [] ∧
    m_numEntities r1 = m_numEntities r + 1 ∧
    m_entityVersions r1 = m_entityVersions r ++ [0] ∧
    m_entitiesToBeAdded r1 =
      set_insert (mkEntity (m_numEntities r) this) (m_entitiesToBeAdded r) ∧
    m_entitiesToBeKilled r1 = m_entitiesToBeKilled r.
Proof.
  intros Hwf Hfr Hmax Hlen.
  pose proof (wf_num r (wf_tables r Hwf)) as Hnum. unfold INT_MAX in *.
  assert (∃ r1,
    CreateEntity r = Done (mkEntity (m_numEntities r) this, r1) ∧
    m_freeIndices r1 = [] ∧
    m_numEntities r1 = m_numEntities r + 1 ∧
    m_entityVersions r1 = m_entityVersions r ++ [0] ∧
    m_entitiesToBeAdded r1 =
      set_insert (mkEntity (m_numEntities r) this) (m_entitiesToBeAdded r) ∧
    m_entitiesToBeKilled r1 = m_entitiesToBeKilled r) as (r1 & Heq & H).
  { unfold CreateEntity. rewrite Hfr.
    rewrite decide_False by (unfold INT_MAX; lia). cbv zeta.
    assert (to_u32 (m_numEntities r) = m_numEntities r) as ->
      by (unfold to_u32; apply Z.mod_small; lia).
    assert (to_u32 (m_numEntities r + 1) = m_numEntities r + 1) as ->
      by (unfold to_u32; apply Z.mod_small; lia).
    simpl m_entityVersions. rewrite decide_True by lia.
    replace (Z.to_nat (m_numEntities r + 1)) with (S (length (m_entityVersions r))) by lia.
    rewrite vec_resize_grow_one.
    assert (vec_at (m_entityVersions r ++ [0]) (m_numEntities r) = Done 0) as Hat.
    { apply vec_at_lookup; [lia|].
      replace (Z.to_nat (m_numEntities r)) with (length (m_entityVersions r)) by lia.
      by apply list_lookup_middle. }
    destruct (decide _); rewrite bind_Done_l; simpl m_entityVersions;
      rewrite Hat, bind_Done_l; rewrite CreateEntityId_generation_zero by lia;
      eexists; (split; [reflexivity|]); simpl; by rewrite Hfr. }
  exists r1. split; [done|]. split; [|done].
  by destruct (CreateEntity_spec r _ r1 Hwf Heq) as [? _].
Qed.

Lemma seqZ_S (m : Z) (n : nat) : seqZ m (Z.of_nat (S n)) = m :: seqZ (m + 1) (Z.of_nat n).
Proof.
  rewrite seqZ_cons by lia. f_equal. f_equal; lia.
Qed.

Lemma CreateEntity_times_fresh (n : nat) r :
  registry_wf r → m_freeIndices r = [] →
  m_numEntities r + Z.of_nat n ≤ INT_MAX →
  Z.of_nat (length (m_entityVersions r)) = m_numEntities r →
  Forall (fun x => GetId x < m_numEntities r) (m_entitiesToBeAdded r) →
  ∃ r',
    CreateEntity_times n r
      = Done ((fun i => mkEntity i this) <$> seqZ (m_numEntities r) (Z.of_nat n), r') ∧
    registry_wf r' ∧ m_freeIndices r' = [] ∧
    m_numEntities r' = m_numEntities r + Z.of_nat n ∧
    m_entityVersions r' = m_entityVersions r ++ replicate n 0 ∧
    m_entitiesToBeAdded r' =
      m_entitiesToBeAdded r
      ++ ((fun i => mkEntity i this) <$> seqZ (m_numEntities r) (Z.of_nat n)) ∧
    m_entitiesToBeKilled r' = m_entitiesToBeKilled r.
Proof.
  revert r. induction n as [|n IH]; intros r Hwf Hfr Hmax Hlen Hadded.
  - exists r. simpl. rewrite !app_nil_r. split_and!; try done. lia.
  - destruct (CreateEntity_fresh r Hwf Hfr ltac:(lia) Hlen)
      as (r1 & Hc & Hwf1 & Hfr1 & Hn1 & Hv1 & Ha1 & Hk1).
    rewrite set_insert_last in Ha1 by done.
    destruct (IH r1) as (r' & Ht & Hwf' & Hfr' & Hn' & Hv' & Ha' & Hk'); try done.
    + lia.
    + rewrite Hv1, length_app. simpl. lia.
    + rewrite Ha1, Hn1. apply Forall_app. split.
      * eapply Forall_impl; [exact Hadded|]. simpl. intros. lia.
      * apply Forall_singleton. simpl. lia.
    + exists r'. rewrite seqZ_S, fmap_cons. split_and!; try done.
      * simpl CreateEntity_times. rewrite Hc, bind_Done_l. cbv beta iota.
        rewrite Ht, Hn1. by rewrite bind_Done_l.
      * lia.
      * rewrite Hv', Hv1, <- app_assoc. done.
      * rewrite Ha', Ha1, Hn1, <- app_assoc. done.
      * congruence.
Qed.

Lemma IsValid_generation_zero r (i : Z) (rp : RegistryPtr) :
  0 ≤ i < 2 ^ 32 →
  m_entityVersions r !! Z.to_nat i = Some 0 → IsValid r (mkEntity i rp) = true.
Proof.
  intros Hi Hv. apply IsValid_true. simpl.
  rewrite GetEntityIndex_small by done. split.
  - apply lookup_lt_Some in Hv. lia.
  - rewrite Hv. f_equal. rewrite GetEntityVersion_div.
    rewrite Z.div_small by lia. done.
Qed.
End FreshSlots.

(** X25 (Registry::CreateEntity): the first n calls of CreateEntity on a new
    registry, for n up to INT_MAX, return the ids 0, 1, ..., n-1 (slot i,
    generation 0) in this order; the handles are valid, carry the registry
    pointer and make up the pending-add set. *)
Theorem CreateEntity_new_registry_sequential_ids {T} (n : nat) :
  Z.of_nat n ≤ INT_MAX →
  ∃ es r',
    CreateEntity_times n (Registry_new T) = Done (es, r') ∧
    GetId <$> es = seqZ 0 (Z.of_nat n) ∧
    Forall (fun e => IsValid r' e = true ∧ registry e = this) es ∧
    m_entitiesToBeAdded r' = es ∧
    m_numEntities r' = Z.of_nat n.
Proof.
  intros Hn.
  destruct (CreateEntity_times_fresh n (Registry_new T))
    as (r' & Ht & Hwf' & Hfr' & Hn' & Hv' & Ha' & Hk'); try done.
  { apply Registry_new_wf. }
  simpl in *. eexists _, r'. split; [exact Ht|]. split_and!.
  - rewrite <- list_fmap_compose. apply list_fmap_id.
  - apply Forall_forall. intros e (i & -> & Hi)%list_elem_of_fmap.
    apply elem_of_seqZ in Hi. unfold INT_MAX in Hn. split; [|done].
    apply IsValid_generation_zero; [lia|]. rewrite Hv'.
    apply lookup_replicate. split; [done|lia].
  - done.
  - lia.
Qed.

Lemma CreateEntity_new_registry_sequential_ids_witness :
  ∃ (es : list Entity) (r' : Registry Z),
    CreateEntity_times 3 (Registry_new Z) = Done (es, r') ∧
    GetId <$> es = [0; 1; 2] ∧
    Forall (fun e => IsValid r' e = true ∧ registry e = this) es ∧
    m_entitiesToBeAdded r' = es ∧
    m_numEntities r' = 3.
Proof.
  apply (CreateEntity_new_registry_sequential_ids (T:=Z) 3). vm_compute. discriminate.
Defined.

Section MassRecycling.
Context {T : Type}.
Implicit Types r : Registry T.

Lemma KillEntity_frame r e :
  m_entityVersions (KillEntity r e) = m_entityVersions r ∧
  m_freeIndices (KillEntity r e) = m_freeIndices r ∧
  m_numEntities (KillEntity r e) = m_numEntities r ∧
  m_entitiesToBeAdded (KillEntity r e) = m_entitiesToBeAdded r ∧
  m_componentPools (KillEntity r e) = m_componentPools r ∧
  m_entityComponentSignatures (KillEntity r e) = m_entityComponentSignatures r.
Proof. unfold KillEntity. by destruct (negb _). Qed.

Lemma KillEntity_each_seq (n : nat) (k : Z) r :
  registry_wf r → 0 ≤ k → k + Z.of_nat n ≤ 2 ^ 32 →
  Forall (fun x => GetId x < k) (m_entitiesToBeKilled r) →
  (∀ i, k ≤ i < k + Z.of_nat n → IsValid r (mkEntity i this) = true) →
  registry_wf (KillEntity_each r ((fun i => mkEntity i this) <$> seqZ k (Z.of_nat n))) ∧
  m_entitiesToBeKilled
    (KillEntity_each r ((fun i => mkEntity i this) <$> seqZ k (Z.of_nat n)))
    = m_entitiesToBeKilled r ++ ((fun i => mkEntity i this) <$> seqZ k (Z.of_nat n)) ∧
  m_entityVersions
    (KillEntity_each r ((fun i => mkEntity i this) <$> seqZ k (Z.of_nat n)))
    = m_entityVersions r ∧
  m_freeIndices
    (KillEntity_each r ((fun i => mkEntity i this) <$> seqZ k (Z.of_nat n)))
    = m_freeIndices r.
Proof.
  revert k r. induction n as [|n IH]; intros k r Hwf Hk Hn Hkilled Hvalid.
  - simpl. by rewrite app_nil_r.
  - rewrite seqZ_S, fmap_cons. unfold KillEntity_each. simpl foldl.
    fold (KillEntity_each (KillEntity r (mkEntity k this))
            ((fun i => mkEntity i this) <$> seqZ (k + 1) (Z.of_nat n))).
    destruct (KillEntity_frame r (mkEntity k this)) as (Hv & Hf & _).
    assert (m_entitiesToBeKilled (KillEntity r (mkEntity k this))
            = m_entitiesToBeKilled r ++ [mkEntity k this]) as Hk1.
    { unfold KillEntity. rewrite (Hvalid k) by lia. simpl.
      by apply set_insert_last. }
    destruct (IH (k + 1) (KillEntity r (mkEntity k this))) as (Hwf' & Hk' & Hv' & Hf').
    + apply KillEntity_wf; [done|]. simpl. lia.
    + lia.
    + lia.
    + rewrite Hk1. apply Forall_app. split.
      * eapply Forall_impl; [exact Hkilled|]. simpl. intros. lia.
      * apply Forall_singleton. simpl. lia.
    + intros i Hi. rewrite (IsValid_versions _ r) by done. apply Hvalid. lia.
    + split; [done|]. split_and!.
      * rewrite Hk', Hk1, <- app_assoc. done.
      * congruence.
      * congruence.
Qed.

Lemma CreateEntity_times_recycle (l rest : list Z) r :
  registry_wf r → m_freeIndices r = l ++ rest →
  ∃ es' r',
    CreateEntity_times (length l) r = Done (es', r') ∧
    registry_wf r' ∧ m_freeIndices r' = rest ∧
    m_entityVersions r' = m_entityVersions r ∧
    Forall2 (fun e' i =>
               slot_of e' = i ∧
               m_entityVersions r !! Z.to_nat i = Some (GetEntityVersion (GetId e')))
            es' l.
Proof.
  revert r. induction l as [|front l IH]; intros r Hwf Hfr.
  - exists [], r. by split_and!.
  - destruct (CreateEntity_recycles r front (l ++ rest) Hwf Hfr)
      as (e & r1 & version & Hc & Hver & Hid & Hslot & Hgen & Hv1).
    destruct (CreateEntity_spec r e r1 Hwf Hc) as (Hwf1 & _ & _ & _ & _ & Hfree).
    assert (m_freeIndices r1 = l ++ rest) as Hfr1.
    { destruct Hfree as [Hfree|[Hfree _]]; rewrite Hfr in Hfree; [|done].
      by injection Hfree as _ <-. }
    destruct (IH r1 Hwf1 Hfr1) as (es' & r' & Ht & Hwf' & Hfr' & Hv' & Hall).
    exists (e :: es'), r'. split_and!; try done.
    + simpl CreateEntity_times. rewrite Hc, bind_Done_l. cbv beta iota.
      by rewrite Ht, bind_Done_l.
    + congruence.
    + constructor.
      * split; [done|]. by rewrite Hgen.
      * rewrite <- Hv1. exact Hall.
Qed.
End MassRecycling.

(** X26 (CreateEntity, KillEntity, Update; the test
    EntityReuseAndIDRecycling, for every n): create n entities in a new
    registry, kill them all, call Update and create n entities again.  The
    new handles reuse the slots of the old ones, in the same order, with
    generation 1; no new id equals an old id; afterwards every old handle
    is invalid and every new one is valid. *)
Theorem recycle_all_slots {T} (n : nat) :
  Z.of_nat n ≤ INT_MAX →
  ∃ es (r1 r3 : Registry T) es' r4,
    CreateEntity_times n (Registry_new T) = Done (es, r1) ∧
    Update (KillEntity_each r1 es) = Done r3 ∧
    CreateEntity_times n r3 = Done (es', r4) ∧
    slot_of <$> es' = slot_of <$> es ∧
    Forall (fun e' => GetEntityVersion (GetId e') = 1) es' ∧
    (∀ e e', e ∈ es → e' ∈ es' → GetId e ≠ GetId e') ∧
    Forall (fun e => IsValid r4 e = false) es ∧
    Forall (fun e' => IsValid r4 e' = true) es'.
Proof.
  intros Hn. unfold INT_MAX in Hn.
  destruct (CreateEntity_times_fresh n (Registry_new T))
    as (r1 & Ht & Hwf1 & Hfr1 & Hn1 & Hv1 & Ha1 & Hk1); try done.
  { apply Registry_new_wf. }
  simpl in Ht, Hn1, Hv1, Hk1.
  set (es := (fun i => mkEntity i this) <$> seqZ 0 (Z.of_nat n)) in *.
  assert (∀ i, 0 ≤ i < Z.of_nat n →
            slot_of (mkEntity i this) = i ∧ GetEntityVersion (GetId (mkEntity i this)) = 0)
    as Hparts.
  { intros i Hi. unfold slot_of. simpl. split; [apply GetEntityIndex_small; lia|].
    rewrite GetEntityVersion_div. by rewrite Z.div_small by lia. }
  assert (slot_of <$> es = seqZ 0 (Z.of_nat n)) as Hslots.
  { subst es. rewrite <- list_fmap_compose.
    rewrite <- (list_fmap_id (seqZ 0 (Z.of_nat n))) at 2.
    apply list_fmap_ext. intros j i Hi%list_elem_of_lookup_2%elem_of_seqZ. simpl.
    apply Hparts. lia. }
  (* every handle is killed while it is valid *)
  destruct (KillEntity_each_seq n 0 r1) as (Hwf2 & Hk2 & Hv2 & Hfr2); try done; try lia.
  { rewrite Hk1. constructor. }
  { intros i Hi. apply IsValid_generation_zero; [lia|]. rewrite Hv1.
    apply lookup_replicate. split; [done|lia]. }
  fold es in Hwf2, Hk2, Hv2, Hfr2. rewrite Hk1 in Hk2. simpl in Hk2.
  set (r2 := KillEntity_each r1 es) in *.
  destruct (Update_spec r2 Hwf2)
    as (r3 & Hu & Hwf3 & _ & _ & Hfr3 & Hl3 & Hbump & _ & _).
  rewrite Hfr2, Hfr1, Hk2, Hslots in Hfr3. simpl in Hfr3.
  rewrite Hk2 in Hbump.
  destruct (CreateEntity_times_recycle (seqZ 0 (Z.of_nat n)) [] r3 Hwf3)
    as (es' & r4 & Ht' & Hwf4 & _ & Hv4 & Hall).
  { by rewrite app_nil_r. }
  rewrite length_seqZ, Nat2Z.id in Ht'.
  (* the generation of every slot is 1 *)
  assert (∀ i, 0 ≤ i < Z.of_nat n → m_entityVersions r3 !! Z.to_nat i = Some 1) as Hone.
  { intros i Hi. destruct (Hparts i Hi) as [Hs Hg].
    rewrite <- Hs at 1. rewrite (Hbump (mkEntity i this)).
    - by rewrite Hg.
    - subst es. apply list_elem_of_fmap. exists i. split; [done|].
      apply elem_of_seqZ. lia. }
  assert (Forall (fun e' => GetEntityVersion (GetId e') = 1 ∧
                            0 ≤ slot_of e' < Z.of_nat n) es') as Hgen.
  { apply Forall_forall. intros e' [j Hj]%list_elem_of_lookup.
    destruct (Forall2_lookup_l _ _ _ _ _ Hall Hj) as (i & Hi & Hs & Hver).
    apply list_elem_of_lookup_2, elem_of_seqZ in Hi.
    rewrite (Hone i) in Hver by lia. injection Hver as Hver. split; [done|]. lia. }
  exists es, r1, r3, es', r4. split; [done|]. split; [done|]. split; [done|].
  split_and!.
  - rewrite Hslots. apply list_eq. intros j. rewrite list_lookup_fmap.
    destruct (es' !! j) as [e'|] eqn:Hj; simpl.
    + destruct (Forall2_lookup_l _ _ _ _ _ Hall Hj) as (i & Hi & Hs & _).
      by rewrite Hi, Hs.
    + symmetry. apply lookup_ge_None. apply lookup_ge_None in Hj.
      by rewrite <- (Forall2_length _ _ _ Hall).
  - eapply Forall_impl; [exact Hgen|]. by intros e' [? _].
  - intros e e' (i & -> & Hi%elem_of_seqZ)%list_elem_of_fmap He' Heq.
    pose proof (proj1 (Forall_forall _ _) Hgen e' He') as [Hg _].
    destruct (Hparts i ltac:(lia)) as [_ Hg0]. rewrite Heq in Hg0. congruence.
  - apply Forall_forall. intros e (i & -> & Hi%elem_of_seqZ)%list_elem_of_fmap.
    destruct (Hparts i ltac:(lia)) as [Hs Hg0].
    apply IsValid_false. right. unfold slot_of in Hs. rewrite Hs, Hg0, Hv4.
    rewrite Hone by lia. done.
  - apply Forall_forall. intros e' He'.
    pose proof (proj1 (Forall_forall _ _) Hgen e' He') as [Hg Hs].
    apply IsValid_true. unfold slot_of in Hs. rewrite Hv4.
    pose proof (Hone _ Hs) as Hx. split; [apply lookup_lt_Some in Hx; lia|].
    by rewrite Hx, Hg.
Qed.

Lemma recycle_all_slots_witness :
  ∃ es (r1 r3 : Registry Z) es' r4,
    CreateEntity_times 3 (Registry_new Z) = Done (es, r1) ∧
    Update (KillEntity_each r1 es) = Done r3 ∧
    CreateEntity_times 3 r3 = Done (es', r4) ∧
    slot_of <$> es' = slot_of <$> es ∧
    Forall (fun e' => GetEntityVersion (GetId e') = 1) es' ∧
    (∀ e e', e ∈ es → e' ∈ es' → GetId e ≠ GetId e') ∧
    Forall (fun e => IsValid r4 e = false) es ∧
    Forall (fun e' => IsValid r4 e' = true) es'.
Proof. apply (recycle_all_slots (T:=Z) 3). vm_compute. discriminate. Defined.

(** ** Synchronization *)

Section Synchronization.
Context {T : Type}.
Implicit Types r : Registry T.
Implicit Types p : Pool T.

Lemma remove_from_pools_spec (pools pools' : list (option (Pool T))) (id : Z) :
  remove_from_pools pools id = Done pools' →
  Forall2 (fun o o' =>
             match o, o' with
             | Some p, Some p' => Remove p id = Done p'
             | None, None => True
             | _, _ => False
             end) pools pools'.
Proof.
  unfold remove_from_pools. revert pools'.
  induction pools as [|o pools IH]; intros pools' H; simpl collect in H.
  - injection H as <-. constructor.
  - apply bind_Done in H as (o' & Ho & H). apply bind_Done in H as (rest & Hrest & H).
    injection H as <-. constructor; [|by apply IH].
    destruct o as [p|].
    + apply bind_Done in Ho as (p1 & Hp1 & Ho). by injection Ho as <-.
    + by injection Ho as <-.
Qed.

Lemma RemoveEntityTag_tags r r0 e :
  m_entityToTag r = m_entityToTag r0 →
  m_entityToTag (RemoveEntityTag r e) = m_entityToTag (RemoveEntityTag r0 e).
Proof.
  intros H. unfold RemoveEntityTag. cbv zeta. rewrite H.
  destruct (decide _); [done|].
  destruct (m_entityToTag r0 !! _) as [hash|]; [|done].
  by destruct (negb _).
Qed.

Lemma RemoveEntityTag_lookup r e (i : nat) :
  m_entityToTag (RemoveEntityTag r e) !! i =
    if decide (i = Z.to_nat (GetEntityIndex (GetId e)))
    then (fun _ => 0) <$> m_entityToTag r !! i
    else m_entityToTag r !! i.
Proof.
  pose proof (GetEntityIndex_range (GetId e)) as Hr.
  unfold RemoveEntityTag. cbv zeta.
  destruct (decide (Z.of_nat _ ≤ _)) as [Hge|Hlt].
  { destruct (decide _) as [->|]; [|done]. by rewrite lookup_ge_None_2 by lia. }
  destruct (m_entityToTag r !! Z.to_nat _) as [hash|] eqn:Hh.
  - destruct (Z.eqb_spec hash 0) as [->|Hne]; simpl.
    + destruct (decide _) as [->|]; [|done]. by rewrite Hh.
    + destruct (decide _) as [->|Hi].
      * rewrite Hh. simpl. apply list_lookup_insert_eq. lia.
      * by rewrite list_lookup_insert_ne.
  - destruct (decide _) as [->|]; [|done]. by rewrite Hh.
Qed.

Lemma kill_entity_effects r e r' :
  tables_wf r → IsValid r e = true → kill_entity r e = Done r' →
  remove_from_pools (m_componentPools r) (GetId e) = Done (m_componentPools r') ∧
  m_entityComponentSignatures r' =
    <[Z.to_nat (slot_of e) := 0]> (m_entityComponentSignatures r) ∧
  m_entityToTag r' = m_entityToTag (RemoveEntityTag r e).
Proof.
  intros Hwf Hval H. pose proof Hval as [Hlt Hv]%IsValid_true.
  pose proof (GetEntityIndex_range (GetId e)) as Hr.
  unfold kill_entity in H. rewrite Hval in H. simpl negb in H. cbv iota zeta in H.
  apply bind_Done in H as (sig & _ & H).
  apply bind_Done in H as (sigs1 & Hsigs & H).
  apply vec_store_Done in Hsigs as [_ ->].
  apply bind_Done in H as (pools1 & Hpools & H).
  simpl m_componentPools in Hpools.
  match type of H with context [RemoveEntityGroup ?r4 e] =>
    destruct (RemoveEntityGroup_total r4 e) as (gs & egs & Hg & _);
      [|rewrite Hg in H] end.
  { match goal with |- context [RemoveEntityTag ?r3 e] =>
      destruct (RemoveEntityTag_frame r3 e) as (e2t & t2e & ->) end.
    apply (wf_groups r Hwf). }
  rewrite bind_Done_l in H.
  apply bind_Done in H as (version & _ & H).
  apply bind_Done in H as (versions1 & _ & H). injection H as <-. simpl.
  match goal with |- context [RemoveEntityTag ?r3 e] =>
    destruct (RemoveEntityTag_frame r3 e) as (e2t & t2e & Hfr) end.
  split_and!.
  - by rewrite Hfr.
  - by rewrite Hfr.
  - by apply RemoveEntityTag_tags.
Qed.

(* what the destruction of one handle establishes survives the rest of
   the loop *)
Lemma kill_loop_establish (Q : Registry T → Prop) (e0 : Entity) (killed : list Entity) r r' :
  tables_wf r →
  Forall (fun e => IsValid r e = true) killed →
  NoDup (slot_of <$> killed) →
  e0 ∈ killed →
  for_each kill_entity r killed = Done r' →
  (∀ r1 r2, tables_wf r1 → IsValid r1 e0 = true → kill_entity r1 e0 = Done r2 → Q r2) →
  (∀ r1 r2 e, tables_wf r1 → IsValid r1 e = true → slot_of e ≠ slot_of e0 →
     Q r1 → kill_entity r1 e = Done r2 → Q r2) →
  Q r'.
Proof.
  intros Hwf Hvalid Hnd Hin Hloop Hest Hkeep.
  assert (∀ killed r, tables_wf r → Forall (fun e => IsValid r e = true) killed →
            NoDup (slot_of <$> killed) → slot_of e0 ∉ slot_of <$> killed →
            Q r → for_each kill_entity r killed = Done r' → Q r') as Hrest.
  { clear killed r Hwf Hvalid Hnd Hin Hloop.
    induction killed as [|e killed IH]; intros r Hwf Hvalid Hnd Hnotin HQ Hloop.
    - simpl in Hloop. by injection Hloop as <-.
    - apply Forall_cons in Hvalid as [He Hvalid].
      rewrite fmap_cons in Hnd, Hnotin. apply NoDup_cons in Hnd as [Hn1 Hnd].
      apply not_elem_of_cons in Hnotin as [Hne Hnotin].
      destruct (kill_entity_valid r e Hwf He) as (r1 & Hkill & Hwf1 & Hv1 & _).
      simpl for_each in Hloop. rewrite Hkill, bind_Done_l in Hloop.
      apply (IH r1); try done.
      + apply Forall_forall. intros k Hk.
        pose proof (proj1 (Forall_forall _ _) Hvalid k Hk) as [Hklt Hkv]%IsValid_true.
        apply IsValid_true. rewrite Hv1, length_insert. split; [done|].
        rewrite list_lookup_insert_ne; [done|].
        intros Heq. apply Hn1. apply list_elem_of_fmap. exists k. split; [|done].
        pose proof (GetEntityIndex_range (GetId k)).
        pose proof (GetEntityIndex_range (GetId e)). unfold slot_of in *. lia.
      + by apply (Hkeep r r1 e). }
  revert r Hwf Hvalid Hnd Hin Hloop.
  induction killed as [|e killed IH]; intros r Hwf Hvalid Hnd Hin Hloop.
  - by apply elem_of_nil in Hin.
  - apply Forall_cons in Hvalid as [He Hvalid].
    rewrite fmap_cons in Hnd. apply NoDup_cons in Hnd as [Hn1 Hnd].
    destruct (kill_entity_valid r e Hwf He) as (r1 & Hkill & Hwf1 & Hv1 & _).
    simpl for_each in Hloop. rewrite Hkill, bind_Done_l in Hloop.
    assert (Forall (fun k => IsValid r1 k = true) killed) as Hvalid1.
    { apply Forall_forall. intros k Hk.
      pose proof (proj1 (Forall_forall _ _) Hvalid k Hk) as [Hklt Hkv]%IsValid_true.
      apply IsValid_true. rewrite Hv1, length_insert. split; [done|].
      rewrite list_lookup_insert_ne; [done|].
      intros Heq. apply Hn1. apply list_elem_of_fmap. exists k. split; [|done].
      pose proof (GetEntityIndex_range (GetId k)).
      pose proof (GetEntityIndex_range (GetId e)). unfold slot_of in *. lia. }
    apply elem_of_cons in Hin as [->|Hin].
    + apply (Hrest killed r1); try done. by apply (Hest r r1).
    + by apply (IH r1).
Qed.

(* no pool of the registry holds the slot of the id *)
Lemma pools_without_slot_step (pools pools' : list (option (Pool T))) (id id0 : Z) :
  Forall (fun o => ∀ p, o = Some p → packed_inv p) pools →
  remove_from_pools pools id = Done pools' →
  GetEntityIndex id = GetEntityIndex id0 ∨
  (∀ i p, pools !! i = Some (Some p) → Has p id0 = false) →
  ∀ i p', pools' !! i = Some (Some p') → Has p' id0 = false.
Proof.
  intros Hinv Hrem Hcase i p' Hp'.
  pose proof (remove_from_pools_spec pools pools' id Hrem) as Hall.
  destruct (Forall2_lookup_r _ _ _ _ _ Hall Hp') as (o & Ho & Hrel).
  destruct o as [p|]; [|done].
  pose proof (proj1 (Forall_lookup _ _) Hinv i _ Ho p eq_refl) as Hp.
  destruct (Remove_inv p id Hp) as (p1 & Hp1 & Hinv1 & Hentry).
  rewrite Hp1 in Hrel. injection Hrel as ->.
  pose proof (GetEntityIndex_range id0) as Hr0.
  apply Has_entry_None; [done|]. rewrite Hentry by lia.
  destruct (decide _) as [|Hne]; [done|].
  destruct Hcase as [Heq|Hnone]; [done|].
  apply Has_entry_None; [done|]. by apply (Hnone i).
Qed.
End Synchronization.

(** X27 (Registry::Update): for an entity of the pending-destroy set of a
    well-formed registry Update returns and, afterwards, the handle is
    invalid, its slot is on the free-list, no pool holds a component for
    it, the signature of its slot is reset, and EntityHasTag is false for
    every tag whose hash is not 0. *)
Theorem Update_destroys_pending {T} (r : Registry T) (e : Entity) :
  registry_wf r → e ∈ m_entitiesToBeKilled r →
  ∃ r',
    Update r = Done r' ∧
    IsValid r' e = false ∧
    slot_of e ∈ m_freeIndices r' ∧
    (∀ c p, GetPool r' c = Some p → Has p (GetId e) = false) ∧
    m_entityComponentSignatures r' !! Z.to_nat (slot_of e) = Some 0 ∧
    (∀ tag, HashString tag ≠ 0 → EntityHasTag r' e tag = false).
Proof.
  intros Hwf Hin.
  destruct (Update_spec r Hwf) as (r' & Hu & Hwf' & _ & _ & Hfree & _ & Hbump & _).
  exists r'. split; [done|].
  pose proof (proj1 (Forall_forall _ _) (wf_killed r Hwf) e Hin) as [Hval Hid].
  pose proof (GetEntityVersion_range (GetId e)) as Hvr.
  pose proof (GetEntityIndex_range (GetId e)) as Hr.
  split.
  { apply IsValid_false. right. fold (slot_of e). rewrite (Hbump e Hin).
    intros [= Heq]. by apply (to_u32_bump_ne _ Hvr). }
  split.
  { rewrite Hfree. apply elem_of_app. right. apply list_elem_of_fmap. by exists e. }
  (* the second loop of Update *)
  pose proof Hu as Hu'. unfold Update in Hu'.
  destruct (add_loop r (m_entitiesToBeAdded r) (wf_added r Hwf)) as (systems & Hadd).
  rewrite Hadd, bind_Done_l in Hu'. cbv zeta in Hu'. simpl m_entitiesToBeKilled in Hu'.
  apply bind_Done in Hu' as (r3 & Hloop & Hu'). injection Hu' as <-.
  set (r2 := with_entitiesToBeAdded (with_systems r systems) []) in *.
  assert (tables_wf r2) as Hwf2.
  { destruct (wf_tables r Hwf). by split. }
  set (Q := fun r0 : Registry T =>
    (∀ i p, m_componentPools r0 !! i = Some (Some p) → Has p (GetId e) = false) ∧
    m_entityComponentSignatures r0 !! Z.to_nat (slot_of e) = Some 0 ∧
    (∀ x, m_entityToTag r0 !! Z.to_nat (slot_of e) = Some x → x = 0)).
  assert (Q r3) as (Hpools & Hsig & Htag).
  { apply (kill_loop_establish Q e (m_entitiesToBeKilled r) r2 r3); try done.
    - eapply Forall_impl; [apply (wf_killed r Hwf)|]. by intros k [Hk _].
    - eapply valid_slots_NoDup; [apply (wf_killed r Hwf)|].
      apply sorted_ids_NoDup, (wf_killed_sorted r Hwf).
    - intros r1 r1' Hwf1 Hval1 Hkill.
      destruct (kill_entity_effects r1 e r1' Hwf1 Hval1 Hkill) as (Hrem & Hsigs & Htags).
      pose proof Hval1 as [Hlt1 _]%IsValid_true.
      pose proof (wf_signatures r1 Hwf1) as Hsl.
      split_and!.
      + eapply pools_without_slot_step; [apply (wf_pools r1 Hwf1)|exact Hrem|by left].
      + rewrite Hsigs. apply list_lookup_insert_eq. unfold slot_of. lia.
      + intros x. rewrite Htags, RemoveEntityTag_lookup. unfold slot_of.
        rewrite decide_True by done.
        destruct (m_entityToTag r1 !! _); simpl; congruence.
    - intros r1 r1' k Hwf1 Hval1 Hne (Hp1 & Hs1 & Ht1) Hkill.
      destruct (kill_entity_effects r1 k r1' Hwf1 Hval1 Hkill) as (Hrem & Hsigs & Htags).
      pose proof (GetEntityIndex_range (GetId k)) as Hrk.
      split_and!.
      + eapply pools_without_slot_step; [apply (wf_pools r1 Hwf1)|exact Hrem|by right].
      + rewrite Hsigs. rewrite list_lookup_insert_ne; [done|]. unfold slot_of in *. lia.
      + intros x. rewrite Htags, RemoveEntityTag_lookup.
        rewrite decide_False; [apply Ht1|]. unfold slot_of in *. lia. }
  simpl. split_and!.
  - intros c p Hp. unfold GetPool in Hp. simpl in Hp.
    destruct (decide _); [done|].
    destruct (m_componentPools r3 !! Z.to_nat c) as [o|] eqn:Ho; [|done].
    simpl in Hp. subst o. by apply (Hpools _ _ Ho).
  - done.
  - intros tag Hne.
    destruct (m_entityToTag r3 !! Z.to_nat (slot_of e)) as [x|] eqn:Hx.
    + rewrite (EntityHasTag_lookup _ e tag x) by done.
      rewrite (Htag x eq_refl). apply Z.eqb_neq. congruence.
    + by apply EntityHasTag_outside.
Qed.

Lemma Update_destroys_pending_witness :
  ∃ (e : Entity) (r1 r2 r3 r' : Registry Z),
    CreateEntity (Registry_new Z) = Done (e, r1) ∧
    AddComponent r1 e 0 42 = Done r2 ∧
    TagEntity r2 e "player" = Done r3 ∧
    Update (KillEntity r3 e) = Done r' ∧
    IsValid r' e = false ∧
    (∀ c p, GetPool r' c = Some p → Has p (GetId e) = false) ∧
    EntityHasTag r' e "player" = false.
Proof.
  assert (∃ e r1, CreateEntity (Registry_new Z) = Done (e, r1)) as (e & r1 & H1)
    by (eexists _, _; vm_compute; reflexivity).
  assert (∃ r2, AddComponent r1 e 0 42 = Done r2) as [r2 H2].
  { vm_compute in H1. injection H1 as <- <-. eexists. vm_compute. reflexivity. }
  assert (∃ r3, TagEntity r2 e "player" = Done r3) as [r3 H3].
  { vm_compute in H1. injection H1 as <- <-. vm_compute in H2. injection H2 as <-.
    eexists. vm_compute. reflexivity. }
  destruct (CreateEntity_spec _ _ _ Registry_new_wf H1) as (Hwf1 & _ & Hid & _).
  assert (registry_wf r2) as Hwf2.
  { apply (AddComponent_wf r1 e 0 42 r2 Hwf1); [|exact H2].
    vm_compute in H1. injection H1 as <- <-. intros p Hp. vm_compute in Hp. discriminate. }
  pose proof (TagEntity_wf r2 e "player" r3 Hwf2 H3) as Hwf3.
  pose proof (KillEntity_wf r3 e Hwf3 Hid) as Hwf4.
  assert (e ∈ m_entitiesToBeKilled (KillEntity r3 e)) as Hin.
  { vm_compute in H1. injection H1 as <- <-. vm_compute in H2. injection H2 as <-.
    vm_compute in H3. injection H3 as <-.
    vm_compute. constructor. }
  destruct (Update_destroys_pending (KillEntity r3 e) e Hwf4 Hin)
    as (r' & Hu & Hv & _ & Hp & _ & Ht).
  exists e, r1, r2, r3, r'. split; [exact H1|]. split; [exact H2|]. split; [exact H3|].
  split; [exact Hu|]. split; [exact Hv|]. split; [exact Hp|].
  apply Ht. vm_compute. discriminate.
Defined.

(** X28 (Registry::Update): in every state reached from a new registry
    through the public member functions of the registry, with pools and
    groups of fewer than 2^31 - 1 entries, Update returns, both pending
    sets are empty afterwards, and a second Update returns the registry
    unchanged. *)
Theorem Update_returns_and_is_idempotent {T} (r : Registry T) :
  reachable r →
  ∃ r1,
    Update r = Done r1 ∧ reachable r1 ∧
    m_entitiesToBeAdded r1 = [] ∧ m_entitiesToBeKilled r1 = [] ∧
    Update r1 = Done r1.
Proof.
  intros Hr.
  destruct (Update_sound r (reachable_sound r Hr)) as (r1 & Hu & _ & Ha & Hk & _).
  exists r1. split; [done|]. split; [by eapply reach_Update|].
  split; [done|]. split; [done|]. by apply Update_nothing_pending.
Qed.

Lemma Update_returns_and_is_idempotent_witness :
  ∃ (e : Entity) (r0 r1 r2 r3 : Registry Z),
    CreateEntity (Registry_new Z) = Done (e, r0) ∧
    AddComponent r0 e 0 7 = Done r1 ∧ AddComponent r1 e 0 8 = Done r2 ∧
    Update (KillEntity (RemoveEntityTag r2 e) e) = Done r3 ∧
    m_entitiesToBeAdded r3 = [] ∧ m_entitiesToBeKilled r3 = [] ∧
    Update r3 = Done r3.
Proof.
  assert (∃ e (r0 r1 r2 : Registry Z),
            CreateEntity (Registry_new Z) = Done (e, r0) ∧
            AddComponent r0 e 0 7 = Done r1 ∧ AddComponent r1 e 0 8 = Done r2 ∧
            GetPool r0 0 = None ∧
            (∃ p, GetPool r1 0 = Some p ∧ length (GetData p) = 1%nat) ∧
            0 ≤ GetId e < 2 ^ 64)
    as (e & r0 & r1 & r2 & H0 & H1 & H2 & Hp0 & (p1 & Hp1 & Hl1) & Hid).
  { eexists _, _, _, _. split; [vm_compute; reflexivity|].
    split; [vm_compute; reflexivity|]. split; [vm_compute; reflexivity|].
    split; [vm_compute; reflexivity|].
    split; [eexists; split; vm_compute; reflexivity|].
    vm_compute; split; congruence. }
  assert (reachable (KillEntity (RemoveEntityTag r2 e) e)) as Hreach.
  { apply reach_KillEntity; [|exact Hid]. apply reach_RemoveEntityTag.
    eapply reach_AddComponent; [| |exact H2].
    - eapply reach_AddComponent; [| |exact H1].
      + eapply reach_CreateEntity; [apply reach_new|exact H0].
      + intros p Hp. congruence.
    - intros p Hp. rewrite Hp1 in Hp. injection Hp as <-. rewrite Hl1. done. }
  destruct (Update_returns_and_is_idempotent _ Hreach)
    as (r3 & Hu & _ & Ha & Hk & Hu2).
  exists e, r0, r1, r2, r3. split_and!; done.
Defined.

Section Creation.
Context {T : Type}.
Implicit Types r : Registry T.

Lemma CreateEntity_total r :
  registry_wf r → (m_freeIndices r = [] → m_numEntities r < INT_MAX) →
  ∃ e r1, CreateEntity r = Done (e, r1).
Proof.
  intros Hwf Hmax. destruct (m_freeIndices r) as [|front rest] eqn:Hfr.
  - specialize (Hmax eq_refl).
    pose proof (wf_num r (wf_tables r Hwf)) as Hnum. unfold INT_MAX in *.
    unfold CreateEntity. rewrite Hfr.
    rewrite decide_False by (unfold INT_MAX; lia). cbv zeta.
    assert (to_u32 (m_numEntities r) = m_numEntities r) as ->
      by (unfold to_u32; apply Z.mod_small; lia).
    assert (to_u32 (m_numEntities r + 1) = m_numEntities r + 1) as ->
      by (unfold to_u32; apply Z.mod_small; lia).
    simpl m_entityVersions.
    assert (∀ vs : list Z, m_numEntities r < Z.of_nat (length vs) →
              ∃ v, vec_at vs (m_numEntities r) = Done v) as Hat.
    { intros vs Hlt.
      destruct (lookup_lt_is_Some_2 vs (Z.to_nat (m_numEntities r))) as [v Hv]; [lia|].
      exists v. apply vec_at_lookup; [lia|done]. }
    destruct (decide (Z.of_nat (length (m_entityVersions r)) ≤ _)).
    + destruct (Hat (vec_resize (Z.to_nat (m_numEntities r + 1)) 0 (m_entityVersions r)))
        as [v Hv]; [rewrite length_vec_resize; lia|].
      destruct (decide _); rewrite bind_Done_l; simpl m_entityVersions;
        rewrite Hv, bind_Done_l; by eexists _, _.
    + destruct (Hat (m_entityVersions r)) as [v Hv]; [lia|].
      rewrite bind_Done_l. simpl m_entityVersions. rewrite Hv, bind_Done_l.
      by eexists _, _.
  - destruct (CreateEntity_recycles r front rest Hwf Hfr) as (e & r1 & v & Hc & _).
    by exists e, r1.
Qed.

Lemma CreateEntity_keeps_versions r e r1 :
  registry_wf r → CreateEntity r = Done (e, r1) →
  ∀ i v, m_entityVersions r !! i = Some v → m_entityVersions r1 !! i = Some v.
Proof.
  intros Hwf Hc i v Hv.
  pose proof (wf_num r (wf_tables r Hwf)) as Hnum. unfold INT_MAX in *.
  unfold CreateEntity in Hc. apply bind_Done in Hc as ([index r0] & Halloc & Hrest).
  apply bind_Done in Hrest as (version & _ & Hrest). injection Hrest as _ <-.
  simpl. destruct (m_freeIndices r) as [|front rest].
  - destruct (decide (m_numEntities r = INT_MAX)); [done|]. cbv zeta in Halloc.
    simpl m_entityVersions in Halloc.
    assert (to_u32 (m_numEntities r) = m_numEntities r) as Hu
      by (unfold to_u32; apply Z.mod_small; unfold INT_MAX in *; lia).
    assert (to_u32 (m_numEntities r + 1) = m_numEntities r + 1) as Hu1
      by (unfold to_u32; apply Z.mod_small; unfold INT_MAX in *; lia).
    rewrite Hu, Hu1 in Halloc.
    destruct (decide (Z.of_nat (length (m_entityVersions r)) ≤ _)).
    + destruct (decide _); injection Halloc as _ <-; simpl;
        apply lookup_vec_resize; (done || lia).
    + by injection Halloc as _ <-.
  - by injection Halloc as _ <-.
Qed.
End Creation.

(** X29 (Registry::CreateEntity): in a well-formed registry with a slot on
    the free-list, or with fewer than INT_MAX slots handed out,
    CreateEntity returns a handle that is valid, carries the registry
    pointer and has an entry in the pending-add set; the pending-destroy
    set is unchanged and every handle that was valid stays valid. *)
Theorem CreateEntity_returns_valid_handle {T} (r : Registry T) :
  registry_wf r → (m_freeIndices r = [] → m_numEntities r < INT_MAX) →
  ∃ e r1,
    CreateEntity r = Done (e, r1) ∧
    IsValid r1 e = true ∧ registry e = this ∧
    (∃ x, x ∈ m_entitiesToBeAdded r1 ∧ GetId x = GetId e) ∧
    m_entitiesToBeKilled r1 = m_entitiesToBeKilled r ∧
    ∀ e', IsValid r e' = true → IsValid r1 e' = true.
Proof.
  intros Hwf Hmax.
  destruct (CreateEntity_total r Hwf Hmax) as (e & r1 & Hc).
  destruct (CreateEntity_spec r e r1 Hwf Hc) as (_ & Hval & _ & Hreg & Hk & _).
  exists e, r1. split; [done|]. split; [done|]. split; [done|]. split_and!.
  - unfold CreateEntity in Hc. apply bind_Done in Hc as ([index r0] & _ & Hrest).
    apply bind_Done in Hrest as (version & _ & Hrest). injection Hrest as <- <-.
    simpl. apply set_insert_elem.
  - done.
  - intros e' [Hlt Hv]%IsValid_true. apply IsValid_true.
    pose proof (CreateEntity_keeps_versions r e r1 Hwf Hc _ _ Hv) as Hv1.
    split; [|done]. apply lookup_lt_Some in Hv1.
    pose proof (GetEntityIndex_range (GetId e')). lia.
Qed.

Lemma CreateEntity_returns_valid_handle_witness :
  ∃ (e : Entity) (r1 : Registry Z),
    CreateEntity (Registry_new Z) = Done (e, r1) ∧
    IsValid r1 e = true ∧ registry e = this ∧
    (∃ x, x ∈ m_entitiesToBeAdded r1 ∧ GetId x = GetId e) ∧
    m_entitiesToBeKilled r1 = m_entitiesToBeKilled (Registry_new Z) ∧
    ∀ e', IsValid (Registry_new Z) e' = true → IsValid r1 e' = true.
Proof.
  apply (CreateEntity_returns_valid_handle (Registry_new Z)).
  - apply Registry_new_wf.
  - intros _. vm_compute. reflexivity.
Defined.

(** ** Sequences of group calls *)

Lemma group_exact_empty : group_exact (mkGroupData [] ∅).
Proof.
  split; [split|]; simpl.
  - done.
  - intros id i Hi. by rewrite lookup_empty in Hi.
  - intros i e Hi. done.
Qed.

Lemma group_exact_index_inj (g : GroupData) (id id' i : Z) :
  group_exact g →
  entityToIndex g !! id = Some i → entityToIndex g !! id' = Some i → id = id'.
Proof.
  intros [[_ Hb] _] H1 H2.
  destruct (Hb _ _ H1) as (_ & e & He & <-).
  destruct (Hb _ _ H2) as (_ & e' & He' & <-). congruence.
Qed.

Lemma group_exact_NoDup (g : GroupData) :
  group_exact g → NoDup (GetId <$> entities g).
Proof.
  intros [_ Hc]. apply NoDup_alt. intros i j id Hi Hj.
  rewrite list_lookup_fmap in Hi, Hj.
  apply fmap_Some in Hi as (a & Ha & ->). apply fmap_Some in Hj as (b & Hb & Hab).
  apply Hc in Ha, Hb. rewrite Hab in Ha. rewrite Ha in Hb. injection Hb. lia.
Qed.

Lemma group_exact_member (g : GroupData) (id : Z) :
  group_exact g → is_Some (entityToIndex g !! id) ↔ id ∈ GetId <$> entities g.
Proof.
  intros [[_ Hb] Hc]. split.
  - intros [i Hi]. destruct (Hb _ _ Hi) as (_ & e & He & <-).
    apply list_elem_of_fmap. exists e. split; [done|]. by eapply list_elem_of_lookup_2.
  - intros (e & -> & [i Hi]%list_elem_of_lookup)%list_elem_of_fmap.
    rewrite (Hc _ _ Hi). by eexists.
Qed.

Section GroupRemoval.

Lemma remove_from_group_spec (id : Z) (groups : gmap Z GroupData) (groupHash : Z) :
  (∀ h g, groups !! h = Some g → group_exact g) →
  ∃ groups',
    remove_from_group id groups groupHash = Done groups' ∧
    (∀ h g, groups' !! h = Some g → group_exact g) ∧
    (∀ h g', groups' !! h = Some g' →
       ∃ g, groups !! h = Some g ∧ (length (entities g') ≤ length (entities g))%nat) ∧
    (∀ h id', group_member groups' h id' ↔
              group_member groups h id' ∧ ¬ (h = groupHash ∧ id' = id)).
Proof.
  intros Hinv. unfold remove_from_group.
  destruct (groups !! groupHash) as [group|] eqn:Hgroup; last first.
  { exists groups. split; [done|]. split; [done|]. split; [by eauto|].
    intros h id'. split; [|by intros [? _]].
    intros Hm. split; [done|]. intros [-> _]. destruct Hm as (g & Hg & _). congruence. }
  destruct (entityToIndex group !! id) as [indexToRemove|] eqn:Hidx; last first.
  { exists groups. split; [done|]. split; [done|]. split; [by eauto|].
    intros h id'. split; [|by intros [? _]].
    intros Hm. split; [done|]. intros [-> ->]. destruct Hm as (g & Hg & [x Hx]).
    congruence. }
  cbv zeta.
  destruct (Hinv _ _ Hgroup) as [[Hlen Hb] Hc].
  destruct (Hb _ _ Hidx) as (Hk0 & e0 & He0 & Hid0).
  pose proof (lookup_lt_Some _ _ _ He0) as Hklt.
  set (n := length (entities group)) in *.
  rewrite to_int_small by lia.
  (* the last entry of the list, and the group after the removal *)
  destruct (lookup_lt_is_Some_2 (entities group) (pred n) ltac:(lia)) as [elast Hlast].
  pose proof (Hc _ _ Hlast) as Hlastidx.
  set (ents1 := if decide (indexToRemove ≠ Z.of_nat n - 1)
                then <[Z.to_nat indexToRemove := elast]> (entities group)
                else entities group).
  set (map1 := if decide (indexToRemove ≠ Z.of_nat n - 1)
               then <[GetId elast := indexToRemove]> (entityToIndex group)
               else entityToIndex group).
  set (g2 := mkGroupData (take (pred n) ents1) (delete id map1)).
  assert (length ents1 = n) as Hlen1.
  { subst ents1. destruct (decide _); [by rewrite length_insert|done]. }
  assert ((group1 ←
             (if decide (indexToRemove ≠ Z.of_nat n - 1)
              then
                lastEntity ← vec_at (entities group) (Z.of_nat n - 1);
                entities1 ← vec_store (entities group) indexToRemove lastEntity;
                Done (mkGroupData entities1
                        (<[GetId lastEntity := indexToRemove]> (entityToIndex group)))
              else Done group);
           entities2 ← pop_back (entities group1);
           Done (<[groupHash := mkGroupData entities2 (delete id (entityToIndex group1))]>
                   groups))
          = Done (<[groupHash := g2]> groups)) as ->.
  { subst g2 ents1 map1. destruct (decide _) as [Hne|Heq].
    - rewrite (vec_at_lookup (entities group) (Z.of_nat n - 1) elast)
        by (try lia; by replace (Z.to_nat (Z.of_nat n - 1)) with (pred n) by lia).
      rewrite bind_Done_l. rewrite vec_store_lt by lia. rewrite !bind_Done_l.
      simpl entities. simpl entityToIndex.
      assert (pop_back (<[Z.to_nat indexToRemove := elast]> (entities group))
              = Done (take (pred n) (<[Z.to_nat indexToRemove := elast]> (entities group))))
        as ->; [|done].
      apply pop_back_Done. split; [|by rewrite length_insert].
      intros Hnil. apply (f_equal length) in Hnil. rewrite length_insert in Hnil.
      assert (n = 0%nat) by (subst n; by rewrite Hnil). lia.
    - rewrite bind_Done_l.
      assert (pop_back (entities group) = Done (take (pred n) (entities group))) as ->;
        [|done].
      apply pop_back_Done. split; [|done]. intros Hnil.
      assert (n = 0%nat) by (subst n; by rewrite Hnil). lia. }
  (* the entries that stay keep their index, and the swapped one takes
     the index of the removed one *)
  assert (GetId elast ≠ id ∨ indexToRemove = Z.of_nat n - 1) as Hlastid.
  { destruct (decide (indexToRemove = Z.of_nat n - 1)); [by right|]. left.
    intros Heq. rewrite Heq, Hidx in Hlastidx. injection Hlastidx. lia. }
  assert (∀ id' i, delete id map1 !! id' = Some i ↔
            id' ≠ id ∧
            ((id' = GetId elast ∧ i = indexToRemove ∧ indexToRemove ≠ Z.of_nat n - 1) ∨
             (id' ≠ GetId elast ∧ entityToIndex group !! id' = Some i))) as Hmap.
  { intros id' i. destruct (decide (id' = id)) as [->|Hne].
    { rewrite lookup_delete_eq. split; [done|by intros [? _]]. }
    rewrite lookup_delete_ne by done. subst map1.
    destruct (decide (indexToRemove ≠ Z.of_nat n - 1)) as [Hk|Hk].
    - destruct (decide (id' = GetId elast)) as [->|Hnl].
      + rewrite lookup_insert_eq. split.
        * intros [= <-]. split; [done|]. by left.
        * intros [_ [(_ & -> & _)|[? _]]]; done.
      + rewrite lookup_insert_ne by done. split.
        * intros Hi. split; [done|]. by right.
        * intros [_ [(? & _)|[_ ?]]]; done.
    - assert (indexToRemove = Z.of_nat n - 1) as Hk' by lia.
      split.
      + intros Hi. split; [done|]. right. split; [|done].
        intros ->. rewrite Hi in Hlastidx. injection Hlastidx as ->.
        apply Hne. eapply group_exact_index_inj; [exact (Hinv _ _ Hgroup)|exact Hi|].
        rewrite Hidx. f_equal. lia.
      + intros [_ [(_ & _ & ?)|[_ ?]]]; done. }
  assert (∀ (i : nat) e, take (pred n) ents1 !! i = Some e ↔
            (i < pred n)%nat ∧
            ((i = Z.to_nat indexToRemove ∧ e = elast ∧ indexToRemove ≠ Z.of_nat n - 1) ∨
             (i ≠ Z.to_nat indexToRemove ∧ entities group !! i = Some e))) as Hents.
  { intros i e. destruct (decide (i < pred n)%nat) as [Hi|Hi]; last first.
    { rewrite lookup_take_ge by lia. split; [done|]. intros [? _]. lia. }
    rewrite lookup_take_lt by done. subst ents1.
    destruct (decide (indexToRemove ≠ Z.of_nat n - 1)) as [Hk|Hk].
    - destruct (decide (i = Z.to_nat indexToRemove)) as [->|Hik].
      + rewrite list_lookup_insert_eq by lia. split.
        * intros [= <-]. split; [done|]. by left.
        * intros [_ [(_ & -> & _)|[? _]]]; done.
      + rewrite list_lookup_insert_ne by done. split.
        * intros He. split; [done|]. by right.
        * intros [_ [(? & _)|[_ ?]]]; done.
    - split.
      + intros He. split; [done|]. right. split; [lia|done].
      + intros [_ [(_ & _ & ?)|[_ ?]]]; done. }
  assert (group_exact g2) as Hexact2.
  { split; [split|]; simpl.
    - rewrite length_take. lia.
    - intros id' i [Hne [(-> & -> & Hk)|[Hnl Hi]]]%Hmap.
      + split; [done|]. exists elast. split; [|done]. apply Hents.
        split; [lia|]. left. by split_and!.
      + destruct (Hb _ _ Hi) as (Hi0 & e & He & Hid). split; [done|].
        exists e. split; [|done]. apply Hents.
        assert (Z.to_nat i ≠ Z.to_nat indexToRemove).
        { intros Heq. apply Hne. rewrite <- Hid, <- Hid0. congruence. }
        assert (Z.to_nat i ≠ pred n).
        { intros Heq. apply Hnl. rewrite <- Hid. congruence. }
        pose proof (lookup_lt_Some _ _ _ He). split; [lia|]. by right.
    - intros i e [Hi [(-> & -> & Hk)|[Hik He]]]%Hents.
      + apply Hmap. destruct Hlastid as [?|?]; [|done]. split; [done|].
        left. split_and!; [done| |done]. lia.
      + pose proof (Hc _ _ He) as Hei. apply Hmap.
        assert (GetId e ≠ id).
        { intros Heq. rewrite Heq, Hidx in Hei. injection Hei. lia. }
        assert (GetId e ≠ GetId elast).
        { intros Heq. rewrite Heq, Hlastidx in Hei. injection Hei. lia. }
        split; [done|]. by right. }
  exists (<[groupHash := g2]> groups). split; [done|]. split_and!.
  - intros h g. destruct (decide (h = groupHash)) as [->|Hne].
    + rewrite lookup_insert_eq. by intros [= <-].
    + rewrite lookup_insert_ne by done. apply Hinv.
  - intros h g'. destruct (decide (h = groupHash)) as [->|Hne].
    + rewrite lookup_insert_eq. intros [= <-]. exists group. split; [done|].
      simpl. rewrite length_take. fold n. lia.
    + rewrite lookup_insert_ne by done. intros Hg. exists g'. by split.
  - intros h id'. unfold group_member.
    destruct (decide (h = groupHash)) as [->|Hne].
    + rewrite lookup_insert_eq. split.
      * intros (g & [= <-] & [i Hi]). simpl in Hi.
        apply Hmap in Hi as [Hne' [(-> & _ & _)|[_ Hi]]].
        -- split; [|by intros [_ ?]]. exists group. split; [done|]. by eexists.
        -- split; [|by intros [_ ?]]. exists group. split; [done|]. by eexists.
      * intros [(g & Hg & [i Hi]) Hnot]. rewrite Hgroup in Hg. injection Hg as <-.
        exists g2. split; [done|]. simpl.
        assert (id' ≠ id) as Hne' by (intros ->; by apply Hnot).
        destruct (decide (id' = GetId elast)) as [->|Hnl].
        -- destruct (decide (indexToRemove = Z.of_nat n - 1)) as [Hk|Hk].
           ++ exfalso. apply Hne'.
              eapply group_exact_index_inj; [exact (Hinv _ _ Hgroup)|exact Hlastidx|].
              rewrite Hidx. f_equal. lia.
           ++ exists indexToRemove. apply Hmap. split; [done|]. left. by split_and!.
        -- exists i. apply Hmap. split; [done|]. by right.
    + rewrite lookup_insert_ne by done. split; [|by intros [? _]].
      intros Hm. split; [done|]. by intros [? _].
Qed.

Lemma remove_from_groups_spec (id : Z) (hashes : list Z) (groups : gmap Z GroupData) :
  (∀ h g, groups !! h = Some g → group_exact g) →
  ∃ groups',
    for_each (remove_from_group id) groups hashes = Done groups' ∧
    (∀ h g, groups' !! h = Some g → group_exact g) ∧
    (∀ h g', groups' !! h = Some g' →
       ∃ g, groups !! h = Some g ∧ (length (entities g') ≤ length (entities g))%nat) ∧
    (∀ h id', group_member groups' h id' ↔
              group_member groups h id' ∧ ¬ (h ∈ hashes ∧ id' = id)).
Proof.
  revert groups. induction hashes as [|h0 hashes IH]; intros groups Hinv.
  - exists groups. split; [done|]. split; [done|]. split; [by eauto|].
    intros h id'. split; [|by intros [? _]]. intros Hm. split; [done|].
    intros [Hin _]. by apply elem_of_nil in Hin.
  - destruct (remove_from_group_spec id groups h0 Hinv) as (groups1 & Heq & Hinv1 & Hlen1 & Hm1).
    destruct (IH groups1 Hinv1) as (groups' & Heq' & Hinv' & Hlen' & Hm').
    exists groups'. simpl. rewrite Heq, bind_Done_l. split; [done|]. split; [done|].
    split.
    + intros h g' Hg'. destruct (Hlen' h g' Hg') as (g1 & Hg1 & Hle1).
      destruct (Hlen1 h g1 Hg1) as (g & Hg & Hle). exists g. split; [done|]. lia.
    + intros h id'. rewrite Hm', Hm1. rewrite elem_of_cons. split.
      * intros [[Hm Hn1] Hn2]. split; [done|]. intros [[->|Hin] ->]; [by apply Hn1|by apply Hn2].
      * intros [Hm Hn]. split; [split; [done|]|].
        -- intros [-> ->]. apply Hn. split; [by left|done].
        -- intros [Hin ->]. apply Hn. split; [by right|done].
Qed.
End GroupRemoval.

Lemma for_each_app {A S} (body : S → A → outcome S) (s : S) (l1 l2 : list A) :
  for_each body s (l1 ++ l2) = for_each body s l1 ≫= fun s1 => for_each body s1 l2.
Proof.
  revert s. induction l1 as [|a l1 IH]; intros s; [done|].
  simpl. destruct (body s a) as [s1|f]; [|done]. rewrite !bind_Done_l. apply IH.
Qed.

Lemma grouped_snoc (done : list GroupOp) (op : GroupOp) (id hash : Z) :
  grouped (done ++ [op]) id hash = grouped_step id hash (grouped done id hash) op.
Proof. unfold grouped. by rewrite foldl_app. Qed.

Lemma grouped_handle (done : list GroupOp) (id hash : Z) :
  grouped done id hash = true → ∃ op, op ∈ done ∧ GetId (op_handle op) = id.
Proof.
  unfold grouped.
  assert (∀ b, foldl (grouped_step id hash) b done = true →
            b = true ∨ ∃ op, op ∈ done ∧ GetId (op_handle op) = id) as H.
  { induction done as [|op done IH]; intros b Hb; [by left|].
    simpl in Hb. destruct (IH _ Hb) as [Hstep|(op' & Hin & Hid)].
    - destruct op as [e name|e]; simpl in Hstep.
      + apply orb_true_iff in Hstep as [->|[Hid _]%andb_true_iff]; [by left|].
        right. exists (OpGroup e name). split; [by left|]. by apply bool_decide_eq_true in Hid.
      + apply andb_true_iff in Hstep as [-> _]. by left.
    - right. exists op'. split; [by right|done]. }
  intros Hb. by destruct (H false Hb).
Qed.

Section GroupSteps.
Context {T : Type}.
Implicit Types r : Registry T.

Lemma EntityBelongsToGroup_member r e (groupName : string) :
  EntityBelongsToGroup r e groupName = true ↔
  group_member (m_groups r) (HashString groupName) (GetId e).
Proof.
  unfold EntityBelongsToGroup, group_member.
  destruct (m_groups r !! HashString groupName) as [g|]; last first.
  { split; [done|]. by intros (g & ? & _). }
  destruct (entityToIndex g !! GetId e) as [i|] eqn:Hi.
  - split; [|done]. intros _. exists g. split; [done|]. by rewrite Hi.
  - split; [done|]. intros (g' & [= <-] & [x Hx]). congruence.
Qed.

Lemma group_exact_push (g : GroupData) (e : Entity) :
  group_exact g → entityToIndex g !! GetId e = None →
  Z.of_nat (length (entities g)) + 1 < 2 ^ 31 →
  group_exact
    (mkGroupData (entities g ++ [e])
       (<[GetId e := to_int (Z.of_nat (length (entities g ++ [e]))) - 1]> (entityToIndex g))).
Proof.
  intros [[Hlen Hb] Hc] Hnew Hsmall.
  rewrite length_app. simpl length. rewrite to_int_small by lia.
  replace (Z.of_nat (length (entities g) + 1) - 1) with (Z.of_nat (length (entities g)))
    by lia.
  split; [split|]; simpl.
  - rewrite length_app. simpl. lia.
  - intros id i Hi. destruct (decide (id = GetId e)) as [->|Hne].
    + rewrite lookup_insert_eq in Hi. injection Hi as <-. split; [lia|].
      exists e. split; [|done]. rewrite Nat2Z.id. by apply list_lookup_middle.
    + rewrite lookup_insert_ne in Hi by done.
      destruct (Hb _ _ Hi) as (Hi0 & e' & He' & Hid). split; [done|].
      exists e'. split; [|done]. by apply lookup_app_l_Some.
  - intros i e' Hi. apply lookup_app_Some in Hi as [Hi|[Hge Hi]].
    + pose proof (Hc _ _ Hi) as Hei.
      rewrite lookup_insert_ne; [done|]. intros Heq. congruence.
    + apply list_lookup_singleton_Some in Hi as [Hi <-].
      rewrite lookup_insert_eq. f_equal. lia.
Qed.

Lemma Registry_new_groups_ok : groups_ok [] (Registry_new T).
Proof.
  split; simpl.
  - intros h g Hg. by rewrite lookup_empty in Hg.
  - intros h id (g & Hg & _). by rewrite lookup_empty in Hg.
  - intros h id. split; [|done]. intros (g & Hg & _). by rewrite lookup_empty in Hg.
Qed.

Lemma GroupEntity_step (done : list GroupOp) r e (groupName : string) :
  groups_ok done r →
  GetEntityIndex (GetId e) < 2 ^ 32 - 1 →
  Z.of_nat (length done) + 1 < 2 ^ 31 →
  ∃ r', GroupEntity r e groupName = Done r' ∧
        groups_ok (done ++ [OpGroup e groupName]) r'.
Proof.
  intros [Hexact Hlisted Hmember] Hidx Hsmall.
  destruct (EntityBelongsToGroup r e groupName) eqn:Hmem.
  - (* already a member: nothing changes *)
    exists r. split; [by apply GroupEntity_member|]. split.
    + intros h g Hg. destruct (Hexact h g Hg) as [? Hle]. split; [done|].
      rewrite length_app. simpl. lia.
    + done.
    + intros h id. rewrite grouped_snoc. simpl. rewrite Hmember.
      apply EntityBelongsToGroup_member, Hmember in Hmem.
      destruct (grouped done id h) eqn:Hg; [done|]. simpl. split; [done|].
      intros [<-%bool_decide_eq_true <-%bool_decide_eq_true]%andb_true_iff. congruence.
  - destruct (GroupEntity_new_member_listed r e groupName Hmem Hidx)
      as (egs & Heq & (l & Hl & Hl0) & Hkeep).
    cbv zeta in Heq. eexists. split; [exact Heq|].
    set (group := default (mkGroupData [] ∅) (m_groups r !! HashString groupName)) in *.
    assert (group_exact group ∧ (length (entities group) ≤ length done)%nat ∧
            entityToIndex group !! GetId e = None ∧
            (∀ id, is_Some (entityToIndex group !! id) ↔
                   group_member (m_groups r) (HashString groupName) id))
      as (Hgex & Hglen & Hgnew & Hgmem).
    { subst group. unfold group_member.
      assert (¬ group_member (m_groups r) (HashString groupName) (GetId e)) as Hnot.
      { intros Hm%EntityBelongsToGroup_member. congruence. }
      destruct (m_groups r !! HashString groupName) as [g|] eqn:Hg; simpl.
      - destruct (Hexact _ _ Hg) as [? ?]. split_and!; [done..| |].
        + destruct (entityToIndex g !! GetId e) eqn:He; [|done].
          exfalso. apply Hnot. exists g. split; [done|]. by rewrite He.
        + intros id. split; [by exists g|]. by intros (g' & [= <-] & ?).
      - split_and!; [apply group_exact_empty|simpl; lia|apply lookup_empty|].
        intros id. rewrite lookup_empty. split; [by intros [? ?]|by intros (? & ? & _)]. }
    assert (∀ h id,
      group_member
        (<[HashString groupName :=
             mkGroupData (entities group ++ [e])
               (<[GetId e := to_int (Z.of_nat (length (entities group ++ [e]))) - 1]>
                  (entityToIndex group))]> (m_groups r)) h id
      ↔ group_member (m_groups r) h id ∨ (h = HashString groupName ∧ id = GetId e))
      as Hchar.
    { intros h id. unfold group_member at 1.
      destruct (decide (h = HashString groupName)) as [->|Hne].
      - rewrite lookup_insert_eq. split.
        + intros (g & [= <-] & Hs). simpl in Hs.
          destruct (decide (id = GetId e)) as [->|Hid]; [by right|].
          rewrite lookup_insert_ne in Hs by done. left. by apply Hgmem.
        + intros [Hm|[_ ->]]; eexists; (split; [done|]); simpl.
          * destruct (decide (id = GetId e)) as [->|Hid];
              [by rewrite lookup_insert_eq|].
            rewrite lookup_insert_ne by done. by apply Hgmem.
          * by rewrite lookup_insert_eq.
      - rewrite lookup_insert_ne by done. split; [by left|].
        intros [?|[? _]]; done. }
    split; simpl.
    + intros h g. destruct (decide (h = HashString groupName)) as [->|Hne].
      * rewrite lookup_insert_eq. intros [= <-]. split.
        -- apply group_exact_push; [done..|]. lia.
        -- simpl. rewrite !length_app. simpl. lia.
      * rewrite lookup_insert_ne by done. intros Hg.
        destruct (Hexact h g Hg) as [? Hle]. split; [done|].
        rewrite length_app. simpl. lia.
    + intros h id [Hm|[-> ->]]%Hchar.
      * destruct (Hlisted h id Hm) as (l' & Hl' & Hin).
        destruct (decide (Z.to_nat (GetEntityIndex id) = Z.to_nat (GetEntityIndex (GetId e))))
          as [Heq'|Hne'].
        -- rewrite Heq' in Hl' |- *. pose proof (Hl0 _ Hl') as ->.
           exists (l' ++ [HashString groupName]). split; [done|].
           apply elem_of_app. by left.
        -- exists l'. split; [by apply Hkeep|done].
      * exists (l ++ [HashString groupName]). split; [done|].
        apply elem_of_app. right. by apply list_elem_of_singleton.
    + intros h id. rewrite Hchar, grouped_snoc, Hmember. simpl.
      rewrite orb_true_iff, andb_true_iff, !bool_decide_eq_true.
      split; (intros [?|[? ?]]; [by left|right; by split]).
Qed.

Lemma RemoveEntityGroup_step (done : list GroupOp) r e :
  groups_ok done r →
  (∀ op, op ∈ done →
     GetEntityIndex (GetId (op_handle op)) = GetEntityIndex (GetId e) →
     GetId (op_handle op) = GetId e) →
  ∃ r', RemoveEntityGroup r e = Done r' ∧ groups_ok (done ++ [OpUngroup e]) r'.
Proof.
  intros [Hexact Hlisted Hmember] Hone.
  pose proof (GetEntityIndex_range (GetId e)) as Hr.
  unfold RemoveEntityGroup. cbv zeta.
  destruct (decide _) as [Hge|Hlt].
  - exists r. split; [done|]. split.
    + intros h g Hg. destruct (Hexact h g Hg) as [? Hle]. split; [done|].
      rewrite length_app. simpl. lia.
    + done.
    + intros h id. rewrite grouped_snoc. simpl. rewrite Hmember.
      destruct (bool_decide_reflect (GetId e = id)) as [<-|Hne];
        [|by rewrite andb_true_r].
      rewrite andb_false_r. split; [|done]. intros Hg%Hmember.
      destruct (Hlisted _ _ Hg) as (l & Hl & _).
      apply lookup_lt_Some in Hl. lia.
  - destruct (lookup_lt_is_Some_2 (m_entityGroups r) (Z.to_nat (GetEntityIndex (GetId e)))
                ltac:(lia)) as [hashes Hh].
    rewrite (vec_at_lookup _ _ hashes) by (done || lia). rewrite bind_Done_l.
    destruct (remove_from_groups_spec (GetId e) hashes (m_groups r))
      as (gs & -> & Hgs & Hlen & Hm).
    { intros h g Hg. by destruct (Hexact h g Hg). }
    rewrite bind_Done_l. eexists. split; [done|].
    assert (∀ h id, group_member gs h id ↔ group_member (m_groups r) h id ∧ id ≠ GetId e)
      as Hm'.
    { intros h id. rewrite Hm. split.
      - intros [Hg Hnot]. split; [done|]. intros ->. apply Hnot. split; [|done].
        destruct (Hlisted _ _ Hg) as (l & Hl & Hin). congruence.
      - intros [Hg Hne]. split; [done|]. by intros [_ ?]. }
    split; simpl.
    + intros h g' Hg'. destruct (Hlen h g' Hg') as (g & Hg & Hle).
      destruct (Hexact h g Hg) as [_ Hle']. split; [by apply (Hgs h)|].
      rewrite length_app. simpl. lia.
    + intros h id [Hg Hne]%Hm'.
      destruct (Hlisted _ _ Hg) as (l & Hl & Hin). exists l. split; [|done].
      rewrite list_lookup_insert_ne; [done|]. intros Heq.
      apply Hmember, grouped_handle in Hg as (op & Hop & Hid).
      apply Hne. rewrite <- Hid. apply (Hone op Hop). rewrite Hid.
      pose proof (GetEntityIndex_range id). lia.
    + intros h id. rewrite Hm', grouped_snoc, Hmember. simpl.
      rewrite andb_true_iff, negb_true_iff, bool_decide_eq_false.
      split; (intros [? ?]; split; [done|]); congruence.
Qed.

Lemma run_group_ops_ok (ops : list GroupOp) :
  (∀ op, op ∈ ops → GetEntityIndex (GetId (op_handle op)) < 2 ^ 32 - 1) →
  Z.of_nat (length ops) ≤ INT_MAX →
  one_handle_per_slot ops →
  ∃ r, run_group_ops (Registry_new T) ops = Done r ∧ groups_ok ops r.
Proof.
  unfold INT_MAX. induction ops as [|op ops IH] using rev_ind; intros Hslots Hlen Hone.
  - exists (Registry_new T). split; [done|]. apply Registry_new_groups_ok.
  - rewrite length_app in Hlen. simpl in Hlen.
    destruct IH as (r & Hrun & Hok).
    + intros op' Hin. apply Hslots. apply elem_of_app. by left.
    + lia.
    + intros op1 op2 H1 H2. apply Hone; apply elem_of_app; by left.
    + unfold run_group_ops in *. rewrite for_each_app, Hrun, bind_Done_l. simpl.
      assert (∀ r', apply_group_op r op = Done r' →
                apply_group_op r op ≫= (fun s1 => Done s1) = Done r') as Hret
        by (intros r' ->; done).
      destruct op as [e name|e]; simpl apply_group_op in *.
      * destruct (GroupEntity_step ops r e name Hok) as (r' & Heq & Hok').
        -- apply (Hslots (OpGroup e name)). apply elem_of_app. right.
           by apply list_elem_of_singleton.
        -- lia.
        -- exists r'. split; [by apply Hret|done].
      * destruct (RemoveEntityGroup_step ops r e Hok) as (r' & Heq & Hok').
        -- intros op Hop Hslot. apply (Hone op (OpUngroup e)); [..|done].
           ++ apply elem_of_app. by left.
           ++ apply elem_of_app. right. by apply list_elem_of_singleton.
        -- exists r'. split; [by apply Hret|done].
Qed.
End GroupSteps.

(** X30 (Registry::GroupEntity, RemoveEntityGroup, EntityBelongsToGroup,
    GetEntitiesByGroup): start from a new registry and make any sequence of
    at most INT_MAX GroupEntity and RemoveEntityGroup calls on handles with slot index
    below 2^32 - 1, at most one handle per slot.  Every call returns;
    afterwards an entity belongs to a group exactly when a GroupEntity call
    put it there and no RemoveEntityGroup call on it has followed, and
    GetEntitiesByGroup lists exactly the members of the group, each
    once. *)
Theorem group_calls_define_membership {T} (ops : list GroupOp) :
  (∀ op, op ∈ ops → GetEntityIndex (GetId (op_handle op)) < 2 ^ 32 - 1) →
  Z.of_nat (length ops) ≤ INT_MAX →
  one_handle_per_slot ops →
  ∃ r : Registry T,
    run_group_ops (Registry_new T) ops = Done r ∧
    (∀ e groupName,
       EntityBelongsToGroup r e groupName = grouped ops (GetId e) (HashString groupName)) ∧
    (∀ groupName,
       NoDup (GetId <$> (GetEntitiesByGroup r groupName).1) ∧
       ∀ e, EntityBelongsToGroup r e groupName = true ↔
            GetId e ∈ GetId <$> (GetEntitiesByGroup r groupName).1).
Proof.
  intros Hslots Hlen Hone.
  destruct (run_group_ops_ok (T:=T) ops Hslots Hlen Hone) as (r & Hrun & [Hexact Hlisted Hmember]).
  exists r. split; [done|]. split.
  - intros e name.
    destruct (EntityBelongsToGroup r e name) eqn:Hb.
    + apply EntityBelongsToGroup_member, Hmember in Hb. done.
    + destruct (grouped ops (GetId e) (HashString name)) eqn:Hg; [|done].
      apply Hmember, EntityBelongsToGroup_member in Hg. congruence.
  - intros name. unfold GetEntitiesByGroup. simpl.
    destruct (m_groups r !! HashString name) as [g|] eqn:Hg; simpl.
    + destruct (Hexact _ _ Hg) as [Hex _]. split; [by apply group_exact_NoDup|].
      intros e. rewrite EntityBelongsToGroup_member. unfold group_member. rewrite Hg.
      rewrite <- (group_exact_member g (GetId e) Hex). split.
      * by intros (g' & [= <-] & ?).
      * intros ?. by exists g.
    + split; [constructor|]. intros e. rewrite EntityBelongsToGroup_member.
      unfold group_member. rewrite Hg. split.
      * by intros (g' & ? & _).
      * intros Hin. by apply elem_of_nil in Hin.
Qed.

Lemma group_calls_define_membership_witness :
  ∃ r : Registry Z,
    run_group_ops (Registry_new Z)
      [OpGroup (mkEntity 0 this) "a"; OpGroup (mkEntity 1 this) "a";
       OpGroup (mkEntity 0 this) "b"; OpUngroup (mkEntity 0 this)] = Done r ∧
    EntityBelongsToGroup r (mkEntity 0 this) "a" = false ∧
    EntityBelongsToGroup r (mkEntity 0 this) "b" = false ∧
    EntityBelongsToGroup r (mkEntity 1 this) "a" = true.
Proof.
  destruct (group_calls_define_membership (T:=Z)
              [OpGroup (mkEntity 0 this) "a"; OpGroup (mkEntity 1 this) "a";
               OpGroup (mkEntity 0 this) "b"; OpUngroup (mkEntity 0 this)])
    as (r & Hrun & Hmem & _).
  - intros op Hop.
    repeat (apply elem_of_cons in Hop as [->|Hop]);
      try (by apply elem_of_nil in Hop); vm_compute; reflexivity.
  - vm_compute. discriminate.
  - intros op1 op2 H1 H2 Hs.
    repeat (apply elem_of_cons in H1 as [->|H1]); try (by apply elem_of_nil in H1);
      repeat (apply elem_of_cons in H2 as [->|H2]); try (by apply elem_of_nil in H2);
      try reflexivity; vm_compute in Hs; discriminate.
  - exists r. split; [exact Hrun|]. rewrite !Hmem.
    split; [vm_compute; reflexivity|]. split; vm_compute; reflexivity.
Defined.

(* with two handles of one slot the reverse table of the slot is shared:
   RemoveEntityGroup on one handle clears it, and the other handle can no
   longer be removed from its group *)
Lemma stale_handle_stays_grouped :
  ∃ r1 r2 r3 r4 : Registry Z,
    GroupEntity (Registry_new Z) (mkEntity (2 ^ 32) this) "a" = Done r1 ∧
    GroupEntity r1 (mkEntity 0 this) "b" = Done r2 ∧
    RemoveEntityGroup r2 (mkEntity 0 this) = Done r3 ∧
    RemoveEntityGroup r3 (mkEntity (2 ^ 32) this) = Done r4 ∧
    EntityBelongsToGroup r4 (mkEntity (2 ^ 32) this) "a" = true.
Proof.
  eexists _, _, _, _.
  split; [vm_compute; reflexivity|]. split; [vm_compute; reflexivity|].
  split; [vm_compute; reflexivity|]. split; vm_compute; reflexivity.
Qed.
